(* ===== verification/_CoqProject ===== *)
-Q . S2P
Prelude.v
Bytes.v
Config.v
Routing.v
Kademlia.v
Crypto.v
Utf8.v
Identity.v
Codec.v
Model.v
ClientState.v
Redb.v
SeqLog.v
Store.v
Retention.v
Resource.v
DhtNode.v
Protocol.v
Handler.v
AppState.v
ChannelEvents.v
CommunityEvents.v
ManifestEvents.v
Locks.v
ClientEvents.v
AppStart.v
Durability.v
DurableEvents.v
Rpc.v
Passphrase.v
RpcMessage.v
RpcMember.v
RpcChannel.v
RpcCommunity.v
CommunityLife.v
RpcNode.v
RpcServer.v
Observe.v
Concurrency.v
Sends.v
NodeClient.v
Wire.v
SeedSync.v
NetworkTask.v
Delivery.v
Discovery.v
NodeInit.v
Desktop.v
ClientExample.v
RpcExample.v
ConcurrencyExample.v
NetExample.v
InitExample.v
DesktopExample.v
