(* ===== verification/Prelude.v ===== *)
(** * A verification of BitCord

    BitCord is a decentralised chat system in Rust. Every participant runs a node. A node
    keeps a DHT routing state, an encrypted key-value store with the message logs, the
    mailboxes and the metadata of the communities it hosts, and a QUIC server on which
    clients and other nodes authenticate, join communities, send and read messages. This
    library translates that code into Rocq and proves what makes it correct. Paths below
    are relative to [src/crates/]; [core] stands for [bitcord-core/src] and [dht] for
    [bitcord-dht/src].

    ** The parts and how they interact

    - [Prelude] (this file): Rust's [Result], the list methods the code uses ([retain],
      [dedup_by_key], [sort_by], [position], [find], [any]), 64-bit arithmetic, the
      tactics and the generic lemmas.
    - [Bytes]: byte strings, their lexicographic order, big- and little-endian integers,
      XOR and hexadecimal.
    - [Routing] ([dht/addr.rs], [dht/routing.rs]): [DhtState], the Kademlia routing table,
      the record maps with their lifetimes, the announce cooldown.
    - [Kademlia] ([core/dht/kademlia.rs]): the three iterative lookups. The remote nodes
      are arbitrary functions; the walks update a [DhtState].
    - [Crypto] ([core/crypto/]): channel keys and their wrapping for a member, hosting
      certificates, direct-message envelopes, encryption at rest. The primitives are the
      class [Crypto], their documented behaviour is [CryptoLaws], and [Crypto.Toy] is an
      instance that satisfies it.
    - [Utf8], [Identity] ([core/identity/], [core/crypto/encrypted_io.rs]): identities and
      their addresses, the keystore file, the export bundle, the salt file, the keys derived
      from passphrases, the encrypted JSON files. Argon2id and base58 are interfaces.
    - [Codec]: the class [Postcard], the third-party serialiser, with its round-trip law.
    - [Model] ([core/model/], [LogEntry]): identifiers, channels, communities, members,
      messages, wire events; signing and verification.
    - [ClientState] ([core/state/]): the in-memory message log with its reactions, the read
      markers, the presence map.
    - [Redb]: the class [Table], the third-party key-value database, with its laws and a
      reference implementation.
    - [SeqLog], [Store] ([core/node/store.rs]): [NodeStore] over four redb tables. [SeqLog]
      proves once that the rows of a key prefix are an append-only list ([holds_log]), and
      [Store] instantiates it for the channel logs and for the mailboxes.
    - [Retention] ([enforce_cache_retention] of [bitcord-tauri/src/lib.rs]): the janitor that
      keeps the embedded store below a size.
    - [Resource] ([core/resource/], the accept loop of [core/node/server.rs]): how many
      connections are admitted, the peer table with its eviction, the bandwidth bucket.
    - [DhtNode] ([dht/store.rs], [dht/expiry.rs], [core/dht/mod.rs]): the DHT's persistent
      store, the two background tasks and [DhtHandle], which ties [Routing], the store and
      [Kademlia] together. What it sends to other nodes is a list of [DhtSend] values.
    - [Protocol] ([core/network/protocol.rs]): requests, responses, pushes and the framing.
    - [Handler] ([core/node/handler.rs], [core/node/mod.rs]): a connection's session,
      [dispatch] for each of the 17 requests, the push filter, the request loop [run], and
      [node_step], the node as a step relation over its connections.

    The client is the other half: the state behind the user interface, which an event loop
    and a JSON-RPC server change.
    - [Config] ([core/config/mod.rs]): the configuration, its defaults and its file.
    - [AppState] ([core/api/mod.rs], [push_broadcaster.rs], [network_handle/types.rs]): the
      record of tables, the files they are saved to, the commands to the network task and
      the events to the user interface; [World] is the state with the files and with what
      has been sent. [inv] is the client's invariant.
    - [ChannelEvents], [CommunityEvents], [ManifestEvents], [ClientEvents]
      ([core/api/event_processor/]): one handler per network event, and the loop. A
      handler returns a new state, or is [Blocked] on a lock it holds itself, or panics, or is
      [Stalled] because its commands do not find room in the queue to the network task
      ([has_room]; how many the network task takes meanwhile is an input, [cx_taken]).
    - [AppStart] ([AppState::new]): loading the files, merging with the embedded node's
      store, rebuilding the message log. [Durability], [DurableEvents]: which changes reach
      the files.
    - [Rpc] ([core/api/rpc_server/mod.rs], [core/api/types.rs]): a method is a computation
      on the [World] that replies, fails with a code or panics. [RpcMessage], [RpcMember],
      [RpcChannel], [RpcCommunity] and [RpcNode] hold the methods ([message.rs],
      [channel.rs], [community.rs], [dm.rs], [identity.rs], [node.rs]); [CommunityLife]
      proves what creating, changing, leaving and deleting a community do. [RpcServer] is
      the server: [serve] runs a call, [session_step] interleaves calls and events.
    - [Passphrase] ([change_passphrase] of [identity.rs]): re-encrypting the keystore while
      the node runs.
    - [Observe] ([resource/metrics.rs], [subscription.rs], [ws_handler.rs]): the counters that
      [node_get_metrics] reads and the event subscription. Tokio's broadcast channel is the
      class [Broadcast].
    - [Locks] ([core/api/mod.rs], [gossip.rs], and every place where a method or a handler
      waits while it holds a lock): the client's locks, the two queues between it and the
      network task, and the machine of tasks that take them; [LockPolicy] is how Tokio hands
      over a lock.
    - [Concurrency]: [channel_rotate_key] and [channel_delete] one lock at a time, in a pool
      of tasks among events and calls; the handler of a new peer in the machine of [Locks].
      [Sends]: [message_send] one lock at a time, many at once.
    - [ClientExample], [RpcExample], [ConcurrencyExample]: concrete clients, on which the
      theorems are applied.

    Between the two halves is the network.
    - [NodeClient] ([core/network/connection_manager.rs], [client.rs]): a connection's
      states, one request and one response per stream, a method per request. QUIC is the
      class [Quic]; a computation on the network is a [Net].
    - [Wire]: the instance of [Quic] whose network is one node of [Handler], reached by the
      frames of [Protocol].
    - [NetworkTask] ([core/network/network_handle/]): the task that owns the outbound
      connections, its commands, and the tasks it spawns; [net_step] interleaves them.
    - [SeedSync] ([sync_community_to_seed] of [community.rs]): the copying of a community
      to a new seed.
    - [Delivery]: what the composition of task, client, wire and node delivers.
    - [Discovery] ([nat.rs], [mdns.rs], [tls.rs] of [core/network/]): the external address,
      the peers of the local network, the check of a pinned certificate.
    - [NetExample]: concrete networks, on which the theorems are applied.

    And what starts them.
    - [NodeInit] ([core/node/init.rs], [bitcord-node/src/main.rs]): the opening of the
      databases and of the server, the tasks that announce the node, the command line, and
      how the binary obtains its identity and its passphrase.
    - [Desktop] ([bitcord-tauri/src/lib.rs], [commands.rs]): the desktop application: the
      status of its backend, the commands that create, unlock, export and import an
      identity, that read and write messages directly, and the relay of pushes to the window.
    - [InitExample], [DesktopExample]: concrete disks, on which the theorems are applied.

    A stateful Rust type is a record and each method a function from the old state to the
    new state and the result. Clock readings, randomness and fresh identifiers are
    arguments ([Env] in [Handler]); asynchronous work started by a method ([tokio::spawn],
    a broadcast, a command to the network task) is a value in its result, in the order the
    code starts it. Methods that fail return [Result]. A [HashMap] is a [gmap]; where the
    code iterates over one, the order is the one of the class [HashOrder], of which only
    that it is a permutation is assumed. Where it encodes again a map that it has decoded
    (the new channel of a key rotation, whose signature is checked over the receiver's own
    encoding) the bytes depend on the order of that map as well: [reencode_channel] is a function
    of the order and of the channel, of which is assumed that what it gives is read back, and
    that maps with at most one key have one order. Machine integers are [Z] with their range as a
    hypothesis ([is_u64]) or their wrap-around written out ([wrap64], [sat_sub]).

    ** What the theorems show

    - The request handler: which requests a session may make, and the two that reach a
      community it has not joined ([access_control]), who may join ([join_community_correct]), that a message acknowledged by the node is read back
      by every member and pushed to exactly the joined connections
      ([send_message_delivered]), that members receive the channel keys wrapped for them
      ([fetch_manifest_delivers_keys]), who may publish peer information
      ([store_peer_info_correct], [peer_info_announcement_accepted]), and that no
      interleaving of connections breaks the store, the routing table or a session
      ([node_invariant]).
    - The stores: each channel log and each mailbox refines a list to which appends add at
      the end with the next number ([append_message_correct], [append_dm_correct]),
      retention removes the shortest sufficient prefix ([enforce_retention_correct]) and keeps a
      store within its limit ([retention_correct]), and
      community removal, channel listing and peer records do what they say on exactly the
      keys they name.
    - The DHT: bucket structure, XOR order of the nearest peers, expiry, cooldown, bounds
      and completeness of the lookups, and that records survive a restart
      ([persist_restart_roundtrip]).
    - Cryptographic constructions and codecs: wrapping and sealing round-trip,
      certificates and manifests verify exactly what they sign, frames and identifiers
      round-trip.
    - The client state: the dense log, reactions, read markers and presence.
    - The event loop: what each event does on every branch ([new_message_correct],
      [key_rotation_correct], [edit_delete_correct], [history_catch_up_correct],
      [member_joined_correct], [manifest_update_correct] and others), that messages which
      arrive during a key rotation are replayed ([manifest_replay_correct]), that the handler of
      every event but one kind returns as soon as its commands have room, and not before
      ([event_loop_progress]), and that the tables
      survive a restart ([tables_survive_restart], [history_restored]).
    - The methods: for each, the refusals in the order of the code's checks, and what a
      success changes, publishes and replies. Where a method publishes an event, the
      theorem says what the event does at the other members' clients: a message sent is
      read by them ([message_delivered]), an invite is accepted ([invite_accepted]), a kick,
      a role change, a rotation, a departure or a deletion is honoured.
      What a deletion takes away, and what stays, is [forgotten].
    - The composition: no interleaving of events and calls breaks the client's invariant
      ([session_invariant]), nor does the interruption of a rotation or a deletion between two
      locks ([interleaved_invariant]), and messages sent at once are each in the log once and on
      the wire once ([concurrent_sends]); what an interruption does break are two rotations at once
      ([rotations_race]) and a member who joins while the metadata is written
      ([join_lost_by_rotation]). Of the locks, the event loop can
      wait for the buffered messages that it has locked itself, for good; no other waiting for
      locks closes into a circle ([client_progress]), because the client is started before its
      methods are served ([bootstrap_before_methods]). The queues can jam ([queues_can_jam]), and
      do for a founder of a large community ([crowd_jams_client]). What the user interface observes: a subscriber sees the events in
      order and once, and loses none unless it falls behind ([subscription_correct]); a counter
      is what was last written to it ([metrics_last], [main_metrics]).
    - The network: the tables of the network task stay consistent under every interleaving
      ([task_invariant]), publishing drops exactly the peers it cannot reach
      ([publish_correct]), lost seeds are redialled with a bounded delay
      ([reconnect_correct], [backoff_bounds]); gossip, histories, seeds and direct messages
      arrive where they should ([gossip_delivered], [history_fetched], [seed_dialled],
      [dm_delivered]), and a seed serves the requests that copy a community to it, in their
      order, and holds the copy ([sync_correct]). A STUN
      answer says what its attributes say ([stun_correct]), and a peer of the local network
      is dialled once ([mdns_run_dials]).
    - Resources: at most the limit of connections is open ([admission_correct]) and a
      transfer is paced as the bucket's closed form says ([throttle_correct]).
    - Identities and start-up: what is saved or exported is read back with the passphrase and
      with nothing else ([keystore_roundtrip], [export_roundtrip], [identity_travels]); the
      node runs exactly when its files and its passphrase allow ([node_main_correct]), and
      what a changed passphrase costs ([passphrase_change_loses_tables]).
    - The desktop: which states the window is told ([check_status_correct]), which of its
      commands the node refuses ([node_commands_refused]), what the relay shows
      ([relay_and_events]).
    The lemmas [authenticate_replayable], [reauthentication_keeps_memberships],
    [dm_push_reaches_everyone], [gossip_appends_without_membership],
    [retention_restarts_numbering], [restart_forgets_peer_infos] and
    [append_entry_breaks_get_since] record behaviours in which the code differs from its
    documentation.

    ** Bounds and fuel

    The walks of [Kademlia] recurse on the code's own round limit, [evict_oldest],
    [push_entries] and [run] on their lists, the bucket index on the bit width; the handlers
    and methods of the client on the lists they iterate over. A walk asks at most eight
    rounds of three peers. A command queue has 256 places and an event queue 512, as in
    the code; [client_progress] holds for any number of tasks. Three loops take fuel: [Resource.throttle_loop], of which
    [throttle_correct] proves how many rounds are enough; [Desktop.strip_all], which shortens
    its text at each round and takes its length; [Discovery.stun_attributes], which advances
    by four bytes at each round and takes the length of the buffer ([stun_correct]).

    ** What is not modelled

    Sockets, the TLS handshake and the configuration of QUIC, the UPnP and mDNS libraries, the
    WebSocket transport. A request and an event are one step each, and steps interleave
    arbitrarily. A method is one step too, except that [Concurrency] and [Sends] have the rotation
    and the deletion of a channel and the sending of a message one lock at a time; the interruption of the other methods between
    two locks is in [Locks] only, which has the locks and not the tables. A call of a method is
    its step once the commands it gives have found room in the queue: how long it waits for that
    is in [Locks] only, while [process_swarm_event] has it for an event. Of
    the two binaries, signals, logging, dialogs, windows and the tray. The primitives of
    cryptography, the serialisers, the database and the TOML library are interfaces with laws,
    each with an instance that satisfies them. *)

From stdpp Require Export base tactics list gmap strings sorting.
From Stdlib Require Export ZArith Lia.

#[global] Set Default Goal Selector "!".

(** ** Automation *)

(** Closed equations between large values: compared by the virtual machine, without a
    normal form in the proof term. *)
Ltac vm_refl := lazymatch goal with |- ?a = ?b => vm_cast_no_check (@eq_refl _ b) end.

(** ** Notations *)

Declare Scope bitcord_scope.
Delimit Scope bitcord_scope with bitcord.
#[global] Open Scope bitcord_scope.
#[global] Open Scope Z_scope.

(** ** Results: Rust's [Result<A, E>] *)

Inductive result (E A : Type) : Type :=
  | Ok (a : A)
  | Err (e : E).
Arguments Ok {E A} a.
Arguments Err {E A} e.

#[export] Instance result_ret E : MRet (result E) := λ A a, Ok a.
#[export] Instance result_bind E : MBind (result E) := λ A B k m,
  match m with Ok a => k a | Err e => Err e end.
#[export] Instance result_fmap E : FMap (result E) := λ A B f m,
  match m with Ok a => Ok (f a) | Err e => Err e end.

Definition is_ok {E A} (r : result E A) : bool :=
  match r with Ok _ => true | Err _ => false end.

(** Rust's [Option::ok_or] and [Result::ok]. *)
Definition ok_or {E A} (e : E) (o : option A) : result E A :=
  match o with Some a => Ok a | None => Err e end.
Definition result_ok {E A} (r : result E A) : option A :=
  match r with Ok a => Some a | Err _ => None end.

Lemma result_bind_ok {E A B} (m : result E A) (k : A → result E B) b :
  (m ≫= k) = Ok b ↔ ∃ a, m = Ok a ∧ k a = Ok b.
Proof. destruct m; cbn; split; [eauto|naive_solver|done|naive_solver]. Qed.

Lemma ok_or_ok {E A} (e : E) (o : option A) a : ok_or e o = Ok a ↔ o = Some a.
Proof. destruct o; cbn; naive_solver. Qed.

(** The monadic loop of [for item in items { .. ? .. }]: the first error stops it. *)
Fixpoint result_map {E A B} (f : A → result E B) (l : list A) : result E (list B) :=
  match l with
  | [] => Ok []
  | a :: l' => b ← f a; bs ← result_map f l'; Ok (b :: bs)
  end.

Lemma result_map_ok {E A B} (f : A → result E B) l bs :
  result_map f l = Ok bs ↔ Forall2 (λ a b, f a = Ok b) l bs.
Proof.
  revert bs; induction l as [|a l IH]; intros bs; cbn.
  - split; [intros [= <-]; constructor | by inversion 1].
  - rewrite result_bind_ok. setoid_rewrite result_bind_ok. setoid_rewrite IH.
    split.
    + intros (b & ? & bs' & ? & [= <-]). by constructor.
    + inversion 1; subst; eauto 10.
Qed.

Lemma result_map_app {E A B} (f : A → result E B) l1 l2 :
  result_map f (l1 ++ l2) =
    (bs1 ← result_map f l1; bs2 ← result_map f l2; Ok (bs1 ++ bs2)).
Proof.
  induction l1 as [|a l1 IH]; cbn.
  - by destruct (result_map f l2).
  - destruct (f a); cbn; [|done]. rewrite IH.
    destruct (result_map f l1); cbn; [|done]. by destruct (result_map f l2).
Qed.

(** ** Machine integers *)

Definition U16_MAX : Z := 2 ^ 16 - 1.
Definition U32_MAX : Z := 2 ^ 32 - 1.
Definition U64_MAX : Z := 2 ^ 64 - 1.
Definition is_u64 (z : Z) : Prop := 0 ≤ z ≤ U64_MAX.
Definition wrap64 (z : Z) : Z := z mod 2 ^ 64.
Definition wrap32 (z : Z) : Z := z mod 2 ^ 32.

(** [u64::saturating_sub] and [u64::saturating_add]. *)
Definition sat_sub (a b : Z) : Z := Z.max 0 (a - b).
Definition sat_add (a b : Z) : Z := Z.min U64_MAX (a + b).

Lemma sat_sub_spec a b : sat_sub a b = if a <? b then 0 else a - b.
Proof. unfold sat_sub. destruct (Z.ltb_spec a b); lia. Qed.

Lemma wrap64_small z : is_u64 z → wrap64 z = z.
Proof. intros [??]. unfold wrap64. apply Z.mod_small. unfold U64_MAX in *. lia. Qed.

Lemma wrap64_range z : is_u64 (wrap64 z).
Proof. unfold is_u64, wrap64, U64_MAX. pose proof (Z.mod_pos_bound z (2 ^ 64)). lia. Qed.

(** ** Stable sorting by a boolean order: [slice::sort_by_key] *)

Section sort_by.
Context {A : Type} (leb : A → A → bool).

Fixpoint insert_by (x : A) (l : list A) : list A :=
  match l with
  | [] => [x]
  | y :: l' => if leb x y then x :: y :: l' else y :: insert_by x l'
  end.
Definition sort_by (l : list A) : list A := foldr insert_by [] l.

Lemma insert_by_perm x l : insert_by x l ≡ₚ x :: l.
Proof.
  induction l as [|y l IH]; cbn; [done|].
  destruct (leb x y); [done|]. rewrite IH. apply Permutation_swap.
Qed.
Lemma sort_by_perm l : sort_by l ≡ₚ l.
Proof. induction l as [|x l IH]; cbn; [done|]. by rewrite insert_by_perm, IH. Qed.

Lemma length_sort_by l : length (sort_by l) = length l.
Proof. apply Permutation_length, sort_by_perm. Qed.
Lemma elem_of_sort_by x l : x ∈ sort_by l ↔ x ∈ l.
Proof. by rewrite sort_by_perm. Qed.

Context (Htotal : ∀ x y, leb x y = true ∨ leb y x = true).
Context (Htrans : ∀ x y z, leb x y = true → leb y z = true → leb x z = true).

Lemma insert_by_sorted x l :
  StronglySorted (λ a b, leb a b = true) l →
  StronglySorted (λ a b, leb a b = true) (insert_by x l).
Proof using Htotal Htrans.
  induction 1 as [|y l Hs IH Hall]; cbn; [repeat constructor|].
  destruct (leb x y) eqn:Hxy.
  - constructor; [by constructor|]. constructor; [done|].
    eapply Forall_impl; [exact Hall|]. cbn; eauto.
  - constructor; [done|]. rewrite insert_by_perm. constructor; [|done].
    destruct (Htotal x y); congruence.
Qed.
Lemma sort_by_sorted l : StronglySorted (λ a b, leb a b = true) (sort_by l).
Proof using Htotal Htrans. induction l; cbn; [constructor|by apply insert_by_sorted]. Qed.
End sort_by.

Lemma sort_by_id {A} (leb : A → A → bool) l :
  StronglySorted (λ a b, leb a b = true) l → sort_by leb l = l.
Proof.
  induction 1 as [|x l Hs IH Hall]; [done|]. unfold sort_by in *; cbn. rewrite IH.
  destruct l as [|y l]; cbn; [done|]. by apply Forall_cons in Hall as [-> _].
Qed.

Lemma sort_by_snoc {A} (leb : A → A → bool) l x :
  (∀ y, y ∈ l → leb y x = true) → sort_by leb (l ++ [x]) = sort_by leb l ++ [x].
Proof.
  assert (∀ y k, leb y x = true → insert_by leb y (k ++ [x]) = insert_by leb y k ++ [x]) as Hins.
  { intros y k Hy. induction k as [|z k IH]; cbn; [by rewrite Hy|].
    destruct (leb y z); [done|]. by rewrite IH. }
  induction l as [|y l IH]; intros Hl; [done|]. unfold sort_by in *; cbn.
  rewrite IH by (intros z Hz; apply Hl; by right). apply Hins, Hl. left.
Qed.

(** ** [Vec::dedup_by_key]: drop an element whose key equals the last retained one *)

Section dedup.
Context {A K : Type} `{EqDecision K} (key : A → K).

Fixpoint dedup_from (last : K) (l : list A) : list A :=
  match l with
  | [] => []
  | x :: l' => if decide (key x = last) then dedup_from last l'
               else x :: dedup_from (key x) l'
  end.
Definition dedup_by_key (l : list A) : list A :=
  match l with [] => [] | x :: l' => x :: dedup_from (key x) l' end.

Lemma dedup_from_elem x k l : x ∈ dedup_from k l → x ∈ l.
Proof.
  revert k; induction l as [|y l IH]; intros k; cbn; [done|].
  case_decide; rewrite ?elem_of_cons; naive_solver.
Qed.
Lemma dedup_by_key_elem x l : x ∈ dedup_by_key l → x ∈ l.
Proof.
  destruct l as [|y l]; cbn; [done|]. rewrite !elem_of_cons.
  intros [->|H%dedup_from_elem]; naive_solver.
Qed.

Lemma dedup_from_keys q k l :
  q ∈ key <$> l → q = k ∨ q ∈ key <$> dedup_from k l.
Proof.
  revert k; induction l as [|y l IH]; intros k; csimpl; [by intros []%elem_of_nil|].
  rewrite elem_of_cons. case_decide; csimpl; rewrite ?elem_of_cons.
  - intros [->|?]; [by left|auto].
  - intros [->|?]; [by right; left|]. right. by apply IH.
Qed.
Lemma dedup_by_key_keys q l : q ∈ key <$> l ↔ q ∈ key <$> dedup_by_key l.
Proof.
  split.
  - destruct l as [|y l]; csimpl; [done|]. rewrite !elem_of_cons.
    intros [->|?]; [by left|]. by apply dedup_from_keys.
  - rewrite !list_elem_of_fmap. intros (x & -> & ?%dedup_by_key_elem). eauto.
Qed.

(** On a list sorted for an order antisymmetric on its keys, no key survives twice. *)
Context (P : K → Prop) (R : K → K → Prop).
Context (HR : ∀ x y, P x → P y → R x y → R y x → x = y).

Lemma dedup_from_NoDup k l :
  P k → Forall P (key <$> l) → Forall (λ y, R k (key y)) l →
  StronglySorted (λ a b, R (key a) (key b)) l →
  k ∉ key <$> dedup_from k l ∧ NoDup (key <$> dedup_from k l).
Proof using HR.
  intros HPk HPl Hk Hs. revert k HPk HPl Hk.
  induction Hs as [|y l Hs IH Hall]; intros k HPk HPl Hk; csimpl.
  { split; [apply not_elem_of_nil|constructor]. }
  csimpl in *. apply Forall_cons in HPl as [HPy HPl]. apply Forall_cons in Hk as [Hky Hk].
  case_decide as Hd; [by apply IH|]. csimpl.
  destruct (IH (key y)) as [Hnotin Hnd]; [done..|]. split; [|by constructor].
  rewrite not_elem_of_cons. split; [congruence|].
  rewrite list_elem_of_fmap. intros (z & -> & Hz%dedup_from_elem).
  rewrite Forall_forall in Hall. apply Hd, HR; [done..| |done]. by apply Hall.
Qed.
Lemma dedup_by_key_NoDup l :
  Forall P (key <$> l) →
  StronglySorted (λ a b, R (key a) (key b)) l → NoDup (key <$> dedup_by_key l).
Proof using HR.
  intros HP. destruct 1 as [|y l Hs Hall]; csimpl; [constructor|].
  csimpl in *. apply Forall_cons in HP as [??].
  destruct (dedup_from_NoDup (key y) l) as [??]; [done..|]. by constructor.
Qed.

Lemma dedup_from_sublist k l : sublist (dedup_from k l) l.
Proof using.
  revert k; induction l as [|y l IH]; intros k; cbn; [constructor|].
  case_decide; by constructor.
Qed.
Lemma dedup_by_key_sublist l : sublist (dedup_by_key l) l.
Proof using. destruct l; cbn; constructor. apply dedup_from_sublist. Qed.
End dedup.

(** ** Lists *)

(** [iter().find(p)], [iter().position(p)] and [iter().any(p)]. *)
Fixpoint find_by {A} (p : A → bool) (l : list A) : option A :=
  match l with
  | [] => None
  | x :: l' => if p x then Some x else find_by p l'
  end.
Fixpoint position {A} (p : A → bool) (l : list A) : option nat :=
  match l with
  | [] => None
  | x :: l' => if p x then Some 0%nat else S <$> position p l'
  end.
Definition any {A} (p : A → bool) (l : list A) : bool := existsb p l.
Definition retain {A} (p : A → bool) (l : list A) : list A := List.filter p l.

(** [iter_mut().find(p)] followed by an assignment through the reference: the first
    match is updated in place. *)
Fixpoint update_first {A} (p : A → bool) (f : A → A) (l : list A) : list A :=
  match l with
  | [] => []
  | x :: l' => if p x then f x :: l' else x :: update_first p f l'
  end.

Lemma find_by_Some {A} (p : A → bool) l x : find_by p l = Some x → x ∈ l ∧ p x = true.
Proof.
  induction l as [|y l IH]; cbn; [done|]. rewrite elem_of_cons.
  destruct (p y) eqn:?; naive_solver.
Qed.
Lemma find_by_None {A} (p : A → bool) l : find_by p l = None ↔ ∀ x, x ∈ l → p x = false.
Proof.
  induction l as [|y l IH]; cbn; [split; [by intros _ x ?%elem_of_nil|done]|].
  destruct (p y) eqn:Hy.
  - split; [done|]. intros H. rewrite (H y) in Hy by left. done.
  - rewrite IH. setoid_rewrite elem_of_cons. naive_solver.
Qed.
Lemma position_Some {A} (p : A → bool) l i :
  position p l = Some i → ∃ x, l !! i = Some x ∧ p x = true.
Proof.
  revert i; induction l as [|y l IH]; intros i; cbn; [done|].
  destruct (p y) eqn:?; [intros [= <-]; eauto|].
  intros (j & ? & ->)%fmap_Some. cbn. eauto.
Qed.
Lemma position_None {A} (p : A → bool) l : position p l = None ↔ ∀ x, x ∈ l → p x = false.
Proof.
  induction l as [|y l IH]; cbn; [split; [by intros _ x ?%elem_of_nil|done]|].
  destruct (p y) eqn:Hy.
  - split; [done|]. intros H. rewrite (H y) in Hy by left. done.
  - rewrite fmap_None, IH. setoid_rewrite elem_of_cons. naive_solver.
Qed.

Lemma any_true {A} (p : A → bool) l : any p l = true ↔ ∃ x, x ∈ l ∧ p x = true.
Proof. unfold any. rewrite existsb_exists. by setoid_rewrite <-list_elem_of_In. Qed.
Lemma any_false {A} (p : A → bool) l : any p l = false ↔ ∀ x, x ∈ l → p x = false.
Proof.
  rewrite <-not_true_iff_false, any_true. split.
  - intros H x Hx. apply not_true_is_false. eauto.
  - intros H (x & ? & ?). rewrite H in *; done.
Qed.

Lemma elem_of_retain {A} (p : A → bool) x l : x ∈ retain p l ↔ p x = true ∧ x ∈ l.
Proof. unfold retain. rewrite !list_elem_of_In, filter_In. tauto. Qed.
Lemma retain_sublist {A} (p : A → bool) l : sublist (retain p l) l.
Proof.
  unfold retain. induction l as [|x l IH]; cbn; [constructor|].
  destruct (p x); by constructor.
Qed.
Lemma retain_length_le {A} (p : A → bool) l : (length (retain p l) ≤ length l)%nat.
Proof. apply sublist_length, retain_sublist. Qed.
Lemma retain_length_lt {A} (p : A → bool) l x :
  x ∈ l → p x = false → (length (retain p l) < length l)%nat.
Proof.
  intros Hx Hp. induction l as [|y l IH]; [by apply elem_of_nil in Hx|].
  pose proof (retain_length_le p l). unfold retain in *. cbn.
  apply elem_of_cons in Hx as [<-|Hx]; [rewrite Hp; lia|].
  specialize (IH Hx). destruct (p y); cbn; lia.
Qed.
Lemma retain_all {A} (p : A → bool) l : (∀ x, x ∈ l → p x = true) → retain p l = l.
Proof.
  unfold retain. induction l as [|x l IH]; cbn; [done|]. intros H.
  rewrite H by left. f_equal. apply IH. intros y Hy. apply H. by right.
Qed.
Lemma retain_drop {A B} `{EqDecision B} (f : A → B) m (l : list A) :
  NoDup (f <$> l) → retain (λ x, negb (bool_decide (f x ∈ take m (f <$> l)))) l = drop m l.
Proof.
  revert m; induction l as [|x l IH]; intros [|m]; csimpl; intros Hnd; [done|done| |].
  { f_equal. by apply retain_all. }
  apply NoDup_cons in Hnd as [Hx Hnd]. rewrite bool_decide_true by left. cbn.
  rewrite <- (IH m Hnd). unfold retain. clear IH.
  assert (∀ y, y ∈ l → f y ≠ f x) as Hne.
  { intros y Hy Heq. apply Hx. rewrite <- Heq. by apply list_elem_of_fmap_2. }
  assert (∀ k, (∀ y, y ∈ k → f y ≠ f x) →
    List.filter (λ y, negb (bool_decide (f y ∈ f x :: take m (f <$> l)))) k =
    List.filter (λ y, negb (bool_decide (f y ∈ take m (f <$> l)))) k) as Hk; [|by apply Hk].
  induction k as [|y k IHk]; intros Hk; cbn; [done|].
  rewrite (bool_decide_ext (f y ∈ f x :: take m (f <$> l)) (f y ∈ take m (f <$> l))).
  - rewrite IHk; [done|]. intros z Hz. apply Hk. by right.
  - rewrite elem_of_cons. assert (f y ≠ f x) by (apply Hk; left). naive_solver.
Qed.
Lemma retain_app {A} (p : A → bool) l k : retain p (l ++ k) = retain p l ++ retain p k.
Proof. apply List.filter_app. Qed.
Lemma Forall2_retain {A B} (R : A → B → Prop) p q l k :
  (∀ x y, x ∈ l → R x y → p x = q y) → Forall2 R l k → Forall2 R (retain p l) (retain q k).
Proof.
  intros Hpq HR. induction HR as [|x y l k Hxy HR IH]; [constructor|]. unfold retain in *; cbn.
  rewrite (Hpq x y) by (done || by left).
  assert (Forall2 R (List.filter p l) (List.filter q k)) by (apply IH; intros; apply Hpq; [by right|done]).
  destruct (q y); [by constructor|done].
Qed.
Lemma retain_NoDup_fmap {A B} (f : A → B) p l : NoDup (f <$> l) → NoDup (f <$> retain p l).
Proof. intros. eapply sublist_NoDup; [done|]. apply fmap_sublist, retain_sublist. Qed.

Lemma length_update_first {A} (p : A → bool) f l :
  length (update_first p f l) = length l.
Proof. induction l as [|x l IH]; cbn; [done|]. destruct (p x); cbn; congruence. Qed.
Lemma update_first_none {A} (p : A → bool) f l :
  (∀ x, x ∈ l → p x = false) → update_first p f l = l.
Proof.
  induction l as [|x l IH]; cbn; [done|]. intros H.
  rewrite (H x) by left. f_equal. apply IH. intros y Hy. apply H. by right.
Qed.
Lemma update_first_fmap {A B} (p : A → bool) f (g : A → B) l :
  (∀ x, p x = true → g (f x) = g x) → g <$> update_first p f l = g <$> l.
Proof.
  intros Hg. induction l as [|x l IH]; csimpl; [done|].
  destruct (p x) eqn:?; csimpl; [by rewrite Hg|by rewrite IH].
Qed.
Lemma elem_of_update_first {A} (p : A → bool) f l x :
  x ∈ update_first p f l → x ∈ l ∨ ∃ y, y ∈ l ∧ p y = true ∧ x = f y.
Proof.
  induction l as [|y l IH]; cbn; [by intros []%elem_of_nil|].
  destruct (p y) eqn:?; rewrite !elem_of_cons; setoid_rewrite elem_of_cons; naive_solver.
Qed.

Lemma update_first_keeps {A} (p : A → bool) f l x :
  x ∈ l → p x = false → x ∈ update_first p f l.
Proof.
  induction l as [|y l IH]; cbn; [by intros []%elem_of_nil|].
  rewrite elem_of_cons. intros [<-|Hx] Hp; [rewrite Hp; by left|].
  destruct (p y); right; auto.
Qed.
Lemma find_by_update_first {A} (p : A → bool) f l :
  (∀ x, p (f x) = p x) → find_by p (update_first p f l) = f <$> find_by p l.
Proof.
  intros Hf. induction l as [|x l IH]; cbn; [done|]. destruct (p x) eqn:Hx; cbn; rewrite ?Hf, Hx; done.
Qed.
Lemma find_by_update_other {A} (p q : A → bool) f l :
  (∀ x, p x = true → q x = false ∧ q (f x) = false) → find_by q (update_first p f l) = find_by q l.
Proof.
  intros Hf. induction l as [|x l IH]; cbn; [done|].
  destruct (p x) eqn:Hx; cbn; [|by rewrite IH]. by destruct (Hf _ Hx) as [-> ->].
Qed.
Lemma update_first_const {A} (p : A → bool) r l :
  any p l = true → r ∈ update_first p (λ _, r) l.
Proof.
  unfold any. induction l as [|y l IH]; cbn; [done|].
  destruct (p y); cbn; [by left|]. intros Ha. right. auto.
Qed.
Lemma elem_of_concat {A} (x : A) (ls : list (list A)) :
  x ∈ concat ls ↔ ∃ i l, ls !! i = Some l ∧ x ∈ l.
Proof.
  rewrite list_elem_of_In, in_concat. setoid_rewrite <-list_elem_of_In.
  setoid_rewrite list_elem_of_lookup at 1. naive_solver.
Qed.
Lemma concat_NoDup_fmap {A B} (f : A → B) (ls : list (list A)) :
  (∀ i l, ls !! i = Some l → NoDup (f <$> l)) →
  (∀ i j l k x y, ls !! i = Some l → ls !! j = Some k → x ∈ l → y ∈ k → f x = f y → i = j) →
  NoDup (f <$> concat ls).
Proof.
  induction ls as [|l ls IH]; cbn; intros Hnd Hdis; [constructor|].
  rewrite fmap_app. apply NoDup_app. split_and!.
  - by apply (Hnd 0%nat).
  - intros z (x & -> & Hx)%list_elem_of_fmap (y & Heq & Hy)%list_elem_of_fmap.
    apply elem_of_concat in Hy as (j & k & Hk & Hy).
    by specialize (Hdis 0%nat (S j) l k x y eq_refl Hk Hx Hy Heq).
  - apply IH; [intros i; apply (Hnd (S i))|].
    intros i j l' k' x y Hi Hj Hx Hy Heq.
    by injection (Hdis (S i) (S j) l' k' x y Hi Hj Hx Hy Heq).
Qed.

Lemma alter_as_insert {A} (f : A → A) i (l : list A) x :
  l !! i = Some x → alter f i l = <[i := f x]> l.
Proof.
  revert i; induction l as [|y l IH]; intros [|i]; cbn; [done..|by intros [= ->]|].
  intros H. f_equal. by apply IH.
Qed.
