(* ===== verification/Bytes.v ===== *)
(** * Byte strings

    Byte arrays and byte slices are lists of [Z] with every element in [0, 256).
    This file holds their lexicographic order (Rust's [Ord] on [[u8]] and on
    [[u8; N]], and the key order of a redb table), the fixed-width integer
    encodings ([to_be_bytes], [to_le_bytes] and their inverses), the bytewise XOR
    and the lowercase hexadecimal rendering used for identifiers. *)

From S2P Require Import Prelude.

Notation bytes := (list Z).

Definition is_byte (b : Z) : Prop := 0 ≤ b < 256.
#[export] Instance is_byte_dec b : Decision (is_byte b).
Proof. unfold is_byte. apply _. Defined.

(** [[u8; n]]. *)
Definition wf_array (n : nat) (l : bytes) : Prop := length l = n ∧ Forall is_byte l.
#[export] Instance wf_array_dec n l : Decision (wf_array n l).
Proof. unfold wf_array. apply _. Defined.
Notation wf_key := (wf_array 32).

Lemma wf_array_app n m l k :
  wf_array n l → wf_array m k → wf_array (n + m) (l ++ k).
Proof. intros [<- ?] [<- ?]. split; [apply length_app|by apply Forall_app]. Qed.
Lemma wf_array_replicate n b : is_byte b → wf_array n (replicate n b).
Proof. intros ?. split; [apply length_replicate|by apply Forall_replicate]. Qed.

Create HintDb bytes_db.
#[export] Hint Resolve wf_array_app wf_array_replicate : bytes_db.

(** ** Lexicographic order *)

Fixpoint lex_leb (a b : bytes) : bool :=
  match a, b with
  | [], _ => true
  | _ :: _, [] => false
  | x :: a', y :: b' => (x <? y) || ((x =? y) && lex_leb a' b')
  end.
Definition lex_le (a b : bytes) : Prop := lex_leb a b = true.
Definition lex_lt (a b : bytes) : Prop := lex_le a b ∧ a ≠ b.
#[export] Instance lex_le_dec a b : Decision (lex_le a b).
Proof. unfold lex_le. apply _. Defined.

Lemma lex_le_cons x y a b : lex_le (x :: a) (y :: b) ↔ x < y ∨ (x = y ∧ lex_le a b).
Proof. unfold lex_le; cbn. by rewrite orb_true_iff, andb_true_iff, Z.ltb_lt, Z.eqb_eq. Qed.
Lemma lex_le_refl a : lex_le a a.
Proof. induction a as [|x a IH]; [done|]. apply lex_le_cons. auto. Qed.
Lemma lex_le_trans a b c : lex_le a b → lex_le b c → lex_le a c.
Proof.
  revert b c; induction a as [|x a IH]; intros [|y b] [|z c]; try done.
  rewrite !lex_le_cons. intros [?|[-> ?]] [?|[-> ?]]; [lia..|]. right; eauto.
Qed.
Lemma lex_le_antisym a b : lex_le a b → lex_le b a → a = b.
Proof.
  revert b; induction a as [|x a IH]; intros [|y b]; try done.
  rewrite !lex_le_cons. intros [?|[-> ?]] [?|[? ?]]; [lia..|]. f_equal; auto.
Qed.
Lemma lex_le_total a b : lex_le a b ∨ lex_le b a.
Proof.
  revert b; induction a as [|x a IH]; intros [|y b]; [by left..|by right|].
  rewrite !lex_le_cons. destruct (Z.lt_trichotomy x y) as [?|[->|?]]; [auto| |auto].
  destruct (IH b); auto.
Qed.
#[export] Instance lex_le_preorder : PreOrder lex_le.
Proof. split; [exact lex_le_refl|exact lex_le_trans]. Qed.
#[export] Instance lex_le_partialorder : PartialOrder lex_le.
Proof. split; [apply _|exact lex_le_antisym]. Qed.
#[export] Instance lex_lt_strict : StrictOrder lex_lt.
Proof.
  split; [by intros a []|]. intros a b c [Hab ?] [Hbc Hne].
  split; [by etrans|]. intros ->. apply Hne. by apply lex_le_antisym.
Qed.
Lemma lex_lt_not_le a b : lex_lt a b ↔ ¬ lex_le b a.
Proof.
  split.
  - intros [??] ?. by apply (lex_le_antisym a b) in H.
  - intros H. destruct (lex_le_total a b); [|done]. split; [done|]. intros ->. done.
Qed.

Lemma lex_le_app_prefix p a b : lex_le (p ++ a) (p ++ b) ↔ lex_le a b.
Proof.
  induction p as [|x p IH]; [done|]. cbn. rewrite lex_le_cons, IH.
  split; [intros [?|[_ ?]]; [lia|done]|auto].
Qed.

(** A range scan between two keys with a common prefix only meets keys with that prefix. *)
Lemma lex_between_prefix p a b k :
  lex_le (p ++ a) k → lex_le k (p ++ b) →
  ∃ k', k = p ++ k' ∧ lex_le a k' ∧ lex_le k' b.
Proof.
  revert k; induction p as [|x p IH]; intros k; cbn; [eauto|].
  destruct k as [|y k]; [done|]. rewrite !lex_le_cons.
  intros [?|[-> Ha]] [?|[? Hb]]; [lia..|].
  destruct (IH k Ha Hb) as (k' & -> & ?). eauto.
Qed.

Lemma lex_le_zeros n k : length k = n → Forall is_byte k → lex_le (replicate n 0) k.
Proof.
  intros <-. induction 1 as [|x k Hx Hk IH]; [done|]. cbn. rewrite lex_le_cons.
  unfold is_byte in Hx. destruct (decide (x = 0)) as [->|]; [auto|left; lia].
Qed.
Lemma lex_le_ones n k : length k = n → Forall is_byte k → lex_le k (replicate n 255).
Proof.
  intros <-. induction 1 as [|x k Hx Hk IH]; [done|]. cbn. rewrite lex_le_cons.
  unfold is_byte in Hx. destruct (decide (x = 255)) as [->|]; [auto|left; lia].
Qed.
Lemma lex_le_take n a b : lex_le a b → lex_le (take n a) (take n b).
Proof.
  revert a b; induction n as [|n IH]; intros [|x a] [|y b]; try done. cbn.
  rewrite !lex_le_cons. naive_solver.
Qed.

(** ** Fixed-width integer encodings *)

Fixpoint of_le (l : bytes) : Z :=
  match l with [] => 0 | b :: l' => b + 256 * of_le l' end.
Fixpoint le_bytes (n : nat) (w : Z) : bytes :=
  match n with O => [] | S n' => w mod 256 :: le_bytes n' (w / 256) end.
Definition be_bytes (n : nat) (w : Z) : bytes := reverse (le_bytes n w).
Definition of_be (l : bytes) : Z := of_le (reverse l).
Arguments be_bytes : simpl never.
Arguments of_be : simpl never.

Lemma length_le_bytes n w : length (le_bytes n w) = n.
Proof. revert w; induction n; intros; cbn; auto. Qed.
Lemma length_be_bytes n w : length (be_bytes n w) = n.
Proof. unfold be_bytes. by rewrite length_reverse, length_le_bytes. Qed.
Lemma le_bytes_ok n w : Forall is_byte (le_bytes n w).
Proof.
  revert w; induction n; intros w; cbn; constructor; auto.
  unfold is_byte. pose proof (Z.mod_pos_bound w 256). lia.
Qed.
Lemma wf_le_bytes n w : wf_array n (le_bytes n w).
Proof. split; [apply length_le_bytes|apply le_bytes_ok]. Qed.
Lemma wf_be_bytes n w : wf_array n (be_bytes n w).
Proof. split; [apply length_be_bytes|]. apply Forall_reverse, le_bytes_ok. Qed.
#[export] Hint Resolve wf_le_bytes wf_be_bytes : bytes_db.

Lemma of_le_le_bytes n w : of_le (le_bytes n w) = w mod 256 ^ Z.of_nat n.
Proof.
  revert w; induction n as [|n IH]; intros w; cbn [le_bytes of_le].
  { by rewrite Z.mod_1_r. }
  rewrite IH, Nat2Z.inj_succ, Z.pow_succ_r by lia.
  rewrite Z.rem_mul_r by lia. lia.
Qed.
Lemma of_be_be_bytes n w : of_be (be_bytes n w) = w mod 256 ^ Z.of_nat n.
Proof. unfold of_be, be_bytes. by rewrite reverse_involutive, of_le_le_bytes. Qed.
Lemma of_be_be_bytes_small n w : 0 ≤ w < 256 ^ Z.of_nat n → of_be (be_bytes n w) = w.
Proof. intros. rewrite of_be_be_bytes. by apply Z.mod_small. Qed.
Lemma le_bytes_of_le l : Forall is_byte l → le_bytes (length l) (of_le l) = l.
Proof.
  induction 1 as [|b l Hb _ IH]; cbn [length le_bytes of_le]; [done|]. unfold is_byte in Hb.
  replace ((b + 256 * of_le l) mod 256) with b
    by (rewrite (Z.mul_comm 256), Z.mod_add, Z.mod_small; lia).
  replace ((b + 256 * of_le l) / 256) with (of_le l); [by rewrite IH|].
  rewrite (Z.mul_comm 256), Z.div_add, Z.div_small; lia.
Qed.
Lemma be_bytes_of_be l : Forall is_byte l → be_bytes (length l) (of_be l) = l.
Proof.
  intros H. unfold be_bytes, of_be. rewrite <-(length_reverse l).
  rewrite le_bytes_of_le by by apply Forall_reverse. apply reverse_involutive.
Qed.
Lemma of_le_bound l : Forall is_byte l → 0 ≤ of_le l < 256 ^ Z.of_nat (length l).
Proof.
  induction 1 as [|b l Hb _ IH]; cbn [length of_le]; [done|]. unfold is_byte in Hb.
  rewrite Nat2Z.inj_succ, Z.pow_succ_r by lia. lia.
Qed.
Lemma of_be_bound l : Forall is_byte l → 0 ≤ of_be l < 256 ^ Z.of_nat (length l).
Proof.
  intros H. unfold of_be. rewrite <-(length_reverse l).
  by apply of_le_bound, Forall_reverse.
Qed.

Lemma be_bytes_inj n v w :
  0 ≤ v < 256 ^ Z.of_nat n → 0 ≤ w < 256 ^ Z.of_nat n →
  be_bytes n v = be_bytes n w → v = w.
Proof. intros ?? H%(f_equal of_be). by rewrite !of_be_be_bytes_small in H. Qed.

Lemma of_le_app a b : of_le (a ++ b) = of_le a + 256 ^ Z.of_nat (length a) * of_le b.
Proof.
  induction a as [|x a IH]; [cbn; lia|]. cbn [app of_le length].
  rewrite IH, Nat2Z.inj_succ, Z.pow_succ_r by lia. lia.
Qed.
Lemma of_be_cons b l : of_be (b :: l) = b * 256 ^ Z.of_nat (length l) + of_be l.
Proof.
  unfold of_be. rewrite reverse_cons, of_le_app, length_reverse. cbn [of_le]. lia.
Qed.

(** Big-endian encoding turns the lexicographic order into the numeric one. *)
Lemma lex_le_of_be a b :
  length a = length b → Forall is_byte a → Forall is_byte b →
  lex_le a b ↔ of_be a ≤ of_be b.
Proof.
  revert b; induction a as [|x a IH]; intros [|y b] Hlen Ha Hb; try done.
  cbn in Hlen; injection Hlen as Hlen.
  apply Forall_cons in Ha as [Hx Ha]. apply Forall_cons in Hb as [Hy Hb].
  rewrite lex_le_cons, !of_be_cons, IH, Hlen by done.
  pose proof (of_be_bound a Ha). pose proof (of_be_bound b Hb).
  rewrite Hlen in *. unfold is_byte in *.
  set (p := 256 ^ Z.of_nat (length b)) in *. split.
  - intros [?|[-> ?]]; [|lia]. nia.
  - intros ?. destruct (Z.lt_trichotomy x y) as [?|[->|?]]; [auto|right; lia|]. nia.
Qed.
Lemma lex_le_be_bytes n v w :
  0 ≤ v < 256 ^ Z.of_nat n → 0 ≤ w < 256 ^ Z.of_nat n →
  lex_le (be_bytes n v) (be_bytes n w) ↔ v ≤ w.
Proof.
  intros ??. rewrite lex_le_of_be.
  - by rewrite !of_be_be_bytes_small.
  - by rewrite !length_be_bytes.
  - apply wf_be_bytes.
  - apply wf_be_bytes.
Qed.

(** ** Bytewise XOR *)

Definition xor_bytes (a b : bytes) : bytes := zip_with Z.lxor a b.

Lemma length_xor_bytes n a b :
  length a = n → length b = n → length (xor_bytes a b) = n.
Proof. intros. unfold xor_bytes. rewrite length_zip_with. lia. Qed.
Lemma xor_bytes_comm a b : xor_bytes a b = xor_bytes b a.
Proof.
  revert b; induction a as [|x a IH]; intros [|y b]; cbn; [done..|].
  rewrite Z.lxor_comm. f_equal. apply IH.
Qed.
Lemma lxor_byte x y : is_byte x → is_byte y → is_byte (Z.lxor x y).
Proof.
  unfold is_byte. intros [Hx Hx'] [Hy Hy'].
  assert (0 ≤ Z.lxor x y) by (apply Z.lxor_nonneg; lia). split; [done|].
  destruct (Z.eq_dec (Z.lxor x y) 0) as [->|?]; [lia|].
  change 256 with (2 ^ 8). apply Z.log2_lt_pow2; [lia|].
  pose proof (Z.log2_lxor x y Hx Hy).
  assert (∀ z, 0 ≤ z → z < 256 → Z.log2 z < 8) as Hlog.
  { intros z ??. destruct (Z.eq_dec z 0) as [->|]; [done|]. apply Z.log2_lt_pow2; lia. }
  pose proof (Hlog x Hx Hx'). pose proof (Hlog y Hy Hy'). lia.
Qed.
Lemma xor_bytes_ok a b :
  Forall is_byte a → Forall is_byte b → Forall is_byte (xor_bytes a b).
Proof.
  intros Ha; revert b; induction Ha as [|x a Hx Ha IH]; intros b Hb; cbn; [constructor|].
  destruct Hb as [|y b Hy Hb]; constructor; [by apply lxor_byte|by apply IH].
Qed.
Lemma wf_xor_bytes n a b :
  wf_array n a → wf_array n b → wf_array n (xor_bytes a b).
Proof. intros [??] [??]. split; [by apply length_xor_bytes|by apply xor_bytes_ok]. Qed.
#[export] Hint Resolve wf_xor_bytes : bytes_db.
Lemma xor_bytes_inj a b c :
  length a = length b → length a = length c → xor_bytes a b = xor_bytes a c → b = c.
Proof.
  revert b c; induction a as [|x a IH]; intros [|y b] [|z c]; try done; cbn.
  intros [= ?] [= ?] [= Hx Hr]. f_equal; [|by apply IH].
  apply (f_equal (Z.lxor x)) in Hx.
  by rewrite <-!Z.lxor_assoc, !Z.lxor_nilpotent, !Z.lxor_0_l in Hx.
Qed.
Lemma xor_bytes_self a : xor_bytes a a = replicate (length a) 0.
Proof. induction a as [|x a IH]; cbn; [done|]. rewrite Z.lxor_nilpotent. by f_equal. Qed.

(** ** Lowercase hexadecimal: [format!("{b:02x}")] over the bytes *)

Definition hex_digit (d : Z) : Ascii.ascii :=
  Ascii.ascii_of_nat (Z.to_nat (if d <? 10 then 48 + d else 87 + d)).
Fixpoint hex (l : bytes) : string :=
  match l with
  | [] => ""%string
  | b :: l' => String (hex_digit (b / 16)) (String (hex_digit (b mod 16)) (hex l'))
  end.

(** [u8::from_str_radix(c, 16)] on one digit: both letter cases are accepted. *)
Definition unhex_digit (c : Ascii.ascii) : option Z :=
  let n := Z.of_nat (Ascii.nat_of_ascii c) in
  if (48 <=? n) && (n <=? 57) then Some (n - 48)
  else if (97 <=? n) && (n <=? 102) then Some (n - 87)
  else if (65 <=? n) && (n <=? 70) then Some (n - 55)
  else None.

Lemma unhex_hex_digit d : 0 ≤ d < 16 → unhex_digit (hex_digit d) = Some d.
Proof.
  intros ?. assert (Forall (λ z, unhex_digit (hex_digit z) = Some z) (seqZ 0 16)) as Hall
    by (vm_compute; repeat constructor).
  rewrite Forall_forall in Hall. apply Hall, elem_of_seqZ. lia.
Qed.
Lemma hex_length l : String.length (hex l) = (2 * length l)%nat.
Proof. induction l as [|b l IH]; cbn; [done|]. rewrite IH. lia. Qed.
Lemma hex_inj a b : Forall is_byte a → Forall is_byte b → hex a = hex b → a = b.
Proof.
  intros Ha; revert b; induction Ha as [|x a Hx Ha IH]; intros b Hb; destruct Hb as [|y b Hy Hb];
    [done..|]. cbn. unfold is_byte in *. intros [= H1 H2 Hr]. f_equal; [|by apply IH].
  apply (f_equal unhex_digit) in H1, H2.
  assert (∀ z, 0 ≤ z < 256 → 0 ≤ z / 16 < 16).
  { intros z ?. split; [apply Z.div_pos; lia|apply Z.div_lt_upper_bound; lia]. }
  pose proof (λ z, Z.mod_pos_bound z 16 ltac:(lia)).
  rewrite !unhex_hex_digit in H1, H2 by auto.
  rewrite (Z.div_mod x 16), (Z.div_mod y 16) by lia. congruence.
Qed.
