(* ===== verification/Config.v ===== *)
(** * Node configuration: [bitcord-core/src/config/mod.rs]

    The fields of [NodeConfig], their defaults, and the reading and writing of the TOML
    file. The TOML library is the class [Toml]: what the [Serialize] and [Deserialize]
    derivations say of it is [TomlLaws]. *)

From S2P Require Import Prelude Bytes.

Inductive NodeMode := GossipClient | Peer | HeadlessSeed.
#[export] Instance NodeMode_eq_dec : EqDecision NodeMode.
Proof. solve_decision. Defined.

(** Paths are their text. *)
Record NodeConfig := mkConfig {
  cfg_identity_path : string;
  cfg_data_dir : string;
  cfg_listen_addrs : list string;
  cfg_max_connections : Z;
  cfg_storage_limit_mb : Z;
  cfg_bandwidth_limit_kbps : option Z;
  cfg_node_mode : NodeMode;
  cfg_seed_priority : Z;
  cfg_log_level : string;
  cfg_quic_port : Z;
  cfg_display_name : option string;
  cfg_join_password : option string;
  cfg_save_passphrase : bool;
  cfg_preferred_mailbox_node : option string }.

Class Toml := { to_toml : NodeConfig → option bytes; from_toml : bytes → option NodeConfig }.

(** [Path::join] for a relative name. *)
Definition path_join (base name : string) : string := (base ++ "/" ++ name)%string.

(** [NodeConfig::default], in the platform's data directory [base]. *)
Definition default_config (base : string) : NodeConfig :=
  mkConfig (path_join base "identity.key") base ["0.0.0.0:7332"%string; "[::]:7332"%string] 50 512 None Peer 0
    "info" 9042 None None false None.

(** [load] and [load_or_default], on what reading the file gives ([None]: no such file) and
    the parent directory of its path. [None]: an error. *)
Definition config_load `{Toml} (base : string) (file : option bytes) : option NodeConfig :=
  match file with Some s => from_toml s | None => Some (default_config base) end.
Definition load_or_default `{Toml} (base : string) (parent : option string) (file : option bytes)
    : option NodeConfig :=
  match file with
  | Some _ => config_load base file
  | None =>
      let c := default_config base in
      Some match parent with
           | Some dir =>
               mkConfig (path_join dir "identity.key") dir (cfg_listen_addrs c) (cfg_max_connections c)
                 (cfg_storage_limit_mb c) (cfg_bandwidth_limit_kbps c) (cfg_node_mode c) (cfg_seed_priority c)
                 (cfg_log_level c) (cfg_quic_port c) (cfg_display_name c) (cfg_join_password c)
                 (cfg_save_passphrase c) (cfg_preferred_mailbox_node c)
           | None => c
           end
  end.

Definition without_join_password (c : NodeConfig) : NodeConfig :=
  mkConfig (cfg_identity_path c) (cfg_data_dir c) (cfg_listen_addrs c) (cfg_max_connections c)
    (cfg_storage_limit_mb c) (cfg_bandwidth_limit_kbps c) (cfg_node_mode c) (cfg_seed_priority c) (cfg_log_level c)
    (cfg_quic_port c) (cfg_display_name c) None (cfg_save_passphrase c) (cfg_preferred_mailbox_node c).

(** Every field is written but [join_password] ([skip_serializing]), which reads as its
    default. *)
Class TomlLaws `{Toml} : Prop :=
  toml_roundtrip c s : to_toml c = Some s → from_toml s = Some (without_join_password c).

Definition set_cfg_display_name (v : option string) (c : NodeConfig) : NodeConfig :=
  mkConfig (cfg_identity_path c) (cfg_data_dir c) (cfg_listen_addrs c) (cfg_max_connections c)
    (cfg_storage_limit_mb c) (cfg_bandwidth_limit_kbps c) (cfg_node_mode c) (cfg_seed_priority c) (cfg_log_level c)
    (cfg_quic_port c) v (cfg_join_password c) (cfg_save_passphrase c) (cfg_preferred_mailbox_node c).
Definition set_cfg_mailbox (v : option string) (c : NodeConfig) : NodeConfig :=
  mkConfig (cfg_identity_path c) (cfg_data_dir c) (cfg_listen_addrs c) (cfg_max_connections c)
    (cfg_storage_limit_mb c) (cfg_bandwidth_limit_kbps c) (cfg_node_mode c) (cfg_seed_priority c) (cfg_log_level c)
    (cfg_quic_port c) (cfg_display_name c) (cfg_join_password c) (cfg_save_passphrase c) v.

(** A saved configuration is read back, without the join password. *)
Lemma config_roundtrip `{TomlLaws} base parent c s :
  to_toml c = Some s → load_or_default base parent (Some s) = Some (without_join_password c).
Proof. apply toml_roundtrip. Qed.
