(* ===== verification/Routing.v ===== *)
(** * The DHT data layer: [bitcord-dht/src/addr.rs] and [bitcord-dht/src/routing.rs]

    [DhtState] is a record whose fields are the mutex-protected fields of the Rust
    struct; every method is a function from the state (and the clock readings the
    method takes) to the new state and its result. A [HashMap] is a [gmap]; a [Vec]
    is a list. [Instant]s are nanoseconds on the monotonic clock, Unix timestamps are
    seconds. *)

From S2P Require Import Prelude Bytes.

(** ** [NodeAddr] *)

(** [std::net::IpAddr]: the octets of a V4 or V6 address. *)
Inductive IpAddr := V4 (octets : bytes) | V6 (octets : bytes).
#[export] Instance IpAddr_eq_dec : EqDecision IpAddr.
Proof. solve_decision. Defined.
#[export] Instance IpAddr_countable : Countable IpAddr.
Proof.
  refine (inj_countable'
    (λ a, match a with V4 o => inl o | V6 o => inr o end)
    (λ s, match s with inl o => V4 o | inr o => V6 o end) _).
  by intros [].
Defined.

Record NodeAddr := mkNodeAddr { ip : IpAddr; port : Z }.
#[export] Instance NodeAddr_eq_dec : EqDecision NodeAddr.
Proof. solve_decision. Defined.
#[export] Instance NodeAddr_countable : Countable NodeAddr.
Proof.
  refine (inj_countable' (λ a, (ip a, port a)) (λ p, mkNodeAddr p.1 p.2) _).
  by intros [].
Defined.

(** ** Constants *)

Definition K : nat := 20.
#[local] Arguments Nat.leb : simpl never.
#[local] Arguments Nat.ltb : simpl never.
Definition NANOS : Z := 1000000000.
Definition MAILBOX_TTL : Z := 86400 * NANOS.
Definition COMMUNITY_PEER_TTL_SECS : Z := 3600.
Definition PEER_INFO_TTL_SECS : Z := 86400.

(** ** [NodeId] and the XOR metric *)

Notation NodeId := bytes (only parsing).

Definition distance (self other : NodeId) : bytes := xor_bytes self other.

(** [u8::leading_zeros] of a non-zero byte. *)
Definition leading_zeros (b : Z) : Z := 7 - Z.log2 b.

Fixpoint bucket_index_from (byte_idx : Z) (dist : bytes) : option Z :=
  match dist with
  | [] => None
  | byte :: dist' =>
      if byte =? 0 then bucket_index_from (byte_idx + 1) dist'
      else Some (255 - (byte_idx * 8 + leading_zeros byte))
  end.
Definition bucket_index (dist : bytes) : option Z := bucket_index_from 0 dist.

(** ** Records *)

Record MailboxRecord := mkMailbox { mb_addr : NodeAddr; expires_at : Z }.

Record CommunityPeerRecord := mkPeer {
  cp_node_pk : bytes;
  cp_addr : NodeAddr;
  cp_announced_at : Z }.

Record PeerInfoRecord := mkPeerInfo {
  pi_x25519_pk : bytes;
  pi_addr : NodeAddr;
  pi_announced_at : Z;
  pi_display_name : string }.

#[export] Instance MailboxRecord_eq_dec : EqDecision MailboxRecord.
Proof. solve_decision. Defined.
#[export] Instance CommunityPeerRecord_eq_dec : EqDecision CommunityPeerRecord.
Proof. solve_decision. Defined.
#[export] Instance PeerInfoRecord_eq_dec : EqDecision PeerInfoRecord.
Proof. solve_decision. Defined.

(** ** [KBucket] *)

Notation entry := (NodeId * NodeAddr)%type (only parsing).
Notation KBucket := (list (bytes * NodeAddr)) (only parsing).

Definition has_id (id : NodeId) (e : entry) : bool := bool_decide (e.1 = id).

(** [Vec::remove(i)]. *)
Definition vec_remove {A} (i : nat) (l : list A) : list A := delete i l.

Definition upsert (id : NodeId) (addr : NodeAddr) (entries : KBucket) : KBucket :=
  let entries' :=
    match position (has_id id) entries with
    | Some pos => vec_remove pos entries
    | None => if (K <=? length entries)%nat then vec_remove 0 entries else entries
    end in
  entries' ++ [(id, addr)].

(** ** [DhtState] *)

Record DhtState := mkDht {
  node_id : NodeId;
  self_addr : option NodeAddr;
  routing_table : list KBucket;
  mailboxes : gmap bytes MailboxRecord;
  community_peers : gmap bytes (list CommunityPeerRecord);
  peer_infos : gmap bytes PeerInfoRecord;
  last_discover : gmap bytes Z;
  last_announce : gmap bytes Z }.

Definition dht_new (node_pk : bytes) (addr : option NodeAddr) : DhtState :=
  {| node_id := node_pk; self_addr := addr; routing_table := replicate 256 [];
     mailboxes := ∅; community_peers := ∅; peer_infos := ∅;
     last_discover := ∅; last_announce := ∅ |}.

Definition set_self_addr (addr : NodeAddr) (s : DhtState) : DhtState :=
  mkDht (node_id s) (Some addr) (routing_table s) (mailboxes s) (community_peers s)
    (peer_infos s) (last_discover s) (last_announce s).
Definition with_routing_table (rt : list KBucket) (s : DhtState) : DhtState :=
  mkDht (node_id s) (self_addr s) rt (mailboxes s) (community_peers s)
    (peer_infos s) (last_discover s) (last_announce s).
Definition with_mailboxes m (s : DhtState) : DhtState :=
  mkDht (node_id s) (self_addr s) (routing_table s) m (community_peers s)
    (peer_infos s) (last_discover s) (last_announce s).
Definition with_community_peers m (s : DhtState) : DhtState :=
  mkDht (node_id s) (self_addr s) (routing_table s) (mailboxes s) m
    (peer_infos s) (last_discover s) (last_announce s).
Definition with_peer_infos m (s : DhtState) : DhtState :=
  mkDht (node_id s) (self_addr s) (routing_table s) (mailboxes s) (community_peers s)
    m (last_discover s) (last_announce s).
Definition with_last_discover m (s : DhtState) : DhtState :=
  mkDht (node_id s) (self_addr s) (routing_table s) (mailboxes s) (community_peers s)
    (peer_infos s) m (last_announce s).
Definition with_last_announce m (s : DhtState) : DhtState :=
  mkDht (node_id s) (self_addr s) (routing_table s) (mailboxes s) (community_peers s)
    (peer_infos s) (last_discover s) m.

(** *** Cooldowns *)

(** The test shared by the two slots: never acquired, or acquired at least [cooldown]
    ago. [Instant::duration_since] saturates at zero. *)
Definition slot_free (map : gmap bytes Z) (community_pk : bytes) (now cooldown : Z) : bool :=
  match map !! community_pk with
  | None => true
  | Some t => cooldown <=? sat_sub now t
  end.

Definition acquire_discover_slot (now : Z) (community_pk : bytes) (cooldown : Z)
    (s : DhtState) : DhtState * bool :=
  if slot_free (last_discover s) community_pk now cooldown
  then (with_last_discover (<[community_pk := now]> (last_discover s)) s, true)
  else (s, false).

Definition acquire_announce_slot (now : Z) (community_pk : bytes) (cooldown : Z)
    (s : DhtState) : DhtState * bool :=
  if slot_free (last_announce s) community_pk now cooldown
  then (with_last_announce (<[community_pk := now]> (last_announce s)) s, true)
  else (s, false).

(** *** Routing table *)

Definition add_peer (id : NodeId) (addr : NodeAddr) (s : DhtState) : DhtState :=
  if decide (id = node_id s) then s
  else
    let dist := distance (node_id s) id in
    match bucket_index dist with
    | Some bucket_idx =>
        with_routing_table
          (alter (upsert id addr) (Z.to_nat bucket_idx) (routing_table s)) s
    | None => s
    end.

Definition closer (target : NodeId) (a b : entry) : bool :=
  lex_leb (distance target a.1) (distance target b.1).

Definition closest_peers (target : NodeId) (count : nat) (s : DhtState) : list entry :=
  take count (sort_by (closer target) (concat (routing_table s))).

(** *** Mailbox records *)

Definition announce_mailbox (now : Z) (user_pk : bytes) (s : DhtState) : DhtState :=
  match self_addr s with
  | Some addr =>
      with_mailboxes (<[user_pk := mkMailbox addr (now + MAILBOX_TTL)]> (mailboxes s)) s
  | None => s
  end.

Definition lookup_mailbox (now : Z) (user_pk : bytes) (s : DhtState) : option NodeAddr :=
  rec ← mailboxes s !! user_pk;
  if now <? expires_at rec then Some (mb_addr rec) else None.

Definition add_mailbox_record (now : Z) (user_pk : bytes) (addr : NodeAddr)
    (s : DhtState) : DhtState :=
  with_mailboxes (<[user_pk := mkMailbox addr (now + MAILBOX_TTL)]> (mailboxes s)) s.

(** *** Community peer records *)

(** [unix_now]: whole seconds since the epoch; zero for a clock set before it. *)
Definition unix_now (system_time_ns : Z) : Z :=
  if system_time_ns <? 0 then 0 else system_time_ns / NANOS.

Definition is_node (node_pk : bytes) (r : CommunityPeerRecord) : bool :=
  bool_decide (cp_node_pk r = node_pk).

Definition newest_first (a b : CommunityPeerRecord) : bool :=
  cp_announced_at b <=? cp_announced_at a.

Definition announce_in_list (now : Z) (node_pk : bytes) (addr : NodeAddr)
    (peers : list CommunityPeerRecord) : list CommunityPeerRecord :=
  if any (is_node node_pk) peers
  then update_first (is_node node_pk) (λ r, mkPeer (cp_node_pk r) addr now) peers
  else
    let peers' := peers ++ [mkPeer node_pk addr now] in
    if (K <? length peers')%nat then take K (sort_by newest_first peers') else peers'.

Definition peers_of (community_pk : bytes) (s : DhtState) : list CommunityPeerRecord :=
  default [] (community_peers s !! community_pk).

Definition announce_community_peer (now : Z) (community_pk node_pk : bytes)
    (addr : NodeAddr) (s : DhtState) : DhtState :=
  with_community_peers
    (<[community_pk := announce_in_list now node_pk addr (peers_of community_pk s)]>
       (community_peers s)) s.

Definition peer_fresh (now : Z) (r : CommunityPeerRecord) : bool :=
  sat_sub now (cp_announced_at r) <? COMMUNITY_PEER_TTL_SECS.

Definition lookup_community_peers (now : Z) (community_pk : bytes) (s : DhtState)
    : list CommunityPeerRecord :=
  match community_peers s !! community_pk with
  | Some peers => retain (peer_fresh now) peers
  | None => []
  end.

Definition add_community_peer_record (community_pk : bytes) (record : CommunityPeerRecord)
    (s : DhtState) : DhtState :=
  let peers := peers_of community_pk s in
  let peers' :=
    if any (is_node (cp_node_pk record)) peers
    then update_first (is_node (cp_node_pk record)) (λ _, record) peers
    else peers ++ [record] in
  with_community_peers (<[community_pk := peers']> (community_peers s)) s.

Definition all_community_peers (s : DhtState) : gmap bytes (list CommunityPeerRecord) :=
  community_peers s.

(** *** Peer info records *)

Definition announce_peer_info (now : Z) (peer_id x25519_pk : bytes) (addr : NodeAddr)
    (display_name : string) (s : DhtState) : DhtState :=
  with_peer_infos
    (<[peer_id := mkPeerInfo x25519_pk addr now display_name]> (peer_infos s)) s.

Definition info_fresh (now : Z) (rec : PeerInfoRecord) : bool :=
  sat_sub now (pi_announced_at rec) <? PEER_INFO_TTL_SECS.

Definition lookup_peer_info (now : Z) (peer_id : bytes) (s : DhtState)
    : option PeerInfoRecord :=
  rec ← peer_infos s !! peer_id; if info_fresh now rec then Some rec else None.

Definition add_peer_info_record (peer_id : bytes) (record : PeerInfoRecord) (s : DhtState)
    : DhtState :=
  with_peer_infos (<[peer_id := record]> (peer_infos s)) s.

(** *** Expiry *)

Definition map_retain {V} (p : V → bool) (m : gmap bytes V) : gmap bytes V :=
  base.filter (λ kv, p kv.2 = true) m.

Definition is_nonempty {A} (l : list A) : bool := match l with [] => false | _ => true end.

Definition expire_community_peers (now : Z) (s : DhtState) : DhtState :=
  with_community_peers
    (map_retain is_nonempty (retain (peer_fresh now) <$> community_peers s)) s.

Definition expire_peer_infos (now : Z) (s : DhtState) : DhtState :=
  with_peer_infos (map_retain (info_fresh now) (peer_infos s)) s.

Definition expire_records (instant now : Z) (s : DhtState) : DhtState :=
  let s := with_mailboxes (map_retain (λ rec, instant <? expires_at rec) (mailboxes s)) s in
  expire_peer_infos now (expire_community_peers now s).

(** ** The XOR metric and the bucket index *)

Lemma log2_add_low b k r : 0 < b → 0 ≤ k → 0 ≤ r < 2 ^ k →
  Z.log2 (b * 2 ^ k + r) = Z.log2 b + k.
Proof.
  intros Hb Hk Hr. pose proof (Z.log2_spec b Hb) as [Hlo Hhi].
  pose proof (Z.log2_nonneg b). apply Z.log2_unique; [lia|].
  rewrite <-Z.add_succ_l, !Z.pow_add_r by lia.
  set (p := 2 ^ k) in *. set (q := 2 ^ Z.log2 b) in *.
  rewrite Z.pow_succ_r in * by lia. fold q in Hhi |- *. nia.
Qed.

Lemma bucket_index_from_spec idx d :
  Forall is_byte d → idx + Z.of_nat (length d) = 32 →
  bucket_index_from idx d =
    if decide (of_be d = 0) then None else Some (Z.log2 (of_be d)).
Proof.
  intros Hd; revert idx; induction Hd as [|b d Hb Hd IH]; intros idx Hlen; cbn in *; [done|].
  rewrite of_be_cons. pose proof (of_be_bound d Hd). unfold is_byte in Hb.
  destruct (Z.eqb_spec b 0) as [->|Hb0].
  - rewrite IH by lia. by rewrite Z.mul_0_l, Z.add_0_l.
  - rewrite decide_False by nia. f_equal. unfold leading_zeros.
    change 256 with (2 ^ 8) in *. rewrite <-Z.pow_mul_r in * by lia.
    rewrite log2_add_low by lia. lia.
Qed.

Lemma bucket_index_log2 d :
  wf_key d →
  bucket_index d = if decide (of_be d = 0) then None else Some (Z.log2 (of_be d)).
Proof. intros [Hlen Hd]. apply bucket_index_from_spec; [done|]. rewrite Hlen. done. Qed.

Lemma distance_self_zero a b :
  wf_key a → wf_key b → of_be (distance a b) = 0 ↔ a = b.
Proof.
  intros Ha Hb. assert (wf_key (distance a b)) as [Hlen Hok] by (unfold distance; auto with bytes_db).
  destruct Ha as [Ha _], Hb as [Hb _].
  assert (of_be (replicate 32 0) = 0) as Hz by done.
  split.
  - intros H0. apply (xor_bytes_inj a); [congruence..|]. rewrite xor_bytes_self, Ha.
    symmetry. fold (distance a b). rewrite <-(be_bytes_of_be (distance a b)) by done.
    by rewrite H0, Hlen.
  - intros ->. unfold distance. by rewrite xor_bytes_self, Hb.
Qed.

Lemma bucket_index_distance a b :
  wf_key a → wf_key b → a ≠ b →
  ∃ i, bucket_index (distance a b) = Some i ∧ 0 ≤ i < 256 ∧
       2 ^ i ≤ of_be (distance a b) < 2 ^ (i + 1).
Proof.
  intros Ha Hb Hne. assert (wf_key (distance a b)) as Hd by (unfold distance; auto with bytes_db).
  rewrite bucket_index_log2 by done. pose proof (distance_self_zero a b Ha Hb) as Hz.
  rewrite decide_False by naive_solver. eexists; split; [done|].
  pose proof (of_be_bound _ (proj2 Hd)) as Hbd. rewrite (proj1 Hd) in Hbd.
  assert (0 < of_be (distance a b)) as Hpos by (destruct (decide (of_be (distance a b) = 0)); [naive_solver|lia]).
  pose proof (Z.log2_spec _ Hpos). pose proof (Z.log2_nonneg (of_be (distance a b))).
  split; [|lia]. split; [lia|]. apply Z.log2_lt_pow2; [done|]. apply Hbd.
Qed.

(** ** The routing-table invariant *)

(** Bucket [i] holds at most [K] distinct peers whose XOR distance to this node lies in
    [2^i, 2^(i+1)). *)
Definition bucket_ok (self : NodeId) (i : nat) (b : KBucket) : Prop :=
  (length b ≤ K)%nat ∧ NoDup b.*1 ∧
  ∀ e, e ∈ b → wf_key e.1 ∧ bucket_index (distance self e.1) = Some (Z.of_nat i).

Definition rt_inv (s : DhtState) : Prop :=
  wf_key (node_id s) ∧ length (routing_table s) = 256%nat ∧
  ∀ i b, routing_table s !! i = Some b → bucket_ok (node_id s) i b.

(** The peers the table knows. *)
Definition table (s : DhtState) : list entry := concat (routing_table s).

(** The peer that [add_peer id] drops: the head of a full bucket that lacks [id]. *)
Definition evicted (id : NodeId) (b : KBucket) : option NodeId :=
  if any (has_id id) b then None
  else if (K <=? length b)%nat then fst <$> head b else None.

Definition bucket_of (id : NodeId) (s : DhtState) : KBucket :=
  match bucket_index (distance (node_id s) id) with
  | Some i => default [] (routing_table s !! Z.to_nat i)
  | None => []
  end.

Lemma has_id_true id e : has_id id e = true ↔ e.1 = id.
Proof. apply bool_decide_eq_true. Qed.
Lemma has_id_false id e : has_id id e = false ↔ e.1 ≠ id.
Proof. apply bool_decide_eq_false. Qed.
#[export] Hint Rewrite has_id_true has_id_false : bytes_db.

Lemma delete_position id b :
  NoDup b.*1 → (∃ a, (id, a) ∈ b) →
  ∃ i, position (has_id id) b = Some i ∧ vec_remove i b = retain (λ e, negb (has_id id e)) b.
Proof.
  unfold vec_remove. induction b as [|[j a] b IH]; csimpl.
  { intros _ (a & []%elem_of_nil). }
  intros [Hj Hnd]%NoDup_cons (a' & Hin). cbn [position]. unfold retain. cbn [List.filter].
  destruct (has_id id (j, a)) eqn:Hd; cbn [negb].
  - rewrite has_id_true in Hd. cbn in Hd; subst j. exists 0%nat. split; [done|]. cbn.
    symmetry. apply retain_all. intros e He. rewrite negb_true_iff, has_id_false.
    intros <-. apply Hj, list_elem_of_fmap. eauto.
  - rewrite has_id_false in Hd. cbn in Hd.
    rewrite elem_of_cons in Hin. destruct Hin as [[= -> ->]|Hin]; [done|].
    destruct IH as (i & -> & Hi); [done|eauto|]. exists (S i). split; [done|].
    cbn. f_equal. exact Hi.
Qed.

(** [upsert] on a duplicate-free bucket, without the index arithmetic. *)
Lemma upsert_spec id addr b :
  NoDup b.*1 →
  upsert id addr b =
    (if any (has_id id) b then retain (λ e, negb (has_id id e)) b
     else if (K <=? length b)%nat then tail b else b) ++ [(id, addr)].
Proof.
  intros Hnd. unfold upsert. f_equal. destruct (any (has_id id) b) eqn:Hany.
  - apply any_true in Hany as ([j a] & ? & Hj). rewrite has_id_true in Hj. cbn in Hj; subst.
    destruct (delete_position id b) as (i & -> & ->); eauto.
  - rewrite any_false, <-position_None in Hany. rewrite Hany.
    destruct (K <=? length b)%nat; [|done]. by destruct b.
Qed.

Lemma upsert_elem id addr b e :
  NoDup b.*1 →
  e ∈ upsert id addr b ↔
    e = (id, addr) ∨ (e.1 ≠ id ∧ e ∈ b ∧ evicted id b ≠ Some e.1).
Proof.
  intros Hnd. rewrite upsert_spec by done. rewrite elem_of_app, list_elem_of_singleton.
  unfold evicted. destruct (any (has_id id) b) eqn:Hany.
  - rewrite elem_of_retain, negb_true_iff, has_id_false. naive_solver.
  - rewrite any_false in Hany.
    assert (∀ x, x ∈ b → x.1 ≠ id) as Hne by (intros x ?; by apply has_id_false, Hany).
    destruct (K <=? length b)%nat; [|naive_solver].
    destruct b as [|x b]; csimpl; [set_solver|].
    apply NoDup_cons in Hnd as [Hx Hnd]. split.
    + intros [He|]; [|auto]. right. rewrite elem_of_cons. split_and!; [set_solver|auto|].
      intros [= Heq]. apply Hx. rewrite Heq. apply list_elem_of_fmap. eauto.
    + rewrite elem_of_cons. intros [->|(? & [->|?] & ?)]; naive_solver.
Qed.

Lemma upsert_NoDup id addr b : NoDup b.*1 → NoDup (upsert id addr b).*1.
Proof.
  intros Hnd. pose proof (upsert_elem id addr b) as Helem.
  rewrite upsert_spec in * by done. rewrite fmap_app. apply NoDup_app. split_and!.
  - destruct (any (has_id id) b); [|destruct (K <=? length b)%nat; [|done]].
    + by apply retain_NoDup_fmap.
    + destruct b; [done|]. csimpl. by apply NoDup_cons in Hnd as [_ ?].
  - csimpl. intros j Hj ->%list_elem_of_singleton.
    destruct (any (has_id id) b) eqn:Hany.
    + apply list_elem_of_fmap in Hj as ([k a] & -> & [Hk _]%elem_of_retain).
      by rewrite negb_true_iff, has_id_false in Hk.
    + rewrite any_false in Hany.
      assert (id ∈ b.*1) as Hin.
      { revert Hj. destruct (K <=? length b)%nat; [|done].
        destruct b; csimpl; [done|]. intros ?. by right. }
      apply list_elem_of_fmap in Hin as ([k a] & -> & Hk).
      apply Hany in Hk. by rewrite has_id_false in Hk.
  - apply NoDup_singleton.
Qed.

Lemma upsert_length id addr b :
  NoDup b.*1 → (length b ≤ K)%nat → (length (upsert id addr b) ≤ K)%nat.
Proof.
  intros Hnd Hlen. rewrite upsert_spec by done. rewrite length_app. cbn [length].
  destruct (any (has_id id) b) eqn:Hany.
  - apply any_true in Hany as (x & Hx & Hid). unfold retain.
    pose proof (retain_length_lt (λ e, negb (has_id id e)) b x Hx) as Hlt.
    cbn beta in Hlt. rewrite Hid in Hlt. specialize (Hlt eq_refl). unfold retain in *. lia.
  - destruct (Nat.leb_spec K (length b)); [|lia]. destruct b; cbn in *; unfold K in *; lia.
Qed.

Lemma elem_of_table s e :
  e ∈ table s ↔ ∃ i b, routing_table s !! i = Some b ∧ e ∈ b.
Proof. apply elem_of_concat. Qed.

Lemma upsert_bucket_ok self id addr b i :
  wf_key id → bucket_index (distance self id) = Some (Z.of_nat i) →
  bucket_ok self i b → bucket_ok self i (upsert id addr b).
Proof.
  intros Hid Hi (Hlen & Hnd & Hb). split_and!.
  - by apply upsert_length.
  - by apply upsert_NoDup.
  - intros e [->|(_ & ? & _)]%upsert_elem; auto.
Qed.

(** The bucket that [add_peer] writes always exists. *)
Lemma add_peer_step id addr s :
  rt_inv s → wf_key id → id ≠ node_id s →
  ∃ i b, bucket_index (distance (node_id s) id) = Some (Z.of_nat i) ∧
    routing_table s !! i = Some b ∧ bucket_of id s = b ∧
    add_peer id addr s = with_routing_table (<[i := upsert id addr b]> (routing_table s)) s.
Proof.
  intros (Hself & Hlen & Hbk) Hid Hne.
  destruct (bucket_index_distance (node_id s) id) as (i & Hi & Hr & _); [done..|].
  destruct (lookup_lt_is_Some_2 (routing_table s) (Z.to_nat i)) as [b Hb]; [lia|].
  exists (Z.to_nat i), b. rewrite Z2Nat.id by lia. split_and!; [done..| |].
  - unfold bucket_of. by rewrite Hi, Hb.
  - unfold add_peer. rewrite decide_False by done. rewrite Hi. f_equal.
    by apply alter_as_insert.
Qed.

Lemma rt_inv_new pk addr : wf_key pk → rt_inv (dht_new pk addr).
Proof.
  intros ?. split_and!; [done..|]. intros i b [-> _]%lookup_replicate.
  split_and!; [cbn; lia|constructor|by intros e []%elem_of_nil].
Qed.

Lemma rt_inv_add_peer id addr s : rt_inv s → wf_key id → rt_inv (add_peer id addr s).
Proof.
  intros Hinv Hid. destruct (decide (id = node_id s)) as [->|Hne].
  { unfold add_peer. by rewrite decide_True. }
  destruct (add_peer_step id addr s) as (i & b & Hi & Hb & _ & ->); [done..|].
  destruct Hinv as (Hself & Hlen & Hbk). split_and!; cbn; [done|by rewrite length_insert|].
  intros j b' [(-> & <- & _)|[? Hj]]%list_lookup_insert_Some; [|by apply Hbk].
  apply upsert_bucket_ok; auto.
Qed.
#[export] Hint Resolve rt_inv_new rt_inv_add_peer : bytes_db.

(** Membership in the table after [add_peer]. *)
Lemma add_peer_table id addr s e :
  rt_inv s → wf_key id → id ≠ node_id s →
  e ∈ table (add_peer id addr s) ↔
    e = (id, addr) ∨ (e.1 ≠ id ∧ e ∈ table s ∧ evicted id (bucket_of id s) ≠ Some e.1).
Proof.
  intros Hinv Hid Hne.
  destruct (add_peer_step id addr s) as (i & b & Hi & Hb & -> & ->); [done..|].
  destruct Hinv as (Hself & Hlen & Hbk). pose proof (Hbk _ _ Hb) as (_ & Hnd & Hin).
  rewrite !elem_of_table. cbn. split.
  - intros (j & b' & [(-> & <- & _)|[Hji Hj]]%list_lookup_insert_Some & He).
    + apply upsert_elem in He as [->|(?&?&?)]; [by left|right; eauto 10|done].
    + right. destruct (Hbk _ _ Hj) as (_ & _ & Hbj). destruct (Hbj _ He) as [_ Hidx].
      split_and!; [|by eauto|].
      * intros Heq. rewrite Heq in Hidx. rewrite Hi in Hidx. injection Hidx. lia.
      * unfold evicted. destruct (any (has_id id) b); [done|].
        destruct (K <=? length b)%nat; [|done]. destruct b as [|x b]; [done|]. cbn.
        intros [= Heq]. destruct (Hin x) as [_ Hx]; [by left|].
        rewrite Heq, Hidx in Hx. injection Hx. lia.
  - intros [->|(Hej & (j & b' & Hj & He) & Hev)].
    + exists i, (upsert id addr b). rewrite list_lookup_insert_eq by by eapply lookup_lt_Some.
      split; [done|]. apply upsert_elem; auto.
    + destruct (decide (j = i)) as [->|Hji].
      * rewrite Hb in Hj; injection Hj as <-. exists i, (upsert id addr b).
        rewrite list_lookup_insert_eq by by eapply lookup_lt_Some.
        split; [done|]. apply upsert_elem; auto.
      * exists j, b'. by rewrite list_lookup_insert_ne.
Qed.

Lemma table_NoDup s : rt_inv s → NoDup (table s).*1.
Proof.
  intros (Hself & Hlen & Hbk). apply concat_NoDup_fmap.
  - intros i b Hb. by apply (Hbk i b).
  - intros i j b c x y Hb Hc Hx Hy Heq.
    destruct (Hbk _ _ Hb) as (_ & _ & Hbi). destruct (Hbk _ _ Hc) as (_ & _ & Hcj).
    destruct (Hbi _ Hx) as [_ H1]. destruct (Hcj _ Hy) as [_ H2].
    rewrite Heq in H1. rewrite H1 in H2. injection H2. lia.
Qed.

Lemma table_wf s e : rt_inv s → e ∈ table s → wf_key e.1 ∧ e.1 ≠ node_id s.
Proof.
  intros (Hself & Hlen & Hbk) (i & b & Hb & He)%elem_of_table.
  destruct (Hbk _ _ Hb) as (_ & _ & Hbi). destruct (Hbi _ He) as [? Hi]. split; [done|].
  intros Heq. rewrite Heq, bucket_index_log2, decide_True in Hi; [done| |].
  - by apply distance_self_zero.
  - unfold distance. auto with bytes_db.
Qed.

(** ** Properties of the routing table *)

(** The bucket of a peer is the position of the highest set bit of its XOR distance
    to this node, read as a 256-bit big-endian number; it is below 256, and only the
    node itself has none. *)
Theorem bucket_index_spec self id :
  wf_key self → wf_key id →
  (bucket_index (distance self id) = None ↔ id = self) ∧
  ∀ i, bucket_index (distance self id) = Some i ↔
       0 ≤ i < 256 ∧ 2 ^ i ≤ of_be (distance self id) < 2 ^ (i + 1).
Proof.
  intros Hself Hid. assert (wf_key (distance self id)) as Hd by (unfold distance; auto with bytes_db).
  pose proof (distance_self_zero self id Hself Hid) as Hz. split.
  - rewrite bucket_index_log2 by done. case_decide; naive_solver.
  - intros i. split.
    + intros Hi. destruct (decide (self = id)) as [->|Hne].
      * rewrite bucket_index_log2, decide_True in Hi by naive_solver. done.
      * destruct (bucket_index_distance self id) as (j & Hj & ? & ?); [done..|].
        rewrite Hi in Hj. by injection Hj as <-.
    + intros (Hr & Hlo & Hhi). rewrite bucket_index_log2 by done.
      pose proof (Z.pow_pos_nonneg 2 i). rewrite decide_False by lia. f_equal.
      apply Z.log2_unique; [lia|]. by rewrite <-Z.add_1_r.
Qed.

Definition key_of (b : Z) : bytes := replicate 32 b.
Lemma wf_key_of b : is_byte b → wf_key (key_of b).
Proof. apply wf_array_replicate. Qed.
#[export] Hint Resolve wf_key_of : bytes_db.

Lemma bucket_index_spec_witness :
  wf_key (key_of 0) ∧ wf_key (key_of 1) ∧
  (bucket_index (distance (key_of 0) (key_of 1)) = None ↔ key_of 1 = key_of 0) ∧
  ∀ i, bucket_index (distance (key_of 0) (key_of 1)) = Some i ↔
       0 ≤ i < 256 ∧ 2 ^ i ≤ of_be (distance (key_of 0) (key_of 1)) < 2 ^ (i + 1).
Proof.
  split; [by apply wf_key_of|]. split; [by apply wf_key_of|].
  apply bucket_index_spec; by apply wf_key_of.
Defined.

(** [add_peer] keeps the routing-table invariant, and afterwards the table holds
    exactly the added peer at its new address plus every peer it held before, except the
    oldest entry of the peer's bucket when that bucket was full and lacked the peer. The
    node never enters its own table. *)
Theorem add_peer_correct id addr s :
  rt_inv s → wf_key id →
  rt_inv (add_peer id addr s) ∧
  (id = node_id s → add_peer id addr s = s) ∧
  (id ≠ node_id s → ∀ e, e ∈ table (add_peer id addr s) ↔
     e = (id, addr) ∨
     (e.1 ≠ id ∧ e ∈ table s ∧ evicted id (bucket_of id s) ≠ Some e.1)).
Proof.
  intros Hs Hid. split_and!.
  - by apply rt_inv_add_peer.
  - intros ->. unfold add_peer. by rewrite decide_True.
  - intros Hne e. by apply add_peer_table.
Qed.

Definition addr_n (n : Z) : NodeAddr := mkNodeAddr (V4 [127; 0; 0; 1]) n.
(** A 21-peer run into one bucket: the table of the first 20 distinct far peers. *)
Definition far_id (i : Z) : bytes := replicate 31 255 ++ [i].
Definition full_dht : DhtState :=
  foldl (λ s i, add_peer (far_id i) (addr_n (9000 + i)) s) (dht_new (key_of 0) None) (seqZ 0 20).

Lemma wf_far_id i : is_byte i → wf_key (far_id i).
Proof.
  intros ?. apply (wf_array_app 31 1); [by apply wf_array_replicate|].
  split; [done|by apply Forall_singleton].
Qed.
Lemma rt_inv_adds (l : list Z) s :
  Forall is_byte l → rt_inv s →
  rt_inv (foldl (λ s i, add_peer (far_id i) (addr_n (9000 + i)) s) s l).
Proof.
  intros Hl; revert s; induction Hl as [|i l Hi Hl IH]; intros s Hs; cbn; [done|].
  by apply IH, rt_inv_add_peer, wf_far_id.
Qed.
Lemma rt_inv_full_dht : rt_inv full_dht.
Proof.
  apply rt_inv_adds; [vm_compute; repeat constructor; done|].
  apply rt_inv_new. by apply wf_key_of.
Qed.

Lemma add_peer_correct_witness :
  let s := add_peer (far_id 20) (addr_n 9020) full_dht in
  length (table full_dht) = 20%nat ∧ length (table s) = 20%nat ∧
  evicted (far_id 20) (bucket_of (far_id 20) full_dht) = Some (far_id 0) ∧ rt_inv s.
Proof.
  cbv zeta. do 3 (split; [vm_compute; reflexivity|]).
  apply (add_peer_correct (far_id 20) (addr_n 9020) full_dht).
  - apply rt_inv_full_dht.
  - by apply wf_far_id.
Defined.

Lemma closer_total t a b : closer t a b = true ∨ closer t b a = true.
Proof. apply lex_le_total. Qed.
Lemma closer_trans t a b c : closer t a b = true → closer t b c = true → closer t a c = true.
Proof. apply lex_le_trans. Qed.
#[export] Hint Resolve closer_total closer_trans : bytes_db.

(** [closest_peers t n] returns the [min n size] known peers nearest to [t] in the XOR
    metric: distinct peers of the table, in order of increasing distance, and no peer it
    leaves out is nearer than one it returns. *)
Theorem closest_peers_correct t n s :
  rt_inv s →
  let r := closest_peers t n s in
  length r = Nat.min n (length (table s)) ∧ NoDup r.*1 ∧ (∀ e, e ∈ r → e ∈ table s) ∧
  StronglySorted (λ a b, lex_le (distance t a.1) (distance t b.1)) r ∧
  ∀ e e', e ∈ r → e' ∈ table s → e' ∉ r → lex_le (distance t e.1) (distance t e'.1).
Proof.
  intros Hs r. unfold r, closest_peers. fold (table s).
  set (l := sort_by (closer t) (table s)).
  assert (StronglySorted (λ a b, closer t a b = true) l) as Hl
    by (apply sort_by_sorted; eauto with bytes_db).
  rewrite <-(take_drop n l) in Hl. apply StronglySorted_app in Hl as (Hcross & Htake & _).
  split_and!.
  - rewrite length_take. unfold l. by rewrite length_sort_by.
  - apply (sublist_NoDup _ l.*1); [|apply fmap_sublist, sublist_take].
    unfold l. rewrite sort_by_perm. by apply table_NoDup.
  - intros e He%subseteq_take. by apply elem_of_sort_by in He.
  - done.
  - intros e e' He He' Hout. apply Hcross; [done|].
    rewrite <-(elem_of_sort_by (closer t)) in He'. fold l in He'.
    rewrite <-(take_drop n l), elem_of_app in He'. naive_solver.
Qed.

Lemma closest_peers_correct_witness :
  let r := closest_peers (far_id 7) 3 full_dht in
  r.*1 = [far_id 7; far_id 6; far_id 5] ∧ NoDup r.*1.
Proof.
  split; [vm_compute; reflexivity|].
  destruct (closest_peers_correct (far_id 7) 3 full_dht) as (_ & Hnd & _);
    [apply rt_inv_full_dht|exact Hnd].
Defined.

(** ** Expiry *)

Lemma lookup_map_retain {V} (p : V → bool) (m : gmap bytes V) k :
  map_retain p m !! k = (v ← m !! k; if p v then Some v else None).
Proof.
  unfold map_retain. rewrite map_lookup_filter. destruct (m !! k) as [v|]; cbn; [|done].
  destruct (p v) eqn:Hp; case_guard; naive_solver congruence.
Qed.

Lemma peer_fresh_mono now now' r :
  now ≤ now' → peer_fresh now' r = true → peer_fresh now r = true.
Proof. unfold peer_fresh, sat_sub. rewrite !Z.ltb_lt. lia. Qed.
Lemma info_fresh_mono now now' r :
  now ≤ now' → info_fresh now' r = true → info_fresh now r = true.
Proof. unfold info_fresh, sat_sub. rewrite !Z.ltb_lt. lia. Qed.

Lemma retain_retain {A} (p q : A → bool) l :
  (∀ x, q x = true → p x = true) → retain q (retain p l) = retain q l.
Proof.
  intros Hpq. unfold retain. induction l as [|x l IH]; cbn; [done|].
  destruct (p x) eqn:Hp; cbn; [by rewrite IH|].
  destruct (q x) eqn:Hq; [rewrite Hpq in Hp by done; done|done].
Qed.
Lemma retain_none {A} (p q : A → bool) l :
  (∀ x, q x = true → p x = true) → retain p l = [] → retain q l = [].
Proof. intros Hpq Hp. by rewrite <-(retain_retain p q), Hp. Qed.

Section expiry.
Context (instant now instant' now' : Z) (s : DhtState).
Context (Hinstant : instant ≤ instant') (Hnow : now ≤ now').

Lemma lookup_mailbox_expire pk :
  lookup_mailbox instant' pk (expire_records instant now s) = lookup_mailbox instant' pk s.
Proof using Hinstant.
  unfold lookup_mailbox, expire_records; cbn. rewrite lookup_map_retain.
  destruct (mailboxes s !! pk) as [r|]; cbn; [|done].
  destruct (Z.ltb_spec instant (expires_at r)); cbn; [done|].
  by destruct (Z.ltb_spec instant' (expires_at r)); [lia|].
Qed.
Lemma lookup_peers_expire pk :
  lookup_community_peers now' pk (expire_records instant now s) =
  lookup_community_peers now' pk s.
Proof using Hnow.
  unfold lookup_community_peers, expire_records; cbn.
  rewrite lookup_map_retain, lookup_fmap.
  destruct (community_peers s !! pk) as [l|]; cbn; [|done].
  pose proof (λ r, peer_fresh_mono now now' r Hnow) as Hmono.
  destruct (retain (peer_fresh now) l) as [|x l'] eqn:Hl; cbn -[retain].
  - symmetry. by apply (retain_none (peer_fresh now)).
  - rewrite <-Hl. by apply retain_retain.
Qed.
Lemma lookup_info_expire pk :
  lookup_peer_info now' pk (expire_records instant now s) = lookup_peer_info now' pk s.
Proof using Hnow.
  unfold lookup_peer_info, expire_records; cbn. rewrite lookup_map_retain.
  destruct (peer_infos s !! pk) as [r|]; cbn; [|done].
  destruct (info_fresh now r) eqn:Hr; cbn; [done|].
  destruct (info_fresh now' r) eqn:Hr'; [|done].
  apply (info_fresh_mono now now') in Hr'; [congruence|done].
Qed.
End expiry.

(** The periodic expiry is invisible to every lookup made at or after it, for all three
    record kinds, leaves the routing table alone, and removes every dead record: what
    remains is unexpired, and no community keeps an empty peer list. *)
Theorem expire_records_correct instant now instant' now' s :
  instant ≤ instant' → now ≤ now' →
  let s' := expire_records instant now s in
  (∀ pk, lookup_mailbox instant' pk s' = lookup_mailbox instant' pk s ∧
         lookup_community_peers now' pk s' = lookup_community_peers now' pk s ∧
         lookup_peer_info now' pk s' = lookup_peer_info now' pk s) ∧
  routing_table s' = routing_table s ∧
  (∀ pk r, mailboxes s' !! pk = Some r → instant < expires_at r) ∧
  (∀ pk l, community_peers s' !! pk = Some l → l ≠ [] ∧ Forall (λ r, peer_fresh now r = true) l) ∧
  (∀ pk r, peer_infos s' !! pk = Some r → info_fresh now r = true).
Proof.
  intros Hi Hn s'. split_and!.
  - intros pk. split_and!.
    + by apply lookup_mailbox_expire.
    + by apply lookup_peers_expire.
    + by apply lookup_info_expire.
  - done.
  - intros pk r. cbn. rewrite lookup_map_retain. intros (v & _ & Hv)%bind_Some.
    destruct (Z.ltb_spec instant (expires_at v)); naive_solver.
  - intros pk l. cbn. rewrite lookup_map_retain, lookup_fmap.
    destruct (community_peers s !! pk) as [l'|]; cbn; [|done].
    destruct (retain (peer_fresh now) l') as [|x k] eqn:Hk; cbn -[retain]; [done|].
    intros [= <-]. split; [done|]. rewrite <-Hk. apply Forall_forall.
    by intros r [? _]%elem_of_retain.
  - intros pk r. cbn. rewrite lookup_map_retain. intros (v & _ & Hv)%bind_Some.
    destruct (info_fresh now v) eqn:?; naive_solver.
Qed.

Lemma expire_records_correct_witness :
  let s := add_mailbox_record 0 (key_of 3) (addr_n 1) (dht_new (key_of 0) None) in
  lookup_mailbox 5 (key_of 3) s = Some (addr_n 1) ∧
  lookup_mailbox 5 (key_of 3) (expire_records 0 0 s) = lookup_mailbox 5 (key_of 3) s.
Proof.
  cbv zeta. split; [vm_compute; reflexivity|].
  apply (expire_records_correct 0 0 5 0); lia.
Defined.

(** ** Community peer lists *)

Lemma is_node_true pk r : is_node pk r = true ↔ cp_node_pk r = pk.
Proof. apply bool_decide_eq_true. Qed.
Lemma is_node_false pk r : is_node pk r = false ↔ cp_node_pk r ≠ pk.
Proof. apply bool_decide_eq_false. Qed.

Lemma newest_first_total a b : newest_first a b = true ∨ newest_first b a = true.
Proof. unfold newest_first. rewrite !Z.leb_le. lia. Qed.
Lemma newest_first_trans a b c :
  newest_first a b = true → newest_first b c = true → newest_first a c = true.
Proof. unfold newest_first. rewrite !Z.leb_le. lia. Qed.

Lemma announce_elem_known now pk addr l :
  any (is_node pk) l = true → mkPeer pk addr now ∈ announce_in_list now pk addr l.
Proof.
  intros Hany. unfold announce_in_list. rewrite Hany.
  induction l as [|r l IH]; [done|]. cbn in *.
  destruct (is_node pk r) eqn:Hr; cbn in Hany; [|right; auto].
  apply is_node_true in Hr as <-. left.
Qed.

(** In a full list the announced record is the one dropped exactly when no entry is
    strictly older. *)
Lemma announce_elem_full now pk addr l :
  any (is_node pk) l = false → length l = K →
  mkPeer pk addr now ∈ announce_in_list now pk addr l ↔
    ∃ r, r ∈ l ∧ cp_announced_at r < now.
Proof.
  intros Hany Hlen. unfold announce_in_list. rewrite Hany, length_app, Hlen. cbn [length].
  destruct (Nat.ltb_spec K (K + 1)) as [_|]; [|lia].
  set (new := mkPeer pk addr now). rewrite any_false in Hany.
  assert (new ∉ l) as Hnew by (intros Hin; apply Hany in Hin; by rewrite is_node_false in Hin).
  split.
  - intros Hin. destruct (find_by (λ r, cp_announced_at r <? now) l) as [r|] eqn:Hno.
    { apply find_by_Some in Hno as [? ?%Z.ltb_lt]. eauto. }
    rewrite find_by_None in Hno. rewrite sort_by_snoc in Hin.
    + rewrite take_app_le in Hin by (rewrite length_sort_by; lia).
      apply subseteq_take in Hin. by rewrite elem_of_sort_by in Hin.
    + intros r Hr. unfold newest_first. apply Z.leb_le. cbn.
      specialize (Hno r Hr). cbn in Hno. lia.
  - intros (r & Hr & Hlt).
    set (l' := sort_by newest_first (l ++ [new])).
    assert (StronglySorted (λ a b, newest_first a b = true) l') as Hs
      by (apply sort_by_sorted; eauto using newest_first_total, newest_first_trans).
    rewrite <-(take_drop K l') in Hs. apply StronglySorted_app in Hs as (Hcross & _).
    assert (length (drop K l') = 1)%nat as Hdrop.
    { rewrite length_drop. unfold l'. rewrite length_sort_by, length_app, Hlen. cbn. lia. }
    assert (∀ x, x ∈ l ++ [new] → x ∈ take K l' ∨ x ∈ drop K l') as Hsplit.
    { intros x Hx. rewrite <-elem_of_app, take_drop. unfold l'. by rewrite elem_of_sort_by. }
    destruct (Hsplit new) as [|Hn]; [set_solver|done|].
    destruct (Hsplit r) as [Ht|Hd]; [set_solver| |].
    + specialize (Hcross r new Ht Hn). unfold newest_first in Hcross.
      apply Z.leb_le in Hcross. cbn in Hcross. lia.
    + destruct (drop K l') as [|x [|??]]; [done| |done].
      apply list_elem_of_singleton in Hn as <-, Hd as ->. done.
Qed.

Lemma announce_NoDup now pk addr l :
  NoDup (cp_node_pk <$> l) → NoDup (cp_node_pk <$> announce_in_list now pk addr l).
Proof.
  intros Hnd. unfold announce_in_list. destruct (any (is_node pk) l) eqn:Hany.
  - by rewrite update_first_fmap.
  - assert (NoDup (cp_node_pk <$> (l ++ [mkPeer pk addr now]))) as Hnd'.
    { rewrite fmap_app. csimpl. apply NoDup_app. split_and!; [done| |apply NoDup_singleton].
      intros x Hx ->%list_elem_of_singleton. apply list_elem_of_fmap in Hx as (r & Hpk & Hr).
      rewrite any_false in Hany. apply Hany in Hr. by rewrite is_node_false in Hr. }
    destruct (K <? _)%nat; [|done].
    eapply sublist_NoDup; [|apply fmap_sublist, sublist_take]. by rewrite sort_by_perm.
Qed.

Lemma announce_length now pk addr l :
  (length l ≤ K)%nat → (length (announce_in_list now pk addr l) ≤ K)%nat.
Proof.
  intros Hl. unfold announce_in_list. destruct (any (is_node pk) l).
  - by rewrite length_update_first.
  - destruct (Nat.ltb_spec K (length (l ++ [mkPeer pk addr now]))); [|done].
    rewrite length_take. lia.
Qed.

(** Announcing a member keeps a community's peer list duplicate-free and within [K]
    entries, and leaves other communities alone. The announced peer is listed afterwards
    with the new address and time, except in one case: the list was full, did not know the
    peer, and none of its entries was strictly older than the announcement; then the
    announced peer itself is the one dropped. *)
Theorem announce_community_peer_correct now cpk pk addr s :
  let l := peers_of cpk s in
  let s' := announce_community_peer now cpk pk addr s in
  NoDup (cp_node_pk <$> l) → (length l ≤ K)%nat →
  NoDup (cp_node_pk <$> peers_of cpk s') ∧ (length (peers_of cpk s') ≤ K)%nat ∧
  (∀ c, c ≠ cpk → community_peers s' !! c = community_peers s !! c) ∧
  (mkPeer pk addr now ∈ peers_of cpk s' ↔
     pk ∈ cp_node_pk <$> l ∨ (length l < K)%nat ∨ ∃ r, r ∈ l ∧ cp_announced_at r < now).
Proof.
  intros l s' Hnd Hlen.
  assert (peers_of cpk s' = announce_in_list now pk addr l) as ->
    by (unfold peers_of, s'; cbn; by rewrite lookup_insert_eq).
  split_and!.
  - by apply announce_NoDup.
  - by apply announce_length.
  - intros c Hc. cbn. by rewrite lookup_insert_ne.
  - destruct (any (is_node pk) l) eqn:Hany.
    + split; [|by intros _; apply announce_elem_known]. intros _. left.
      apply any_true in Hany as (r & Hr & <-%is_node_true). by apply list_elem_of_fmap_2.
    + assert (pk ∉ cp_node_pk <$> l) as Hpk.
      { intros (r & -> & Hr)%list_elem_of_fmap. rewrite any_false in Hany.
        apply Hany in Hr. by rewrite is_node_false in Hr. }
      destruct (decide (length l < K)%nat).
      * split; [auto|]. intros _. unfold announce_in_list. rewrite Hany, length_app.
        destruct (Nat.ltb_spec K (length l + length [mkPeer pk addr now])); cbn in *; [lia|].
        apply elem_of_app. right. by apply list_elem_of_singleton.
      * rewrite announce_elem_full by (done || lia). split; [auto|naive_solver].
Qed.

Definition crowded (now : Z) : DhtState :=
  foldl (λ s i, announce_community_peer now (key_of 9) (far_id i) (addr_n i) s)
    (dht_new (key_of 0) None) (seqZ 0 20).

Lemma announce_community_peer_correct_witness :
  let s := announce_community_peer 51 (key_of 9) (far_id 99) (addr_n 1) (crowded 50) in
  length (peers_of (key_of 9) (crowded 50)) = K ∧
  mkPeer (far_id 99) (addr_n 1) 51 ∈ peers_of (key_of 9) s.
Proof.
  cbv zeta. split; [vm_compute; reflexivity|].
  apply announce_community_peer_correct.
  - apply (bool_decide_unpack _). vm_compute. exact I.
  - vm_compute. lia.
  - right. right. exists (mkPeer (far_id 0) (addr_n 0) 50). split; [|done].
    apply (bool_decide_unpack _). vm_compute. exact I.
Defined.

(** ** Cooldown slots *)

(** A run of [acquire_announce_slot] calls, as (time, community) pairs; the result lists
    the calls that were granted. *)
Fixpoint announce_run (cooldown : Z) (calls : list (Z * bytes)) (s : DhtState)
    : list (Z * bytes) :=
  match calls with
  | [] => []
  | (now, pk) :: calls' =>
      let '(s', granted) := acquire_announce_slot now pk cooldown s in
      (if granted then [(now, pk)] else []) ++ announce_run cooldown calls' s'
  end.

Lemma announce_run_bound cooldown calls s t t' pk :
  StronglySorted Z.le calls.*1 →
  last_announce s !! pk = Some t → (t', pk) ∈ announce_run cooldown calls s →
  cooldown ≤ sat_sub t' t.
Proof.
  revert s t; induction calls as [|[now pk0] calls IH]; intros s t Hs Hlast; cbn;
    [by intros []%elem_of_nil|].
  apply StronglySorted_cons in Hs as [Hall Hs].
  unfold acquire_announce_slot, slot_free.
  destruct (decide (pk0 = pk)) as [->|Hne].
  - rewrite Hlast. destruct (Z.leb_spec cooldown (sat_sub now t)); cbn; [|by apply IH].
    rewrite elem_of_cons. intros [[= ->]|Hin]; [done|].
    assert (now ≤ t') as Hle.
    { rewrite Forall_forall in Hall. apply Hall. clear -Hin.
      revert Hin. generalize (with_last_announce (<[pk:=now]> (last_announce s)) s).
      induction calls as [|[n p] calls IH]; intros s'; cbn; [by intros []%elem_of_nil|].
      unfold acquire_announce_slot. destruct (slot_free _ _ _ _); cbn;
        rewrite ?elem_of_cons; naive_solver. }
    unfold sat_sub in *. lia.
  - destruct (last_announce s !! pk0) as [t0|]; cbn.
    + destruct (cooldown <=? sat_sub now t0); cbn; [|by apply IH].
      rewrite elem_of_cons. intros [[= -> ->]|]; [done|]. eapply IH; [done| |done].
      cbn. by rewrite lookup_insert_ne.
    + rewrite elem_of_cons. intros [[= -> ->]|]; [done|]. eapply IH; [done| |done].
      cbn. by rewrite lookup_insert_ne.
Qed.

(** Under any sequence of calls with a non-decreasing clock, two announcements granted
    for the same community are at least [cooldown] apart. *)
Theorem announce_rate_limited cooldown calls s :
  0 ≤ cooldown → StronglySorted Z.le calls.*1 →
  ∀ i j t t' pk, (i < j)%nat →
    announce_run cooldown calls s !! i = Some (t, pk) →
    announce_run cooldown calls s !! j = Some (t', pk) →
    cooldown ≤ t' - t ∨ cooldown = 0.
Proof.
  intros Hc. revert s; induction calls as [|[now pk0] calls IH]; intros s Hs; [done|].
  apply StronglySorted_cons in Hs as [Hall Hs]. cbn [announce_run].
  unfold acquire_announce_slot. destruct (slot_free _ _ _ _); [|by apply IH].
  intros [|i] [|j] t t' pk Hij; cbn; [lia| |lia|].
  - intros [= -> ->] Hj. apply list_elem_of_lookup_2 in Hj.
    pose proof (announce_run_bound cooldown calls _ t t' pk Hs
      (lookup_insert_eq (last_announce s) pk t) Hj) as Hb.
    unfold sat_sub in Hb. lia.
  - apply IH; [done|lia].
Qed.

Lemma announce_rate_limited_witness :
  let calls := [(0, key_of 1); (10, key_of 1); (70, key_of 1)] in
  announce_run 60 calls (dht_new (key_of 0) None) = [(0, key_of 1); (70, key_of 1)] ∧
  (60 ≤ 70 - 0 ∨ 60 = 0).
Proof.
  cbv zeta. split; [vm_compute; reflexivity|].
  apply (announce_rate_limited 60 [(0, key_of 1); (10, key_of 1); (70, key_of 1)]
           (dht_new (key_of 0) None)) with (i := 0%nat) (j := 1%nat) (pk := key_of 1);
    [done|csimpl; repeat first [lia | constructor]|lia|vm_compute; reflexivity..].
Defined.
