(* ===== verification/Kademlia.v ===== *)
(** * Iterative Kademlia lookups: [bitcord-core/src/dht/kademlia.rs]

    The three lookups walk the network in rounds. The remote nodes are parameters:
    [find_node e] is what dialling peer [e] and sending [FIND_NODE] yields ([None] when
    the connection or the request fails). One walk never asks the same peer twice (proved
    below), so a function of the peer describes every possible behaviour of the network
    during one walk. A [HashSet] is the list of its insertions. *)

From S2P Require Import Prelude Bytes Routing.

Definition ALPHA : nat := 3.
Definition MAX_ROUNDS : nat := 8.
Definition K_SEED : nat := 20.
Definition K_QUERY : nat := 20.

(** [dht_connect]: the cached client of [addr], or a fresh connection that is cached. *)
Definition dht_connect {Client} (connect : NodeAddr → option Client) (addr : NodeAddr)
    (conn_cache : gmap NodeAddr Client) : option Client * gmap NodeAddr Client :=
  match conn_cache !! addr with
  | Some c => (Some c, conn_cache)
  | None =>
      match connect addr with
      | Some c => (Some c, <[addr := c]> conn_cache)
      | None => (None, conn_cache)
      end
  end.

Section walk.
Context (find_node : entry → option (list entry * option NodeAddr)).
Context (target : NodeId).

Definition unvisited (visited : list bytes) (e : entry) : bool :=
  negb (bool_decide (e.1 ∈ visited)).

(** The body of [for (peer_id_bytes, peer_addr) in closer_peers]. *)
Definition learn (visited : list bytes) (closer_peers : list entry)
    (acc : DhtState * list entry) : DhtState * list entry :=
  foldl (λ acc e,
    if unvisited visited e then (add_peer e.1 e.2 acc.1, acc.2 ++ [e]) else acc)
    acc closer_peers.

(** [to_visit.sort_by_key(distance); to_visit.dedup_by_key(id)]. *)
Definition resort (to_visit : list entry) : list entry :=
  dedup_by_key fst (sort_by (closer target) to_visit).

(** [to_visit.drain(..min(len, ALPHA)).filter(not visited)]. *)
Definition next_batch (visited : list bytes) (to_visit : list entry) : list entry :=
  retain (unvisited visited) (take ALPHA to_visit).

(** ** [kademlia_lookup]: the mailbox walk *)

Fixpoint lookup_handles (visited : list bytes) (handles : list entry)
    (acc : DhtState * list entry) : option NodeAddr * (DhtState * list entry) :=
  match handles with
  | [] => (None, acc)
  | h :: handles' =>
      match find_node h with
      | Some (_, Some addr) => (Some addr, acc)
      | Some (closer_peers, None) => lookup_handles visited handles' (learn visited closer_peers acc)
      | None => lookup_handles visited handles' acc
      end
  end.

(** The rounds; the last component of the result is the list of peers asked. *)
Fixpoint lookup_rounds (now : Z) (rounds : nat) (to_visit : list entry)
    (visited : list bytes) (asked : list entry) (s : DhtState)
    : option NodeAddr * DhtState * list entry :=
  match rounds with
  | O => (None, s, asked)
  | S rounds' =>
      match next_batch visited to_visit with
      | [] => (None, s, asked)
      | (_ :: _) as batch =>
          let visited := visited ++ batch.*1 in
          match lookup_handles visited batch (s, drop ALPHA to_visit) with
          | (Some addr, (s, _)) =>
              (Some addr, add_mailbox_record now target addr s, asked ++ batch)
          | (None, (s, to_visit)) =>
              lookup_rounds now rounds' (resort to_visit) visited (asked ++ batch) s
          end
      end
  end.

Definition kademlia_lookup (now : Z) (s : DhtState) : option NodeAddr * DhtState * list entry :=
  match closest_peers target K_SEED s with
  | [] => (None, s, [])
  | to_visit => lookup_rounds now MAX_ROUNDS to_visit [] [] s
  end.

(** ** Phase 1 of the two record lookups *)

Fixpoint walk_handles (visited : list bytes) (handles : list entry)
    (acc : DhtState * list entry) : DhtState * list entry :=
  match handles with
  | [] => acc
  | h :: handles' =>
      match find_node h with
      | Some (closer_peers, _) => walk_handles visited handles' (learn visited closer_peers acc)
      | None => walk_handles visited handles' acc
      end
  end.

(** Result: the peers asked ([closest_found], in order), the frontier left over, the
    rounds left, and the final state. *)
Fixpoint walk_rounds (rounds : nat) (to_visit : list entry) (visited : list bytes)
    (closest_found : list entry) (s : DhtState)
    : list entry * list entry * nat * DhtState :=
  match rounds with
  | O => (closest_found, to_visit, O, s)
  | S rounds' =>
      match next_batch visited to_visit with
      | [] => (closest_found, to_visit, rounds, s)
      | (_ :: _) as batch =>
          let visited := visited ++ batch.*1 in
          let '(s, to_visit) := walk_handles visited batch (s, drop ALPHA to_visit) in
          walk_rounds rounds' (resort to_visit) visited (closest_found ++ batch) s
      end
  end.

Definition walk (s : DhtState) : list entry * list entry * nat * DhtState :=
  walk_rounds MAX_ROUNDS (closest_peers target K_SEED s) [] [] s.

(** [closest_found.sort; dedup; truncate(K_QUERY)]. *)
Definition query_set (closest_found : list entry) : list entry :=
  take K_QUERY (resort closest_found).

(** ** [kademlia_find_community_peers] *)

(** [for record in records { if seen_node_pks.insert(record.node_pk) { push } }] *)
Definition merge_records (acc : list CommunityPeerRecord) (records : list CommunityPeerRecord)
    : list CommunityPeerRecord :=
  foldl (λ acc r, if any (is_node (cp_node_pk r)) acc then acc else acc ++ [r]) acc records.

Definition kademlia_find_community_peers
    (find_peers : entry → option (list CommunityPeerRecord)) (now : Z) (s : DhtState)
    : list CommunityPeerRecord * DhtState :=
  let '(closest_found, _, _, s) := walk s in
  let cached_records := lookup_community_peers now target s in
  let all_records :=
    foldl (λ acc e, match find_peers e with
                    | Some records => merge_records acc records
                    | None => acc end) [] (query_set closest_found) in
  (merge_records all_records cached_records, s).

(** ** [kademlia_find_peer_info] *)

(** [JoinSet::join_next] yields the answers in completion order, a permutation of the
    queried peers chosen by the scheduler. *)
Definition kademlia_find_peer_info (find_info : entry → option PeerInfoRecord)
    (completion : list entry → list entry) (s : DhtState)
    : option PeerInfoRecord * DhtState :=
  match closest_peers target K_SEED s with
  | [] => (None, s)
  | _ =>
      let '(closest_found, _, _, s) := walk s in
      (head (omap find_info (completion (query_set closest_found))), s)
  end.
End walk.

(** ** One round *)

Definition all_wf (l : list entry) : Prop := Forall (λ e, wf_key e.1) l.

(** What holds of the frontier when a round starts: well-formed, distinct, unvisited ids. *)
Definition frontier (visited : list bytes) (tv : list entry) : Prop :=
  all_wf tv ∧ NoDup tv.*1 ∧ ∀ e, e ∈ tv → e.1 ∉ visited.

(** The parts of the state a walk leaves alone. *)
Definition same_records (s s' : DhtState) : Prop :=
  s' = with_routing_table (routing_table s') s.
#[export] Instance same_records_preorder : PreOrder same_records.
Proof.
  split; [by intros []|]. unfold same_records. intros x y z -> ->. by destruct x, y, z.
Qed.

Lemma unvisited_true visited e : unvisited visited e = true ↔ e.1 ∉ visited.
Proof. unfold unvisited. by rewrite negb_true_iff, bool_decide_eq_false. Qed.

Lemma add_peer_same id a s : same_records s (add_peer id a s).
Proof.
  unfold same_records, add_peer. case_decide; [by destruct s|].
  destruct (bucket_index _); by destruct s.
Qed.

Lemma learn_spec visited cl s tv :
  all_wf cl → rt_inv s →
  ∃ s', learn visited cl (s, tv) = (s', tv ++ retain (unvisited visited) cl) ∧
    rt_inv s' ∧ same_records s s'.
Proof.
  intros Hcl; revert s tv; induction Hcl as [|e cl He Hcl IH]; intros s tv Hs.
  - exists s. by rewrite app_nil_r.
  - cbn [learn foldl]. unfold retain; cbn [List.filter].
    destruct (unvisited visited e); cbn [fst snd].
    + destruct (IH (add_peer e.1 e.2 s) (tv ++ [e])) as (s' & Heq & Hinv & Hsame).
      { by apply rt_inv_add_peer. }
      exists s'. unfold learn in Heq. rewrite Heq, <-app_assoc.
      split; [done|]. split; [done|]. etrans; [apply add_peer_same|done].
    + by apply IH.
Qed.

Section resort.
Context (target : NodeId) (Ht : wf_key target).

Lemma distance_inj x y :
  wf_key x → wf_key y → distance target x = distance target y → x = y.
Proof using Ht.
  destruct Ht as [Hl _]. intros [Hx _] [Hy _]. apply xor_bytes_inj; congruence.
Qed.

Lemma resort_sorted l :
  StronglySorted (λ a b, lex_le (distance target a.1) (distance target b.1)) (sort_by (closer target) l).
Proof. apply sort_by_sorted; eauto with bytes_db. Qed.

Lemma resort_NoDup l : all_wf l → NoDup (resort target l).*1.
Proof using Ht.
  intros Hl.
  apply (dedup_by_key_NoDup fst wf_key (λ x y, lex_le (distance target x) (distance target y))).
  - intros x y Hx Hy Hxy Hyx. apply distance_inj; [done..|]. by apply lex_le_antisym.
  - rewrite sort_by_perm. by apply Forall_fmap.
  - apply resort_sorted.
Qed.
Lemma resort_keys l q : q ∈ (resort target l).*1 ↔ q ∈ l.*1.
Proof. unfold resort. rewrite <-dedup_by_key_keys. by rewrite sort_by_perm. Qed.
Lemma resort_elem l e : e ∈ resort target l → e ∈ l.
Proof. intros ?%dedup_by_key_elem. by apply elem_of_sort_by in H. Qed.
Lemma resort_wf l : all_wf l → all_wf (resort target l).
Proof. unfold all_wf. rewrite !Forall_forall. eauto using resort_elem. Qed.
End resort.

Lemma next_batch_take visited tv : frontier visited tv → next_batch visited tv = take ALPHA tv.
Proof.
  intros (_ & _ & Hout). apply retain_all. intros e He%subseteq_take.
  by apply unvisited_true, Hout.
Qed.

(** After a round, the re-sorted frontier is again a frontier for the larger visited set. *)
Lemma frontier_round target visited tv new :
  wf_key target → frontier visited tv → all_wf new →
  let visited' := visited ++ (take ALPHA tv).*1 in
  frontier visited' (resort target (drop ALPHA tv ++ retain (unvisited visited') new)).
Proof.
  intros Ht (Hwf & Hnd & Hout) Hnew visited'.
  assert (all_wf (drop ALPHA tv ++ retain (unvisited visited') new)) as Hall.
  { apply Forall_app. split; [by apply Forall_drop|]. unfold all_wf in Hnew |- *.
    rewrite Forall_forall in *. intros e [_ He]%elem_of_retain. by apply Hnew. }
  split_and!.
  - by apply resort_wf.
  - by apply resort_NoDup.
  - intros e He%resort_elem. unfold visited'. rewrite not_elem_of_app.
    apply elem_of_app in He as [He|[He _]%elem_of_retain].
    + split; [by apply Hout, (subseteq_drop ALPHA)|]. intros Hin.
      rewrite <-(take_drop ALPHA tv), fmap_app in Hnd.
      apply NoDup_app in Hnd as (_ & Hdis & _). apply (Hdis _ Hin). by apply list_elem_of_fmap_2.
    + apply unvisited_true in He. unfold visited' in He. by rewrite not_elem_of_app in He.
Qed.

Lemma NoDup_batch visited tv :
  NoDup visited → frontier visited tv → NoDup (visited ++ (take ALPHA tv).*1).
Proof.
  intros Hv (_ & Hnd & Hout). apply NoDup_app. split_and!; [done| |].
  - intros q Hq (e & -> & He%subseteq_take)%list_elem_of_fmap. by apply (Hout e).
  - eapply sublist_NoDup; [done|]. apply fmap_sublist, sublist_take.
Qed.

(** A frontier of closest peers for an empty visited set. *)
Lemma frontier_seed t n s : rt_inv s → frontier [] (closest_peers t n s).
Proof.
  intros Hs. unfold closest_peers. fold (table s). split_and!.
  - apply Forall_forall. intros e He%subseteq_take. rewrite elem_of_sort_by in He.
    by apply (table_wf s).
  - apply (sublist_NoDup _ (sort_by (closer t) (table s)).*1);
      [|apply fmap_sublist, sublist_take]. rewrite sort_by_perm. by apply table_NoDup.
  - intros e _. apply not_elem_of_nil.
Qed.

(** ** The phase-1 walk *)

Section walk_props.
Context (find_node : entry → option (list entry * option NodeAddr)).
Context (target : NodeId) (Ht : wf_key target).
Context (Hreply : ∀ e cl m, find_node e = Some (cl, m) → all_wf cl).

(** The peers a node names in its reply. *)
Definition named (h : entry) : list entry :=
  match find_node h with Some (cl, _) => cl | None => [] end.

Lemma named_wf h : all_wf (named h).
Proof using Hreply.
  unfold named. destruct (find_node h) as [[cl m]|] eqn:Hh; [by eapply Hreply|constructor].
Qed.

Lemma walk_handles_spec visited handles s tv :
  rt_inv s →
  ∃ s', walk_handles find_node visited handles (s, tv) =
      (s', tv ++ retain (unvisited visited) (concat (named <$> handles))) ∧
    rt_inv s' ∧ same_records s s'.
Proof using Hreply.
  revert s tv; induction handles as [|h handles IH]; intros s tv Hs; cbn.
  - exists s. by rewrite app_nil_r.
  - pose proof (named_wf h) as Hcl. unfold named in Hcl |- * at 1.
    destruct (find_node h) as [[cl m]|]; [|by apply IH].
    destruct (learn_spec visited cl s tv) as (s1 & -> & Hs1 & Hsame1); [done..|].
    destruct (IH s1 (tv ++ retain (unvisited visited) cl)) as (s2 & -> & ? & ?); [done|].
    exists s2. split_and!; [|done|by etrans]. by rewrite retain_app, app_assoc.
Qed.

(** Every peer named by an asked node has been visited or is on the frontier. *)
Definition covered (asked : list entry) (visited : list bytes) (tv : list entry) : Prop :=
  ∀ e c, e ∈ asked → c ∈ named e → c.1 ∈ visited ∨ c.1 ∈ tv.*1.

Lemma round_step visited tv :
  frontier visited tv →
  let batch := take ALPHA tv in let visited' := visited ++ batch.*1 in
  let tv' := resort target (drop ALPHA tv ++ retain (unvisited visited') (concat (named <$> batch))) in
  frontier visited' tv' ∧
  (∀ q, q ∈ visited ∨ q ∈ tv.*1 → q ∈ visited' ∨ q ∈ tv'.*1) ∧
  (∀ asked, covered asked visited tv → covered (asked ++ batch) visited' tv').
Proof using Ht Hreply.
  intros Hf batch visited' tv'.
  assert (∀ q, q ∈ visited ∨ q ∈ tv.*1 → q ∈ visited' ∨ q ∈ tv'.*1) as Hmono.
  { intros q Hq. unfold visited', tv', batch. rewrite resort_keys, elem_of_app, fmap_app, elem_of_app.
    rewrite <-(take_drop ALPHA tv), fmap_app, elem_of_app in Hq. naive_solver. }
  split_and!; [|done|].
  - apply (frontier_round target visited tv); [done..|]. unfold all_wf.
    apply Forall_forall. intros c (i & l & Hl & Hc)%elem_of_concat.
    apply list_lookup_fmap_Some_1 in Hl as (h & -> & _).
    pose proof (named_wf h) as Hn. unfold all_wf in Hn. rewrite Forall_forall in Hn. auto.
  - intros asked Hcov e c [He|He]%elem_of_app Hc; [by apply Hmono, (Hcov e)|].
    destruct (decide (c.1 ∈ visited')) as [|Hout]; [by left|right].
    unfold tv'. rewrite resort_keys, fmap_app, elem_of_app. right.
    apply list_elem_of_fmap_2, elem_of_retain. split; [by apply unvisited_true|].
    apply elem_of_concat. apply list_elem_of_lookup in He as [i Hi].
    exists i, (named e). split; [by apply list_lookup_fmap_Some_2|done].
Qed.

Lemma walk_rounds_spec rounds tv visited found s :
  rt_inv s → frontier visited tv → found.*1 = visited → NoDup visited →
  covered found visited tv →
  let '(found', rest, unused, s') := walk_rounds find_node target rounds tv visited found s in
  rt_inv s' ∧ same_records s s' ∧ NoDup found'.*1 ∧ frontier found'.*1 rest ∧
  (length found' ≤ length found + ALPHA * rounds)%nat ∧
  (unused ≠ 0%nat → rest = []) ∧
  covered found' found'.*1 rest ∧
  (∀ q, q ∈ visited ∨ q ∈ tv.*1 → q ∈ found'.*1 ∨ q ∈ rest.*1).
Proof using Ht Hreply.
  revert tv visited found s; induction rounds as [|rounds IH];
    intros tv visited found s Hs Hf Hfound Hnd Hcov; cbn [walk_rounds].
  { rewrite Hfound. split_and!; solve [done | reflexivity | lia | auto]. }
  rewrite next_batch_take by done. destruct (take ALPHA tv) as [|e b] eqn:Hb.
  - destruct tv; [|done]. rewrite Hfound. split_and!; solve [done | reflexivity | lia | auto].
  - rewrite <-Hb. clear e b Hb. set (batch := take ALPHA tv) in *.
    destruct (round_step visited tv Hf) as (Hf' & Hmono & Hcov').
    fold batch in Hf', Hmono, Hcov'.
    destruct (walk_handles_spec (visited ++ batch.*1) batch s (drop ALPHA tv)) as (s1 & -> & Hs1 & Hsame);
      [done|].
    specialize (IH _ _ (found ++ batch) s1 Hs1 Hf').
    destruct (walk_rounds _ _ _ _ _ _ _) as [[[found' rest] unused] s'].
    destruct IH as (?&?&?&?&Hlen&?&?&Hm).
    + by rewrite fmap_app, Hfound.
    + by apply NoDup_batch.
    + by apply Hcov'.
    + split_and!; try done; [by etrans| |by intros q Hq; apply Hm, Hmono].
      rewrite length_app in Hlen. unfold batch in Hlen. rewrite length_take in Hlen.
      unfold ALPHA in *. lia.
Qed.

(** ** The mailbox walk *)

Definition mailbox_at (h : entry) : option NodeAddr :=
  match find_node h with Some (_, m) => m | None => None end.

Lemma lookup_handles_spec visited handles acc :
  ((∀ h, h ∈ handles → mailbox_at h = None) ∧
     lookup_handles find_node visited handles acc = (None, walk_handles find_node visited handles acc)) ∨
  (∃ pre h post addr, handles = pre ++ h :: post ∧ mailbox_at h = Some addr ∧
     (∀ x, x ∈ pre → mailbox_at x = None) ∧
     lookup_handles find_node visited handles acc = (Some addr, walk_handles find_node visited pre acc)).
Proof using.
  revert acc; induction handles as [|h handles IH]; intros acc; cbn.
  { left. split; [by intros h []%elem_of_nil|done]. }
  destruct (find_node h) as [[cl [addr|]]|] eqn:Hh.
  - right. exists [], h, handles, addr. unfold mailbox_at. rewrite Hh.
    split_and!; [done..|by intros x []%elem_of_nil|done].
  - assert (mailbox_at h = None) as Hm by (unfold mailbox_at; by rewrite Hh).
    destruct (IH (learn visited cl acc)) as [[Hnone ->]|(pre & x & post & addr & -> & ? & Hpre & ->)].
    + left. split; [|done]. intros x. rewrite elem_of_cons. naive_solver.
    + right. exists (h :: pre), x, post, addr. split_and!; [done..| |cbn; by rewrite Hh].
      intros y. rewrite elem_of_cons. naive_solver.
  - assert (mailbox_at h = None) as Hm by (unfold mailbox_at; by rewrite Hh).
    destruct (IH acc) as [[Hnone ->]|(pre & x & post & addr & -> & ? & Hpre & ->)].
    + left. split; [|done]. intros x. rewrite elem_of_cons. naive_solver.
    + right. exists (h :: pre), x, post, addr. split_and!; [done..| |cbn; by rewrite Hh].
      intros y. rewrite elem_of_cons. naive_solver.
Qed.

Lemma lookup_rounds_spec now rounds tv visited asked s :
  rt_inv s → frontier visited tv → asked.*1 = visited → NoDup visited →
  covered asked visited tv → (∀ h, h ∈ asked → mailbox_at h = None) →
  let '(res, s', asked') := lookup_rounds find_node target now rounds tv visited asked s in
  rt_inv s' ∧ NoDup asked'.*1 ∧ (length asked' ≤ length asked + ALPHA * rounds)%nat ∧
  match res with
  | Some addr =>
      (∃ h, h ∈ asked' ∧ mailbox_at h = Some addr) ∧
      ∃ s1, same_records s s1 ∧ s' = add_mailbox_record now target addr s1
  | None =>
      same_records s s' ∧ (∀ h, h ∈ asked' → mailbox_at h = None) ∧
      ((length asked' < length asked + rounds)%nat →
         covered asked' asked'.*1 [] ∧
         ∀ q, q ∈ visited ∨ q ∈ tv.*1 → q ∈ asked'.*1)
  end.
Proof using Ht Hreply.
  revert tv visited asked s; induction rounds as [|rounds IH];
    intros tv visited asked s Hs Hf Hasked Hnd Hcov Hno; cbn [lookup_rounds].
  { rewrite Hasked. split_and!; solve [done | reflexivity | lia | auto]. }
  rewrite next_batch_take by done. destruct (take ALPHA tv) as [|e b] eqn:Hb.
  - destruct tv; [|done]. rewrite Hasked. split_and!; try solve [done | reflexivity | lia | auto].
    intros _. split; [done|]. intros q [|[]%elem_of_nil]; done.
  - assert (0 < length (take ALPHA tv))%nat as Hpos by (rewrite Hb; cbn; lia).
    rewrite <-Hb. clear e b Hb. set (batch := take ALPHA tv) in *.
    destruct (round_step visited tv Hf) as (Hf' & Hmono & Hcov').
    fold batch in Hf', Hmono, Hcov'.
    assert (length batch ≤ ALPHA)%nat by (unfold batch; rewrite length_take; lia).
    destruct (lookup_handles_spec (visited ++ batch.*1) batch (s, drop ALPHA tv))
      as [[Hnone ->]|(pre & h & post & addr & Hsplit & Hh & Hpre & ->)].
    + destruct (walk_handles_spec (visited ++ batch.*1) batch s (drop ALPHA tv)) as (s1 & -> & Hs1 & Hsame);
        [done|].
      specialize (IH _ _ (asked ++ batch) s1 Hs1 Hf').
      destruct (lookup_rounds _ _ _ _ _ _ _ _) as [[res s'] asked'].
      destruct IH as (Hs' & Hnd' & Hlen' & Hres).
      * by rewrite fmap_app, Hasked.
      * by apply NoDup_batch.
      * by apply Hcov'.
      * intros x [?|?]%elem_of_app; auto.
      * rewrite length_app in Hlen', Hres. unfold ALPHA in *. split_and!; [done..|lia|].
        destruct res as [addr|].
        { destruct Hres as (? & s2 & ? & ->). split; [done|]. exists s2. split; [by etrans|done]. }
        destruct Hres as (? & ? & Hdone). split_and!; [by etrans|done|].
        intros Hlt. destruct Hdone as [? Hall]; [lia|]. split; [done|].
        intros q Hq. by apply Hall, Hmono.
    + destruct (walk_handles_spec (visited ++ batch.*1) pre s (drop ALPHA tv)) as (s1 & -> & Hs1 & Hsame);
        [done|].
      rewrite length_app, fmap_app, Hasked. unfold ALPHA in *. split_and!; [|by apply NoDup_batch|lia| |].
      * by destruct s1.
      * exists h. split; [|done]. rewrite Hsplit, !elem_of_app, elem_of_cons. auto.
      * by exists s1.
Qed.
End walk_props.

(** C32: the mailbox lookup always ends; it asks at most [ALPHA * MAX_ROUNDS] = 24 peers,
    none twice. An address it returns was reported by a peer it asked and is cached for the
    next lookup; when it returns nothing, no asked peer held a record, no cached record
    changed, and, if it asked fewer than [MAX_ROUNDS] peers, it had asked every peer that
    its routing table seeded or that any asked peer named. *)
Theorem kademlia_lookup_correct find_node target now s :
  rt_inv s → wf_key target → (∀ e cl m, find_node e = Some (cl, m) → all_wf cl) →
  let '(res, s', asked) := kademlia_lookup find_node target now s in
  rt_inv s' ∧ NoDup asked.*1 ∧ (length asked ≤ 24)%nat ∧
  match res with
  | Some addr =>
      (∃ h, h ∈ asked ∧ mailbox_at find_node h = Some addr) ∧
      lookup_mailbox now target s' = Some addr ∧
      ∀ pk, pk ≠ target → mailboxes s' !! pk = mailboxes s !! pk
  | None =>
      same_records s s' ∧ (∀ h, h ∈ asked → mailbox_at find_node h = None) ∧
      ((length asked < MAX_ROUNDS)%nat →
         covered find_node asked asked.*1 [] ∧
         ∀ e, e ∈ closest_peers target K_SEED s → e.1 ∈ asked.*1)
  end.
Proof.
  intros Hs Ht Hreply. unfold kademlia_lookup.
  pose proof (frontier_seed target K_SEED s Hs) as Hf.
  destruct (closest_peers target K_SEED s) as [|e tv] eqn:Hseed.
  { split_and!; try solve [done|reflexivity|constructor|cbn; lia|by intros h []%elem_of_nil].
    intros _. split; [by intros ?? []%elem_of_nil|by intros ? []%elem_of_nil]. }
  pose proof (lookup_rounds_spec find_node target Ht Hreply now MAX_ROUNDS (e :: tv) [] [] s) as H.
  destruct (lookup_rounds _ _ _ _ _ _ _ _) as [[res s'] asked].
  destruct H as (? & ? & Hlen & Hres); [done..|constructor| | |].
  { by intros ?? []%elem_of_nil. }
  { by intros ? []%elem_of_nil. }
  split_and!; [done..|]. destruct res as [addr|].
  - destruct Hres as (? & s1 & Hsame & ->). split_and!; [done| |].
    + unfold lookup_mailbox. cbn. rewrite lookup_insert_eq. cbn.
      unfold MAILBOX_TTL, NANOS. by rewrite (proj2 (Z.ltb_lt _ _)) by lia.
    + intros pk Hpk. cbn. rewrite lookup_insert_ne by done. by rewrite Hsame.
  - destruct Hres as (? & ? & Hdone). split_and!; [done..|].
    intros Hlt. destruct Hdone as [? Hall]; [done|]. split; [done|].
    intros x Hx. apply Hall. right. by apply list_elem_of_fmap_2.
Qed.

Lemma lookup_rt_inv find_node target now s :
  rt_inv s → wf_key target → (∀ e cl m, find_node e = Some (cl, m) → all_wf cl) →
  rt_inv (kademlia_lookup find_node target now s).1.2.
Proof.
  intros Hs Ht Hreply. unfold kademlia_lookup. pose proof (frontier_seed target K_SEED s Hs) as Hf.
  destruct (closest_peers target K_SEED s) as [|e tv] eqn:Hseed; [done|].
  pose proof (lookup_rounds_spec find_node target Ht Hreply now MAX_ROUNDS (e :: tv) [] [] s) as H.
  destruct (lookup_rounds _ _ _ _ _ _ _ _) as [[res s'] asked]. apply H; [done..|constructor| |].
  - by intros ?? []%elem_of_nil.
  - by intros ? []%elem_of_nil.
Qed.

(** Three nodes in a chain: the seed names [far_id 1], which names [far_id 2], which holds
    the mailbox. *)
Definition chain_net (e : entry) : option (list entry * option NodeAddr) :=
  if decide (e.1 = far_id 0) then Some ([(far_id 1, addr_n 1)], None)
  else if decide (e.1 = far_id 1) then Some ([(far_id 2, addr_n 2)], None)
  else if decide (e.1 = far_id 2) then Some ([], Some (addr_n 77))
  else None.
Definition seeded : DhtState := add_peer (far_id 0) (addr_n 0) (dht_new (key_of 0) None).

Lemma chain_net_wf e cl m : chain_net e = Some (cl, m) → all_wf cl.
Proof.
  unfold chain_net, all_wf. repeat case_decide; intros [= <- <-];
    try apply Forall_nil_2; apply Forall_singleton; by apply wf_far_id.
Qed.
Lemma rt_inv_seeded : rt_inv seeded.
Proof. apply rt_inv_add_peer; [apply rt_inv_new; by apply wf_key_of|by apply wf_far_id]. Qed.

Lemma kademlia_lookup_correct_witness :
  let '(res, s', asked) := kademlia_lookup chain_net (key_of 7) 0 seeded in
  res = Some (addr_n 77) ∧ asked.*1 = [far_id 0; far_id 1; far_id 2] ∧
  (length asked ≤ 24)%nat.
Proof.
  assert (wf_key (key_of 7)) as Hk by by apply wf_key_of.
  pose proof (kademlia_lookup_correct chain_net (key_of 7) 0 seeded rt_inv_seeded Hk chain_net_wf) as H.
  destruct (kademlia_lookup chain_net (key_of 7) 0 seeded) as [[res s'] asked] eqn:E.
  destruct H as (_ & _ & Hlen & _).
  vm_compute in E. injection E as <- _ <-. split; [reflexivity|]. split; [reflexivity|exact Hlen].
Defined.

(** ** Merging community peer records *)

Lemma merge_records_spec recs acc :
  NoDup (cp_node_pk <$> acc) →
  let r := merge_records acc recs in
  NoDup (cp_node_pk <$> r) ∧ (∀ x, x ∈ r → x ∈ acc ∨ x ∈ recs) ∧
  (∀ x, x ∈ acc → x ∈ r) ∧ (∀ x, x ∈ recs → cp_node_pk x ∈ cp_node_pk <$> r).
Proof.
  unfold merge_records. revert acc; induction recs as [|r recs IH]; intros acc Hnd; cbn.
  { split_and!; auto. by intros x []%elem_of_nil. }
  destruct (any (is_node (cp_node_pk r)) acc) eqn:Hany.
  - destruct (IH acc Hnd) as (?&Hin&Hacc&Hrec). split_and!; [done| |done|].
    + intros x Hx. rewrite elem_of_cons. naive_solver.
    + intros x [->|Hx]%elem_of_cons; [|auto].
      apply any_true in Hany as (y & Hy & <-%is_node_true). apply list_elem_of_fmap_2; auto.
  - destruct (IH (acc ++ [r])) as (?&Hin&Hacc&Hrec).
    { rewrite fmap_app. csimpl. apply NoDup_app. split_and!; [done| |apply NoDup_singleton].
      intros q Hq ->%list_elem_of_singleton. apply list_elem_of_fmap in Hq as (y & Hpk & Hy).
      rewrite any_false in Hany. apply Hany in Hy. by rewrite is_node_false in Hy. }
    split_and!; [done| | |].
    + intros x Hx. rewrite elem_of_cons. specialize (Hin x Hx). set_solver.
    + intros x Hx. apply Hacc, elem_of_app. auto.
    + intros x [->|Hx]%elem_of_cons; [|auto]. apply list_elem_of_fmap_2, Hacc, elem_of_app.
      right. by apply list_elem_of_singleton.
Qed.

Lemma merge_replies_spec (find_peers : entry → option (list CommunityPeerRecord)) q acc :
  NoDup (cp_node_pk <$> acc) →
  let r := foldl (λ acc e, match find_peers e with
                           | Some records => merge_records acc records
                           | None => acc end) acc q in
  NoDup (cp_node_pk <$> r) ∧
  (∀ x, x ∈ r → x ∈ acc ∨ ∃ e l, e ∈ q ∧ find_peers e = Some l ∧ x ∈ l) ∧
  (∀ x, x ∈ acc → x ∈ r) ∧
  (∀ e l x, e ∈ q → find_peers e = Some l → x ∈ l → cp_node_pk x ∈ cp_node_pk <$> r).
Proof.
  revert acc; induction q as [|e q IH]; intros acc Hnd; cbn.
  { split_and!; auto. by intros ? l x []%elem_of_nil. }
  destruct (find_peers e) as [l|] eqn:He.
  - destruct (merge_records_spec l acc Hnd) as (Hnd' & Hin' & Hacc' & Hrec').
    destruct (IH _ Hnd') as (?&Hin&Hacc&Hrec). split_and!; [done| |auto|].
    + intros x [Hx|(e'&l'&?&?&?)]%Hin; [destruct (Hin' x Hx)|];
        setoid_rewrite elem_of_cons; naive_solver.
    + intros e' l' x [->|He']%elem_of_cons Hl Hx; [|by eapply Hrec].
      rewrite He in Hl; injection Hl as <-. apply Hrec' in Hx.
      apply list_elem_of_fmap in Hx as (y & -> & Hy). apply list_elem_of_fmap_2. auto.
  - destruct (IH acc Hnd) as (?&Hin&Hacc&Hrec). split_and!; [done| |done|].
    + intros x [|(e'&l'&?&?&?)]%Hin; setoid_rewrite elem_of_cons; naive_solver.
    + intros e' l' x [->|He']%elem_of_cons Hl Hx; [congruence|by eapply Hrec].
Qed.

(** Community peer discovery walks at most 24 distinct peers and then queries the at most
    20 of them that are nearest to the community; its answer names every node at most once,
    contains only records some queried peer returned or the fresh local cache held, and
    covers every node in the replies and in the cache. The walk keeps the routing-table
    invariant and changes no record, and if it stops before its last round it has visited
    every peer it heard of. *)
Theorem find_community_peers_correct find_node find_peers target now s :
  rt_inv s → wf_key target → (∀ e cl m, find_node e = Some (cl, m) → all_wf cl) →
  let '(found, rest, unused, _) := walk find_node target s in
  let q := query_set target found in
  let cache := lookup_community_peers now target s in
  let '(records, s') := kademlia_find_community_peers find_node target find_peers now s in
  rt_inv s' ∧ same_records s s' ∧ NoDup found.*1 ∧ (length found ≤ 24)%nat ∧
  (unused ≠ 0%nat → rest = []) ∧ covered find_node found found.*1 rest ∧
  NoDup (cp_node_pk <$> records) ∧
  (∀ r, r ∈ records → r ∈ cache ∨ ∃ e l, e ∈ q ∧ find_peers e = Some l ∧ r ∈ l) ∧
  (∀ e l r, e ∈ q → find_peers e = Some l → r ∈ l → cp_node_pk r ∈ cp_node_pk <$> records) ∧
  (∀ r, r ∈ cache → cp_node_pk r ∈ cp_node_pk <$> records).
Proof.
  intros Hs Ht Hreply. unfold kademlia_find_community_peers, walk.
  pose proof (walk_rounds_spec find_node target Ht Hreply MAX_ROUNDS
    (closest_peers target K_SEED s) [] [] s Hs (frontier_seed _ _ _ Hs)) as H.
  destruct (walk_rounds _ _ _ _ _ _ _) as [[[found rest] unused] s'].
  destruct H as (? & Hsame & ? & ? & Hlen & ? & ? & _); [done|constructor|by intros ?? []%elem_of_nil|].
  assert (lookup_community_peers now target s' = lookup_community_peers now target s) as -> by by rewrite Hsame.
  destruct (merge_replies_spec find_peers (query_set target found) []) as (Hnd & Hin & Hacc & Hrec);
    [constructor|].
  set (all := foldl _ _ _) in *.
  destruct (merge_records_spec (lookup_community_peers now target s) all Hnd) as (?&Hin'&Hacc'&?).
  split_and!; [done..| | |done].
  - intros r [Hr|?]%Hin'; [|by left]. apply Hin in Hr as [[]%elem_of_nil|?]. by right.
  - intros e l r He Hl Hr. specialize (Hrec e l r He Hl Hr).
    apply list_elem_of_fmap in Hrec as (y & -> & Hy). apply list_elem_of_fmap_2. auto.
Qed.

Definition chain_peers (e : entry) : option (list CommunityPeerRecord) :=
  Some [mkPeer (key_of 5) e.2 10].

Lemma find_community_peers_correct_witness :
  let '(records, s') := kademlia_find_community_peers chain_net (key_of 7) chain_peers 0 seeded in
  records = [mkPeer (key_of 5) (addr_n 2) 10] ∧ NoDup (cp_node_pk <$> records).
Proof.
  assert (wf_key (key_of 7)) as Hk by by apply wf_key_of.
  pose proof (find_community_peers_correct chain_net chain_peers (key_of 7) 0 seeded
    rt_inv_seeded Hk chain_net_wf) as H.
  destruct (walk chain_net (key_of 7) seeded) as [[[found rest] unused] s0].
  destruct (kademlia_find_community_peers chain_net (key_of 7) chain_peers 0 seeded) as [records s'] eqn:E.
  destruct H as (_ & _ & _ & _ & _ & _ & Hnd & _).
  vm_compute in E. injection E as <- _. split; [reflexivity|exact Hnd].
Defined.
