(* ===== verification/Crypto.v ===== *)
(** * Cryptography: [bitcord-core/src/crypto/]

    The primitives (XChaCha20-Poly1305, Ed25519, X25519, HKDF-SHA256, SHA-256) are code
    outside the repository: they are the fields of the class [Crypto], and [CryptoLaws]
    states their documented behaviour. Everything the repository builds from them is
    defined here: encryption at rest ([encrypted_io.rs]), channel keys and their wrapping
    ([channel_keys.rs]), hosting certificates ([certificate.rs]) and direct-message
    envelopes ([dm.rs]). Randomness drawn from [OsRng] is an argument. *)

From S2P Require Import Prelude Bytes.

Class Crypto := {
  (** XChaCha20-Poly1305: key, nonce, message. *)
  aead_encrypt : bytes → bytes → bytes → option bytes;
  aead_decrypt : bytes → bytes → bytes → option bytes;
  (** Ed25519: public key of a secret key, signing, the two verifications, and
      [VerifyingKey::from_bytes]'s validity test. *)
  ed_public : bytes → bytes;
  ed_sign : bytes → bytes → bytes;
  ed_verify : bytes → bytes → bytes → bool;
  ed_verify_strict : bytes → bytes → bytes → bool;
  ed_valid_key : bytes → bool;
  (** X25519: public key of a secret, and the Diffie-Hellman function. *)
  x_public : bytes → bytes;
  x_dh : bytes → bytes → bytes;
  (** HKDF-SHA256 expanded to 32 bytes: input key material, salt, info. *)
  hkdf : bytes → bytes → bytes → bytes;
  sha256 : bytes → bytes }.

Class CryptoLaws `{Crypto} : Prop := {
  aead_roundtrip k n m c : aead_encrypt k n m = Some c → aead_decrypt k n c = Some m;
  aead_length k n m c : aead_encrypt k n m = Some c → length c = (length m + 16)%nat;
  ed_sign_verify sk m : ed_verify (ed_public sk) m (ed_sign sk m) = true;
  ed_sign_verify_strict sk m : ed_verify_strict (ed_public sk) m (ed_sign sk m) = true;
  ed_public_valid sk : ed_valid_key (ed_public sk) = true;
  wf_ed_public sk : wf_key (ed_public sk);
  wf_ed_sign sk m : wf_array 64 (ed_sign sk m);
  x_dh_comm a b : x_dh a (x_public b) = x_dh b (x_public a);
  wf_x_public a : wf_key (x_public a);
  wf_sha256 m : wf_key (sha256 m) }.

Inductive crypto_error :=
  | EncryptFailed | DecryptFailed | TooShort | BadKeyLength
  | CertKeyMismatch | CertSignatureInvalid | CertExpired.

Definition bytes_of_string (s : string) : bytes :=
  map (λ c, Z.of_nat (Ascii.nat_of_ascii c)) (String.list_ascii_of_string s).

Section crypto.
Context `{Crypto}.

(** ** [encrypted_io.rs] *)

Definition encrypt_bytes (nonce : bytes) (data key : bytes) : result crypto_error bytes :=
  ciphertext ← ok_or EncryptFailed (aead_encrypt key nonce data);
  Ok (nonce ++ ciphertext).

Definition decrypt_bytes (blob key : bytes) : result crypto_error bytes :=
  if (length blob <? 24)%nat then Err TooShort
  else ok_or DecryptFailed (aead_decrypt key (take 24 blob) (drop 24 blob)).

(** ** [channel_keys.rs] *)

Definition CHANNEL_KEY_WRAP_INFO : bytes := bytes_of_string "bitcord-channel-key-wrap/v1".

Definition encrypt_message (key nonce plaintext : bytes) : result crypto_error (bytes * bytes) :=
  ciphertext ← ok_or EncryptFailed (aead_encrypt key nonce plaintext);
  Ok (nonce, ciphertext).

Definition decrypt_message (key nonce ciphertext : bytes) : result crypto_error bytes :=
  ok_or DecryptFailed (aead_decrypt key nonce ciphertext).

Definition encrypt (key nonce plaintext : bytes) : result crypto_error bytes :=
  '(nonce, ciphertext) ← encrypt_message key nonce plaintext;
  Ok (nonce ++ ciphertext).

Definition decrypt (key data : bytes) : result crypto_error bytes :=
  if (length data <? 24)%nat then Err TooShort
  else decrypt_message key (take 24 data) (drop 24 data).

(** The key under which a channel key travels: HKDF of the shared secret, salted with
    the ephemeral public key. *)
Definition wrapping_key (shared ephem_pk : bytes) : bytes :=
  hkdf shared ephem_pk CHANNEL_KEY_WRAP_INFO.

Definition encrypt_for_member (key ephem_sk nonce member_x25519_pk : bytes)
    : result crypto_error bytes :=
  let ephem_pk := x_public ephem_sk in
  let shared := x_dh ephem_sk member_x25519_pk in
  ciphertext ← ok_or EncryptFailed (aead_encrypt (wrapping_key shared ephem_pk) nonce key);
  Ok (ephem_pk ++ nonce ++ ciphertext).

Definition decrypt_for_self (x25519_sk wrapped : bytes) : result crypto_error bytes :=
  if (length wrapped <? 32 + 24 + 16)%nat then Err TooShort
  else
    let ephem_pk := take 32 wrapped in
    let nonce := take 24 (drop 32 wrapped) in
    let ciphertext := drop 56 wrapped in
    let shared := x_dh x25519_sk ephem_pk in
    key ← ok_or DecryptFailed (aead_decrypt (wrapping_key shared ephem_pk) nonce ciphertext);
    if (length key =? 32)%nat then Ok key else Err BadKeyLength.

(** ** [certificate.rs] *)

Record HostingCert := mkCert {
  cert_community_pk : bytes;
  cert_node_pk : bytes;
  cert_expires_at : Z;
  cert_signature : bytes }.

Definition signable (community_pk node_pk : bytes) (expires_at : Z) : bytes :=
  community_pk ++ node_pk ++ le_bytes 8 expires_at.

Definition cert_new (community_sk node_pk : bytes) (expires_at : Z) : HostingCert :=
  let community_pk := ed_public community_sk in
  mkCert community_pk node_pk expires_at
    (ed_sign community_sk (signable community_pk node_pk expires_at)).

Definition cert_verify (now : Z) (cert : HostingCert) (community_pk : bytes)
    : result crypto_error unit :=
  if bool_decide (community_pk = cert_community_pk cert) then
    let msg := signable (cert_community_pk cert) (cert_node_pk cert) (cert_expires_at cert) in
    if ed_verify community_pk msg (cert_signature cert) then
      if cert_expires_at cert <? now then Err CertExpired else Ok tt
    else Err CertSignatureInvalid
  else Err CertKeyMismatch.

(** ** [dm.rs] *)

Definition DM_HKDF_INFO : bytes := bytes_of_string "bitcord-dm/v1".

Record DmEnvelope := mkEnvelope {
  env_sender_pk : bytes;
  env_ephem_pk : bytes;
  env_nonce : bytes;
  env_ciphertext : bytes }.

Definition dm_key (dh_ephem dh_static ephem_pk : bytes) : bytes :=
  hkdf (dh_ephem ++ dh_static) ephem_pk DM_HKDF_INFO.

Definition seal (sender_sk ephem_sk nonce recipient_pk plaintext : bytes)
    : result crypto_error DmEnvelope :=
  let ephem_pk := x_public ephem_sk in
  let dh_ephem := x_dh ephem_sk recipient_pk in
  let dh_static := x_dh sender_sk recipient_pk in
  ciphertext ← ok_or EncryptFailed
    (aead_encrypt (dm_key dh_ephem dh_static ephem_pk) nonce plaintext);
  Ok (mkEnvelope (x_public sender_sk) ephem_pk nonce ciphertext).

Definition open (env : DmEnvelope) (recipient_sk : bytes) : result crypto_error bytes :=
  let dh_ephem := x_dh recipient_sk (env_ephem_pk env) in
  let dh_static := x_dh recipient_sk (env_sender_pk env) in
  ok_or DecryptFailed
    (aead_decrypt (dm_key dh_ephem dh_static (env_ephem_pk env)) (env_nonce env) (env_ciphertext env)).
End crypto.

#[export] Instance HostingCert_eq_dec : EqDecision HostingCert.
Proof. solve_decision. Defined.
#[export] Instance DmEnvelope_eq_dec : EqDecision DmEnvelope.
Proof. solve_decision. Defined.

(** ** A concrete instance

    Not a cipher: it carries the key in the clear so that the laws can be checked. It
    shows the laws are consistent and lets concrete inputs be evaluated. *)

Definition pad (n : nat) (l : bytes) : bytes := take n (map (λ b, b mod 256) l ++ replicate n 0).

Lemma wf_pad n l : wf_array n (pad n l).
Proof.
  split.
  - unfold pad. rewrite length_take, length_app, length_replicate. lia.
  - apply Forall_take, Forall_app. split.
    + apply Forall_fmap, Forall_forall. intros b _. cbn. unfold is_byte.
      pose proof (Z.mod_pos_bound b 256). lia.
    + by apply Forall_replicate.
Qed.

Module Toy.
Definition tag (k n : bytes) : bytes := pad 16 (take 8 k ++ take 8 n).
Definition add (a b : bytes) : bytes := zip_with (λ x y, (x + y) mod 256) (pad 32 a) (pad 32 b).

Definition crypto : Crypto := {|
  aead_encrypt k n m := Some (m ++ tag k n);
  aead_decrypt k n c :=
    let m := take (length c - 16) c in
    if bool_decide (c = m ++ tag k n) then Some m else None;
  ed_public sk := pad 32 sk;
  ed_sign sk m := pad 64 (pad 32 sk ++ m);
  ed_verify pk m s := bool_decide (s = pad 64 (pk ++ m));
  ed_verify_strict pk m s := bool_decide (s = pad 64 (pk ++ m));
  ed_valid_key pk := bool_decide (wf_key pk);
  x_public sk := rev (pad 32 sk);
  x_dh a b := add a (rev (pad 32 b));
  hkdf ikm salt info := pad 32 ikm;
  sha256 m := pad 32 m |}.

Lemma pad_id n l : wf_array n l → pad n l = l.
Proof.
  intros [<- Hl]. unfold pad.
  assert (map (λ b, b mod 256) l = l) as ->.
  { induction Hl as [|b l Hb Hl IH]; cbn; [done|]. rewrite IH, Z.mod_small; done. }
  by rewrite take_app_length.
Qed.

Lemma wf_rev n l : wf_array n l → wf_array n (rev l).
Proof. intros [<- Hl]. split; [apply length_rev|]. by apply List.Forall_rev. Qed.
Lemma crypto_laws : @CryptoLaws crypto.
Proof.
  assert (∀ k n, length (tag k n) = 16%nat) as Htag by (intros; apply (wf_pad 16)).
  split; cbn -[pad].
  - intros k n m c [= <-]. rewrite length_app, Htag, Nat.add_sub, take_app_length.
    by rewrite bool_decide_eq_true_2.
  - intros k n m c [= <-]. by rewrite length_app, Htag.
  - intros. by apply bool_decide_eq_true_2.
  - intros. by apply bool_decide_eq_true_2.
  - intros. apply bool_decide_eq_true_2, wf_pad.
  - intros. apply wf_pad.
  - intros. apply wf_pad.
  - intros a b. rewrite !(pad_id 32 (rev _)), !rev_involutive by apply wf_rev, wf_pad. unfold add.
    rewrite !(pad_id 32 (pad 32 _)) by apply wf_pad.
    generalize (pad 32 a) (pad 32 b). intros l; induction l as [|x l IH]; intros [|y k]; cbn; [done..|].
    by rewrite Z.add_comm, IH.
  - intros. apply wf_rev, wf_pad.
  - intros. apply wf_pad.
Qed.
End Toy.

(** ** Properties *)

Section crypto_props.
Context `{CryptoLaws}.

Lemma take_app_exact {A} n (l k : list A) : length l = n → take n (l ++ k) = l.
Proof. intros <-. apply take_app_length. Qed.
Lemma drop_app_exact {A} n (l k : list A) : length l = n → drop n (l ++ k) = k.
Proof. intros <-. apply drop_app_length. Qed.

Lemma encrypt_bytes_roundtrip nonce data key blob :
  length nonce = 24%nat → encrypt_bytes nonce data key = Ok blob →
  decrypt_bytes blob key = Ok data ∧ length blob = (length data + 40)%nat.
Proof using Type*.
  intros Hn. unfold encrypt_bytes, decrypt_bytes.
  destruct (aead_encrypt key nonce data) as [c|] eqn:Hc; cbn; [|done]. intros [= <-].
  rewrite length_app, Hn, take_app_exact, drop_app_exact by done.
  destruct (Nat.ltb_spec (24 + length c) 24); [lia|].
  apply aead_length in Hc as Hl. apply aead_roundtrip in Hc. rewrite Hc. split; [done|lia].
Qed.

Lemma encrypt_roundtrip key nonce plaintext blob :
  length nonce = 24%nat → encrypt key nonce plaintext = Ok blob → decrypt key blob = Ok plaintext.
Proof using Type*.
  intros Hn Hb. apply (encrypt_bytes_roundtrip nonce plaintext key blob Hn).
  revert Hb. unfold encrypt, encrypt_message, encrypt_bytes.
  by destruct (aead_encrypt key nonce plaintext).
Qed.

Lemma unwrap_wrapped key ephem_sk nonce member_sk wrapped :
  length key = 32%nat → length nonce = 24%nat →
  encrypt_for_member key ephem_sk nonce (x_public member_sk) = Ok wrapped →
  length wrapped = 104%nat ∧ decrypt_for_self member_sk wrapped = Ok key.
Proof using Type*.
  intros Hk Hn. unfold encrypt_for_member.
  destruct (aead_encrypt _ _ _) as [c|] eqn:Hc; cbn; [|done]. intros [= <-].
  pose proof (wf_x_public ephem_sk) as [Hp _]. pose proof (aead_length _ _ _ _ Hc) as Hlc.
  assert (length (x_public ephem_sk ++ nonce ++ c) = 104%nat) as Hlen
    by (rewrite !length_app; lia).
  split; [done|]. unfold decrypt_for_self. rewrite Hlen. cbn [Nat.ltb Nat.leb Nat.add].
  rewrite take_app_exact, drop_app_exact, take_app_exact by done.
  assert (drop 56 (x_public ephem_sk ++ nonce ++ c) = c) as ->.
  { rewrite app_assoc. apply drop_app_exact. rewrite length_app. lia. }
  rewrite x_dh_comm. apply aead_roundtrip in Hc. rewrite Hc. cbn. by rewrite Hk.
Qed.

(** A channel key wrapped for a member's X25519 public key is recovered by that member's
    secret key from the 104-byte blob, and a blob too short to hold the ephemeral key,
    the nonce and an AEAD tag is refused. *)
Theorem channel_key_wrap_roundtrip key ephem_sk nonce member_sk wrapped :
  length key = 32%nat → length nonce = 24%nat →
  encrypt_for_member key ephem_sk nonce (x_public member_sk) = Ok wrapped →
  length wrapped = 104%nat ∧ decrypt_for_self member_sk wrapped = Ok key ∧
  ∀ n, (n < 72)%nat → decrypt_for_self member_sk (take n wrapped) = Err TooShort.
Proof using Type*.
  intros Hk Hn Hw. destruct (unwrap_wrapped _ _ _ _ _ Hk Hn Hw) as [Hlen Hd].
  split_and!; [done..|]. intros n Hlt. unfold decrypt_for_self. rewrite length_take.
  by destruct (Nat.ltb_spec (n `min` length wrapped) (32 + 24 + 16)); [|lia].
Qed.

Lemma signable_inj c n e c' n' e' :
  wf_key c → wf_key n → wf_key c' → wf_key n' → is_u64 e → is_u64 e' →
  signable c n e = signable c' n' e' → c = c' ∧ n = n' ∧ e = e'.
Proof using Type.
  intros [Hc _] [Hn _] [Hc' _] [Hn' _] He He'. unfold signable, is_u64, U64_MAX in *.
  intros [-> Heq]%app_inj_1; [|congruence]. apply app_inj_1 in Heq as [-> Heq]; [|congruence].
  split_and!; [done..|]. apply (f_equal of_le) in Heq.
  rewrite !of_le_le_bytes, !Z.mod_small in Heq by (cbn; lia). done.
Qed.

(** A hosting certificate issued by the holder of a community key verifies against that
    key exactly until its expiry second; and whatever certificate verifies carries a
    signature, under the community key it names, over its own three fields, so that no
    other (community, node, expiry) triple shares the signed message. *)
Theorem hosting_cert_correct community_sk node_pk expires_at now cert vk :
  wf_key node_pk → is_u64 expires_at →
  (cert_verify now (cert_new community_sk node_pk expires_at) (ed_public community_sk) = Ok tt ↔
     now ≤ expires_at) ∧
  (cert_verify now cert vk = Ok tt →
     vk = cert_community_pk cert ∧ now ≤ cert_expires_at cert ∧
     ed_verify vk (signable vk (cert_node_pk cert) (cert_expires_at cert)) (cert_signature cert) = true ∧
     (wf_key vk → wf_key (cert_node_pk cert) → is_u64 (cert_expires_at cert) →
      signable vk (cert_node_pk cert) (cert_expires_at cert) =
        signable (ed_public community_sk) node_pk expires_at →
      vk = ed_public community_sk ∧ cert_node_pk cert = node_pk ∧ cert_expires_at cert = expires_at)).
Proof using Type*.
  intros Hnode Hexp. split.
  - unfold cert_verify, cert_new; cbn. rewrite bool_decide_eq_true_2 by done.
    rewrite ed_sign_verify. destruct (Z.ltb_spec expires_at now); split; done || lia.
  - unfold cert_verify. case_bool_decide as Hvk; [|done]. subst vk.
    destruct (ed_verify _ _ _) eqn:Hsig; [|done].
    destruct (Z.ltb_spec (cert_expires_at cert) now); [done|]. intros _.
    split_and!; [done|lia|done|]. intros ???. apply signable_inj; try done. apply wf_ed_public.
Qed.

(** A sealed direct message opens to its plaintext under the recipient's key. *)
Theorem dm_seal_open sender_sk ephem_sk nonce recipient_sk plaintext env :
  seal sender_sk ephem_sk nonce (x_public recipient_sk) plaintext = Ok env →
  open env recipient_sk = Ok plaintext ∧
  env_sender_pk env = x_public sender_sk ∧
  length (env_ciphertext env) = (length plaintext + 16)%nat.
Proof using Type*.
  unfold seal. destruct (aead_encrypt _ _ _) as [c|] eqn:Hc; cbn; [|done]. intros [= <-].
  unfold open; cbn. rewrite (x_dh_comm recipient_sk ephem_sk), (x_dh_comm recipient_sk sender_sk).
  split_and!; [|done|by eapply aead_length]. apply aead_roundtrip in Hc. by rewrite Hc.
Qed.

(** The envelope a recipient can build in someone else's name: the static
    Diffie-Hellman term only needs the recipient's own secret. *)
Definition forge (recipient_sk claimed_sender_pk ephem_sk nonce plaintext : bytes)
    : option DmEnvelope :=
  let ephem_pk := x_public ephem_sk in
  c ← aead_encrypt
        (dm_key (x_dh recipient_sk ephem_pk) (x_dh recipient_sk claimed_sender_pk) ephem_pk)
        nonce plaintext;
  Some (mkEnvelope claimed_sender_pk ephem_pk nonce c).

(** Envelopes authenticate the sender to the recipient only against third parties: the
    recipient alone, with no knowledge of the sender's secret, can build an envelope
    naming any sender public key that opens to any plaintext. *)
Theorem dm_recipient_can_forge recipient_sk claimed_sender_pk ephem_sk nonce plaintext env :
  forge recipient_sk claimed_sender_pk ephem_sk nonce plaintext = Some env →
  env_sender_pk env = claimed_sender_pk ∧ open env recipient_sk = Ok plaintext.
Proof using Type*.
  unfold forge. intros (c & Hc & [= <-])%bind_Some. split; [done|].
  unfold open; cbn. apply aead_roundtrip in Hc. by rewrite Hc.
Qed.
End crypto_props.

Section crypto_witnesses.
#[local] Existing Instance Toy.crypto.
#[local] Existing Instance Toy.crypto_laws.

Lemma channel_key_wrap_roundtrip_witness :
  let w := replicate 32 3 ++ replicate 24 1 ++ replicate 32 9 ++ replicate 8 5 ++ replicate 8 1 in
  encrypt_for_member (replicate 32 9) (replicate 32 3) (replicate 24 1)
    (x_public (replicate 32 2)) = Ok w ∧
  decrypt_for_self (replicate 32 2) w = Ok (replicate 32 9).
Proof.
  cbv zeta. split; [vm_compute; reflexivity|].
  apply (channel_key_wrap_roundtrip (replicate 32 9) (replicate 32 3) (replicate 24 1)
           (replicate 32 2)); vm_compute; reflexivity.
Defined.

Lemma hosting_cert_correct_witness :
  let cert := cert_new (replicate 32 4) (replicate 32 6) 1000 in
  cert_verify 1000 cert (replicate 32 4) = Ok tt ∧
  cert_verify 1001 cert (replicate 32 4) = Err CertExpired ∧
  (cert_verify 1000 cert (ed_public (replicate 32 4)) = Ok tt ↔ 1000 ≤ 1000).
Proof.
  cbv zeta. split; [vm_compute; reflexivity|]. split; [vm_compute; reflexivity|].
  apply (hosting_cert_correct (replicate 32 4) (replicate 32 6) 1000 1000
           (cert_new [] [] 0) []); [by apply wf_array_replicate|by vm_compute].
Defined.

Lemma dm_seal_open_witness :
  let env := mkEnvelope (replicate 32 1) (replicate 32 2) (replicate 24 0)
               ([104; 105] ++ replicate 8 5 ++ replicate 8 0) in
  seal (replicate 32 1) (replicate 32 2) (replicate 24 0) (x_public (replicate 32 3)) [104; 105] = Ok env ∧
  open env (replicate 32 3) = Ok [104; 105].
Proof.
  cbv zeta. split; [vm_compute; reflexivity|].
  apply (dm_seal_open (replicate 32 1) (replicate 32 2) (replicate 24 0) (replicate 32 3) [104; 105]).
  vm_compute; reflexivity.
Defined.

Lemma dm_recipient_can_forge_witness :
  let env := mkEnvelope (replicate 32 1) (replicate 32 2) (replicate 24 0)
               ([104; 105] ++ replicate 8 5 ++ replicate 8 0) in
  forge (replicate 32 3) (replicate 32 1) (replicate 32 2) (replicate 24 0) [104; 105] = Some env ∧
  open env (replicate 32 3) = Ok [104; 105].
Proof.
  cbv zeta. split; [vm_compute; reflexivity|].
  apply (dm_recipient_can_forge (replicate 32 3) (replicate 32 1) (replicate 32 2)
           (replicate 24 0) [104; 105]).
  vm_compute; reflexivity.
Defined.
End crypto_witnesses.
