(* ===== verification/Utf8.v ===== *)
(** * UTF-8: what the standard library of Rust knows of it

    [String::from_utf8], [str::is_char_boundary], and the cutting of a name to a number of
    bytes ([truncate_to_byte_len] of [bitcord-core/src/identity/export.rs]). A [str] is its
    bytes. *)

From S2P Require Import Prelude Bytes Crypto.

(** ** [from_utf8] *)

Definition is_cont (b : Z) : bool := (128 <=? b) && (b <=? 191).
Fixpoint valid_utf8 (fuel : nat) (l : bytes) : bool :=
  match fuel with
  | O => bool_decide (l = [])
  | S fuel =>
      match l with
      | [] => true
      | b :: l =>
          if b <=? 127 then valid_utf8 fuel l
          else if (194 <=? b) && (b <=? 223) then
            match l with b1 :: l => is_cont b1 && valid_utf8 fuel l | _ => false end
          else if (224 <=? b) && (b <=? 239) then
            match l with
            | b1 :: b2 :: l =>
                ((if b =? 224 then 160 else 128) <=? b1) && (b1 <=? (if b =? 237 then 159 else 191)) &&
                is_cont b2 && valid_utf8 fuel l
            | _ => false
            end
          else if (240 <=? b) && (b <=? 244) then
            match l with
            | b1 :: b2 :: b3 :: l =>
                ((if b =? 240 then 144 else 128) <=? b1) && (b1 <=? (if b =? 244 then 143 else 191)) &&
                is_cont b2 && is_cont b3 && valid_utf8 fuel l
            | _ => false
            end
          else false
      end
  end.
Definition string_of_bytes (l : bytes) : string :=
  String.string_of_list_ascii (map (λ b, Ascii.ascii_of_nat (Z.to_nat b)) l).
Definition from_utf8 (l : bytes) : option string :=
  if valid_utf8 (length l) l then Some (string_of_bytes l) else None.

(** ** [is_char_boundary] and [truncate_to_byte_len] *)

Definition is_char_boundary (i : nat) (l : bytes) : bool :=
  match i with
  | O => true
  | _ => match l !! i with Some b => negb (is_cont b) | None => (i =? length l)%nat end
  end.
(** The loop that walks back from [end]. *)
Fixpoint char_floor (i : nat) (l : bytes) : nat :=
  match i with O => O | S j => if is_char_boundary i l then i else char_floor j l end.
Definition truncate_to_byte_len (s : bytes) (max_bytes : nat) : bytes :=
  if (length s <=? max_bytes)%nat then s else take (char_floor max_bytes s) s.

(** ** Strings and their bytes *)

Lemma bytes_of_string_byte s : Forall is_byte (bytes_of_string s).
Proof.
  unfold bytes_of_string. induction s as [|c s IH]; cbn; constructor; [|done].
  pose proof (Ascii.nat_ascii_bounded c). unfold is_byte. lia.
Qed.
Lemma string_of_bytes_of_string s : string_of_bytes (bytes_of_string s) = s.
Proof.
  unfold string_of_bytes, bytes_of_string. induction s as [|c s IH]; cbn; [done|].
  rewrite Nat2Z.id, Ascii.ascii_nat_embedding. by f_equal.
Qed.
Lemma bytes_of_string_of_bytes l : Forall is_byte l → bytes_of_string (string_of_bytes l) = l.
Proof.
  unfold string_of_bytes, bytes_of_string. induction 1 as [|b l Hb _ IH]; cbn; [done|].
  rewrite Ascii.nat_ascii_embedding by (unfold is_byte in Hb; lia). rewrite Z2Nat.id by (unfold is_byte in Hb; lia). by f_equal.
Qed.

(** ** Characters *)

Definition utf8 (l : bytes) : Prop := valid_utf8 (length l) l = true.

(** One well-formed sequence: it is read off the front of whatever follows. *)
Record utf8_char (c : bytes) : Prop := {
  uc_head : ∃ b t, c = b :: t ∧ is_cont b = false ∧ Forall (λ x, is_cont x = true) t;
  uc_read fuel rest : valid_utf8 (S fuel) (c ++ rest) = valid_utf8 fuel rest }.

Lemma valid_step fuel l : valid_utf8 (S fuel) l = true →
  l = [] ∨ ∃ c rest, l = c ++ rest ∧ utf8_char c ∧ valid_utf8 fuel rest = true.
Proof.
  destruct l as [|b l]; [by left|]. intros Hv. right. cbn [valid_utf8] in Hv.
  destruct (b <=? 127) eqn:H1.
  { exists [b], l. split; [done|]. split; [|done]. split; [exists b, []|intros; cbn [app valid_utf8]; by rewrite H1].
    split; [done|]. split; [unfold is_cont; lia|constructor]. }
  destruct ((194 <=? b) && (b <=? 223)) eqn:H2.
  { destruct l as [|b1 l]; [done|]. apply andb_true_iff in Hv as [Hc Hv]. exists [b; b1], l. split; [done|]. split; [|done].
    split; [exists b, [b1]|intros; cbn [app valid_utf8]; by rewrite H1, H2, Hc].
    split; [done|]. split; [unfold is_cont; lia|by repeat constructor]. }
  destruct ((224 <=? b) && (b <=? 239)) eqn:H3.
  { destruct l as [|b1 [|b2 l]]; [done..|]. apply andb_true_iff in Hv as [Hc Hv]. exists [b; b1; b2], l. split; [done|]. split; [|done].
    split; [exists b, [b1; b2]|intros; cbn [app valid_utf8]; by rewrite H1, H2, H3, Hc].
    split; [done|]. split; [unfold is_cont; lia|]. apply andb_true_iff in Hc as [Hc Hc2].
    repeat constructor; [|done]. unfold is_cont. destruct (b =? 224), (b =? 237); lia. }
  destruct ((240 <=? b) && (b <=? 244)) eqn:H4; [|done].
  destruct l as [|b1 [|b2 [|b3 l]]]; [done..|]. apply andb_true_iff in Hv as [Hc Hv]. exists [b; b1; b2; b3], l. split; [done|]. split; [|done].
  split; [exists b, [b1; b2; b3]|intros; cbn [app valid_utf8]; by rewrite H1, H2, H3, H4, Hc].
  split; [done|]. split; [unfold is_cont; lia|]. apply andb_true_iff in Hc as [Hc Hc3]. apply andb_true_iff in Hc as [Hc Hc2].
  repeat constructor; [|done..]. unfold is_cont. destruct (b =? 240), (b =? 244); lia.
Qed.

Lemma valid_chars fuel l : valid_utf8 fuel l = true → ∃ cs, l = concat cs ∧ Forall utf8_char cs ∧ (length cs ≤ fuel)%nat.
Proof.
  revert l. induction fuel as [|fuel IH]; intros l Hv.
  - cbn in Hv. apply bool_decide_eq_true in Hv as ->. exists []. split; [done|]. split; [constructor|cbn; lia].
  - apply valid_step in Hv as [->|(c & rest & -> & Hc & Hv)]; [exists []; split; [done|]; split; [constructor|cbn; lia]|].
    destruct (IH rest Hv) as (cs & -> & Hcs & Hl). exists (c :: cs). split; [done|]. split; [by constructor|cbn; lia].
Qed.
Lemma chars_valid fuel cs : Forall utf8_char cs → (length cs ≤ fuel)%nat → valid_utf8 fuel (concat cs) = true.
Proof.
  intros Hcs. revert fuel. induction Hcs as [|c cs Hc _ IH]; intros fuel Hl; [by destruct fuel|].
  destruct fuel as [|fuel]; [cbn in Hl; lia|]. cbn [concat]. rewrite (uc_read c Hc). apply IH. cbn in Hl. lia.
Qed.
Lemma length_chars cs : Forall utf8_char cs → (length cs ≤ length (concat cs))%nat.
Proof.
  induction 1 as [|c cs Hc _ IH]; cbn; [done|]. destruct (uc_head c Hc) as (b & t & -> & _). rewrite length_app. cbn. lia.
Qed.
Lemma utf8_chars l : utf8 l ↔ ∃ cs, l = concat cs ∧ Forall utf8_char cs.
Proof.
  split; [intros (cs & Hl & Hcs & _)%valid_chars; by exists cs|]. intros (cs & -> & Hcs). by apply chars_valid, length_chars.
Qed.
Lemma utf8_drop p q : utf8 (p ++ q) → utf8 p → utf8 q.
Proof.
  intros (cs & Hpq & Hcs)%utf8_chars (ps & -> & Hps)%utf8_chars. apply utf8_chars. revert cs Hpq Hcs.
  induction Hps as [|p ps Hp _ IH]; intros cs Hpq Hcs; [by exists cs|].
  cbn [concat] in Hpq. rewrite <- app_assoc in Hpq.
  assert (valid_utf8 (S (length cs)) (p ++ concat ps ++ q) = true) as Hv by (rewrite Hpq; apply chars_valid; [done|lia]).
  rewrite (uc_read p Hp) in Hv. apply valid_chars in Hv as (cs' & Heq & Hcs' & _). by apply (IH cs').
Qed.
Lemma utf8_boundary p q : utf8 (p ++ q) → utf8 p → is_char_boundary (length p) (p ++ q) = true.
Proof.
  intros Hpq Hp. pose proof (utf8_drop p q Hpq Hp) as Hq. unfold is_char_boundary.
  destruct (length p) as [|n] eqn:Hn; [done|]. rewrite <- Hn, lookup_app_r, Nat.sub_diag by lia.
  apply utf8_chars in Hq as ([|c cs] & -> & Hcs); cbn.
  - rewrite app_nil_r. by rewrite Nat.eqb_refl.
  - apply Forall_cons in Hcs as [Hc _]. destruct (uc_head c Hc) as (b & t & -> & Hb & _). cbn. by rewrite Hb.
Qed.

(** A boundary cuts between characters. *)
Lemma boundary_chars cs : Forall utf8_char cs → ∀ n, (n ≤ length (concat cs))%nat → is_char_boundary n (concat cs) = true →
  ∃ ps, take n (concat cs) = concat ps ∧ Forall utf8_char ps.
Proof.
  induction 1 as [|c cs Hc Hcs IH]; intros n Hn Hb; [exists []; split; [by destruct n|constructor]|].
  destruct n as [|n]; [exists []; split; [done|constructor]|]. cbn [concat] in *.
  destruct (uc_head c Hc) as (b & t & Heq & Hhd & Ht).
  destruct (decide (S n < length c)%nat) as [Hlt|Hge].
  - unfold is_char_boundary in Hb. rewrite lookup_app_l in Hb by done. rewrite Heq in Hb. change ((b :: t) !! S n) with (t !! n) in Hb.
    destruct (lookup_lt_is_Some_2 t n) as [x Hx]; [subst c; cbn in Hlt; lia|]. rewrite Hx in Hb.
    rewrite Forall_forall in Ht. rewrite (Ht x) in Hb by (by eapply list_elem_of_lookup_2). done.
  - rewrite take_app_ge by lia. rewrite length_app in Hn. destruct (IH (S n - length c)%nat) as (ps & Hps & Hf); [lia| |].
    + unfold is_char_boundary in Hb. rewrite lookup_app_r in Hb by lia. unfold is_char_boundary.
      destruct (S n - length c)%nat as [|m] eqn:Hm; [done|].
      destruct (concat cs !! S m) eqn:Hx; [done|]. rewrite length_app in Hb. apply Nat.eqb_eq in Hb. apply Nat.eqb_eq. lia.
    + exists (c :: ps). cbn. rewrite Hps. split; [done|by constructor].
Qed.

Lemma char_floor_spec l m : let n := char_floor m l in
  (n ≤ m)%nat ∧ is_char_boundary n l = true ∧ ∀ k, (k ≤ m)%nat → is_char_boundary k l = true → (k ≤ n)%nat.
Proof.
  induction m as [|m IH]; cbn [char_floor]; [split; [lia|]; split; [done|lia]|].
  destruct (is_char_boundary (S m) l) eqn:Hb; [split; [lia|]; split; [done|lia]|].
  destruct IH as (Hle & Hbd & Hmax). split; [lia|]. split; [done|]. intros k Hk Hkb.
  destruct (decide (k = S m)) as [->|]; [congruence|]. apply Hmax; [lia|done].
Qed.

(** Truncation gives the longest valid prefix that fits. *)
Lemma truncate_spec s m : utf8 s → let t := truncate_to_byte_len s m in
  utf8 t ∧ t `prefix_of` s ∧ (length t ≤ m)%nat ∧ ∀ p, p `prefix_of` s → utf8 p → (length p ≤ m)%nat → (length p ≤ length t)%nat.
Proof.
  intros Hs. unfold truncate_to_byte_len. destruct (Nat.leb_spec (length s) m) as [Hle|Hlt].
  - split; [done|]. split; [done|]. split; [done|]. intros p Hp _ _. by apply prefix_length.
  - pose proof (char_floor_spec s m) as (Hn & Hb & Hmax). split.
    + apply utf8_chars in Hs as (cs & -> & Hcs). apply utf8_chars. apply boundary_chars; [done|lia|done].
    + split; [by apply prefix_take|]. split; [rewrite length_take; lia|]. intros p [q ->] Hp Hpm.
      rewrite length_take. rewrite length_app in *. assert (length p ≤ char_floor m (p ++ q))%nat; [|lia].
      apply Hmax; [done|]. by apply utf8_boundary.
Qed.
Lemma from_utf8_spec l : utf8 l → from_utf8 l = Some (string_of_bytes l).
Proof. intros Hl. unfold from_utf8. by rewrite Hl. Qed.
