(* ===== verification/Identity.v ===== *)
(** * Identities and their files: [bitcord-core/src/identity/], [crypto/encrypted_io.rs]

    The node's key pair and what is derived from it, the keystore file that keeps it under a
    passphrase, the [.bcid] bundle that carries it to another device, and the salt from which
    the key of the tables is derived. Argon2 and Base58 are third-party code. An error is the
    text that [anyhow] displays. *)

From stdpp Require Import pretty.
From S2P Require Import Prelude Bytes Crypto Utf8.

(** Argon2id: memory in KiB, iterations, lanes, password, salt; 32 bytes of output. *)
Class Argon2 := { argon2id : Z → Z → Z → bytes → bytes → bytes }.
Class Base58 := { bs58_encode : bytes → string; bs58_decode : string → option bytes }.

(** The files, by path, and whether writing works. *)
Record Disk := mkDisk { disk_files : gmap string bytes; disk_ok : bool }.
Definition disk_write (path : string) (data : bytes) (d : Disk) : option Disk :=
  if disk_ok d then Some (mkDisk (<[path := data]> (disk_files d)) true) else None.

Section identity.
Context `{Crypto} `{Argon2} `{Base58}.

(** ** [identity/mod.rs] *)

Record NodeIdentity := mkNodeIdentity { signing_key : bytes; verifying_key : bytes }.
Definition from_signing_key_bytes (sk : bytes) : NodeIdentity := mkNodeIdentity sk (ed_public sk).
Definition to_peer_id (id : NodeIdentity) : bytes := sha256 (verifying_key id).
Definition x25519_secret (id : NodeIdentity) : bytes := sha256 (signing_key id).
Definition x25519_public_key_bytes (id : NodeIdentity) : bytes := x_public (x25519_secret id).
Definition node_address (id : NodeIdentity) : string := bs58_encode (verifying_key id).
Definition identity_sign (msg : bytes) (id : NodeIdentity) : bytes := ed_sign (signing_key id) msg.
Definition identity_verify (pubkey msg sig : bytes) : bool := ed_verify pubkey msg sig.

(** ** [identity/keystore.rs] *)

(** The same function three times: here, in [export.rs] and, as [derive_table_key], in
    [encrypted_io.rs]. *)
Definition derive_key (passphrase : string) (salt : bytes) : bytes :=
  argon2id 65536 3 4 (bytes_of_string passphrase) salt.
Definition derive_table_key (passphrase : string) (salt : bytes) : bytes := derive_key passphrase salt.

(** Salt, nonce and the encrypted key. *)
Definition seal_key (failed : string) (id : NodeIdentity) (passphrase : string) (salt nonce : bytes) : result string bytes :=
  match aead_encrypt (derive_key passphrase salt) nonce (signing_key id) with
  | Some ciphertext => Ok (salt ++ nonce ++ ciphertext)
  | None => Err failed
  end.
Definition open_key (too_short failed bad_length : string) (data : bytes) (passphrase : string) : result string NodeIdentity :=
  if (length data <? 56)%nat then Err too_short
  else
    let salt := take 32 data in
    let nonce := take 24 (drop 32 data) in
    match aead_decrypt (derive_key passphrase salt) nonce (drop 56 data) with
    | None => Err failed
    | Some plaintext => if (length plaintext =? 32)%nat then Ok (from_signing_key_bytes plaintext) else Err bad_length
    end.

(** [KeyStore::save] on the salt and the nonce it draws, and [KeyStore::load]. *)
Definition keystore_save (path : string) (id : NodeIdentity) (passphrase : string) (salt nonce : bytes) (d : Disk)
    : result string Disk :=
  file_bytes ← seal_key "Encryption failed" id passphrase salt nonce;
  match disk_write path file_bytes d with Some d => Ok d | None => Err "Failed to write keystore file"%string end.
Definition keystore_load (path : string) (passphrase : string) (d : Disk) : result string NodeIdentity :=
  match disk_files d !! path with
  | None => Err "Failed to read keystore file"%string
  | Some data =>
      open_key "Keystore file is too short to be valid" "Decryption failed: wrong passphrase or corrupt file"
        "Decrypted payload has unexpected length" data passphrase
  end.

(** ** [identity/export.rs] *)

Definition MAGIC : bytes := bytes_of_string "BCID".
Definition VERSION : Z := 1.
Definition encrypt_signing_key : NodeIdentity → string → bytes → bytes → result string bytes := seal_key "encryption failed".
Definition decrypt_signing_key : bytes → string → result string NodeIdentity :=
  open_key "keystore blob is too short" "decryption failed: wrong passphrase or corrupt data"
    "decrypted payload has unexpected length".
Definition export_create (id : NodeIdentity) (display_name : option string) (export_passphrase : string)
    (salt nonce : bytes) : result string bytes :=
  let name := truncate_to_byte_len (bytes_of_string (default ""%string display_name)) 64 in
  keystore_bytes ← encrypt_signing_key id export_passphrase salt nonce;
  Ok (MAGIC ++ [VERSION] ++ [Z.of_nat (length name)] ++ name ++ keystore_bytes).
Definition export_load (data : bytes) (export_passphrase : string) : result string (NodeIdentity * option string) :=
  if (length data <? 6)%nat then Err "not a valid BitCord identity file (too short)"%string
  else if negb (bool_decide (take 4 data = MAGIC)) then Err "not a valid BitCord identity file (wrong magic bytes)"%string
  else
    let version := default 0 (data !! 4%nat) in
    if negb (version =? VERSION) then Err ("unsupported BitCord identity file version " ++ pretty version)%string
    else
      let name_len := Z.to_nat (default 0 (data !! 5%nat)) in
      let header_end := (6 + name_len)%nat in
      if (length data <? header_end + 104)%nat then Err "BitCord identity file is truncated"%string
      else
        name ← (if (name_len =? 0)%nat then Ok None
                else match from_utf8 (take name_len (drop 6 data)) with
                     | Some s => Ok (Some s)
                     | None => Err "display_name in export file is not valid UTF-8"%string
                     end);
        match decrypt_signing_key (take 104 (drop header_end data)) export_passphrase with
        | Ok id => Ok (id, name)
        | Err _ => Err "failed to decrypt identity export (wrong passphrase or corrupt file)"%string
        end.

(** ** [load_or_create_salt] *)

Definition load_or_create_salt (path : string) (fresh : bytes) (d : Disk) : result string (bytes * Disk) :=
  match disk_files d !! path with
  | Some data =>
      if (length data =? 32)%nat then Ok (data, d)
      else Err ("table salt file has unexpected length " ++ pretty (length data) ++ " (expected 32)")%string
  | None => match disk_write path fresh d with Some d => Ok (fresh, d) | None => Err "write table salt file"%string end
  end.
End identity.

Section identity_props.
Context `{CryptoLaws} `{Argon2} `{Base58}.

(** ** The sealed key *)

Lemma sealed_key failed id pass salt nonce blob :
  length salt = 32%nat → length nonce = 24%nat → seal_key failed id pass salt nonce = Ok blob →
  length blob = (72 + length (signing_key id))%nat ∧ take 32 blob = salt ∧
  ∀ short wrong bad pass', open_key short wrong bad blob pass' =
    match aead_decrypt (derive_key pass' salt) nonce (drop 56 blob) with
    | Some plain => if (length plain =? 32)%nat then Ok (from_signing_key_bytes plain) else Err bad
    | None => Err wrong
    end.
Proof.
  intros Hs Hn. unfold seal_key. destruct (aead_encrypt _ nonce (signing_key id)) as [c|] eqn:Hc; [|done]. intros [= <-].
  pose proof (aead_length _ _ _ _ Hc) as Hlen. split; [rewrite !length_app; lia|]. split; [by rewrite take_app_length'|].
  intros. unfold open_key. destruct (Nat.ltb_spec (length (salt ++ nonce ++ c)) 56) as [Hlt|_].
  { rewrite !length_app in Hlt. lia. }
  rewrite take_app_length' by done. rewrite drop_app_length' by done. rewrite take_app_length' by done. done.
Qed.
Lemma sealed_key_opens failed id pass salt nonce blob short wrong bad :
  length salt = 32%nat → length nonce = 24%nat → length (signing_key id) = 32%nat → verifying_key id = ed_public (signing_key id) →
  seal_key failed id pass salt nonce = Ok blob → open_key short wrong bad blob pass = Ok id.
Proof.
  intros Hs Hn Hk Hv Hb. destruct (sealed_key _ _ _ _ _ _ Hs Hn Hb) as (_ & _ & Ho). rewrite Ho.
  unfold seal_key in Hb. destruct (aead_encrypt _ nonce (signing_key id)) as [c|] eqn:Hc; [|done]. injection Hb as <-.
  rewrite app_assoc, drop_app_length' by (rewrite length_app; lia).
  rewrite (aead_roundtrip _ _ _ _ Hc), Hk. cbn. unfold from_signing_key_bytes. rewrite <- Hv. by destruct id.
Qed.

(** The keystore: an identity that has been saved is loaded by its passphrase, and the
    other files are as they were; another passphrase is refused as long as the cipher
    rejects what another key has encrypted; a file that cannot be written is reported and
    nothing is lost. *)
Theorem keystore_roundtrip path id pass salt nonce d :
  length salt = 32%nat → length nonce = 24%nat → length (signing_key id) = 32%nat → verifying_key id = ed_public (signing_key id) →
  (∃ c, aead_encrypt (derive_key pass salt) nonce (signing_key id) = Some c) →
  if disk_ok d then
    ∃ d', keystore_save path id pass salt nonce d = Ok d' ∧ keystore_load path pass d' = Ok id ∧
      (∀ p, p ≠ path → disk_files d' !! p = disk_files d !! p) ∧
      ∀ pass', (∀ c, aead_encrypt (derive_key pass salt) nonce (signing_key id) = Some c →
                     aead_decrypt (derive_key pass' salt) nonce c = None) → ∃ e, keystore_load path pass' d' = Err e
  else keystore_save path id pass salt nonce d = Err "Failed to write keystore file"%string.
Proof.
  intros Hs Hn Hk Hv [c Hc]. unfold keystore_save. destruct (seal_key "Encryption failed" id pass salt nonce) as [blob|] eqn:Hb.
  2:{ unfold seal_key in Hb. by rewrite Hc in Hb. }
  cbn. unfold disk_write. destruct (disk_ok d); [|done].
  exists (mkDisk (<[path := blob]> (disk_files d)) true). split; [done|]. unfold keystore_load. cbn. rewrite lookup_insert_eq. split.
  - exact (sealed_key_opens _ id pass salt nonce blob _ _ _ Hs Hn Hk Hv Hb).
  - split; [intros p Hp; by rewrite lookup_insert_ne|]. intros pass' Hrej.
    destruct (sealed_key _ _ _ _ _ _ Hs Hn Hb) as (_ & _ & ->). unfold seal_key in Hb. rewrite Hc in Hb. injection Hb as <-.
    rewrite app_assoc, drop_app_length' by (rewrite length_app; lia). rewrite (Hrej c Hc). by eexists.
Qed.

(** ** The bundle *)

(** A bundle, read: the header is taken as it is, and what follows the key is ignored. *)
Lemma load_bundle name blob rest pass :
  utf8 name → (length name ≤ 255)%nat → length blob = 104%nat →
  export_load (MAGIC ++ [VERSION] ++ [Z.of_nat (length name)] ++ name ++ blob ++ rest) pass =
    match decrypt_signing_key blob pass with
    | Ok id => Ok (id, if decide (name = []) then None else Some (string_of_bytes name))
    | Err _ => Err "failed to decrypt identity export (wrong passphrase or corrupt file)"%string
    end.
Proof.
  intros Hu Hl Hb. set (data := MAGIC ++ [VERSION] ++ [Z.of_nat (length name)] ++ name ++ blob ++ rest).
  assert (length data = (6 + length (name ++ blob ++ rest))%nat) as Hlen by done.
  assert (take 4 data = MAGIC) as Hmagic by done. assert (data !! 4%nat = Some VERSION) as Hversion by done.
  assert (data !! 5%nat = Some (Z.of_nat (length name))) as Hname by done.
  assert (drop 6 data = name ++ blob ++ rest) as Hdrop by done.
  assert (drop (6 + length name) data = drop (length name) (name ++ blob ++ rest)) as Hdrop2 by done.
  clearbody data. unfold export_load. rewrite Hmagic, Hversion, Hname, Hlen, bool_decide_eq_true_2 by done.
  cbn [negb from_option id]. rewrite Nat2Z.id, Z.eqb_refl, Hdrop, Hdrop2. cbn [negb].
  destruct (Nat.ltb_spec (6 + length (name ++ blob ++ rest)) 6) as [Hlt|_]; [lia|].
  destruct (Nat.ltb_spec (6 + length (name ++ blob ++ rest)) (6 + length name + 104)) as [Hlt|_].
  { rewrite !length_app in Hlt. lia. }
  rewrite take_app_length, drop_app_length, take_app_length' by done.
  destruct name as [|b name]; [done|]. change (length (b :: name) =? 0)%nat with false. cbv iota.
  rewrite from_utf8_spec by done. cbn [mbind result_bind]. by rewrite decide_False.
Qed.

(** What [create] writes: the kept part of the name and the sealed key, which [load] opens. *)
Lemma export_created id display_name pass salt nonce bundle :
  length salt = 32%nat → length nonce = 24%nat → length (signing_key id) = 32%nat → verifying_key id = ed_public (signing_key id) →
  let name := truncate_to_byte_len (bytes_of_string (default ""%string display_name)) 64 in
  export_create id display_name pass salt nonce = Ok bundle →
  ∃ blob, bundle = MAGIC ++ [VERSION] ++ [Z.of_nat (length name)] ++ name ++ blob ∧ length blob = 104%nat ∧
    decrypt_signing_key blob pass = Ok id.
Proof.
  intros Hs Hn Hk Hv name. unfold export_create. fold name.
  destruct (encrypt_signing_key id pass salt nonce) as [blob|] eqn:Hb; [|done]. cbn [mbind result_bind]. intros Hok.
  exists blob. split; [congruence|]. destruct (sealed_key _ _ _ _ _ _ Hs Hn Hb) as (Hlen & _ & _). rewrite Hk in Hlen.
  split; [done|]. exact (sealed_key_opens _ id pass salt nonce blob "keystore blob is too short"
    "decryption failed: wrong passphrase or corrupt data" "decrypted payload has unexpected length" Hs Hn Hk Hv Hb).
Qed.
(** So a bundle that was created loads, whatever bytes follow. *)
Lemma export_loads id display_name pass salt nonce bundle rest :
  length salt = 32%nat → length nonce = 24%nat → length (signing_key id) = 32%nat → verifying_key id = ed_public (signing_key id) →
  utf8 (bytes_of_string (default ""%string display_name)) →
  export_create id display_name pass salt nonce = Ok bundle →
  let name := truncate_to_byte_len (bytes_of_string (default ""%string display_name)) 64 in
  export_load (bundle ++ rest) pass = Ok (id, if decide (name = []) then None else Some (string_of_bytes name)).
Proof.
  intros Hs Hn Hk Hv Hu Hc name. destruct (export_created _ _ _ _ _ _ Hs Hn Hk Hv Hc) as (blob & -> & Hlen & Hopen).
  destruct (truncate_spec _ 64 Hu) as (Htu & Htp & Htl & Htm). fold name in Htu, Htl |- *.
  rewrite <- !app_assoc. rewrite load_bundle by (done || lia). by rewrite Hopen.
Qed.

(** C40: the portable bundle: what [create] writes, [load] reads back under the same
    passphrase as the same identity, whatever bytes follow; the name comes back as its
    longest prefix of whole characters that fits into 64 bytes, and an empty name as none.
    The name is not protected by the passphrase: a bundle whose name has been replaced by
    any other of up to 255 bytes loads as well, with that name. *)
Theorem export_roundtrip id display_name pass salt nonce bundle rest :
  length salt = 32%nat → length nonce = 24%nat → length (signing_key id) = 32%nat → verifying_key id = ed_public (signing_key id) →
  let name := bytes_of_string (default ""%string display_name) in
  utf8 name → export_create id display_name pass salt nonce = Ok bundle →
  (∃ kept, export_load (bundle ++ rest) pass =
       Ok (id, if decide (kept = []) then None else Some (string_of_bytes kept)) ∧
     utf8 kept ∧ kept `prefix_of` name ∧ (length kept ≤ 64)%nat ∧
     (∀ p, p `prefix_of` name → utf8 p → (length p ≤ 64)%nat → (length p ≤ length kept)%nat) ∧
     ((length name ≤ 64)%nat → kept = name)) ∧
  (∀ other, utf8 other → (length other ≤ 255)%nat → other ≠ [] → ∃ blob,
     drop (length bundle - 104) bundle = blob ∧
     export_load (MAGIC ++ [VERSION] ++ [Z.of_nat (length other)] ++ other ++ blob) pass = Ok (id, Some (string_of_bytes other))).
Proof.
  intros Hs Hn Hk Hv name Hu Hc. destruct (truncate_spec name 64 Hu) as (Htu & Htp & Htl & Htm). split.
  - exists (truncate_to_byte_len name 64).
    split; [by apply (export_loads id display_name pass salt nonce bundle rest)|]. split; [done|]. split; [done|].
    split; [done|]. split; [done|]. intros Hle. unfold truncate_to_byte_len.
    by destruct (Nat.leb_spec (length name) 64); [|lia].
  - intros other Hou Hol Hne. destruct (export_created _ _ _ _ _ _ Hs Hn Hk Hv Hc) as (blob & -> & Hlen & Hopen).
    exists blob. split.
    + rewrite !app_assoc. rewrite length_app, Hlen, Nat.add_sub. apply drop_app_length.
    + pose proof (load_bundle other blob [] pass Hou Hol Hlen) as Hload. rewrite app_nil_r in Hload. rewrite Hload, Hopen.
      by rewrite decide_False.
Qed.
End identity_props.

(** ** A concrete key derivation *)

Module IdentityExample.
#[export] Existing Instance Toy.crypto.
#[export] Existing Instance Toy.crypto_laws.
#[export] Instance argon2 : Argon2 := {| argon2id _ _ _ password salt := pad 32 (password ++ salt) |}.
Fixpoint unhex (s : string) : option bytes :=
  match s with
  | String c1 (String c2 s') => h ← unhex_digit c1; l ← unhex_digit c2; bs ← unhex s'; Some (16 * h + l :: bs)
  | EmptyString => Some []
  | _ => None
  end.
#[export] Instance base58 : Base58 := {| bs58_encode := hex; bs58_decode := unhex |}.
Definition salt0 : bytes := replicate 32 7.
Definition nonce0 : bytes := replicate 24 8.
Definition alice : NodeIdentity := from_signing_key_bytes (replicate 32 9).
(** Two letters of one byte and one of two. *)
Definition name0 : string := string_of_bytes [65; 195; 169; 66].
Definition bundle0 : bytes := match export_create alice (Some name0) "passw0rd" salt0 nonce0 with Ok b => b | Err _ => [] end.
End IdentityExample.

Section identity_witnesses.
Import IdentityExample.
Lemma keystore_roundtrip_witness :
  ∃ d', keystore_save "k" alice "passw0rd" salt0 nonce0 (mkDisk ∅ true) = Ok d' ∧ keystore_load "k" "passw0rd" d' = Ok alice ∧
    ∃ e, keystore_load "k" "guess" d' = Err e.
Proof.
  pose proof (keystore_roundtrip "k" alice "passw0rd" salt0 nonce0 (mkDisk ∅ true) eq_refl eq_refl eq_refl ltac:(by vm_compute)
    ltac:(by eexists)) as (d' & Hs & Hl & _ & Hw).
  exists d'. split; [exact Hs|]. split; [exact Hl|]. apply (Hw "guess"%string). intros c [= <-]. by vm_compute.
Defined.
Lemma export_roundtrip_witness :
  export_load (bundle0 ++ [1; 2]) "passw0rd" = Ok (alice, Some name0) ∧
  ∃ blob, export_load (MAGIC ++ [VERSION] ++ [1] ++ [66] ++ blob) "passw0rd" = Ok (alice, Some "B"%string).
Proof.
  destruct (export_roundtrip alice (Some name0) "passw0rd" salt0 nonce0 bundle0 [1; 2] eq_refl eq_refl eq_refl ltac:(by vm_compute)
    ltac:(by vm_compute) ltac:(by vm_compute)) as [(kept & Hl & _ & _ & _ & _ & Hk) Hother].
  split.
  - assert (kept = bytes_of_string name0) as Hkept by (apply Hk; vm_compute; lia). rewrite Hkept in Hl.
    refine (eq_trans Hl _). by vm_compute.
  - destruct (Hother [66] ltac:(by vm_compute) ltac:(cbn; lia) ltac:(done)) as (blob & _ & Ho). exists blob. exact Ho.
Defined.
End identity_witnesses.
