(* ===== verification/Codec.v ===== *)
(** * The [postcard] interface

    [postcard] is a third-party serialiser: a type that derives [Serialize] and
    [Deserialize] gets an instance of [Postcard], whose laws are the documented round
    trip. [countable_postcard] is a concrete instance for any countable type, used by the
    witnesses. *)

From stdpp Require Import countable.
From S2P Require Import Prelude Bytes.

Class Postcard (A : Type) := {
  to_allocvec : A → option bytes;
  from_bytes : bytes → option A }.

Class PostcardLaws (A : Type) `{Postcard A} : Prop := {
  postcard_roundtrip (a : A) b : to_allocvec a = Some b → from_bytes b = Some a;
  postcard_bytes (a : A) b : to_allocvec a = Some b → Forall is_byte b }.

(** ** A concrete serialiser: the bits of the countable encoding *)

Fixpoint pos_bits (p : positive) : bytes :=
  match p with xH => [1] | xO p => 0 :: pos_bits p | xI p => 1 :: pos_bits p end.
Fixpoint bits_pos (l : bytes) : option positive :=
  match l with
  | [] => None
  | [b] => if b =? 1 then Some xH else None
  | b :: l' => p ← bits_pos l'; if b =? 0 then Some (xO p) else if b =? 1 then Some (xI p) else None
  end.

Lemma pos_bits_nonempty p : pos_bits p ≠ [].
Proof. by destruct p. Qed.
Lemma bits_pos_bits p : bits_pos (pos_bits p) = Some p.
Proof.
  induction p as [p IH|p IH|]; cbn; [| |done];
    destruct (pos_bits p) eqn:Hp; try (by apply pos_bits_nonempty in Hp); by rewrite IH.
Qed.
Lemma pos_bits_ok p : Forall is_byte (pos_bits p).
Proof. induction p; cbn; constructor; done || (unfold is_byte; lia). Qed.

Definition countable_postcard (A : Type) `{Countable A} : Postcard A := {|
  to_allocvec a := Some (pos_bits (encode a));
  from_bytes b := p ← bits_pos b; decode p |}.

Lemma countable_postcard_laws (A : Type) `{Countable A} :
  @PostcardLaws A (countable_postcard A).
Proof.
  split; cbn.
  - intros a b [= <-]. rewrite bits_pos_bits. apply decode_encode.
  - intros a b [= <-]. apply pos_bits_ok.
Qed.

(** ** A concrete serialiser that abbreviates a few values

    The values of [table] become the one-byte strings 2, 3, ...; every other value is
    written as its bits, which are 0 and 1. *)

Definition abbrev_postcard (A : Type) `{Countable A} (table : list A) : Postcard A := {|
  to_allocvec a :=
    match list_find (a =.) table with
    | Some (i, _) => Some [Z.of_nat i + 2]
    | None => Some (pos_bits (encode a))
    end;
  from_bytes b :=
    match b with
    | [x] => if 2 <=? x then table !! Z.to_nat (x - 2) else p ← bits_pos b; decode p
    | _ => p ← bits_pos b; decode p
    end |}.

Lemma abbrev_postcard_laws (A : Type) `{Countable A} (table : list A) :
  (length table ≤ 200)%nat → @PostcardLaws A (abbrev_postcard A table).
Proof.
  intros Hlen. split; cbn.
  - intros a b. destruct (list_find (a =.) table) as [[i y]|] eqn:Hf; intros [= <-].
    + apply list_find_Some in Hf as (Hi & <- & _).
      destruct (Z.leb_spec 2 (Z.of_nat i + 2)); [|lia].
      by replace (Z.to_nat (Z.of_nat i + 2 - 2)) with i by lia.
    + assert (∀ p, (match pos_bits p with
        | [x] => if 2 <=? x then table !! Z.to_nat (x - 2) else p ← bits_pos (pos_bits p); decode p
        | _ => p ← bits_pos (pos_bits p); decode p end) = decode p) as Hd; [|by rewrite Hd, decode_encode].
      intros p. rewrite bits_pos_bits. cbn. destruct p as [q|q|]; cbn; [| |done];
        destruct (pos_bits q) eqn:Hq; try done; by apply pos_bits_nonempty in Hq.
  - intros a b. destruct (list_find (a =.) table) as [[i y]|] eqn:Hf; intros [= <-].
    + apply list_find_Some in Hf as (Hi & _). apply lookup_lt_Some in Hi.
      repeat constructor; unfold is_byte; lia.
    + apply pos_bits_ok.
Qed.

(** ** A concrete serialiser of a few values

    The values of [table] become one-byte strings; nothing else can be written. *)

Definition table_postcard (A : Type) `{EqDecision A} (table : list A) : Postcard A := {|
  to_allocvec a := match list_find (a =.) table with Some (i, _) => Some [Z.of_nat i] | None => None end;
  from_bytes b := match b with [x] => table !! Z.to_nat x | _ => None end |}.

Lemma table_postcard_laws (A : Type) `{EqDecision A} (table : list A) :
  (length table ≤ 256)%nat → @PostcardLaws A (table_postcard A table).
Proof.
  intros Hlen. split; cbn.
  - intros a b. destruct (list_find (a =.) table) as [[i y]|] eqn:Hf; [|done]. intros [= <-].
    apply list_find_Some in Hf as (Hi & <- & _). by rewrite Nat2Z.id.
  - intros a b. destruct (list_find (a =.) table) as [[i y]|] eqn:Hf; [|done]. intros [= <-].
    apply list_find_Some in Hf as (Hi & _). apply lookup_lt_Some in Hi. repeat constructor; lia.
Qed.
Lemma table_postcard_written (A : Type) `{EqDecision A} (table : list A) a :
  a ∈ table → ∃ x, @to_allocvec A (table_postcard A table) a = Some [x].
Proof.
  intros Hin. cbn. destruct (list_find (a =.) table) as [[i y]|] eqn:Hf; [by eexists|].
  apply list_find_None in Hf. rewrite Forall_forall in Hf. by destruct (Hf a Hin).
Qed.
