(* ===== verification/Model.v ===== *)
(** * The data model: [bitcord-core/src/model/] and [state::message_log::LogEntry]

    Identifiers, channels, communities, memberships, messages and the wire events that
    nodes gossip, with the signing and verification of the signed ones. A ULID is its
    128-bit value; a [DateTime<Utc>] is its count of nanoseconds since the epoch. *)

From S2P Require Import Prelude Bytes Crypto Codec.

(** ** [types.rs] *)

Notation Ulid := Z (only parsing).
Notation CommunityId := Z (only parsing).
Notation ChannelId := Z (only parsing).
Notation MessageId := Z (only parsing).
Notation UserId := bytes (only parsing).
Notation DateTime := Z (only parsing).

Definition is_u128 (z : Z) : Prop := 0 ≤ z < 256 ^ 16.

(** [Ulid::to_bytes]: sixteen big-endian bytes. *)
Definition ulid_bytes (id : Ulid) : bytes := be_bytes 16 id.

Definition timestamp_millis (t : DateTime) : Z := t / 1000000.

Definition from_verifying_key `{Crypto} (vk : bytes) : UserId := sha256 vk.

(** [u8::from_str_radix(c, 16)] on a two-character string: an optional plus sign is part of
    the syntax of Rust's unsigned integers. *)
Definition parse_hex_pair (c1 c2 : Ascii.ascii) : option Z :=
  if bool_decide (c1 = Ascii.ascii_of_nat 43 (* + *)) then unhex_digit c2
  else h ← unhex_digit c1; l ← unhex_digit c2; Some (16 * h + l).

Fixpoint parse_pairs (s : string) : option bytes :=
  match s with
  | EmptyString => Some []
  | String c1 (String c2 s') => b ← parse_hex_pair c1 c2; bs ← parse_pairs s'; Some (b :: bs)
  | String _ EmptyString => None
  end.

(** [UserId]'s [Deserialize]: [HexVisitor::visit_str]. *)
Definition user_id_visit_str (v : string) : option UserId :=
  if (String.length v =? 64)%nat then parse_pairs v else None.

(** ** [channel.rs] *)

Inductive ChannelKind := Text | Announcement | Voice.

Record ChannelManifest := mkChannel {
  ch_id : ChannelId;
  ch_community_id : CommunityId;
  ch_name : string;
  ch_kind : ChannelKind;
  ch_encrypted_channel_key : gmap bytes bytes;
  ch_created_at : DateTime;
  ch_version : Z }.

(** ** [community.rs] *)

Record CommunityManifest := mkManifest {
  cm_id : CommunityId;
  cm_name : string;
  cm_description : string;
  cm_public_key : bytes;
  cm_created_at : DateTime;
  cm_admin_ids : list bytes;
  cm_channel_ids : list ChannelId;
  cm_seed_nodes : list string;
  cm_version : Z;
  cm_deleted : bool }.

Record SignedManifest := mkSigned {
  sm_manifest : CommunityManifest;
  sm_signature : bytes }.

(** ** [membership.rs] *)

Inductive Role := Admin | Moderator | Member.

Record MembershipRecord := mkMember {
  mr_user_id : UserId;
  mr_community_id : CommunityId;
  mr_display_name : string;
  mr_avatar_cid : option string;
  mr_joined_at : DateTime;
  mr_roles : list Role;
  mr_public_key : bytes;
  mr_x25519_public_key : bytes;
  mr_signature : bytes }.

(** ** [message.rs] *)

Record AttachmentRef := mkAttachment {
  at_cid : string; at_name : string; at_size : Z; at_mime_type : string }.

Inductive MessageContent :=
  | TextContent (body : string) (attachments : list AttachmentRef)
      (reply_to : option MessageId) (edited_at : option DateTime)
  | Reaction (target_message_id emoji : string) (is_add : bool).

Record LegacyMessageContent := mkLegacy {
  lm_body : string;
  lm_attachments : list AttachmentRef;
  lm_reply_to : option MessageId;
  lm_edited_at : option DateTime }.

Definition content_decode `{Postcard MessageContent} `{Postcard LegacyMessageContent}
    (plaintext : bytes) : option MessageContent :=
  match from_bytes plaintext with
  | Some c => Some c
  | None =>
      match from_bytes (A := LegacyMessageContent) plaintext with
      | Some l => Some (TextContent (lm_body l) (lm_attachments l) (lm_reply_to l) (lm_edited_at l))
      | None => None
      end
  end.

Record RawMessage := mkRaw {
  rm_id : MessageId;
  rm_channel_id : ChannelId;
  rm_author_id : UserId;
  rm_timestamp : DateTime;
  rm_ciphertext : bytes;
  rm_nonce : bytes;
  rm_signature : bytes }.

Definition signable_bytes (id : MessageId) (channel_id : ChannelId) (timestamp : DateTime)
    (ciphertext : bytes) : bytes :=
  ulid_bytes id ++ ulid_bytes channel_id ++ le_bytes 8 (timestamp_millis timestamp) ++ ciphertext.

Section signing.
Context `{Crypto} `{Postcard CommunityManifest}.

Definition raw_create (id : MessageId) (channel_id : ChannelId) (author_sk : bytes)
    (timestamp : DateTime) (ciphertext nonce : bytes) : RawMessage :=
  mkRaw id channel_id (from_verifying_key (ed_public author_sk)) timestamp ciphertext nonce
    (ed_sign author_sk (signable_bytes id channel_id timestamp ciphertext)).

Definition raw_verify (msg : RawMessage) (author_pubkey : bytes) : bool :=
  if (length (rm_signature msg) =? 64)%nat then
    ed_verify author_pubkey
      (signable_bytes (rm_id msg) (rm_channel_id msg) (rm_timestamp msg) (rm_ciphertext msg))
      (rm_signature msg)
  else false.

(** [canonical_bytes] panics when serialisation fails; [None] is that panic. *)
Definition canonical_bytes (m : CommunityManifest) : option bytes := to_allocvec m.

Definition manifest_sign (m : CommunityManifest) (admin_sk : bytes) : option SignedManifest :=
  b ← canonical_bytes m; Some (mkSigned m (ed_sign admin_sk b)).

Definition manifest_verify (s : SignedManifest) : option bool :=
  if ed_valid_key (cm_public_key (sm_manifest s)) then
    if (length (sm_signature s) =? 64)%nat then
      b ← canonical_bytes (sm_manifest s);
      Some (ed_verify (cm_public_key (sm_manifest s)) b (sm_signature s))
    else Some false
  else Some false.
End signing.

(** ** [network_event.rs] *)

Record EditMessagePayload := mkEdit {
  em_message_id : MessageId; em_channel_id : ChannelId; em_author_id : UserId;
  em_new_ciphertext : bytes; em_new_nonce : bytes; em_signature : bytes; em_timestamp : DateTime }.
Record DeleteMessagePayload := mkDelete {
  dm_message_id : MessageId; dm_channel_id : ChannelId; dm_author_id : UserId;
  dm_signature : bytes; dm_timestamp : DateTime }.
Record MemberLeftPayload := mkLeft {
  ml_user_id : UserId; ml_community_id : CommunityId; ml_timestamp : DateTime;
  ml_signature : bytes }.
Record ChannelKeyRotationPayload := mkRotation {
  kr_new_manifest : ChannelManifest; kr_signature : bytes }.
Record MemberRoleUpdatedPayload := mkRoleUpdate {
  ru_user_id : UserId; ru_community_id : CommunityId; ru_new_role : Role;
  ru_timestamp : DateTime; ru_signature : bytes }.
Record ChannelManifestBroadcastPayload := mkBroadcast { cb_manifest : ChannelManifest }.
Record PresenceHeartbeatPayload := mkHeartbeat {
  ph_user_id : UserId; ph_status : string; ph_timestamp : DateTime; ph_signature : bytes }.

Inductive NetworkEvent :=
  | NewMessage (m : RawMessage)
  | EditMessage (p : EditMessagePayload)
  | DeleteMessage (p : DeleteMessagePayload)
  | MemberJoined (r : MembershipRecord)
  | MemberLeft (p : MemberLeftPayload)
  | ChannelKeyRotation (p : ChannelKeyRotationPayload)
  | ManifestUpdate (s : SignedManifest)
  | PresenceHeartbeat (p : PresenceHeartbeatPayload)
  | ChannelManifestBroadcast (p : ChannelManifestBroadcastPayload)
  | MemberRoleUpdated (p : MemberRoleUpdatedPayload).

(** ** [state/message_log.rs]: one log entry, shared by every log and by the wire *)

Record LogEntry := mkLogEntry {
  le_seq : Z;
  le_nonce : bytes;
  le_ciphertext : bytes;
  le_message_id : string;
  le_author_id : string;
  le_timestamp_ms : Z;
  le_deleted : bool }.

(** ** Decidable equality and countability *)

#[export] Instance ChannelKind_eq_dec : EqDecision ChannelKind.
Proof. solve_decision. Defined.
#[export] Instance ChannelKind_countable : Countable ChannelKind.
Proof.
  refine (inj_countable' (λ k, match k with Text => 0 | Announcement => 1 | Voice => 2 end) (λ z, if z =? 0 then Text else if z =? 1 then Announcement else Voice) _).
  by intros [].
Defined.
#[export] Instance Role_eq_dec : EqDecision Role.
Proof. solve_decision. Defined.
#[export] Instance Role_countable : Countable Role.
Proof.
  refine (inj_countable' (λ k, match k with Admin => 0 | Moderator => 1 | Member => 2 end) (λ z, if z =? 0 then Admin else if z =? 1 then Moderator else Member) _).
  by intros [].
Defined.
#[export] Instance ChannelManifest_eq_dec : EqDecision ChannelManifest.
Proof. solve_decision. Defined.
#[export] Instance ChannelManifest_countable : Countable ChannelManifest.
Proof.
  refine (inj_countable' (λ r, (ch_id r, ch_community_id r, ch_name r, ch_kind r, ch_encrypted_channel_key r, ch_created_at r, ch_version r))
    (λ p, mkChannel (p.1.1.1.1.1.1) (p.1.1.1.1.1.2) (p.1.1.1.1.2) (p.1.1.1.2) (p.1.1.2) (p.1.2) (p.2)) _).
  by intros [].
Defined.
#[export] Instance CommunityManifest_eq_dec : EqDecision CommunityManifest.
Proof. solve_decision. Defined.
#[export] Instance CommunityManifest_countable : Countable CommunityManifest.
Proof.
  refine (inj_countable' (λ r, (cm_id r, cm_name r, cm_description r, cm_public_key r, cm_created_at r, cm_admin_ids r, cm_channel_ids r, cm_seed_nodes r, cm_version r, cm_deleted r))
    (λ p, mkManifest (p.1.1.1.1.1.1.1.1.1) (p.1.1.1.1.1.1.1.1.2) (p.1.1.1.1.1.1.1.2) (p.1.1.1.1.1.1.2) (p.1.1.1.1.1.2) (p.1.1.1.1.2) (p.1.1.1.2) (p.1.1.2) (p.1.2) (p.2)) _).
  by intros [].
Defined.
#[export] Instance SignedManifest_eq_dec : EqDecision SignedManifest.
Proof. solve_decision. Defined.
#[export] Instance SignedManifest_countable : Countable SignedManifest.
Proof.
  refine (inj_countable' (λ r, (sm_manifest r, sm_signature r))
    (λ p, mkSigned (p.1) (p.2)) _).
  by intros [].
Defined.
#[export] Instance MembershipRecord_eq_dec : EqDecision MembershipRecord.
Proof. solve_decision. Defined.
#[export] Instance MembershipRecord_countable : Countable MembershipRecord.
Proof.
  refine (inj_countable' (λ r, (mr_user_id r, mr_community_id r, mr_display_name r, mr_avatar_cid r, mr_joined_at r, mr_roles r, mr_public_key r, mr_x25519_public_key r, mr_signature r))
    (λ p, mkMember (p.1.1.1.1.1.1.1.1) (p.1.1.1.1.1.1.1.2) (p.1.1.1.1.1.1.2) (p.1.1.1.1.1.2) (p.1.1.1.1.2) (p.1.1.1.2) (p.1.1.2) (p.1.2) (p.2)) _).
  by intros [].
Defined.
#[export] Instance AttachmentRef_eq_dec : EqDecision AttachmentRef.
Proof. solve_decision. Defined.
#[export] Instance AttachmentRef_countable : Countable AttachmentRef.
Proof.
  refine (inj_countable' (λ r, (at_cid r, at_name r, at_size r, at_mime_type r))
    (λ p, mkAttachment (p.1.1.1) (p.1.1.2) (p.1.2) (p.2)) _).
  by intros [].
Defined.
#[export] Instance LegacyMessageContent_eq_dec : EqDecision LegacyMessageContent.
Proof. solve_decision. Defined.
#[export] Instance LegacyMessageContent_countable : Countable LegacyMessageContent.
Proof.
  refine (inj_countable' (λ r, (lm_body r, lm_attachments r, lm_reply_to r, lm_edited_at r))
    (λ p, mkLegacy (p.1.1.1) (p.1.1.2) (p.1.2) (p.2)) _).
  by intros [].
Defined.
#[export] Instance RawMessage_eq_dec : EqDecision RawMessage.
Proof. solve_decision. Defined.
#[export] Instance RawMessage_countable : Countable RawMessage.
Proof.
  refine (inj_countable' (λ r, (rm_id r, rm_channel_id r, rm_author_id r, rm_timestamp r, rm_ciphertext r, rm_nonce r, rm_signature r))
    (λ p, mkRaw (p.1.1.1.1.1.1) (p.1.1.1.1.1.2) (p.1.1.1.1.2) (p.1.1.1.2) (p.1.1.2) (p.1.2) (p.2)) _).
  by intros [].
Defined.
#[export] Instance EditMessagePayload_eq_dec : EqDecision EditMessagePayload.
Proof. solve_decision. Defined.
#[export] Instance EditMessagePayload_countable : Countable EditMessagePayload.
Proof.
  refine (inj_countable' (λ r, (em_message_id r, em_channel_id r, em_author_id r, em_new_ciphertext r, em_new_nonce r, em_signature r, em_timestamp r))
    (λ p, mkEdit (p.1.1.1.1.1.1) (p.1.1.1.1.1.2) (p.1.1.1.1.2) (p.1.1.1.2) (p.1.1.2) (p.1.2) (p.2)) _).
  by intros [].
Defined.
#[export] Instance DeleteMessagePayload_eq_dec : EqDecision DeleteMessagePayload.
Proof. solve_decision. Defined.
#[export] Instance DeleteMessagePayload_countable : Countable DeleteMessagePayload.
Proof.
  refine (inj_countable' (λ r, (dm_message_id r, dm_channel_id r, dm_author_id r, dm_signature r, dm_timestamp r))
    (λ p, mkDelete (p.1.1.1.1) (p.1.1.1.2) (p.1.1.2) (p.1.2) (p.2)) _).
  by intros [].
Defined.
#[export] Instance MemberLeftPayload_eq_dec : EqDecision MemberLeftPayload.
Proof. solve_decision. Defined.
#[export] Instance MemberLeftPayload_countable : Countable MemberLeftPayload.
Proof.
  refine (inj_countable' (λ r, (ml_user_id r, ml_community_id r, ml_timestamp r, ml_signature r))
    (λ p, mkLeft (p.1.1.1) (p.1.1.2) (p.1.2) (p.2)) _).
  by intros [].
Defined.
#[export] Instance ChannelKeyRotationPayload_eq_dec : EqDecision ChannelKeyRotationPayload.
Proof. solve_decision. Defined.
#[export] Instance ChannelKeyRotationPayload_countable : Countable ChannelKeyRotationPayload.
Proof.
  refine (inj_countable' (λ r, (kr_new_manifest r, kr_signature r))
    (λ p, mkRotation (p.1) (p.2)) _).
  by intros [].
Defined.
#[export] Instance MemberRoleUpdatedPayload_eq_dec : EqDecision MemberRoleUpdatedPayload.
Proof. solve_decision. Defined.
#[export] Instance MemberRoleUpdatedPayload_countable : Countable MemberRoleUpdatedPayload.
Proof.
  refine (inj_countable' (λ r, (ru_user_id r, ru_community_id r, ru_new_role r, ru_timestamp r, ru_signature r))
    (λ p, mkRoleUpdate (p.1.1.1.1) (p.1.1.1.2) (p.1.1.2) (p.1.2) (p.2)) _).
  by intros [].
Defined.
#[export] Instance PresenceHeartbeatPayload_eq_dec : EqDecision PresenceHeartbeatPayload.
Proof. solve_decision. Defined.
#[export] Instance PresenceHeartbeatPayload_countable : Countable PresenceHeartbeatPayload.
Proof.
  refine (inj_countable' (λ r, (ph_user_id r, ph_status r, ph_timestamp r, ph_signature r))
    (λ p, mkHeartbeat (p.1.1.1) (p.1.1.2) (p.1.2) (p.2)) _).
  by intros [].
Defined.
#[export] Instance LogEntry_eq_dec : EqDecision LogEntry.
Proof. solve_decision. Defined.
#[export] Instance LogEntry_countable : Countable LogEntry.
Proof.
  refine (inj_countable' (λ r, (le_seq r, le_nonce r, le_ciphertext r, le_message_id r, le_author_id r, le_timestamp_ms r, le_deleted r))
    (λ p, mkLogEntry (p.1.1.1.1.1.1) (p.1.1.1.1.1.2) (p.1.1.1.1.2) (p.1.1.1.2) (p.1.1.2) (p.1.2) (p.2)) _).
  by intros [].
Defined.
#[export] Instance MessageContent_eq_dec : EqDecision MessageContent.
Proof. solve_decision. Defined.
#[export] Instance ChannelManifestBroadcastPayload_eq_dec : EqDecision ChannelManifestBroadcastPayload.
Proof. solve_decision. Defined.
#[export] Instance NetworkEvent_eq_dec : EqDecision NetworkEvent.
Proof. solve_decision. Defined.
#[export] Instance MessageContent_countable : Countable MessageContent.
Proof.
  refine (inj_countable'
    (λ c, match c with TextContent b a r e => inl (b, a, r, e) | Reaction t e a => inr (t, e, a) end)
    (λ p, match p with inl (b, a, r, e) => TextContent b a r e | inr (t, e, a) => Reaction t e a end) _).
  by intros [].
Defined.
#[export] Instance NetworkEvent_countable : Countable NetworkEvent.
Proof.
  refine (inj_countable'
    (λ ev, match ev with
      | NewMessage m => inl (inl (inl m)) | EditMessage p => inl (inl (inr p))
      | DeleteMessage p => inl (inr (inl p)) | MemberJoined p => inl (inr (inr p))
      | MemberLeft p => inr (inl (inl p)) | ChannelKeyRotation p => inr (inl (inr p))
      | ManifestUpdate p => inr (inr (inl (inl p))) | PresenceHeartbeat p => inr (inr (inl (inr p)))
      | ChannelManifestBroadcast p => inr (inr (inr (inl (cb_manifest p))))
      | MemberRoleUpdated p => inr (inr (inr (inr p))) end)
    (λ p, match p with
      | inl (inl (inl m)) => NewMessage m | inl (inl (inr p)) => EditMessage p
      | inl (inr (inl p)) => DeleteMessage p | inl (inr (inr p)) => MemberJoined p
      | inr (inl (inl p)) => MemberLeft p | inr (inl (inr p)) => ChannelKeyRotation p
      | inr (inr (inl (inl p))) => ManifestUpdate p | inr (inr (inl (inr p))) => PresenceHeartbeat p
      | inr (inr (inr (inl p))) => ChannelManifestBroadcast (mkBroadcast p)
      | inr (inr (inr (inr p))) => MemberRoleUpdated p end) _).
  by intros [| | | | | | | |[]|].
Defined.

(** ** Properties of the identifiers *)

Lemma unhex_digit_range c d : unhex_digit c = Some d → 0 ≤ d < 16.
Proof.
  unfold unhex_digit.
  set (n := Z.of_nat (Ascii.nat_of_ascii c)).
  destruct ((48 <=? n) && (n <=? 57)) eqn:H1;
    [rewrite andb_true_iff in H1; intros [= <-]; lia|].
  destruct ((97 <=? n) && (n <=? 102)) eqn:H2;
    [rewrite andb_true_iff in H2; intros [= <-]; lia|].
  destruct ((65 <=? n) && (n <=? 70)) eqn:H3;
    [rewrite andb_true_iff in H3; intros [= <-]; lia|done].
Qed.

Lemma parse_pairs_length s l :
  parse_pairs s = Some l → String.length s = (2 * length l)%nat ∧ Forall is_byte l.
Proof.
  revert l. induction s as [s IH] using (induction_ltof1 _ String.length). unfold ltof in IH.
  destruct s as [|c1 [|c2 s]]; cbn; intros l; [intros [= <-]; split; [done|constructor]|done|].
  intros (b & Hb & (bs & Hbs & [= <-])%bind_Some)%bind_Some.
  destruct (IH s ltac:(cbn; lia) bs Hbs) as [Hlen Hok]. split; [cbn; lia|].
  constructor; [|done]. unfold is_byte. unfold parse_hex_pair in Hb.
  case_bool_decide; [apply unhex_digit_range in Hb; lia|].
  apply bind_Some in Hb as (h & Hh & (d & Hd & [= <-])%bind_Some).
  apply unhex_digit_range in Hh, Hd. lia.
Qed.

Lemma hex_digit_not_plus d : 0 ≤ d < 16 → hex_digit d ≠ Ascii.ascii_of_nat 43.
Proof. intros ? Heq. apply (f_equal unhex_digit) in Heq. by rewrite unhex_hex_digit in Heq. Qed.

Lemma parse_pairs_hex l : Forall is_byte l → parse_pairs (hex l) = Some l.
Proof.
  induction 1 as [|b l Hb Hl IH]; cbn [hex parse_pairs]; [done|]. unfold is_byte in Hb.
  assert (0 ≤ b / 16 < 16) by (split; [apply Z.div_pos; lia|apply Z.div_lt_upper_bound; lia]).
  pose proof (Z.mod_pos_bound b 16 ltac:(lia)).
  unfold parse_hex_pair. rewrite bool_decide_eq_false_2 by by apply hex_digit_not_plus.
  rewrite !unhex_hex_digit by done. cbn. rewrite IH. cbn. do 2 f_equal.
  pose proof (Z.div_mod b 16). lia.
Qed.

(** A user id survives serialisation: its 64 lowercase hex characters decode to the same
    32 bytes, and every string the decoder accepts has 64 characters and yields a 32-byte
    id. The decoder accepts more than the lowercase form it announces: two different
    strings can decode to the same user. *)
Theorem user_id_serde_correct uid :
  wf_key uid →
  user_id_visit_str (hex uid) = Some uid ∧
  (∀ v u, user_id_visit_str v = Some u → String.length v = 64%nat ∧ wf_key u) ∧
  ∃ v, v ≠ hex (replicate 32 10) ∧ user_id_visit_str v = Some (replicate 32 10).
Proof.
  intros [Hlen Hok]. split_and!.
  - unfold user_id_visit_str. rewrite hex_length, Hlen. cbn. by apply parse_pairs_hex.
  - intros v u. unfold user_id_visit_str. destruct (Nat.eqb_spec (String.length v) 64); [|done].
    intros [Hl ?]%parse_pairs_length. split; [done|]. split; [lia|done].
  - exists ("+a+A" ++ hex (replicate 30 10))%string. by vm_compute.
Qed.

Lemma user_id_serde_correct_witness :
  wf_key (replicate 32 171) ∧
  user_id_visit_str (hex (replicate 32 171)) = Some (replicate 32 171).
Proof.
  split; [by apply wf_array_replicate|].
  apply user_id_serde_correct. by apply wf_array_replicate.
Defined.

(** ** Properties of the signed objects *)

Lemma ulid_bytes_inj a b : is_u128 a → is_u128 b → ulid_bytes a = ulid_bytes b → a = b.
Proof. intros ??. by apply (be_bytes_inj 16). Qed.

(** Timestamps whose millisecond count fits the [i64] the code serialises. *)
Definition timestamp_ok (t : DateTime) : Prop := 0 ≤ timestamp_millis t < 2 ^ 63.

Section signing_props.
Context `{CryptoLaws} `{Postcard CommunityManifest} `{!PostcardLaws CommunityManifest}.

Lemma raw_create_verify id chan sk t ct nonce :
  raw_verify (raw_create id chan sk t ct nonce) (ed_public sk) = true.
Proof using Type*.
  unfold raw_verify, raw_create; cbn. rewrite (proj1 (wf_ed_sign _ _)). cbn. apply ed_sign_verify.
Qed.

(** A message its author creates verifies under the author's key; verification depends
    on nothing but the author key, the signature and the id, channel, millisecond
    timestamp and ciphertext, and two messages with the same signed bytes agree on those
    four. Neither the nonce nor the author id is bound by the signature. *)
Theorem raw_message_signature id chan sk t ct nonce :
  raw_verify (raw_create id chan sk t ct nonce) (ed_public sk) = true ∧
  (∀ m author nonce' pk,
     raw_verify (mkRaw (rm_id m) (rm_channel_id m) author (rm_timestamp m) (rm_ciphertext m)
                   nonce' (rm_signature m)) pk = raw_verify m pk) ∧
  (∀ id' chan' t' ct',
     is_u128 id → is_u128 chan → is_u128 id' → is_u128 chan' → timestamp_ok t → timestamp_ok t' →
     signable_bytes id chan t ct = signable_bytes id' chan' t' ct' →
     id = id' ∧ chan = chan' ∧ timestamp_millis t = timestamp_millis t' ∧ ct = ct').
Proof using Type*.
  split_and!.
  - apply raw_create_verify.
  - done.
  - intros id' chan' t' ct' ???? Ht Ht'. unfold signable_bytes, timestamp_ok in *.
    assert (∀ z, length (ulid_bytes z) = 16%nat) as Hu by (intros; apply length_be_bytes).
    intros [Hid Heq]%app_inj_1; [|by rewrite !Hu].
    apply app_inj_1 in Heq as [Hc Heq]; [|by rewrite !Hu].
    apply app_inj_1 in Heq as [Hm ->]; [|by rewrite !length_le_bytes].
    apply ulid_bytes_inj in Hid, Hc; [|done..].
    apply (f_equal of_le) in Hm. rewrite !of_le_le_bytes, !Z.mod_small in Hm; [done|cbn; lia..].
Qed.

(** A manifest signed by the key it names verifies; a manifest that verifies was signed,
    over its canonical bytes, under a valid key that it names itself; and two manifests
    with the same canonical bytes are equal, so a signature never covers two manifests. *)
Theorem manifest_signature m sk signed :
  manifest_sign m sk = Some signed →
  (cm_public_key m = ed_public sk → manifest_verify signed = Some true) ∧
  (∀ s, manifest_verify s = Some true →
     ∃ b, canonical_bytes (sm_manifest s) = Some b ∧
          ed_valid_key (cm_public_key (sm_manifest s)) = true ∧
          ed_verify (cm_public_key (sm_manifest s)) b (sm_signature s) = true ∧
          ∀ m', canonical_bytes m' = Some b → m' = sm_manifest s).
Proof using Type*.
  unfold manifest_sign. intros (b & Hb & [= <-])%bind_Some. split.
  - intros Hpk. unfold manifest_verify; cbn. rewrite Hpk, ed_public_valid.
    rewrite (proj1 (wf_ed_sign _ _)), Hb. cbn. by rewrite ed_sign_verify.
  - intros s. unfold manifest_verify. destruct (ed_valid_key _); [|done].
    destruct (length _ =? 64)%nat; [|done]. intros (b' & Hb' & [= Hv])%bind_Some.
    exists b'. split_and!; [done..|]. intros m' Hm'. unfold canonical_bytes in *.
    apply postcard_roundtrip in Hb', Hm'. congruence.
Qed.
End signing_props.

Section signing_witnesses.
#[local] Existing Instance Toy.crypto.
#[local] Existing Instance Toy.crypto_laws.
#[local] Instance manifest_codec : Postcard CommunityManifest := countable_postcard _.
#[local] Instance manifest_codec_laws : PostcardLaws CommunityManifest := countable_postcard_laws _.

Definition sample_manifest (pk : bytes) : CommunityManifest :=
  mkManifest 1 "c" "d" pk 0 [] [] [] 1 false.

Lemma raw_message_signature_witness :
  let m := raw_create 5 6 (replicate 32 1) 7000000 [1; 2] (replicate 24 0) in
  raw_verify m (replicate 32 1) = true ∧ raw_verify m (replicate 32 2) = false ∧
  raw_verify m (ed_public (replicate 32 1)) = true.
Proof.
  cbv zeta. split; [vm_compute; reflexivity|]. split; [vm_compute; reflexivity|].
  apply raw_message_signature.
Defined.

Lemma manifest_signature_witness :
  exists signed, manifest_sign (sample_manifest (replicate 32 1)) (replicate 32 1) = Some signed ∧
    manifest_verify signed = Some true.
Proof.
  eexists. split; [vm_compute; reflexivity|].
  apply (manifest_signature (sample_manifest (replicate 32 1)) (replicate 32 1));
    vm_compute; reflexivity.
Defined.
End signing_witnesses.
