(* ===== verification/ClientState.v ===== *)
(** * Client-side state: [bitcord-core/src/state/]

    The in-memory message log ([message_log.rs]), the read markers ([read_state.rs]) and
    the presence map ([presence.rs]). A [HashMap] is a [gmap]; the mutating methods return
    the new state and the Rust result. *)

From S2P Require Import Prelude Bytes Crypto Model.

(** ** [MessageLog] *)

Record MessageLog := mkLog {
  channels : gmap string (list LogEntry);
  reactions : gmap string (gmap string (list string)) }.

Definition log_new : MessageLog := mkLog ∅ ∅.
Definition entries_of (channel_id : string) (log : MessageLog) : list LogEntry :=
  default [] (channels log !! channel_id).
Definition set_entries (channel_id : string) (l : list LogEntry) (log : MessageLog) : MessageLog :=
  mkLog (<[channel_id := l]> (channels log)) (reactions log).

Definition append (channel_id message_id author_id : string) (timestamp_ms : Z)
    (nonce ciphertext : bytes) (log : MessageLog) : MessageLog * Z :=
  let entries := entries_of channel_id log in
  let seq := Z.of_nat (length entries) in
  (set_entries channel_id
     (entries ++ [mkLogEntry seq nonce ciphertext message_id author_id timestamp_ms false]) log, seq).

Definition append_entry (channel_id : string) (entry : LogEntry) (log : MessageLog) : MessageLog :=
  set_entries channel_id (entries_of channel_id log ++ [entry]) log.

Definition get_since (channel_id : string) (since_seq : Z) (log : MessageLog) : list LogEntry :=
  match channels log !! channel_id with
  | Some entries =>
      let start := Z.to_nat since_seq in
      if (length entries <=? start)%nat then [] else drop start entries
  | None => []
  end.

Definition has_message_id (message_id : string) (e : LogEntry) : bool :=
  bool_decide (le_message_id e = message_id).

Definition get_entry (channel_id message_id : string) (log : MessageLog) : option LogEntry :=
  entries ← channels log !! channel_id; find_by (has_message_id message_id) entries.

Definition edit (channel_id message_id : string) (nonce ciphertext : bytes) (log : MessageLog)
    : MessageLog * bool :=
  match channels log !! channel_id with
  | Some entries =>
      if any (has_message_id message_id) entries
      then (set_entries channel_id
              (update_first (has_message_id message_id)
                 (λ e, mkLogEntry (le_seq e) nonce ciphertext (le_message_id e) (le_author_id e)
                         (le_timestamp_ms e) (le_deleted e)) entries) log, true)
      else (log, false)
  | None => (log, false)
  end.

Definition tombstone (channel_id message_id : string) (log : MessageLog) : MessageLog * bool :=
  match channels log !! channel_id with
  | Some entries =>
      if any (has_message_id message_id) entries
      then (set_entries channel_id
              (update_first (has_message_id message_id)
                 (λ e, mkLogEntry (le_seq e) (le_nonce e) (le_ciphertext e) (le_message_id e)
                         (le_author_id e) (le_timestamp_ms e) true) entries) log, true)
      else (log, false)
  | None => (log, false)
  end.

Definition log_len (channel_id : string) (log : MessageLog) : Z :=
  match channels log !! channel_id with Some e => Z.of_nat (length e) | None => 0 end.

(** The users of one (message, emoji) pair. *)
Definition by_emoji (message_id : string) (log : MessageLog) : gmap string (list string) :=
  default ∅ (reactions log !! message_id).
Definition reactors (message_id emoji : string) (log : MessageLog) : list string :=
  default [] (by_emoji message_id log !! emoji).
Definition set_reactions (message_id : string) (m : gmap string (list string)) (log : MessageLog)
    : MessageLog :=
  mkLog (channels log) (<[message_id := m]> (reactions log)).

(** [entry(..).or_default()] creates the empty maps even when the reaction exists. *)
Definition react (message_id emoji user_id : string) (log : MessageLog) : MessageLog * bool :=
  let users := reactors message_id emoji log in
  if bool_decide (user_id ∈ users)
  then (set_reactions message_id (<[emoji := users]> (by_emoji message_id log)) log, false)
  else (set_reactions message_id (<[emoji := users ++ [user_id]]> (by_emoji message_id log)) log, true).

Definition not_user (user_id u : string) : bool := negb (bool_decide (u = user_id)).

Definition unreact (message_id emoji user_id : string) (log : MessageLog) : MessageLog * bool :=
  match reactions log !! message_id with
  | Some m =>
      match m !! emoji with
      | Some users =>
          let users' := retain (not_user user_id) users in
          let removed := (length users' <? length users)%nat in
          let m' := match users' with
                    | [] => delete emoji m
                    | _ => <[emoji := users']> m
                    end in
          (set_reactions message_id m' log, removed)
      | None => (log, false)
      end
  | None => (log, false)
  end.

Definition emoji_le (a b : string * list string) : bool :=
  lex_leb (bytes_of_string a.1) (bytes_of_string b.1).

Definition get_reactions (message_id : string) (log : MessageLog) : list (string * list string) :=
  match reactions log !! message_id with
  | Some m => sort_by emoji_le (map_to_list m)
  | None => []
  end.

(** ** [ReadState] *)

Definition mark_read (channel_id : string) (seq : Z) (map : gmap string Z) : gmap string Z :=
  <[channel_id := seq]> map.
Definition last_read (channel_id : string) (map : gmap string Z) : Z :=
  default 0 (map !! channel_id).
(** [seq + 1] is a [u64] addition: it wraps in a release build. *)
Definition unread_count (channel_id : string) (total : Z) (map : gmap string Z) : Z :=
  if total =? 0 then 0
  else match map !! channel_id with
       | Some seq => sat_sub total (wrap64 (seq + 1))
       | None => total
       end.

(** ** [PresenceState] *)

Definition OFFLINE_THRESHOLD_SECS : Z := 300.
Inductive PresenceStatus := Online | Idle | DoNotDisturb | Offline.
#[export] Instance PresenceStatus_eq_dec : EqDecision PresenceStatus.
Proof. solve_decision. Defined.

(** [signed_duration_since(..).num_seconds()]: whole seconds, truncated towards zero. *)
Definition age_secs (now last_seen : DateTime) : Z := Z.quot (now - last_seen) 1000000000.

Notation PresenceState := (gmap string (PresenceStatus * Z)) (only parsing).

Definition presence_update (user_id : string) (status : PresenceStatus) (last_seen : DateTime)
    (map : PresenceState) : PresenceState := <[user_id := (status, last_seen)]> map.

Definition presence_get (now : DateTime) (user_id : string) (map : PresenceState) : PresenceStatus :=
  match map !! user_id with
  | Some (status, last_seen) =>
      if OFFLINE_THRESHOLD_SECS <? age_secs now last_seen then Offline else status
  | None => Offline
  end.

Definition all_active (now : DateTime) (map : PresenceState) : list (string * PresenceStatus) :=
  (λ kv, (kv.1, kv.2.1)) <$>
    retain (λ kv, age_secs now kv.2.2 <=? OFFLINE_THRESHOLD_SECS) (map_to_list map).

(** ** The dense log *)

(** Every entry sits at the index its sequence number names. *)
Definition dense_list (l : list LogEntry) : Prop :=
  ∀ (i : nat) (e : LogEntry), l !! i = Some e → le_seq e = Z.of_nat i.
Definition dense (log : MessageLog) : Prop :=
  ∀ c l, channels log !! c = Some l → dense_list l.

Lemma dense_entries c log : dense log → dense_list (entries_of c log).
Proof. intros Hd. unfold entries_of. destruct (channels log !! c) eqn:?; cbn; [eauto|]. intros i e. by rewrite lookup_nil. Qed.

Lemma dense_set c l log : dense log → dense_list l → dense (set_entries c l log).
Proof. intros Hd Hl c' l'. cbn. rewrite lookup_insert. case_decide; naive_solver. Qed.

Lemma dense_list_snoc l e :
  dense_list l → le_seq e = Z.of_nat (length l) → dense_list (l ++ [e]).
Proof.
  intros Hl He i e' [[??]|[-> <-]]%lookup_snoc_Some; [by apply Hl|done].
Qed.

Lemma lookup_update_first {A} (p : A → bool) f l i x :
  update_first p f l !! i = Some x → ∃ y, l !! i = Some y ∧ (x = y ∨ (p y = true ∧ x = f y)).
Proof.
  revert i; induction l as [|y l IH]; intros i; cbn; [done|].
  destruct (p y) eqn:?; destruct i as [|i]; cbn; naive_solver.
Qed.

Lemma dense_list_update p f l :
  (∀ e, le_seq (f e) = le_seq e) → dense_list l → dense_list (update_first p f l).
Proof.
  intros Hf Hl i e (y & Hy & [->|[_ ->]])%lookup_update_first; [|rewrite Hf]; by apply Hl.
Qed.

Lemma dense_drop l n :
  dense_list l → drop n l = retain (λ e, Z.of_nat n <=? le_seq e) l.
Proof.
  intros Hl. rewrite <-(take_drop n l) at 2. rewrite retain_app.
  assert (retain (λ e, Z.of_nat n <=? le_seq e) (take n l) = []) as ->.
  { unfold retain. apply elem_of_nil_inv. intros e He.
    rewrite list_elem_of_In, filter_In, <-list_elem_of_In in He. destruct He as [He Hle].
    apply elem_of_take in He as (i & Hi & Hlt). rewrite (Hl _ _ Hi), Z.leb_le in Hle. lia. }
  cbn. symmetry. apply retain_all. intros e He.
  apply list_elem_of_lookup in He as [i Hi]. rewrite lookup_drop in Hi. rewrite (Hl _ _ Hi). apply Z.leb_le. lia.
Qed.

(** ** The entries of one channel under each operation *)

Lemma entries_of_set c c' l log :
  entries_of c (set_entries c' l log) = if bool_decide (c' = c) then l else entries_of c log.
Proof.
  unfold entries_of; cbn. rewrite lookup_insert. case_decide; case_bool_decide; done.
Qed.
Lemma get_entry_None c mid log : get_entry c mid log = None ↔ mid ∉ le_message_id <$> entries_of c log.
Proof.
  unfold get_entry, entries_of. destruct (channels log !! c) as [l|]; cbn; [|split; [|done]].
  2: { intros _ Hin. by apply elem_of_nil in Hin. }
  rewrite find_by_None. unfold has_message_id. split.
  - intros Hf Hin. apply list_elem_of_fmap in Hin as (e & -> & He). apply Hf in He.
    by rewrite bool_decide_eq_false in He.
  - intros Hn e He. apply bool_decide_eq_false. intros <-. apply Hn, list_elem_of_fmap. by exists e.
Qed.
Lemma get_entry_Some c mid log e :
  get_entry c mid log = Some e → e ∈ entries_of c log ∧ le_message_id e = mid.
Proof.
  unfold get_entry, entries_of. destruct (channels log !! c) as [l|]; cbn; [|done].
  intros [He Hm]%find_by_Some. unfold has_message_id in Hm. by apply bool_decide_eq_true in Hm.
Qed.
Lemma react_channels mid emoji u log :
  channels (react mid emoji u log).1 = channels log ∧ channels (unreact mid emoji u log).1 = channels log.
Proof.
  unfold react, unreact. split; [by case_bool_decide|].
  destruct (reactions log !! mid) as [m|]; [|done]. by destruct (m !! emoji).
Qed.
Lemma get_entry_entries c mid log : get_entry c mid log = find_by (has_message_id mid) (entries_of c log).
Proof. unfold get_entry, entries_of. by destruct (channels log !! c). Qed.
Lemma update_get_entry c mid f log log' c' mid' :
  (∀ c', entries_of c' log' =
     if bool_decide (c = c') then update_first (has_message_id mid) f (entries_of c' log)
     else entries_of c' log) →
  (∀ e, le_message_id (f e) = le_message_id e) →
  get_entry c' mid' log' =
  (if bool_decide (c = c' ∧ mid = mid') then f <$> get_entry c' mid' log else get_entry c' mid' log).
Proof.
  intros He Hf. rewrite !get_entry_entries, He. destruct (decide (c = c')) as [->|Hc].
  - rewrite bool_decide_eq_true_2 by done. destruct (decide (mid = mid')) as [->|Hm].
    + rewrite bool_decide_eq_true_2 by done. apply find_by_update_first. intros e. unfold has_message_id. by rewrite Hf.
    + rewrite bool_decide_eq_false_2 by naive_solver. apply find_by_update_other. unfold has_message_id.
      intros e He'%bool_decide_eq_true. rewrite Hf, He'. by rewrite !bool_decide_eq_false_2.
  - rewrite !bool_decide_eq_false_2 by naive_solver. done.
Qed.
Lemma edit_entries c mid nonce ct log c' :
  entries_of c' (edit c mid nonce ct log).1 =
  (if bool_decide (c = c') then
     update_first (has_message_id mid)
       (λ e, mkLogEntry (le_seq e) nonce ct (le_message_id e) (le_author_id e) (le_timestamp_ms e)
               (le_deleted e)) (entries_of c' log)
   else entries_of c' log).
Proof.
  unfold edit. destruct (channels log !! c) as [l|] eqn:Hl; cbn.
  - destruct (any _ l) eqn:Hany; cbn [fst].
    + rewrite entries_of_set. case_bool_decide; [subst|done]. unfold entries_of. by rewrite Hl.
    + case_bool_decide; [subst|done]. unfold entries_of. rewrite Hl. symmetry.
      apply update_first_none. intros x Hx. by apply (proj1 (any_false _ _) Hany).
  - case_bool_decide; [subst|done]. unfold entries_of. by rewrite Hl.
Qed.
Lemma tombstone_entries c mid log c' :
  entries_of c' (tombstone c mid log).1 =
  (if bool_decide (c = c') then
     update_first (has_message_id mid)
       (λ e, mkLogEntry (le_seq e) (le_nonce e) (le_ciphertext e) (le_message_id e) (le_author_id e)
               (le_timestamp_ms e) true) (entries_of c' log)
   else entries_of c' log).
Proof.
  unfold tombstone. destruct (channels log !! c) as [l|] eqn:Hl; cbn.
  - destruct (any _ l) eqn:Hany; cbn [fst].
    + rewrite entries_of_set. case_bool_decide; [subst|done]. unfold entries_of. by rewrite Hl.
    + case_bool_decide; [subst|done]. unfold entries_of. rewrite Hl. symmetry.
      apply update_first_none. intros x Hx. by apply (proj1 (any_false _ _) Hany).
  - case_bool_decide; [subst|done]. unfold entries_of. by rewrite Hl.
Qed.

Lemma edit_get_entry c mid nonce ct log c' mid' :
  get_entry c' mid' (edit c mid nonce ct log).1 =
  (if bool_decide (c = c' ∧ mid = mid')
   then (λ e, mkLogEntry (le_seq e) nonce ct (le_message_id e) (le_author_id e) (le_timestamp_ms e)
                (le_deleted e)) <$> get_entry c' mid' log
   else get_entry c' mid' log).
Proof. apply (update_get_entry c mid); [|done]. apply edit_entries. Qed.
Lemma tombstone_get_entry c mid log c' mid' :
  get_entry c' mid' (tombstone c mid log).1 =
  (if bool_decide (c = c' ∧ mid = mid')
   then (λ e, mkLogEntry (le_seq e) (le_nonce e) (le_ciphertext e) (le_message_id e) (le_author_id e)
                (le_timestamp_ms e) true) <$> get_entry c' mid' log
   else get_entry c' mid' log).
Proof. apply (update_get_entry c mid); [|done]. apply tombstone_entries. Qed.

(** In a log written by [append], [edit], [tombstone] and the reaction operations, entry
    [i] of a channel has sequence number [i]; so [append] returns the channel's length,
    reading since [n] returns exactly the entries numbered [n] or more, in order, and an
    edit or a tombstone renumbers nothing. *)
Theorem message_log_dense log :
  dense log →
  (∀ c mid author ts nonce ct,
     let '(log', seq) := append c mid author ts nonce ct log in
     dense log' ∧ seq = log_len c log ∧ log_len c log' = seq + 1 ∧
     get_since c seq log' = [mkLogEntry seq nonce ct mid author ts false] ∧
     (∀ c', c' ≠ c → channels log' !! c' = channels log !! c')) ∧
  (∀ c mid nonce ct, dense (edit c mid nonce ct log).1 ∧ dense (tombstone c mid log).1 ∧
     log_len c (edit c mid nonce ct log).1 = log_len c log ∧
     log_len c (tombstone c mid log).1 = log_len c log) ∧
  (∀ mid emoji u, channels (react mid emoji u log).1 = channels log ∧
     channels (unreact mid emoji u log).1 = channels log) ∧
  (∀ c n, 0 ≤ n → get_since c n log = retain (λ e, n <=? le_seq e) (entries_of c log)).
Proof.
  intros Hd. split_and!.
  - intros c mid author ts nonce ct. unfold append. cbv zeta. split_and!.
    + apply dense_set, dense_list_snoc; [done|by apply dense_entries|done].
    + unfold log_len, entries_of. by destruct (channels log !! c).
    + unfold log_len; cbn. rewrite lookup_insert_eq, length_app. cbn. lia.
    + unfold get_since; cbn. rewrite lookup_insert_eq, Nat2Z.id, length_app. cbn.
      destruct (Nat.leb_spec (length (entries_of c log) + 1) (length (entries_of c log))); [lia|].
      by rewrite drop_app_length.
    + intros c' Hc. cbn. by rewrite lookup_insert_ne.
  - intros c mid nonce ct. unfold edit, tombstone, log_len.
    destruct (channels log !! c) as [l|] eqn:Hl; cbn; rewrite ?Hl; [|done].
    destruct (any _ l); cbn; rewrite ?lookup_insert_eq, ?Hl, ?length_update_first; [|done].
    split_and!; [apply dense_set, dense_list_update; eauto..|done|done].
  - intros mid emoji u. apply react_channels.
  - intros c n Hn. unfold get_since, entries_of.
    destruct (channels log !! c) as [l|] eqn:Hl; [|done]. change (default [] (Some l)) with l.
    pose proof (dense_drop l (Z.to_nat n) (Hd _ _ Hl)) as Hdrop. rewrite Z2Nat.id in Hdrop by done.
    destruct (Nat.leb_spec (length l) (Z.to_nat n)); [|done].
    rewrite <-Hdrop, drop_ge by done. done.
Qed.

Definition entry_n (seq : Z) (mid : string) : LogEntry :=
  mkLogEntry seq (replicate 24 0) [] mid "a" 0 false.

Lemma message_log_dense_witness :
  let log := (append "c" "m0" "a" 0 [] [] log_new).1 in
  (append "c" "m1" "a" 1 [] [] log).2 = 1 ∧
  get_since "c" 1 (append "c" "m1" "a" 1 [] [] log).1 =
    retain (λ e, 1 <=? le_seq e) (entries_of "c" (append "c" "m1" "a" 1 [] [] log).1).
Proof.
  cbv zeta. split; [vm_compute; reflexivity|].
  apply message_log_dense; [|lia].
  intros c l. unfold append, set_entries; cbn. rewrite insert_insert_eq.
  intros [[<- <-]|[? H]]%lookup_insert_Some; [|by rewrite lookup_empty in H].
  intros [|[|[|i]]] e; cbn; by intros [= <-].
Defined.

(** [append_entry] stores an entry with whatever sequence number it carries, while
    [get_since] indexes by position. After a log is rebuilt from entries that start at a
    later sequence number, as happens once retention has pruned the node store, reading
    since that number loses entries that have it or a larger one. *)
Lemma append_entry_breaks_get_since :
  ∃ log e, log = append_entry "c" e log_new ∧ le_seq e = 5 ∧
    get_since "c" 5 log = [] ∧ get_since "c" 0 log = [e].
Proof. exists (append_entry "c" (entry_n 5 "m") log_new), (entry_n 5 "m"). by vm_compute. Qed.

(** ** Reactions *)

(** No user appears twice under an emoji, and no emoji is kept without users. *)
Definition reactions_ok (log : MessageLog) : Prop :=
  ∀ mid m emoji us, reactions log !! mid = Some m → m !! emoji = Some us → us ≠ [] ∧ NoDup us.

Lemma reactors_set mid m log mid' emoji :
  reactors mid' emoji (set_reactions mid m log) =
    if decide (mid = mid') then default [] (m !! emoji) else reactors mid' emoji log.
Proof. unfold reactors, by_emoji; cbn. rewrite lookup_insert. by case_decide. Qed.

Lemma reactors_NoDup mid emoji log : reactions_ok log → NoDup (reactors mid emoji log).
Proof.
  intros Hok. unfold reactors, by_emoji. destruct (reactions log !! mid) as [m|] eqn:Hm; cbn.
  - destruct (m !! emoji) as [us|] eqn:Hus; cbn; [by eapply Hok|constructor].
  - rewrite lookup_empty. constructor.
Qed.

Lemma reactions_ok_set mid m log :
  reactions_ok log → (∀ emoji us, m !! emoji = Some us → us ≠ [] ∧ NoDup us) →
  reactions_ok (set_reactions mid m log).
Proof. intros Hok Hm mid' m' emoji us. cbn. rewrite lookup_insert. case_decide; [intros [= <-]; apply Hm|apply Hok]. Qed.

Lemma by_emoji_ok mid log emoji us :
  reactions_ok log → by_emoji mid log !! emoji = Some us → us ≠ [] ∧ NoDup us.
Proof.
  intros Hok. unfold by_emoji. destruct (reactions log !! mid) eqn:?; cbn; [by eapply Hok|].
  by rewrite lookup_empty.
Qed.

Lemma react_spec log mid emoji u log1 added :
  reactions_ok log → react mid emoji u log = (log1, added) →
  reactions_ok log1 ∧ (added = true ↔ u ∉ reactors mid emoji log) ∧
  (∀ m' e' u', u' ∈ reactors m' e' log1 ↔ u' ∈ reactors m' e' log ∨ (m', e', u') = (mid, emoji, u)).
Proof.
  intros Hok. pose proof (reactors_NoDup mid emoji log Hok) as Hnd. unfold react.
  set (us := reactors mid emoji log) in *.
  assert (∀ m' e' us', reactors m' e' (set_reactions mid (<[emoji := us']> (by_emoji mid log)) log) =
    if decide (m' = mid ∧ e' = emoji) then us' else reactors m' e' log) as Hr.
  { intros m' e' us'. rewrite reactors_set. destruct (decide (mid = m')) as [<-|].
    - rewrite lookup_insert. destruct (decide (emoji = e')) as [<-|].
      + by rewrite decide_True.
      + rewrite decide_False by naive_solver. done.
    - by rewrite decide_False by naive_solver. }
  assert (∀ us', us' ≠ [] → NoDup us' →
    reactions_ok (set_reactions mid (<[emoji := us']> (by_emoji mid log)) log)) as Hs.
  { intros us' ??. apply reactions_ok_set; [done|]. intros e' us0.
    intros [[_ <-]|[_ ?]]%lookup_insert_Some; [done|by eapply by_emoji_ok]. }
  case_bool_decide as Hin; intros [= <- <-].
  - split_and!; [|naive_solver|].
    + apply Hs; [by intros Hnil; rewrite Hnil in Hin; apply elem_of_nil in Hin|done].
    + intros m' e' u'. rewrite Hr. case_decide; unfold us in *; naive_solver.
  - split_and!; [|naive_solver|].
    + apply Hs; [by destruct us|]. apply NoDup_app. split_and!; [done| |apply NoDup_singleton].
      intros x Hx ->%list_elem_of_singleton. done.
    + intros m' e' u'. rewrite Hr. case_decide as Hc.
      * destruct Hc as [-> ->]. rewrite elem_of_app, list_elem_of_singleton. unfold us. naive_solver.
      * naive_solver.
Qed.

Lemma unreact_spec log mid emoji u log2 removed :
  reactions_ok log → unreact mid emoji u log = (log2, removed) →
  reactions_ok log2 ∧ (removed = true ↔ u ∈ reactors mid emoji log) ∧
  (∀ m' e' u', u' ∈ reactors m' e' log2 ↔ u' ∈ reactors m' e' log ∧ (m', e', u') ≠ (mid, emoji, u)).
Proof.
  intros Hok. unfold unreact. destruct (reactions log !! mid) as [m|] eqn:Hm.
  2:{ intros [= <- <-]. unfold reactors, by_emoji. rewrite Hm. split_and!; [done| |].
      - split; [done|]. cbn. rewrite lookup_empty. by intros []%elem_of_nil.
      - intros m' e' u'. split; [|naive_solver]. intros Hin. split; [done|].
        intros [= -> -> ->]. rewrite Hm in Hin. cbn in Hin. rewrite lookup_empty in Hin.
        by apply elem_of_nil in Hin. }
  destruct (m !! emoji) as [us|] eqn:Hus.
  2:{ intros [= <- <-]. unfold reactors, by_emoji. rewrite Hm; cbn. rewrite Hus; cbn. split_and!; [done| |].
      - split; [done|]. by intros []%elem_of_nil.
      - intros m' e' u'. split; [|naive_solver]. intros Hin. split; [done|].
        intros [= -> -> ->]. rewrite Hm in Hin. cbn in Hin. rewrite Hus in Hin.
        by apply elem_of_nil in Hin. }
  intros [= <- <-]. assert (reactors mid emoji log = us) as Hr
    by (unfold reactors, by_emoji; by rewrite Hm; cbn; rewrite Hus).
  assert (∀ x, not_user u x = true ↔ x ≠ u) as Hnu
    by (intros x; unfold not_user; by rewrite negb_true_iff, bool_decide_eq_false).
  set (us' := retain (not_user u) us).
  set (m' := match us' with [] => delete emoji m | _ => <[emoji := us']> m end).
  assert (∀ e', default [] (m' !! e') = if decide (emoji = e') then us' else default [] (m !! e')) as Hm'.
  { intros e'. unfold m'. destruct us' eqn:E; [rewrite lookup_delete|rewrite lookup_insert];
      by case_decide. }
  split_and!.
  - apply reactions_ok_set; [done|]. intros e' us0. unfold m'. destruct us' eqn:E.
    + intros [_ ?]%lookup_delete_Some. by eapply Hok.
    + intros [[_ <-]|[_ ?]]%lookup_insert_Some; [|by eapply Hok]. split; [done|].
      rewrite <-E. eapply sublist_NoDup; [by eapply Hok|apply retain_sublist].
  - rewrite Hr. rewrite Nat.ltb_lt. split.
    + intros Hlt. apply dec_stable. intros Hnot. unfold us' in Hlt.
      rewrite retain_all in Hlt; [lia|]. intros x Hx. apply Hnu. congruence.
    + intros Hin. apply (retain_length_lt _ _ u); [done|].
      apply not_true_is_false. intros Hx%Hnu. done.
  - intros mid' e' u'. rewrite reactors_set. destruct (decide (mid = mid')) as [<-|]; [|naive_solver].
    rewrite Hm'. destruct (decide (emoji = e')) as [<-|].
    + unfold us'. rewrite Hr, elem_of_retain, Hnu. naive_solver.
    + unfold reactors, by_emoji. rewrite Hm. cbn. naive_solver.
Qed.

Lemma get_reactions_spec log mid emoji us :
  reactions_ok log → (emoji, us) ∈ get_reactions mid log ↔ us = reactors mid emoji log ∧ us ≠ [].
Proof.
  intros Hok. unfold get_reactions, reactors, by_emoji.
  destruct (reactions log !! mid) as [m|] eqn:Hm; cbn.
  - rewrite elem_of_sort_by, elem_of_map_to_list. destruct (m !! emoji) as [us'|] eqn:Hus; cbn.
    + destruct (Hok _ _ _ _ Hm Hus) as [? _]. naive_solver.
    + naive_solver.
  - rewrite lookup_empty. cbn. rewrite elem_of_nil. naive_solver.
Qed.

(** Reactions behave as sets of (message, emoji, user): [react] adds the user once and
    reports whether it was absent, [unreact] removes the user and reports whether it was
    present, nothing else changes, and an emoji whose last user leaves disappears, so
    that [get_reactions] lists, in emoji order, exactly the emojis with users. *)
Theorem reactions_correct log mid emoji u :
  reactions_ok log →
  let '(log1, added) := react mid emoji u log in
  let '(log2, removed) := unreact mid emoji u log in
  reactions_ok log1 ∧ reactions_ok log2 ∧
  (added = true ↔ u ∉ reactors mid emoji log) ∧ (removed = true ↔ u ∈ reactors mid emoji log) ∧
  (∀ m' e' u', u' ∈ reactors m' e' log1 ↔ u' ∈ reactors m' e' log ∨ (m', e', u') = (mid, emoji, u)) ∧
  (∀ m' e' u', u' ∈ reactors m' e' log2 ↔ u' ∈ reactors m' e' log ∧ (m', e', u') ≠ (mid, emoji, u)) ∧
  (∀ m' e' us, (e', us) ∈ get_reactions m' log ↔ us = reactors m' e' log ∧ us ≠ []) ∧
  StronglySorted (λ a b, emoji_le a b = true) (get_reactions mid log).
Proof.
  intros Hok. destruct (react mid emoji u log) as [log1 added] eqn:E1.
  destruct (unreact mid emoji u log) as [log2 removed] eqn:E2.
  assert (reactions_ok log1 ∧ (added = true ↔ u ∉ reactors mid emoji log) ∧
    (∀ m' e' u', u' ∈ reactors m' e' log1 ↔ u' ∈ reactors m' e' log ∨ (m', e', u') = (mid, emoji, u)))
    as (?&?&?) by by apply react_spec.
  assert (reactions_ok log2 ∧ (removed = true ↔ u ∈ reactors mid emoji log) ∧
    (∀ m' e' u', u' ∈ reactors m' e' log2 ↔ u' ∈ reactors m' e' log ∧ (m', e', u') ≠ (mid, emoji, u)))
    as (?&?&?) by by apply unreact_spec.
  split_and!; try done.
  - intros m' e' us. by apply get_reactions_spec.
  - unfold get_reactions. destruct (reactions log !! mid); [|constructor].
    apply sort_by_sorted; unfold emoji_le; intros; [apply lex_le_total|by eapply lex_le_trans].
Qed.

Lemma reactions_ok_new : reactions_ok log_new.
Proof. intros mid m emoji us. cbn. by rewrite lookup_empty. Qed.

Lemma reactions_correct_witness :
  let log1 := (react "m" "+" "u" log_new).1 in
  (react "m" "+" "u" log_new).2 = true ∧ reactions_ok log1 ∧
  get_reactions "m" log1 = [("+"%string, ["u"%string])].
Proof.
  cbv zeta. split; [vm_compute; reflexivity|]. split; [|vm_compute; reflexivity].
  pose proof (reactions_correct log_new "m" "+" "u" reactions_ok_new) as H.
  destruct (react "m" "+" "u" log_new) as [log1 added].
  destruct (unreact "m" "+" "u" log_new) as [log2 removed]. apply H.
Defined.

(** ** Read markers and presence *)

(** The sequence numbers of a channel with [total] entries. *)
Definition all_seqs (total : Z) : list Z := seqZ 0 total.

Lemma length_retain_gt total n :
  0 ≤ total → -1 ≤ n →
  Z.of_nat (length (retain (λ q, n <? q) (all_seqs total))) = sat_sub total (n + 1).
Proof.
  intros Ht Hn. unfold all_seqs.
  destruct (Z.le_gt_cases total (n + 1)) as [Hle|Hgt].
  - assert (retain (λ q, n <? q) (seqZ 0 total) = []) as ->.
    { apply elem_of_nil_inv. intros q [?%Z.ltb_lt [??]%elem_of_seqZ]%elem_of_retain. lia. }
    unfold sat_sub. cbn. lia.
  - replace total with ((n + 1) + (total - (n + 1))) at 1 by lia.
    rewrite seqZ_app, retain_app by lia.
    assert (retain (λ q, n <? q) (seqZ 0 (n + 1)) = []) as ->.
    { apply elem_of_nil_inv. intros q [?%Z.ltb_lt [??]%elem_of_seqZ]%elem_of_retain. lia. }
    cbn [app]. rewrite retain_all, length_seqZ by (intros q [??]%elem_of_seqZ; lia).
    unfold sat_sub. lia.
Qed.

(** The unread count of a channel is the number of its sequence numbers above the last
    one marked read (all of them when nothing was marked), for every marker below
    [u64::MAX]; marking a channel affects that channel alone. *)
Theorem unread_count_correct c seq total map :
  0 ≤ total ≤ U64_MAX → 0 ≤ seq < U64_MAX →
  unread_count c total (mark_read c seq map) =
    Z.of_nat (length (retain (λ q, seq <? q) (all_seqs total))) ∧
  (map !! c = None → unread_count c total map = Z.of_nat (length (all_seqs total))) ∧
  last_read c (mark_read c seq map) = seq ∧
  ∀ c', c' ≠ c → unread_count c' total (mark_read c seq map) = unread_count c' total map ∧
                 last_read c' (mark_read c seq map) = last_read c' map.
Proof.
  intros Ht Hs. unfold unread_count, mark_read, last_read. split_and!.
  - rewrite lookup_insert_eq, length_retain_gt by lia.
    destruct (Z.eqb_spec total 0) as [->|]; [unfold sat_sub; lia|].
    rewrite wrap64_small; [done|]. unfold is_u64. lia.
  - intros ->. unfold all_seqs. rewrite length_seqZ. destruct (Z.eqb_spec total 0); lia.
  - by rewrite lookup_insert_eq.
  - intros c' Hc. by rewrite lookup_insert_ne.
Qed.

Lemma unread_count_correct_witness :
  unread_count "c" 10 (mark_read "c" 4 ∅) = 5 ∧
  unread_count "c" 10 (mark_read "c" 4 ∅) =
    Z.of_nat (length (retain (λ q, 4 <? q) (all_seqs 10))).
Proof.
  split; [vm_compute; reflexivity|].
  apply (unread_count_correct "c" 4 10 ∅); unfold U64_MAX; lia.
Defined.

(** Presence is what was last reported for at most [OFFLINE_THRESHOLD_SECS] whole
    seconds and [Offline] after that or when nothing was reported; once stale a report
    stays stale, and [all_active] lists exactly the users with a report that is not
    stale. *)
Theorem presence_correct now u st seen map :
  let m := presence_update u st seen map in
  presence_get now u m = (if age_secs now seen <=? OFFLINE_THRESHOLD_SECS then st else Offline) ∧
  (map !! u = None → presence_get now u map = Offline) ∧
  (∀ now', now ≤ now' → OFFLINE_THRESHOLD_SECS < age_secs now seen → presence_get now' u m = Offline) ∧
  (∀ v s, s ≠ Offline → (v, s) ∈ all_active now map ↔ presence_get now v map = s) ∧
  (∀ v, v ≠ u → presence_get now v m = presence_get now v map).
Proof.
  intros m. unfold presence_get, m, presence_update. split_and!.
  - rewrite lookup_insert_eq.
    destruct (Z.ltb_spec OFFLINE_THRESHOLD_SECS (age_secs now seen)),
      (Z.leb_spec (age_secs now seen) OFFLINE_THRESHOLD_SECS); done || lia.
  - by intros ->.
  - intros now' Hle Hold. rewrite lookup_insert_eq.
    assert (age_secs now seen ≤ age_secs now' seen) by (apply Z.quot_le_mono; lia).
    destruct (Z.ltb_spec OFFLINE_THRESHOLD_SECS (age_secs now' seen)); [done|lia].
  - intros v s Hs. unfold all_active. rewrite list_elem_of_fmap.
    setoid_rewrite elem_of_retain. split.
    + intros ([v' [s' t]] & [= -> ->] & Hfresh & Hin). apply elem_of_map_to_list in Hin.
      rewrite Hin. cbn in Hfresh. apply Z.leb_le in Hfresh.
      destruct (Z.ltb_spec OFFLINE_THRESHOLD_SECS (age_secs now t)); [lia|done].
    + destruct (map !! v) as [[s' t]|] eqn:Hv; [|naive_solver].
      destruct (Z.ltb_spec OFFLINE_THRESHOLD_SECS (age_secs now t)); [naive_solver|].
      intros ->. exists (v, (s, t)). split_and!; [done|cbn; lia|by apply elem_of_map_to_list].
  - intros v Hv. by rewrite lookup_insert_ne.
Qed.

Lemma presence_correct_witness :
  let m := presence_update "u" Online 0 ∅ in
  presence_get 300000000000 "u" m = Online ∧
  presence_get 400000000000 "u" m = Offline.
Proof.
  cbv zeta. split; [vm_compute; reflexivity|].
  apply (presence_correct 301000000000 "u" Online 0 ∅); [lia|vm_compute; reflexivity].
Defined.
