(* ===== verification/Redb.v ===== *)
(** * The [redb] table interface

    [redb] is the embedded key-value database under the node store and the DHT store. A
    table maps byte-string keys to byte-string values and iterates in lexicographic key
    order; a write transaction commits as a whole. [Table] lists the operations the code
    uses and [TableLaws] their documented behaviour. [RefTable] is a reference
    implementation that satisfies the laws. *)

From S2P Require Import Prelude Bytes.

Class Table (T : Type) := {
  t_get : bytes → T → option bytes;
  t_insert : bytes → bytes → T → T;
  t_remove : bytes → T → T;
  t_iter : T → list (bytes * bytes);
  t_range : bytes → bytes → T → list (bytes * bytes) }.

Definition in_range (lo hi : bytes) (kv : bytes * bytes) : bool :=
  lex_leb lo kv.1 && lex_leb kv.1 hi.

Class TableLaws (T : Type) `{Table T} : Prop := {
  get_insert k v j (t : T) : t_get j (t_insert k v t) = if decide (k = j) then Some v else t_get j t;
  get_remove k j (t : T) : t_get j (t_remove k t) = if decide (k = j) then None else t_get j t;
  iter_sorted (t : T) : StronglySorted lex_lt (t_iter t).*1;
  iter_get k v (t : T) : (k, v) ∈ t_iter t ↔ t_get k t = Some v;
  range_iter lo hi (t : T) : t_range lo hi t = retain (in_range lo hi) (t_iter t) }.

(** Two tables with the same content are indistinguishable. *)
Definition table_equiv {T} `{Table T} (t u : T) : Prop := ∀ k, t_get k t = t_get k u.

Section table.
Context {T : Type} `{TableLaws T}.

#[export] Instance table_equiv_equivalence : Equivalence (table_equiv (T := T)).
Proof using Type.
  split; [done|by intros t u Htu k|]. intros t u v Htu Huv k. by rewrite Htu.
Qed.

Lemma sorted_keys_unique (l k : list (bytes * bytes)) :
  StronglySorted lex_lt l.*1 → StronglySorted lex_lt k.*1 →
  (∀ kv, kv ∈ l ↔ kv ∈ k) → l = k.
Proof using Type.
  revert k; induction l as [|x l IH]; intros [|y k]; csimpl; intros Hl Hk Hin; [done|..].
  { exfalso. apply (not_elem_of_nil y), Hin. left. }
  { exfalso. apply (not_elem_of_nil x), Hin. left. }
  apply StronglySorted_cons in Hl as [Hxl Hl]. apply StronglySorted_cons in Hk as [Hyk Hk].
  rewrite Forall_fmap, Forall_forall in Hxl, Hyk.
  assert (x = y) as ->.
  { assert (x ∈ y :: k) as Hx by (apply Hin; left). assert (y ∈ x :: l) as Hy by (apply Hin; left).
    apply elem_of_cons in Hx as [|Hx]; [done|]. apply elem_of_cons in Hy as [|Hy]; [done|].
    apply Hyk in Hx. apply Hxl in Hy. cbn in *.
    exfalso. apply (StrictOrder_Irreflexive x.1). by etrans. }
  f_equal. apply IH; [done..|]. intros kv. specialize (Hin kv). rewrite !elem_of_cons in Hin.
  split; intros Hkv.
  - destruct Hin as [[->|?] _]; [by right| |done]. exfalso. apply Hxl in Hkv. cbn in Hkv.
    by apply (StrictOrder_Irreflexive y.1).
  - destruct Hin as [_ [->|?]]; [by right| |done]. exfalso. apply Hyk in Hkv. cbn in Hkv.
    by apply (StrictOrder_Irreflexive y.1).
Qed.

#[export] Instance t_iter_proper : Proper (table_equiv ==> eq) (t_iter (T := T)).
Proof using Type*.
  intros t u Htu. apply sorted_keys_unique; [apply iter_sorted..|].
  intros [k v]. by rewrite !iter_get, Htu.
Qed.
#[export] Instance t_range_proper lo hi : Proper (table_equiv ==> eq) (t_range (T := T) lo hi).
Proof using Type*. intros t u Htu. by rewrite !range_iter, Htu. Qed.

Lemma elem_of_range lo hi k v (t : T) :
  (k, v) ∈ t_range lo hi t ↔ t_get k t = Some v ∧ lex_le lo k ∧ lex_le k hi.
Proof using Type*.
  rewrite range_iter, elem_of_retain, iter_get. unfold in_range, lex_le; cbn.
  rewrite andb_true_iff. tauto.
Qed.
Lemma sorted_retain {A B} (R : B → B → Prop) (f : A → B) p (l : list A) :
  StronglySorted R (f <$> l) → StronglySorted R (f <$> retain p l).
Proof using Type.
  induction l as [|x l IH]; csimpl; [done|]. intros [Hx Hs]%StronglySorted_cons.
  unfold retain in *; cbn. destruct (p x); csimpl; [|auto]. constructor; [auto|].
  rewrite Forall_fmap, Forall_forall in *. intros y Hy. apply Hx.
  fold (retain p l) in Hy. by apply elem_of_retain in Hy as [_ ?].
Qed.
Lemma sorted_fmap_retain {A B} (R : A → A → Prop) (S : B → B → Prop) (f : A → B) p (l : list A) :
  (∀ a b, R a b → S (f a) (f b)) → StronglySorted R l → StronglySorted S (f <$> retain p l).
Proof using Type.
  intros Hf. induction 1 as [|x l Hs IH Hall]; csimpl; [constructor|].
  unfold retain in *; cbn. destruct (p x); csimpl; [|done]. constructor; [done|].
  rewrite Forall_fmap, Forall_forall in *. intros y Hy. apply Hf, Hall.
  fold (retain p l) in Hy. by apply elem_of_retain in Hy as [_ ?].
Qed.
Lemma range_sorted lo hi (t : T) : StronglySorted lex_lt (t_range lo hi t).*1.
Proof using Type*. rewrite range_iter. apply sorted_retain, iter_sorted. Qed.

(** Inserting above everything in a range appends to the range. *)
Lemma range_insert_last lo hi k v (t : T) :
  (∀ k' v', (k', v') ∈ t_range lo hi t → lex_lt k' k) → lex_le lo k → lex_le k hi →
  t_range lo hi (t_insert k v t) = t_range lo hi t ++ [(k, v)].
Proof using Type*.
  intros Hlast Hlo Hhi. apply sorted_keys_unique.
  - apply range_sorted.
  - rewrite fmap_app. csimpl. apply StronglySorted_app. split_and!.
    + intros k1 k2 Hk1 ->%list_elem_of_singleton.
      apply list_elem_of_fmap in Hk1 as ([k' v'] & -> & Hin). by eapply Hlast.
    + apply range_sorted.
    + repeat constructor.
  - intros [k' v']. rewrite elem_of_app, list_elem_of_singleton, !elem_of_range, get_insert.
    case_decide as Heq.
    + subst k'. split; [intros [[= <-] _]; by right|].
      intros [(Hget & _)|[= <-]]; [|done].
      exfalso. apply (StrictOrder_Irreflexive k), (Hlast k v'). by apply elem_of_range.
    + split; [by left|]. intros [?|[= <- <-]]; done.
Qed.

(** An update at a key outside a range leaves the range alone. *)
Lemma range_insert_other lo hi k v (t : T) :
  ¬ (lex_le lo k ∧ lex_le k hi) → t_range lo hi (t_insert k v t) = t_range lo hi t.
Proof using Type*.
  intros Hout. apply sorted_keys_unique; [apply range_sorted..|].
  intros [k' v']. rewrite !elem_of_range, get_insert. case_decide; naive_solver.
Qed.

Lemma get_removes ks j (t : T) :
  t_get j (foldl (λ t k, t_remove k t) t ks) = if decide (j ∈ ks) then None else t_get j t.
Proof using Type*.
  revert t; induction ks as [|k ks IH]; intros t; cbn.
  { by rewrite decide_False by apply not_elem_of_nil. }
  rewrite IH, get_remove. destruct (decide (j ∈ ks)) as [Hin|Hin].
  - by rewrite decide_True by by right.
  - destruct (decide (k = j)) as [->|].
    + by rewrite decide_True by left.
    + by rewrite decide_False by (rewrite not_elem_of_cons; naive_solver).
Qed.
Lemma iter_removes ks (t : T) :
  t_iter (foldl (λ t k, t_remove k t) t ks) =
  retain (λ kv, negb (bool_decide (kv.1 ∈ ks))) (t_iter t).
Proof using Type*.
  apply sorted_keys_unique; [apply iter_sorted|apply sorted_retain, iter_sorted|].
  intros [k v]. rewrite elem_of_retain, !iter_get, get_removes. cbn.
  case_decide as Hin; [|rewrite bool_decide_false by done; naive_solver].
  rewrite bool_decide_true by done. naive_solver.
Qed.
Lemma iter_NoDup (t : T) : NoDup (t_iter t).*1.
Proof using Type*.
  pose proof (iter_sorted t) as Hs. induction Hs as [|k l Hs IH Hall]; constructor; [|done].
  rewrite Forall_forall in Hall. intros Hk. apply Hall in Hk. by apply (StrictOrder_Irreflexive k).
Qed.
Lemma elem_of_iter_keys k (t : T) : k ∈ (t_iter t).*1 ↔ ∃ v, t_get k t = Some v.
Proof using Type*.
  rewrite list_elem_of_fmap. split.
  - intros ([k' v] & -> & Hin). exists v. by apply iter_get.
  - intros (v & Hv%iter_get). by exists (k, v).
Qed.
(** Pruning: removing the rows that satisfy [p] keeps, in order, the decoded rows that
    do not. *)
Lemma iter_prune {X} (R : bytes * bytes → X → Prop) (p : bytes * bytes → bool) (q : X → bool)
    (t : T) (xs : list X) :
  Forall2 R (t_iter t) xs → (∀ kv x, kv ∈ t_iter t → R kv x → p kv = negb (q x)) →
  Forall2 R (t_iter (foldl (λ t k, t_remove k t) t (retain p (t_iter t)).*1)) (retain q xs).
Proof using Type*.
  intros HR Hpq. rewrite iter_removes. apply Forall2_retain; [|done].
  intros [k v] x Hin Hx. rewrite (bool_decide_ext _ (p (k, v) = true)).
  - rewrite (Hpq _ _ Hin Hx). by destruct (q x).
  - rewrite list_elem_of_fmap. split.
    + intros ([k' w] & Hk & [He Hin']%elem_of_retain). cbn in *. subst k'.
      apply iter_get in Hin, Hin'. congruence.
    + intros He. exists (k, v). split; [done|]. by apply elem_of_retain.
Qed.
End table.

(** ** A reference implementation *)

Module RefTable.
Definition key_le (a b : bytes * bytes) : bool := lex_leb a.1 b.1.

#[export] Instance table : Table (gmap bytes bytes) := {|
  t_get k t := t !! k;
  t_insert k v t := <[k := v]> t;
  t_remove k t := delete k t;
  t_iter t := sort_by key_le (map_to_list t);
  t_range lo hi t := retain (in_range lo hi) (sort_by key_le (map_to_list t)) |}.

Lemma strict_of_NoDup (l : list (bytes * bytes)) :
  StronglySorted (λ a b, key_le a b = true) l → NoDup l.*1 → StronglySorted lex_lt l.*1.
Proof.
  induction 1 as [|x l Hs IH Hall]; csimpl; [constructor|]. intros [Hx Hnd]%NoDup_cons.
  constructor; [auto|]. rewrite Forall_fmap, Forall_forall in *. intros y Hy.
  split; [by apply Hall|]. intros Heq. apply Hx. rewrite Heq. by apply list_elem_of_fmap_2.
Qed.

#[export] Instance table_laws : TableLaws (gmap bytes bytes).
Proof.
  split; cbn.
  - intros k v j t. apply lookup_insert.
  - intros k j t. apply lookup_delete.
  - intros t. apply strict_of_NoDup.
    + apply sort_by_sorted; unfold key_le; intros; [apply lex_le_total|by eapply lex_le_trans].
    + rewrite sort_by_perm. apply NoDup_fst_map_to_list.
  - intros k v t. by rewrite elem_of_sort_by, elem_of_map_to_list.
  - done.
Qed.
End RefTable.
