(* ===== verification/SeqLog.v ===== *)
(** * Sequence-numbered logs in a key-value table

    The node store keeps two tables of the same shape: the channel log, keyed by
    [community_pk ++ channel ++ seq], and the mailboxes, keyed by [user_pk ++ seq]. In both
    a key is a fixed-length prefix followed by a big-endian 64-bit sequence number, so
    that a range scan returns the entries of one prefix in sequence order. This file holds
    the code the two share ([next_seq], the scan) and proves, once for both, that a prefix
    of such a table is an append-only list. *)

From S2P Require Import Prelude Bytes Redb.

(** The sequence number that follows the last key of a scan: [match
    range.next_back() { Some(Ok((k, _))) if k.len() >= n + 8 => be(k\[n..n+8\]) + 1, _ => 0 }]. *)
Definition key_seq (n : nat) (k : bytes) : Z := of_be (take 8 (drop n k)).
Definition next_seq (n : nat) (range : list (bytes * bytes)) : Z :=
  match last range with
  | Some (k, _) => if (n + 8 <=? length k)%nat then wrap64 (key_seq n k + 1) else 0
  | None => 0
  end.

(** The last key's own number: [range.next_back().and_then(|(k, _)| if k.len() >= n + 8 ...)]. *)
Definition last_key_seq (n : nat) (range : list (bytes * bytes)) : option Z :=
  match last range with
  | Some (k, _) => if (n + 8 <=? length k)%nat then Some (key_seq n k) else None
  | None => None
  end.

Definition seq_key (p : bytes) (s : Z) : bytes := p ++ be_bytes 8 s.

Lemma u64_pow s : is_u64 s → 0 ≤ s < 256 ^ Z.of_nat 8.
Proof. unfold is_u64, U64_MAX. change (256 ^ Z.of_nat 8) with (2 ^ 64). lia. Qed.
Lemma is_u64_0 : is_u64 0.
Proof. unfold is_u64, U64_MAX. lia. Qed.
Lemma is_u64_max : is_u64 U64_MAX.
Proof. unfold is_u64, U64_MAX. lia. Qed.
#[export] Hint Resolve u64_pow is_u64_0 is_u64_max : bytes_db.

Lemma seq_key_inj p q s r :
  length p = length q → is_u64 s → is_u64 r → seq_key p s = seq_key q r → p = q ∧ s = r.
Proof.
  unfold seq_key. intros Hlen Hs Hr Heq. apply app_inj_1 in Heq as [-> Heq]; [|done].
  apply be_bytes_inj in Heq; auto using u64_pow.
Qed.
Lemma seq_key_seq n p s : length p = n → is_u64 s → key_seq n (seq_key p s) = s.
Proof.
  intros Hn Hs. unfold key_seq, seq_key. rewrite drop_app_length' by done.
  rewrite take_ge by by rewrite length_be_bytes. rewrite of_be_be_bytes_small; auto using u64_pow.
Qed.
Lemma seq_key_length p s : length (seq_key p s) = (length p + 8)%nat.
Proof. unfold seq_key. by rewrite length_app, length_be_bytes. Qed.
Lemma seq_key_le p s r : is_u64 s → is_u64 r → lex_le (seq_key p s) (seq_key p r) ↔ s ≤ r.
Proof. intros. unfold seq_key. rewrite lex_le_app_prefix, lex_le_be_bytes; auto using u64_pow. Qed.
Lemma seq_key_lt p s r : is_u64 s → is_u64 r → lex_lt (seq_key p s) (seq_key p r) ↔ s < r.
Proof. intros. rewrite lex_lt_not_le, seq_key_le by done. lia. Qed.

(** A key of the table's shape that lies in a scan of [p] belongs to [p]. *)
Lemma seq_key_between n p q since s r :
  length p = n → length q = n → is_u64 s → is_u64 since → is_u64 r →
  lex_le (seq_key p since) (seq_key q s) ∧ lex_le (seq_key q s) (seq_key p r) ↔
  q = p ∧ since ≤ s ≤ r.
Proof.
  intros Hp Hq Hs Hsince Hr. split.
  - intros [Hlo Hhi]. destruct (lex_between_prefix p _ _ _ Hlo Hhi) as (k' & Heq & _).
    unfold seq_key in Heq. apply app_inj_1 in Heq as [-> _]; [|by rewrite Hp].
    rewrite seq_key_le in Hlo, Hhi by done. auto.
  - intros [-> ?]. rewrite !seq_key_le by done. lia.
Qed.

Section seqlog.
Context {T : Type} `{TableLaws T}.
Context {E A : Type} (n : nat) (dec : bytes → result E A) (seq_of : A → Z).

Definition seq_scan (p : bytes) (since : Z) (t : T) : list (bytes * bytes) :=
  t_range (seq_key p since) (seq_key p U64_MAX) t.

(** Every row of the table is a well-formed entry stored under its own sequence number. *)
Definition row_ok (k v : bytes) : Prop :=
  ∃ p s e, wf_array n p ∧ is_u64 s ∧ k = seq_key p s ∧ dec v = Ok e ∧ seq_of e = s.
Definition seqlog_ok (t : T) : Prop := ∀ k v, t_get k t = Some v → row_ok k v.

(** [es] is the log stored under the prefix [p]. *)
Definition holds_log (p : bytes) (t : T) (es : list A) : Prop :=
  Forall2 (λ kv e, is_u64 (seq_of e) ∧ kv.1 = seq_key p (seq_of e) ∧ dec kv.2 = Ok e)
    (seq_scan p 0 t) es.

Lemma seqlog_ok_insert p s e v (t : T) :
  seqlog_ok t → wf_array n p → is_u64 s → dec v = Ok e → seq_of e = s →
  seqlog_ok (t_insert (seq_key p s) v t).
Proof using Type*.
  intros Hok Hp Hs Hd He k w. rewrite get_insert. case_decide as Hk; [|apply Hok].
  intros [= <-]. subst k. by exists p, s, e.
Qed.
Lemma seqlog_ok_remove ks (t : T) :
  seqlog_ok t → seqlog_ok (foldl (λ t k, t_remove k t) t ks).
Proof using Type*.
  intros Hok k w. rewrite get_removes. case_decide; [done|]. apply Hok.
Qed.

Lemma elem_of_seq_scan p since k v (t : T) :
  seqlog_ok t → wf_array n p → is_u64 since →
  (k, v) ∈ seq_scan p since t ↔
  ∃ e, dec v = Ok e ∧ is_u64 (seq_of e) ∧ k = seq_key p (seq_of e) ∧ since ≤ seq_of e ∧
       t_get k t = Some v.
Proof using Type*.
  intros Hok Hp Hs. unfold seq_scan. rewrite elem_of_range. split.
  - intros (Hget & Hr). destruct (Hok _ _ Hget) as (q & s & e & [Hq _] & Hs' & -> & Hd & <-).
    apply (seq_key_between n) in Hr as [-> ?]; [|apply Hp|auto using is_u64_max..].
    exists e. naive_solver lia.
  - intros (e & Hd & Hu & -> & Hle & Hget). split; [done|].
    apply (seq_key_between n); auto using is_u64_max; [apply Hp|apply Hp|].
    split; [done|]. destruct Hu; lia.
Qed.

Lemma holds_log_exists p (t : T) : seqlog_ok t → wf_array n p → ∃ es, holds_log p t es.
Proof using Type*.
  intros Hok Hp. unfold holds_log.
  assert (∀ kv, kv ∈ seq_scan p 0 t →
    ∃ e, is_u64 (seq_of e) ∧ kv.1 = seq_key p (seq_of e) ∧ dec kv.2 = Ok e) as Hall.
  { intros [k v] Hin. apply elem_of_seq_scan in Hin as (e & ?); auto with bytes_db. naive_solver. }
  induction (seq_scan p 0 t) as [|kv l IH]; [by exists []|].
  destruct (Hall kv) as (e & He); [left|].
  destruct IH as (es & Hes); [intros ??; apply Hall; by right|]. exists (e :: es). by constructor.
Qed.

Lemma holds_log_unique p (t : T) es fs : holds_log p t es → holds_log p t fs → es = fs.
Proof using Type.
  unfold holds_log. intros He. revert fs. induction He as [|kv e l es (_ & _ & Hd) He IH].
  - by inversion 1.
  - intros fs Hf. inversion Hf as [|? f ? fs' (_ & _ & Hd')]; subst.
    f_equal; [congruence|auto].
Qed.

(** Reading a log back. *)
Lemma holds_log_read p (t : T) es :
  holds_log p t es → result_map dec (seq_scan p 0 t).*2 = Ok es.
Proof using Type.
  intros He. apply result_map_ok. rewrite Forall2_fmap_l. eapply Forall2_impl; [done|]. naive_solver.
Qed.

Lemma holds_log_keys p (t : T) es :
  holds_log p t es → (seq_scan p 0 t).*1 = seq_key p ∘ seq_of <$> es.
Proof using Type.
  induction 1 as [|kv e l es (_ & Hk & _) _ IH]; csimpl; [done|]. by rewrite Hk, IH.
Qed.

Lemma holds_log_u64 p (t : T) es : holds_log p t es → Forall (λ e, is_u64 (seq_of e)) es.
Proof using Type. induction 1 as [|?? ?? (? & _)]; constructor; done. Qed.

Lemma holds_log_sorted p (t : T) es :
  holds_log p t es → StronglySorted (λ a b, seq_of a < seq_of b) es.
Proof using Type*.
  intros He. pose proof (holds_log_u64 _ _ _ He) as Hu.
  pose proof (range_sorted (seq_key p 0) (seq_key p U64_MAX) t) as Hs.
  fold (seq_scan p 0 t) in Hs. rewrite (holds_log_keys _ _ _ He) in Hs. clear He.
  induction es as [|e es IH]; [constructor|]. csimpl in Hs.
  apply StronglySorted_cons in Hs as [Hhd Hs]. apply Forall_cons in Hu as [Hu Hus].
  constructor; [auto|]. rewrite Forall_fmap in Hhd. rewrite Forall_forall in *.
  intros x Hx. apply (seq_key_lt p); [done|auto|]. by apply Hhd.
Qed.

(** A log has no two entries with one number. *)
Lemma sorted_retain_since since es :
  StronglySorted (λ a b, seq_of a < seq_of b) es →
  ∃ l, es = l ++ retain (λ e, since <=? seq_of e) es.
Proof using Type.
  induction 1 as [|e es Hs IH Hall]; [by exists []|]. unfold retain in *; cbn.
  destruct (since <=? seq_of e) eqn:Hle.
  - exists []. cbn. f_equal. rewrite Forall_forall in Hall. symmetry.
    apply (retain_all (λ e, since <=? seq_of e)). intros x Hx. apply Hall in Hx. lia.
  - destruct IH as (l & Hl). exists (e :: l). cbn. by rewrite <- Hl.
Qed.

Lemma seq_scan_since p since (t : T) es :
  seqlog_ok t → wf_array n p → is_u64 since → holds_log p t es →
  result_map dec (seq_scan p since t).*2 = Ok (retain (λ e, since <=? seq_of e) es).
Proof using Type*.
  intros Hok Hp Hs He.
  assert (seq_scan p since t =
          retain (λ kv, since <=? key_seq n kv.1) (seq_scan p 0 t)) as ->.
  { apply sorted_keys_unique; [apply range_sorted|apply sorted_retain, range_sorted|].
    intros [k v]. rewrite elem_of_retain, !elem_of_seq_scan by auto with bytes_db. cbn.
    split.
    - intros (e & Hd & Hu & -> & Hle & Hget).
      rewrite (seq_key_seq n) by (done || apply Hp). split; [lia|].
      exists e. split_and!; done || (destruct Hu; lia).
    - intros (Hle & e & Hd & Hu & -> & _ & Hget). exists e.
      rewrite (seq_key_seq n) in Hle by (done || apply Hp). split_and!; done || lia. }
  apply result_map_ok. rewrite Forall2_fmap_l. unfold holds_log in He.
  induction He as [|kv e l es (Hu & Hk & Hd) He IH]; [constructor|].
  unfold retain in *; cbn. rewrite Hk, (seq_key_seq n) by (done || apply Hp).
  destruct (since <=? seq_of e); [by constructor|done].
Qed.

(** A log is non-empty exactly when the table has a row of its prefix. *)
Lemma holds_log_cons p (t : T) es :
  seqlog_ok t → wf_array n p → holds_log p t es →
  es ≠ [] ↔ ∃ s v, is_u64 s ∧ t_get (seq_key p s) t = Some v.
Proof using Type*.
  intros Hok Hp He. apply Forall2_length in He.
  assert (es ≠ [] ↔ ∃ k v, (k, v) ∈ seq_scan p 0 t) as ->.
  { destruct (seq_scan p 0 t) as [|[k v] l], es as [|e es]; cbn in He; [|done..|].
    - split; [done|]. intros (k & v & []%elem_of_nil).
    - split; [|done]. intros _. exists k, v. by left. }
  split.
  - intros (k & v & Hin). apply elem_of_seq_scan in Hin as (e & _ & Hu & -> & _ & Hget); eauto with bytes_db.
  - intros (s & v & Hs & Hget). exists (seq_key p s), v.
    destruct (Hok _ _ Hget) as (q & r & e & Hq & Hr & Heq & Hd & He').
    apply seq_key_inj in Heq as [<- <-]; [|by rewrite (proj1 Hp), (proj1 Hq)|done|done].
    apply elem_of_seq_scan; auto with bytes_db. subst s. exists e.
    split_and!; try done. by destruct Hs.
Qed.

(** The next sequence number is one past the last entry's. *)
Definition succ_seq (es : list A) : Z :=
  match last es with Some e => wrap64 (seq_of e + 1) | None => 0 end.

Lemma holds_log_last p (t : T) es :
  wf_array n p → holds_log p t es → last_key_seq n (seq_scan p 0 t) = seq_of <$> last es.
Proof using Type.
  intros Hp He. unfold last_key_seq, holds_log in *.
  destruct es as [|e es _] using rev_ind.
  - apply Forall2_nil_inv_r in He as ->. done.
  - apply Forall2_app_inv_r in He as (l & k' & _ & He & ->).
    apply Forall2_cons_inv_r in He as ([k v] & k'' & (Hu & Hk & Hd) & He & ->).
    apply Forall2_nil_inv_r in He as ->. rewrite !last_snoc. cbn in Hk. subst k.
    rewrite seq_key_length, (proj1 Hp), (seq_key_seq n) by (done || apply Hp).
    by rewrite Nat.leb_refl.
Qed.
Lemma next_seq_spec p (t : T) es :
  wf_array n p → holds_log p t es → next_seq n (seq_scan p 0 t) = succ_seq es.
Proof using Type.
  intros Hp He. pose proof (holds_log_last p t es Hp He) as Hl.
  unfold next_seq, succ_seq, last_key_seq in *. destruct (last (seq_scan p 0 t)) as [[k v]|].
  - destruct (n + 8 <=? length k)%nat, (last es); cbn in Hl; congruence.
  - by destruct (last es).
Qed.

Lemma succ_seq_u64 es : is_u64 (succ_seq es).
Proof using Type. unfold succ_seq. destruct (last es); auto using wrap64_range with bytes_db. Qed.

(** No overflow: the last entry is not numbered [u64::MAX]. *)
Definition log_room (es : list A) : Prop := ∀ e, last es = Some e → seq_of e < U64_MAX.

Lemma succ_seq_above es e :
  StronglySorted (λ a b, seq_of a < seq_of b) es → Forall (λ e, is_u64 (seq_of e)) es →
  log_room es → e ∈ es → seq_of e < succ_seq es.
Proof using Type.
  intros Hs Hu Hroom Hin. unfold succ_seq.
  destruct es as [|x es _] using rev_ind; [by apply elem_of_nil in Hin|].
  unfold log_room in Hroom. rewrite last_snoc in *. specialize (Hroom _ eq_refl).
  apply Forall_app in Hu as [_ [Hu _]%Forall_cons].
  rewrite wrap64_small by (destruct Hu; split; lia).
  apply StronglySorted_app in Hs as (Hlt & _).
  apply elem_of_app in Hin as [Hin| ->%list_elem_of_singleton]; [|lia].
  specialize (Hlt e x Hin ltac:(by left)). cbn in Hlt. lia.
Qed.

(** Inserting at the next number appends to the list. *)
Lemma holds_log_snoc p (t : T) es e v :
  seqlog_ok t → wf_array n p → holds_log p t es → log_room es →
  dec v = Ok e → seq_of e = succ_seq es →
  holds_log p (t_insert (seq_key p (seq_of e)) v t) (es ++ [e]).
Proof using Type*.
  intros Hok Hp He Hroom Hd Hseq.
  assert (is_u64 (seq_of e)) as Hu by (rewrite Hseq; apply succ_seq_u64).
  unfold holds_log, seq_scan. rewrite range_insert_last.
  - apply Forall2_app; [exact He|]. repeat constructor; done || apply Hu.
  - intros k v' Hin. fold (seq_scan p 0 t) in Hin.
    assert (k ∈ (seq_scan p 0 t).*1) as Hk by (by apply list_elem_of_fmap_2 with (f := fst) in Hin).
    rewrite (holds_log_keys _ _ _ He) in Hk. apply list_elem_of_fmap in Hk as (x & -> & Hx).
    pose proof (holds_log_u64 _ _ _ He) as Hus. rewrite Forall_forall in Hus.
    cbn. apply seq_key_lt; auto. rewrite Hseq. apply succ_seq_above; auto.
    + by eapply holds_log_sorted.
    + by apply Forall_forall.
  - apply seq_key_le; auto with bytes_db. apply Hu.
  - apply seq_key_le; auto with bytes_db. apply Hu.
Qed.

(** Other prefixes do not see the insertion. *)
Lemma seq_scan_other p q s since v (t : T) :
  length p = n → length q = n → p ≠ q → is_u64 s → is_u64 since →
  seq_scan q since (t_insert (seq_key p s) v t) = seq_scan q since t.
Proof using Type*.
  intros Hp Hq Hne Hs Hsince. apply range_insert_other.
  rewrite (seq_key_between n) by auto using is_u64_max. naive_solver.
Qed.

(** Removing keys from the table. *)
Lemma seq_scan_removes p since ks (t : T) :
  seq_scan p since (foldl (λ t k, t_remove k t) t ks) =
  retain (λ kv, negb (bool_decide (kv.1 ∈ ks))) (seq_scan p since t).
Proof using H H0 T.
  clear dec seq_of. apply sorted_keys_unique; [apply range_sorted|apply sorted_retain, range_sorted|].
  intros [k v]. rewrite elem_of_retain. unfold seq_scan. rewrite !elem_of_range, get_removes. cbn.
  case_decide as Hin; [|rewrite bool_decide_false by done; naive_solver].
  rewrite bool_decide_true by done. naive_solver.
Qed.

Lemma seq_scan_NoDup p since (t : T) : NoDup (seq_scan p since t).*1.
Proof using H H0 T.
  clear dec seq_of. pose proof (range_sorted (seq_key p since) (seq_key p U64_MAX) t) as Hs.
  unfold seq_scan. induction Hs as [|k l Hs IH Hall]; constructor; [|done].
  rewrite Forall_forall in Hall. intros Hk. apply Hall in Hk. by apply (StrictOrder_Irreflexive k).
Qed.

(** Removing the first [m] keys of a scan drops the first [m] entries... *)
Lemma seq_scan_removes_take p m (t : T) :
  seq_scan p 0 (foldl (λ t k, t_remove k t) t (take m (seq_scan p 0 t).*1)) =
  drop m (seq_scan p 0 t).
Proof using H H0 T. rewrite seq_scan_removes. apply retain_drop, seq_scan_NoDup. Qed.
Lemma holds_log_drop p m (t : T) es :
  holds_log p t es →
  holds_log p (foldl (λ t k, t_remove k t) t (take m (seq_scan p 0 t).*1)) (drop m es).
Proof using Type*. unfold holds_log. rewrite seq_scan_removes_take. apply Forall2_drop. Qed.

(** ... and is not seen by the other prefixes. *)
Lemma seq_scan_removes_other p q since m (t : T) :
  seqlog_ok t → wf_array n p → wf_array n q → p ≠ q → is_u64 since →
  seq_scan q since (foldl (λ t k, t_remove k t) t (take m (seq_scan p 0 t).*1)) =
  seq_scan q since t.
Proof using Type*.
  intros Hok Hp Hq Hne Hs. rewrite seq_scan_removes. apply retain_all. intros [k v] Hkv.
  apply elem_of_seq_scan in Hkv as (e & _ & Hu & -> & _); [|done..].
  rewrite bool_decide_false; [done|]. cbn. intros Hin%elem_of_take.
  destruct Hin as (i & Hin & _). apply list_elem_of_lookup_2 in Hin.
  apply list_elem_of_fmap in Hin as ([k w] & Heq & Hin). cbn in Heq. subst k.
  apply elem_of_seq_scan in Hin as (e' & _ & Hu' & Heq & _); auto with bytes_db.
  apply seq_key_inj in Heq as [? _]; [by subst|by rewrite (proj1 Hp), (proj1 Hq)|done|done].
Qed.
End seqlog.
