(* ===== verification/Store.v ===== *)
(** * The node store: [bitcord-core/src/node/store.rs]

    [NodeStore] keeps four tables: the channel log, the mailboxes, the community metadata
    and the DHT community peers. Values are serialised and, when the store has a key,
    encrypted. A method returns [Err] and leaves the store as it was when the database
    fails ([st_online = false]), when a value does not serialise, or when it does not
    decrypt; otherwise it returns the method's value and, for the methods that write, the
    new store. Randomness, clock readings and fresh identifiers are arguments. *)

From stdpp Require Import countable.
From S2P Require Import Prelude Bytes Redb SeqLog Routing Crypto Codec Model.

(** The order in which a [HashMap] yields its entries is unspecified. *)
Class HashOrder := { hash_order (V : Type) : gmap string V → list (string * V) }.
Class HashOrderLaws `{HashOrder} : Prop :=
  { hash_order_perm (V : Type) (m : gmap string V) : hash_order V m ≡ₚ map_to_list m }.
Arguments hash_order {_ V} _.
Arguments hash_order_perm {_ _ V} _.

Record CommunityMeta := mkMeta {
  meta_cert : HostingCert;
  meta_manifest : option SignedManifest;
  meta_channels : list ChannelManifest;
  meta_channel_keys : gmap string bytes;
  meta_members : gmap string MembershipRecord }.

#[export] Instance HostingCert_eq_dec : EqDecision HostingCert.
Proof. solve_decision. Defined.
#[export] Instance HostingCert_countable : Countable HostingCert.
Proof.
  refine (inj_countable'
    (λ c, (cert_community_pk c, cert_node_pk c, cert_expires_at c, cert_signature c))
    (λ p, mkCert (p.1.1.1) (p.1.1.2) (p.1.2) (p.2)) _).
  by intros [].
Defined.
#[export] Instance DmEnvelope_eq_dec : EqDecision DmEnvelope.
Proof. solve_decision. Defined.
#[export] Instance DmEnvelope_countable : Countable DmEnvelope.
Proof.
  refine (inj_countable'
    (λ e, (env_sender_pk e, env_ephem_pk e, env_nonce e, env_ciphertext e))
    (λ p, mkEnvelope (p.1.1.1) (p.1.1.2) (p.1.2) (p.2)) _).
  by intros [].
Defined.
#[export] Instance CommunityPeerRecord_countable : Countable CommunityPeerRecord.
Proof.
  refine (inj_countable' (λ r, (cp_node_pk r, cp_addr r, cp_announced_at r))
    (λ p, mkPeer (p.1.1) (p.1.2) (p.2)) _).
  by intros [].
Defined.
#[export] Instance CommunityMeta_eq_dec : EqDecision CommunityMeta.
Proof. solve_decision. Defined.
#[export] Instance CommunityMeta_countable : Countable CommunityMeta.
Proof.
  refine (inj_countable'
    (λ m, (meta_cert m, meta_manifest m, meta_channels m, meta_channel_keys m, meta_members m))
    (λ p, mkMeta (p.1.1.1.1) (p.1.1.1.2) (p.1.1.2) (p.1.2) (p.2)) _).
  by intros [].
Defined.

Definition community_pk (meta : CommunityMeta) : bytes := cert_community_pk (meta_cert meta).

Inductive store_error := DbError | EncodeError | DecodeError | CipherError (e : crypto_error).

Class NodeCodecs := {
  codec_log :: Postcard LogEntry;
  codec_dm :: Postcard DmEnvelope;
  codec_meta :: Postcard CommunityMeta;
  codec_peer :: Postcard CommunityPeerRecord }.
Class NodeCodecsLaws `{NodeCodecs} : Prop := {
  codec_log_laws :: PostcardLaws LogEntry;
  codec_dm_laws :: PostcardLaws DmEnvelope;
  codec_meta_laws :: PostcardLaws CommunityMeta;
  codec_peer_laws :: PostcardLaws CommunityPeerRecord }.

(** ** Keys *)

Definition ulid_be (id : Ulid) : bytes := be_bytes 16 id.
Definition log_key (community_pk chan : bytes) (seq : Z) : bytes :=
  community_pk ++ chan ++ be_bytes 8 seq.
Definition mail_key (user_pk : bytes) (seq : Z) : bytes := user_pk ++ be_bytes 8 seq.
Definition dht_peer_key (community_pk node_pk : bytes) : bytes := community_pk ++ node_pk.

(** ** The store *)

Record NodeStore (T : Type) := mkStore {
  LOG : T;
  MAIL : T;
  META : T;
  DHT_PEERS : T;
  st_key : option bytes;
  st_online : bool }.
Arguments mkStore {T}.
Arguments LOG {T}.
Arguments MAIL {T}.
Arguments META {T}.
Arguments DHT_PEERS {T}.
Arguments st_key {T}.
Arguments st_online {T}.

Section store.
Context {T : Type} `{Crypto} `{Table T} `{NodeCodecs}.

Notation Store := (NodeStore T).
Notation Result := (result store_error).

Definition with_log (t : T) (st : Store) : Store :=
  mkStore t (MAIL st) (META st) (DHT_PEERS st) (st_key st) (st_online st).
Definition with_mail (t : T) (st : Store) : Store :=
  mkStore (LOG st) t (META st) (DHT_PEERS st) (st_key st) (st_online st).
Definition with_meta (t : T) (st : Store) : Store :=
  mkStore (LOG st) (MAIL st) t (DHT_PEERS st) (st_key st) (st_online st).
Definition with_peers (t : T) (st : Store) : Store :=
  mkStore (LOG st) (MAIL st) (META st) t (st_key st) (st_online st).

(** The tables are created empty. *)
Definition store_open (empty : T) (key : option bytes) (online : bool) : Result Store :=
  if online then Ok (mkStore empty empty empty empty key true) else Err DbError.

(** A transaction begins, opens its table and commits, or fails. *)
Definition transaction (st : Store) : Result unit :=
  if st_online st then Ok tt else Err DbError.

Definition lift_crypto {A} (r : result crypto_error A) : Result A :=
  match r with Ok a => Ok a | Err e => Err (CipherError e) end.

Definition store_encrypt (st : Store) (nonce plaintext : bytes) : Result bytes :=
  match st_key st with
  | Some k => lift_crypto (encrypt_bytes nonce plaintext k)
  | None => Ok plaintext
  end.
Definition store_decrypt (st : Store) (blob : bytes) : Result bytes :=
  match st_key st with
  | Some k => lift_crypto (decrypt_bytes blob k)
  | None => Ok blob
  end.

(** Serialise and encrypt; decrypt and deserialise. *)
Definition seal_value {A} `{Postcard A} (st : Store) (nonce : bytes) (a : A) : Result bytes :=
  plain ← ok_or EncodeError (to_allocvec a);
  store_encrypt st nonce plain.
Definition open_value {A} `{Postcard A} (st : Store) (v : bytes) : Result A :=
  plain ← store_decrypt st v;
  ok_or DecodeError (from_bytes plain).

(** *** Channel log *)

Definition append_message (rnd : bytes) (community_pk : bytes) (channel_id : Ulid)
    (nonce ciphertext : bytes) (message_id author_id : string) (timestamp_ms : Z)
    (st : Store) : Result (Z * Store) :=
  let chan := ulid_be channel_id in
  transaction st;;
  let lower := log_key community_pk chan 0 in
  let upper := log_key community_pk chan U64_MAX in
  let seq := next_seq 48 (t_range lower upper (LOG st)) in
  let entry := mkLogEntry seq nonce ciphertext message_id author_id timestamp_ms false in
  let key := log_key community_pk chan seq in
  value ← seal_value st rnd entry;
  Ok (seq, with_log (t_insert key value (LOG st)) st).

Definition last_seq (community_pk : bytes) (channel_id : Ulid) (st : Store) : Result (option Z) :=
  let chan := ulid_be channel_id in
  let lower := log_key community_pk chan 0 in
  let upper := log_key community_pk chan U64_MAX in
  transaction st;;
  Ok (last_key_seq 48 (t_range lower upper (LOG st))).

Definition get_messages (community_pk : bytes) (channel_id : Ulid) (since_seq : Z)
    (st : Store) : Result (list LogEntry) :=
  let chan := ulid_be channel_id in
  let lower := log_key community_pk chan since_seq in
  let upper := log_key community_pk chan U64_MAX in
  transaction st;;
  result_map (open_value st) (t_range lower upper (LOG st)).*2.

(** *** Mailboxes *)

Definition append_dm (rnd : bytes) (timestamp_ms : Z) (message_id : string)
    (recipient_pk sender_pk : bytes) (envelope : DmEnvelope) (st : Store)
    : Result (Z * Store) :=
  ciphertext ← ok_or EncodeError (to_allocvec envelope);
  let author_id := hex (sha256 sender_pk) in
  transaction st;;
  let lower := mail_key recipient_pk 0 in
  let upper := mail_key recipient_pk U64_MAX in
  let seq := next_seq 32 (t_range lower upper (MAIL st)) in
  let entry := mkLogEntry seq (replicate 24 0) ciphertext message_id author_id timestamp_ms false in
  let key := mail_key recipient_pk seq in
  value ← seal_value st rnd entry;
  Ok (seq, with_mail (t_insert key value (MAIL st)) st).

Definition get_dms (user_pk : bytes) (since_seq : Z) (st : Store) : Result (list LogEntry) :=
  let lower := mail_key user_pk since_seq in
  let upper := mail_key user_pk U64_MAX in
  transaction st;;
  result_map (open_value st) (t_range lower upper (MAIL st)).*2.

(** The scan stops at the first community with a matching member; a value it meets
    before that and cannot read is an error. *)
Fixpoint find_member `{HashOrder} (ed25519_pk : bytes) (st : Store) (rows : list bytes)
    : Result (option bytes) :=
  match rows with
  | [] => Ok None
  | v :: rows =>
      meta ← open_value (A := CommunityMeta) st v;
      match find_by (λ m, bool_decide (mr_public_key m = ed25519_pk))
              (hash_order (meta_members meta)).*2 with
      | Some member => Ok (Some (mr_x25519_public_key member))
      | None => find_member ed25519_pk st rows
      end
  end.
Definition x25519_pk_for_member `{HashOrder} (ed25519_pk : bytes) (st : Store)
    : Result (option bytes) :=
  transaction st;; find_member ed25519_pk st (t_iter (META st)).*2.

(** *** Community metadata *)

Definition set_community_meta (rnd community_pk : bytes) (meta : CommunityMeta) (st : Store)
    : Result Store :=
  value ← seal_value st rnd meta;
  transaction st;;
  Ok (with_meta (t_insert community_pk value (META st)) st).

Definition get_community_meta (community_pk : bytes) (st : Store)
    : Result (option CommunityMeta) :=
  transaction st;;
  match t_get community_pk (META st) with
  | Some v => Some <$> open_value st v
  | None => Ok None
  end.

Definition t_removes (ks : list bytes) (t : T) : T := foldl (λ t k, t_remove k t) t ks.

Definition remove_community (community_pk : bytes) (st : Store) : Result Store :=
  transaction st;;
  let meta_table := t_remove community_pk (META st) in
  let lower := community_pk ++ replicate 24 0 in
  let upper := community_pk ++ replicate 24 255 in
  let keys_to_remove := (t_range lower upper (LOG st)).*1 in
  Ok (with_log (t_removes keys_to_remove (LOG st)) (with_meta meta_table st)).

Definition all_mailbox_recipients (st : Store) : Result (list bytes) :=
  transaction st;;
  Ok (dedup_by_key id
        (take 32 <$> retain (λ k, negb (length k <? 32)%nat) (t_iter (MAIL st)).*1)).

(** *** Community peer records *)

Definition set_community_peer_record (rnd community_pk : bytes) (record : CommunityPeerRecord)
    (st : Store) : Result Store :=
  let key := dht_peer_key community_pk (cp_node_pk record) in
  value ← seal_value st rnd record;
  transaction st;;
  Ok (with_peers (t_insert key value (DHT_PEERS st)) st).

(** A row that does not decrypt fails the scan; one that does not deserialise is skipped. *)
Fixpoint read_peer_rows (st : Store) (rows : list (bytes * bytes))
    : Result (list (bytes * CommunityPeerRecord)) :=
  match rows with
  | [] => Ok []
  | (k, v) :: rows =>
      if (length k <? 64)%nat then read_peer_rows st rows
      else
        let community_pk := take 32 k in
        plain ← store_decrypt st v;
        match from_bytes (A := CommunityPeerRecord) plain with
        | Some record => cons (community_pk, record) <$> read_peer_rows st rows
        | None => read_peer_rows st rows
        end
  end.
Definition all_community_peer_records (st : Store) : Result (list (bytes * CommunityPeerRecord)) :=
  transaction st;; read_peer_rows st (t_iter (DHT_PEERS st)).

Definition peer_row_expired (cutoff_secs : Z) (st : Store) (v : bytes) : bool :=
  match open_value (A := CommunityPeerRecord) st v with
  | Ok record => cp_announced_at record <? cutoff_secs
  | Err _ => false
  end.
Definition remove_expired_community_peers (cutoff_secs : Z) (st : Store) : Result Store :=
  transaction st;;
  let expired_keys := (retain (λ kv, peer_row_expired cutoff_secs st kv.2) (t_iter (DHT_PEERS st))).*1 in
  match expired_keys with
  | [] => Ok st
  | _ => Ok (with_peers (t_removes expired_keys (DHT_PEERS st)) st)
  end.

(** *** Enumerations *)

Definition all_communities (st : Store) : Result (list bytes) :=
  transaction st;;
  Ok (retain (λ k, (length k =? 32)%nat) (t_iter (META st)).*1).

Definition all_channel_ids (st : Store) : Result (list (bytes * Ulid)) :=
  transaction st;;
  let prefixes := dedup_by_key id
    ((λ k, (take 32 k, take 16 (drop 32 k)))
       <$> retain (λ k, negb (length k <? 48)%nat) (t_iter (LOG st)).*1) in
  Ok ((λ '(cpk, chan), (cpk, of_be chan)) <$> prefixes).

(** *** Retention *)

Definition add_len (total : Z) (kv : bytes * bytes) : Z := wrap64 (total + Z.of_nat (length kv.2)).

(** The second pass: remove the oldest keys until the total is within the limit. *)
Fixpoint evict_oldest (max_bytes : Z) (keys_asc : list bytes) (total : Z) (table : T) : T :=
  match keys_asc with
  | [] => table
  | key :: keys_asc =>
      if total <=? max_bytes then table
      else
        match t_get key table with
        | Some old =>
            evict_oldest max_bytes keys_asc (sat_sub total (Z.of_nat (length old))) (t_remove key table)
        | None => evict_oldest max_bytes keys_asc total table
        end
  end.

Definition enforce_retention (community_pk : bytes) (channel_id : Ulid) (max_bytes : Z)
    (st : Store) : Result Store :=
  let chan := ulid_be channel_id in
  let lower := log_key community_pk chan 0 in
  let upper := log_key community_pk chan U64_MAX in
  transaction st;;
  let rows := t_range lower upper (LOG st) in
  let total := foldl add_len 0 rows in
  if total <=? max_bytes then Ok st
  else Ok (with_log (evict_oldest max_bytes rows.*1 total (LOG st)) st).
End store.

(** ** Invariant *)

Section store_props.
Context {T : Type} `{CryptoLaws} `{TableLaws T} `{NodeCodecsLaws}.

Notation Store := (NodeStore T).
Implicit Types st : Store.

Lemma log_key_seq_key pk chan seq : log_key pk chan seq = seq_key (pk ++ chan) seq.
Proof. unfold log_key, seq_key. by rewrite <- app_assoc. Qed.
Lemma mail_key_seq_key pk seq : mail_key pk seq = seq_key pk seq.
Proof. done. Qed.
Lemma wf_ulid_be ch : wf_array 16 (ulid_be ch).
Proof. apply wf_be_bytes. Qed.
Lemma ulid_be_inj a b : is_u128 a → is_u128 b → ulid_be a = ulid_be b → a = b.
Proof. intros Ha Hb. exact (be_bytes_inj 16 a b Ha Hb). Qed.
Lemma wf_log_prefix pk ch : wf_key pk → wf_array 48 (pk ++ ulid_be ch).
Proof. intros Hpk. exact (wf_array_app 32 16 _ _ Hpk (wf_ulid_be ch)). Qed.
Lemma log_prefix_inj pk ch pk' ch' :
  wf_key pk → wf_key pk' → is_u128 ch → is_u128 ch' →
  pk ++ ulid_be ch = pk' ++ ulid_be ch' → (pk, ch) = (pk', ch').
Proof.
  intros [Hl _] [Hl' _] Hc Hc' Heq. apply app_inj_1 in Heq as [-> Heq]; [|by rewrite Hl].
  by apply ulid_be_inj in Heq as ->.
Qed.
Hint Resolve wf_ulid_be wf_log_prefix : bytes_db.

(** What was sealed opens again. *)
Lemma open_seal_value {A} `{PostcardLaws A} st nonce (a : A) v :
  length nonce = 24%nat → seal_value st nonce a = Ok v → open_value st v = Ok a.
Proof using Type*.
  intros Hn. unfold seal_value, open_value, store_encrypt, store_decrypt.
  rewrite result_bind_ok. intros (plain & Hp & He). apply ok_or_ok in Hp.
  apply postcard_roundtrip in Hp.
  destruct (st_key st) as [k|]; cbn in *.
  - destruct (encrypt_bytes nonce plain k) as [blob|] eqn:Henc; cbn in He; [|done].
    injection He as <-. apply encrypt_bytes_roundtrip in Henc as [Henc _]; [|done].
    rewrite Henc. cbn. by rewrite Hp.
  - injection He as <-. by rewrite Hp.
Qed.

Definition log_ok st : Prop := seqlog_ok 48 (open_value st) le_seq (LOG st).
Definition mail_ok st : Prop := seqlog_ok 32 (open_value st) le_seq (MAIL st).
Definition meta_ok st : Prop := ∀ k v, t_get k (META st) = Some v →
  wf_key k ∧ ∃ meta, open_value (A := CommunityMeta) st v = Ok meta.
Definition peers_ok st : Prop := ∀ k v, t_get k (DHT_PEERS st) = Some v →
  ∃ cpk r, wf_key cpk ∧ wf_key (cp_node_pk r) ∧ k = dht_peer_key cpk (cp_node_pk r) ∧
           open_value st v = Ok r.

Record store_inv st : Prop := {
  inv_log : log_ok st;
  inv_mail : mail_ok st;
  inv_meta : meta_ok st;
  inv_peers : peers_ok st }.

Lemma store_inv_open empty key st :
  (∀ k, t_get k empty = None) → store_open empty key true = Ok st → store_inv st.
Proof.
  intros He [= <-]. split; intros k v; cbn; by rewrite He.
Qed.

(** *** The two logs *)

Lemma get_messages_holds pk ch st es :
  store_inv st → wf_key pk → get_messages pk ch 0 st = Ok es →
  st_online st = true ∧ holds_log (open_value st) le_seq (pk ++ ulid_be ch) (LOG st) es.
Proof using Type*.
  intros Hinv Hpk. unfold get_messages, transaction. destruct (st_online st); [|done]. cbn.
  rewrite !log_key_seq_key. intros Hg. split; [done|].
  destruct (holds_log_exists 48 (open_value st) le_seq (pk ++ ulid_be ch) (LOG st)) as (fs & Hfs);
    [apply Hinv|by apply wf_log_prefix|].
  pose proof (holds_log_read _ _ _ _ _ Hfs) as Hr. unfold seq_scan in Hr. congruence.
Qed.
Lemma get_messages_since pk ch since st es :
  store_inv st → wf_key pk → is_u64 since → st_online st = true →
  holds_log (open_value st) le_seq (pk ++ ulid_be ch) (LOG st) es →
  get_messages pk ch since st = Ok (retain (λ e, since <=? le_seq e) es).
Proof using Type*.
  intros Hinv Hpk Hs Hon He. unfold get_messages, transaction. rewrite Hon. cbn.
  rewrite !log_key_seq_key. apply (seq_scan_since 48); auto with bytes_db. apply Hinv.
Qed.

Lemma last_seq_holds pk ch st es :
  wf_key pk → st_online st = true →
  holds_log (open_value st) le_seq (pk ++ ulid_be ch) (LOG st) es →
  last_seq pk ch st = Ok (le_seq <$> last es).
Proof using Type*.
  intros Hpk Hon He. unfold last_seq, transaction. rewrite Hon. cbn [mbind result_bind].
  rewrite !log_key_seq_key.
  pose proof (holds_log_last 48 _ _ _ _ _ (wf_log_prefix pk ch Hpk) He) as Hl.
  unfold seq_scan in Hl. by rewrite Hl.
Qed.

Lemma get_dms_holds pk st es :
  store_inv st → wf_key pk → get_dms pk 0 st = Ok es →
  st_online st = true ∧ holds_log (open_value st) le_seq pk (MAIL st) es.
Proof using Type*.
  intros Hinv Hpk. unfold get_dms, transaction. destruct (st_online st); [|done]. cbn.
  rewrite (mail_key_seq_key _ 0), (mail_key_seq_key _ U64_MAX). intros Hg. split; [done|].
  destruct (holds_log_exists 32 (open_value st) le_seq pk (MAIL st)) as (fs & Hfs);
    [apply Hinv|done|].
  pose proof (holds_log_read _ _ _ _ _ Hfs) as Hr. unfold seq_scan in Hr. congruence.
Qed.
Lemma get_dms_since pk since st es :
  store_inv st → wf_key pk → is_u64 since → st_online st = true →
  holds_log (open_value st) le_seq pk (MAIL st) es →
  get_dms pk since st = Ok (retain (λ e, since <=? le_seq e) es).
Proof using Type*.
  intros Hinv Hpk Hs Hon He. unfold get_dms, transaction. rewrite Hon. cbn.
  rewrite (mail_key_seq_key _ since), (mail_key_seq_key _ U64_MAX). apply (seq_scan_since 32); auto with bytes_db. apply Hinv.
Qed.

(** [entries] read in full, then from any point: the suffix with larger numbers. *)
Definition log_view (read : Z → result store_error (list LogEntry)) (es : list LogEntry) : Prop :=
  read 0 = Ok es ∧ StronglySorted (λ a b, le_seq a < le_seq b) es ∧
  ∀ since, is_u64 since → read since = Ok (retain (λ e, since <=? le_seq e) es).

Lemma channel_view pk ch st es :
  store_inv st → wf_key pk → st_online st = true →
  holds_log (open_value st) le_seq (pk ++ ulid_be ch) (LOG st) es →
  log_view (λ since, get_messages pk ch since st) es.
Proof using Type*.
  intros Hinv Hpk Hon He. split_and!.
  - rewrite (get_messages_since _ _ _ _ es); auto with bytes_db. f_equal. apply retain_all.
    intros e Hin. pose proof (holds_log_u64 _ _ _ _ _ He) as Hu.
    rewrite Forall_forall in Hu. destruct (Hu _ Hin). lia.
  - by eapply holds_log_sorted.
  - intros. by apply get_messages_since.
Qed.
Lemma mailbox_view pk st es :
  store_inv st → wf_key pk → st_online st = true →
  holds_log (open_value st) le_seq pk (MAIL st) es →
  log_view (λ since, get_dms pk since st) es.
Proof using Type*.
  intros Hinv Hpk Hon He. split_and!.
  - rewrite (get_dms_since _ _ _ es); auto with bytes_db. f_equal. apply retain_all.
    intros e Hin. pose proof (holds_log_u64 _ _ _ _ _ He) as Hu.
    rewrite Forall_forall in Hu. destruct (Hu _ Hin). lia.
  - by eapply holds_log_sorted.
  - intros. by apply get_dms_since.
Qed.

(** A write to one table keeps the other tables' part of the invariant. *)
Lemma store_inv_with_log t st :
  store_inv st → seqlog_ok 48 (open_value st) le_seq t → store_inv (with_log t st).
Proof. intros [Hl Hm He Hp] Ht. split; [exact Ht|exact Hm|exact He|exact Hp]. Qed.
Lemma store_inv_with_mail t st :
  store_inv st → seqlog_ok 32 (open_value st) le_seq t → store_inv (with_mail t st).
Proof. intros [Hl Hm He Hp] Ht. split; [exact Hl|exact Ht|exact He|exact Hp]. Qed.

Lemma get_messages_other pk ch pk' ch' since s v st :
  wf_key pk → wf_key pk' → is_u128 ch → is_u128 ch' → (pk', ch') ≠ (pk, ch) →
  is_u64 since → is_u64 s →
  get_messages pk' ch' since (with_log (t_insert (log_key pk (ulid_be ch) s) v (LOG st)) st) =
  get_messages pk' ch' since st.
Proof using Type*.
  intros Hpk Hpk' Hch Hch' Hne Hs Hu. unfold get_messages, transaction; cbn.
  destruct (st_online st); [|done]. cbn. rewrite !log_key_seq_key.
  assert (pk ++ ulid_be ch ≠ pk' ++ ulid_be ch') as Hp.
  { intros Heq. apply log_prefix_inj in Heq; [|done..]. congruence. }
  pose proof (seq_scan_other 48 (pk ++ ulid_be ch) (pk' ++ ulid_be ch') s since v (LOG st)) as Ho.
  unfold seq_scan in Ho. rewrite Ho; [done|by apply (wf_log_prefix pk ch)|by apply (wf_log_prefix pk' ch')|done|done|done].
Qed.
Lemma get_dms_other pk pk' since s v st :
  wf_key pk → wf_key pk' → pk' ≠ pk → is_u64 since → is_u64 s →
  get_dms pk' since (with_mail (t_insert (mail_key pk s) v (MAIL st)) st) = get_dms pk' since st.
Proof using Type*.
  intros Hpk Hpk' Hne Hs Hu. unfold get_dms, transaction; cbn.
  destruct (st_online st); [|done]. cbn.
  pose proof (seq_scan_other 32 pk pk' s since v (MAIL st)) as Ho. unfold seq_scan in Ho.
  unfold mail_key, seq_key in *. rewrite Ho; [done|apply Hpk|apply Hpk'|congruence|done|done].
Qed.

(** What a successful append does to the table. *)
Lemma append_message_step rnd pk ch nonce ciphertext mid author ts st st' seq :
  store_inv st → wf_key pk → length rnd = 24%nat →
  append_message rnd pk ch nonce ciphertext mid author ts st = Ok (seq, st') →
  st_online st = true ∧ store_inv st' ∧ is_u64 seq ∧
  seq = next_seq 48 (seq_scan (pk ++ ulid_be ch) 0 (LOG st)) ∧
  ∃ v, open_value st v = Ok (mkLogEntry seq nonce ciphertext mid author ts false) ∧
       st' = with_log (t_insert (log_key pk (ulid_be ch) seq) v (LOG st)) st.
Proof using Type*.
  intros Hinv Hpk Hrnd Happ. unfold append_message, transaction in Happ.
  destruct (st_online st) eqn:Hon; [|done]. cbn in Happ.
  rewrite (log_key_seq_key _ _ 0), (log_key_seq_key _ _ U64_MAX) in Happ.
  fold (seq_scan (pk ++ ulid_be ch) 0 (LOG st)) in Happ.
  set (n := next_seq 48 _) in *.
  apply result_bind_ok in Happ as (v & Hv & [= <- <-]). apply open_seal_value in Hv; [|done].
  destruct (holds_log_exists 48 (open_value st) le_seq (pk ++ ulid_be ch) (LOG st)) as (es & He);
    [apply Hinv|by apply wf_log_prefix|].
  assert (is_u64 n) as Hn.
  { unfold n. rewrite (next_seq_spec 48 _ _ _ _ _ (wf_log_prefix pk ch Hpk) He). apply succ_seq_u64. }
  split_and!; [done| |done|done|by exists v].
  apply store_inv_with_log; [done|]. rewrite log_key_seq_key.
  eapply (seqlog_ok_insert 48); eauto with bytes_db. apply Hinv.
Qed.

(** The log after a successful append. *)
Lemma append_message_holds rnd pk ch nonce ciphertext mid author ts st st' seq es :
  store_inv st → wf_key pk → length rnd = 24%nat →
  get_messages pk ch 0 st = Ok es → log_room le_seq es →
  append_message rnd pk ch nonce ciphertext mid author ts st = Ok (seq, st') →
  seq = succ_seq le_seq es ∧ store_inv st' ∧ st_online st' = true ∧
  holds_log (open_value st') le_seq (pk ++ ulid_be ch) (LOG st')
    (es ++ [mkLogEntry seq nonce ciphertext mid author ts false]).
Proof using Type*.
  intros Hinv Hpk Hrnd Hget Hroom Happ.
  destruct (get_messages_holds _ _ _ _ Hinv Hpk Hget) as [Hon He].
  destruct (append_message_step _ _ _ _ _ _ _ _ _ _ _ Hinv Hpk Hrnd Happ)
    as (_ & Hinv' & Hu & Hseq & v & Hv & ->).
  rewrite (next_seq_spec 48 _ _ _ _ _ (wf_log_prefix pk ch Hpk) He) in Hseq. subst seq.
  set (e := mkLogEntry _ _ _ _ _ _ _) in *.
  split_and!; [done|done|done|]. cbn. rewrite log_key_seq_key.
  apply (holds_log_snoc 48 (open_value st) le_seq (pk ++ ulid_be ch) (LOG st) es e v);
    auto with bytes_db. apply Hinv.
Qed.

(** C31: appending to a channel log is appending to a list: on a store that satisfies the
    invariant, a successful [append_message] returns the number after the last entry's
    (0 for an empty channel), stores exactly one more entry, carrying that number and
    the caller's fields, at the end of the channel, and touches no other channel and no
    other table; the invariant holds afterwards. *)
Theorem append_message_correct rnd pk ch nonce ciphertext mid author ts st st' seq es :
  store_inv st → wf_key pk → is_u128 ch → length rnd = 24%nat →
  get_messages pk ch 0 st = Ok es → log_room le_seq es →
  append_message rnd pk ch nonce ciphertext mid author ts st = Ok (seq, st') →
  store_inv st' ∧ seq = succ_seq le_seq es ∧
  log_view (λ since, get_messages pk ch since st')
    (es ++ [mkLogEntry seq nonce ciphertext mid author ts false]) ∧
  last_seq pk ch st' = Ok (Some seq) ∧
  (∀ pk' ch' since, wf_key pk' → is_u128 ch' → is_u64 since → (pk', ch') ≠ (pk, ch) →
     get_messages pk' ch' since st' = get_messages pk' ch' since st) ∧
  (MAIL st', META st', DHT_PEERS st', st_key st') = (MAIL st, META st, DHT_PEERS st, st_key st).
Proof using Type*.
  intros Hinv Hpk Hch Hrnd Hget Hroom Happ.
  destruct (append_message_holds _ _ _ _ _ _ _ _ _ _ _ _ Hinv Hpk Hrnd Hget Hroom Happ)
    as (Hseq & Hinv' & Hon' & He').
  split_and!; [done|done|by apply channel_view| |..].
  - by rewrite (last_seq_holds _ _ _ _ Hpk Hon' He'), last_snoc.
  - destruct (append_message_step _ _ _ _ _ _ _ _ _ _ _ Hinv Hpk Hrnd Happ)
      as (_ & _ & Hu & _ & v & _ & ->). by intros; apply get_messages_other.
  - by destruct (append_message_step _ _ _ _ _ _ _ _ _ _ _ Hinv Hpk Hrnd Happ)
      as (_ & _ & _ & _ & v & _ & ->).
Qed.

Lemma append_dm_step rnd ts mid recipient sender env st st' seq :
  store_inv st → wf_key recipient → length rnd = 24%nat →
  append_dm rnd ts mid recipient sender env st = Ok (seq, st') →
  st_online st = true ∧ store_inv st' ∧ is_u64 seq ∧
  seq = next_seq 32 (seq_scan recipient 0 (MAIL st)) ∧
  ∃ c v, from_bytes (A := DmEnvelope) c = Some env ∧
    open_value st v = Ok (mkLogEntry seq (replicate 24 0) c mid (hex (sha256 sender)) ts false) ∧
    st' = with_mail (t_insert (mail_key recipient seq) v (MAIL st)) st.
Proof using Type*.
  intros Hinv Hpk Hrnd Happ. unfold append_dm in Happ.
  apply result_bind_ok in Happ as (c & Hc & Happ). apply ok_or_ok, postcard_roundtrip in Hc.
  unfold transaction in Happ. destruct (st_online st) eqn:Hon; [|done]. cbn in Happ.
  rewrite (mail_key_seq_key _ 0), (mail_key_seq_key _ U64_MAX) in Happ.
  fold (seq_scan recipient 0 (MAIL st)) in Happ. set (n := next_seq 32 _) in *.
  apply result_bind_ok in Happ as (v & Hv & [= <- <-]). apply open_seal_value in Hv; [|done].
  destruct (holds_log_exists 32 (open_value st) le_seq recipient (MAIL st)) as (es & He);
    [apply Hinv|done|].
  assert (is_u64 n) as Hn.
  { unfold n. rewrite (next_seq_spec 32 _ _ _ _ _ Hpk He). apply succ_seq_u64. }
  split_and!; [done| |done|done|by exists c, v].
  apply store_inv_with_mail; [done|]. eapply (seqlog_ok_insert 32); eauto. apply Hinv.
Qed.

(** A mailbox is an append-only list: a successful [append_dm] returns the next
    number of the recipient's mailbox and adds one entry at its end, whose ciphertext
    deserialises to the envelope and whose author is the hexadecimal SHA-256 of the
    sender's key; other mailboxes and the other tables are unchanged. *)
Theorem append_dm_correct rnd ts mid recipient sender env st st' seq es :
  store_inv st → wf_key recipient → length rnd = 24%nat →
  get_dms recipient 0 st = Ok es → log_room le_seq es →
  append_dm rnd ts mid recipient sender env st = Ok (seq, st') →
  store_inv st' ∧ seq = succ_seq le_seq es ∧
  (∃ c, from_bytes (A := DmEnvelope) c = Some env ∧
     log_view (λ since, get_dms recipient since st')
       (es ++ [mkLogEntry seq (replicate 24 0) c mid (hex (sha256 sender)) ts false])) ∧
  (∀ pk' since, wf_key pk' → is_u64 since → pk' ≠ recipient →
     get_dms pk' since st' = get_dms pk' since st) ∧
  (LOG st', META st', DHT_PEERS st', st_key st') = (LOG st, META st, DHT_PEERS st, st_key st).
Proof using Type*.
  intros Hinv Hpk Hrnd Hget Hroom Happ.
  destruct (get_dms_holds _ _ _ Hinv Hpk Hget) as [Hon He].
  destruct (append_dm_step _ _ _ _ _ _ _ _ _ Hinv Hpk Hrnd Happ)
    as (_ & Hinv' & Hu & Hseq & c & v & Hc & Hv & ->).
  rewrite (next_seq_spec 32 _ _ _ _ _ Hpk He) in Hseq. subst seq.
  split_and!; [done|done| |by intros; apply get_dms_other|done].
  exists c. split; [done|]. apply mailbox_view; [done..|].
  by apply (holds_log_snoc 32 (open_value st) le_seq recipient (MAIL st) es
    (mkLogEntry (succ_seq le_seq es) (replicate 24 0) c mid (hex (sha256 sender)) ts false) v);
    [apply Hinv|..].
Qed.

(** *** Retention *)

Fixpoint rows_size (rows : list (bytes * bytes)) : Z :=
  match rows with [] => 0 | kv :: rows => Z.of_nat (length kv.2) + rows_size rows end.
Definition channel_rows pk ch st : list (bytes * bytes) :=
  t_range (log_key pk (ulid_be ch) 0) (log_key pk (ulid_be ch) U64_MAX) (LOG st).

Lemma rows_size_nonneg rows : 0 ≤ rows_size rows.
Proof. induction rows; cbn; lia. Qed.
Lemma total_rows_size rows acc :
  0 ≤ acc → acc + rows_size rows ≤ U64_MAX → foldl add_len acc rows = acc + rows_size rows.
Proof.
  revert acc; induction rows as [|kv rows IH]; intros acc Ha Hmax; cbn in *; [lia|].
  pose proof (rows_size_nonneg rows).
  unfold add_len at 2. rewrite wrap64_small by (unfold is_u64; lia). rewrite IH; lia.
Qed.

(** The second pass removes the shortest prefix that brings the total within the limit. *)
Lemma evict_oldest_spec max rows (t : T) :
  0 ≤ max → NoDup rows.*1 → (∀ k v, (k, v) ∈ rows → t_get k t = Some v) →
  ∃ m, evict_oldest max rows.*1 (rows_size rows) t = t_removes (take m rows.*1) t ∧
       rows_size (drop m rows) ≤ max ∧ (∀ j, (j < m)%nat → max < rows_size (drop j rows)).
Proof using Type*.
  intros Hmax. revert t; induction rows as [|[k v] rows IH]; intros t Hnd Hget.
  { exists 0%nat. split_and!; [done|done|lia]. }
  csimpl in Hnd. apply NoDup_cons in Hnd as [Hk Hnd]. cbn [evict_oldest fmap list_fmap fst].
  assert (rows_size ((k, v) :: rows) = Z.of_nat (length v) + rows_size rows) as Hc by done.
  destruct (rows_size ((k, v) :: rows) <=? max) eqn:Hle.
  { exists 0%nat. split_and!; [done|rewrite drop_0; lia|lia]. }
  rewrite (Hget k v) by left. pose proof (rows_size_nonneg rows).
  replace (sat_sub _ _) with (rows_size rows) by (unfold sat_sub; lia).
  destruct (IH (t_remove k t)) as (m & Hev & Hsz & Hmin); [done| |].
  { intros k' v' Hin. rewrite get_remove, decide_False; [apply Hget; by right|].
    intros <-. apply Hk. by apply (list_elem_of_fmap_2 fst) in Hin. }
  exists (S m). split_and!; [done|done|]. intros [|j] Hj; [rewrite drop_0; lia|].
  apply Hmin. lia.
Qed.

Lemma channel_rows_scan pk ch st : channel_rows pk ch st = seq_scan (pk ++ ulid_be ch) 0 (LOG st).
Proof. unfold channel_rows, seq_scan. by rewrite !log_key_seq_key. Qed.

Lemma enforce_retention_removes pk ch max st st' :
  0 ≤ max → rows_size (channel_rows pk ch st) ≤ U64_MAX →
  enforce_retention pk ch max st = Ok st' →
  ∃ m, st' = with_log (t_removes (take m (channel_rows pk ch st).*1) (LOG st)) st ∧
       rows_size (drop m (channel_rows pk ch st)) ≤ max ∧
       (∀ j, (j < m)%nat → max < rows_size (drop j (channel_rows pk ch st))).
Proof using Type*.
  intros Hmax Hsize. unfold enforce_retention, transaction.
  fold (channel_rows pk ch st). set (rows := channel_rows pk ch st) in *.
  destruct (st_online st) eqn:Hon; [|done]. cbn [mbind result_bind].
  rewrite (total_rows_size rows 0), Z.add_0_l by (done || lia).
  destruct (rows_size rows <=? max) eqn:Hle; intros [= <-].
  - exists 0%nat. split_and!; [by destruct st|rewrite drop_0; lia|lia].
  - destruct (evict_oldest_spec max rows (LOG st)) as (m & Hev & ?); [done|..].
    + unfold rows. rewrite channel_rows_scan. apply seq_scan_NoDup.
    + intros k v Hin. unfold rows, channel_rows in Hin. by apply elem_of_range in Hin as [? _].
    + exists m. by rewrite Hev.
Qed.

(** Retention keeps the newest entries: a successful [enforce_retention] removes the
    shortest prefix of the channel's entries, oldest first, that brings the stored size
    within [max_bytes]; what remains is the rest of the log in order, the limit holds,
    removing fewer entries would not have met it, every other channel and table is
    untouched and the invariant is kept. *)
Theorem enforce_retention_correct pk ch max st st' es :
  store_inv st → wf_key pk → is_u128 ch → 0 ≤ max →
  rows_size (channel_rows pk ch st) ≤ U64_MAX →
  get_messages pk ch 0 st = Ok es → enforce_retention pk ch max st = Ok st' →
  store_inv st' ∧
  (∃ m, log_view (λ since, get_messages pk ch since st') (drop m es) ∧
        rows_size (channel_rows pk ch st') ≤ max ∧
        ∀ j, (j < m)%nat → max < rows_size (drop j (channel_rows pk ch st))) ∧
  (∀ pk' ch' since, wf_key pk' → is_u128 ch' → is_u64 since → (pk', ch') ≠ (pk, ch) →
     get_messages pk' ch' since st' = get_messages pk' ch' since st) ∧
  (MAIL st', META st', DHT_PEERS st', st_key st') = (MAIL st, META st, DHT_PEERS st, st_key st).
Proof using Type*.
  intros Hinv Hpk Hch Hmax Hsize Hget Hret.
  destruct (get_messages_holds _ _ _ _ Hinv Hpk Hget) as [Hon He].
  destruct (enforce_retention_removes _ _ _ _ _ Hmax Hsize Hret) as (m & -> & Hsz & Hmin).
  rewrite (channel_rows_scan pk ch st) in *. set (t' := t_removes _ _) in *.
  assert (store_inv (with_log t' st)) as Hinv'.
  { apply store_inv_with_log; [done|]. apply seqlog_ok_remove, Hinv. }
  split_and!; [done| | |done].
  - exists m. split_and!; [apply channel_view; [done..|by apply holds_log_drop]| |done].
    rewrite channel_rows_scan; cbn. unfold t', t_removes. by rewrite seq_scan_removes_take.
  - intros pk' ch' since Hpk' Hch' Hs Hne. unfold get_messages, transaction; cbn.
    rewrite Hon; cbn. rewrite !log_key_seq_key.
    assert (pk ++ ulid_be ch ≠ pk' ++ ulid_be ch') as Hp.
    { intros Heq. apply log_prefix_inj in Heq; [|done..]. congruence. }
    pose proof (seq_scan_removes_other 48 (open_value st) le_seq (pk ++ ulid_be ch)
                  (pk' ++ ulid_be ch') since m (LOG st)) as Ho.
    unfold seq_scan at 1 3 in Ho. unfold t', t_removes. rewrite Ho; auto with bytes_db. apply Hinv.
Qed.

(** Numbers are not monotonic across retention: when the newest entry alone exceeds the
    limit, retention empties the channel and the next message is numbered 0 again,
    whatever numbers the channel had used. *)
Lemma retention_restarts_numbering pk ch max st st' es kv rnd nonce c mid author ts seq st'' :
  store_inv st → wf_key pk → is_u128 ch → 0 ≤ max →
  rows_size (channel_rows pk ch st) ≤ U64_MAX →
  get_messages pk ch 0 st = Ok es → last (channel_rows pk ch st) = Some kv →
  max < Z.of_nat (length kv.2) →
  enforce_retention pk ch max st = Ok st' →
  append_message rnd pk ch nonce c mid author ts st' = Ok (seq, st'') → seq = 0.
Proof using Type*.
  intros Hinv Hpk Hch Hmax Hsize Hget Hlast Hbig Hret Happ.
  destruct (get_messages_holds _ _ _ _ Hinv Hpk Hget) as [Hon He].
  destruct (enforce_retention_removes _ _ _ _ _ Hmax Hsize Hret) as (m & -> & Hsz & Hmin).
  rewrite channel_rows_scan in *. apply last_Some in Hlast as (rows & Hrows).
  unfold append_message, transaction in Happ; cbn in Happ. rewrite Hon in Happ; cbn in Happ.
  rewrite (log_key_seq_key _ _ 0), (log_key_seq_key _ _ U64_MAX) in Happ.
  fold (seq_scan (pk ++ ulid_be ch) 0 (t_removes
    (take m (seq_scan (pk ++ ulid_be ch) 0 (LOG st)).*1) (LOG st))) in Happ.
  unfold t_removes in Happ. rewrite seq_scan_removes_take in Happ.
  assert (drop m (seq_scan (pk ++ ulid_be ch) 0 (LOG st)) = []) as Hnil.
  { rewrite Hrows in *. destruct (decide (m ≤ length rows)%nat) as [Hle|].
    - rewrite drop_app_le in Hsz by done. clear -Hsz Hbig. exfalso.
      assert (∀ l, rows_size (l ++ [kv]) = rows_size l + Z.of_nat (length kv.2)) as Happ.
      { induction l; cbn in *; lia. }
      rewrite Happ in Hsz. pose proof (rows_size_nonneg (drop m rows)). lia.
    - apply drop_ge. rewrite length_app; cbn. lia. }
  rewrite Hnil in Happ. cbn in Happ. apply result_bind_ok in Happ as (v & _ & [= <- <-]). done.
Qed.

(** *** Community metadata *)

Lemma set_community_meta_spec rnd pk meta st st' :
  store_inv st → wf_key pk → length rnd = 24%nat →
  set_community_meta rnd pk meta st = Ok st' →
  store_inv st' ∧
  (∀ pk', get_community_meta pk' st' =
          if decide (pk = pk') then Ok (Some meta) else get_community_meta pk' st) ∧
  (LOG st', MAIL st', DHT_PEERS st', st_key st', st_online st') =
  (LOG st, MAIL st, DHT_PEERS st, st_key st, true).
Proof using Type*.
  intros Hinv Hpk Hrnd Hset. unfold set_community_meta, transaction in Hset.
  apply result_bind_ok in Hset as (v & Hv & Hset). destruct (st_online st) eqn:Hon; [|done].
  cbn in Hset. injection Hset as <-. apply open_seal_value in Hv; [|done].
  split_and!; [| |by cbn; rewrite Hon].
  - destruct Hinv as [Hl Hm He Hp]. split; [exact Hl|exact Hm| |exact Hp].
    intros k w. cbn. rewrite get_insert. case_decide as Hk; [|apply He].
    intros [= <-]. subst k. split; [done|]. by exists meta.
  - intros pk'. unfold get_community_meta, transaction; cbn. rewrite Hon; cbn.
    rewrite get_insert. case_decide; [|done].
    change (open_value (with_meta _ st) v) with (open_value (A := CommunityMeta) st v). by rewrite Hv.
Qed.

Lemma get_community_meta_some pk st :
  store_inv st → st_online st = true →
  (∃ meta, get_community_meta pk st = Ok (Some meta)) ↔ ∃ v, t_get pk (META st) = Some v.
Proof using Type*.
  intros Hinv Hon. unfold get_community_meta, transaction. rewrite Hon; cbn. split.
  - intros (meta & Hm). destruct (t_get pk (META st)); [by eexists|done].
  - intros (v & Hv). rewrite Hv. destruct (inv_meta _ Hinv _ _ Hv) as (_ & meta & Hm).
    exists meta. by rewrite Hm.
Qed.

(** [all_communities] lists exactly the communities that have metadata, once each. *)
Lemma all_communities_spec st pks :
  store_inv st → all_communities st = Ok pks →
  NoDup pks ∧ ∀ pk, pk ∈ pks ↔ ∃ meta, get_community_meta pk st = Ok (Some meta).
Proof using Type*.
  intros Hinv. unfold all_communities, transaction. destruct (st_online st) eqn:Hon; [|done].
  cbn. intros [= <-]. split.
  - eapply sublist_NoDup; [apply iter_NoDup|apply retain_sublist].
  - intros pk. rewrite elem_of_retain, get_community_meta_some, elem_of_iter_keys by done.
    split; [naive_solver|]. intros (v & Hv). split; [|eauto].
    destruct (inv_meta _ Hinv _ _ Hv) as [[-> _] _]. done.
Qed.

(** The rows of a community: its 56-byte keys are those between [pk ++ 00..] and
    [pk ++ ff..]. *)
Lemma community_range pk k v st :
  store_inv st → wf_key pk →
  (k, v) ∈ t_range (pk ++ replicate 24 0) (pk ++ replicate 24 255) (LOG st) ↔
  t_get k (LOG st) = Some v ∧ take 32 k = pk.
Proof using Type*.
  intros Hinv Hpk. rewrite elem_of_range. split.
  - intros (Hget & Hlo & Hhi). split; [done|].
    destruct (lex_between_prefix _ _ _ _ Hlo Hhi) as (k' & -> & _).
    apply take_app_length'. by destruct Hpk.
  - intros (Hget & Htake). split; [done|].
    destruct (inv_log _ Hinv _ _ Hget) as (p & s & e & [Hp Hpb] & Hs & -> & _).
    assert (length (drop 32 (seq_key p s)) = 24%nat) as Hlen.
    { rewrite length_drop, seq_key_length, Hp. done. }
    assert (Forall is_byte (drop 32 (seq_key p s))) as Hb.
    { apply Forall_drop, Forall_app. split; [done|apply wf_be_bytes]. }
    rewrite <- (take_drop 32 (seq_key p s)), Htake, !lex_le_app_prefix.
    split; [by apply lex_le_zeros|by apply lex_le_ones].
Qed.

(** What [remove_community] does to the rows of the store. *)
Lemma remove_community_spec pk st st' :
  store_inv st → wf_key pk → remove_community pk st = Ok st' →
  store_inv st' ∧ get_community_meta pk st' = Ok None ∧
  (∀ ch, is_u128 ch → get_messages pk ch 0 st' = Ok []) ∧
  (∀ pk', pk' ≠ pk → get_community_meta pk' st' = get_community_meta pk' st) ∧
  (∀ pk' ch since, wf_key pk' → is_u64 since → pk' ≠ pk →
     get_messages pk' ch since st' = get_messages pk' ch since st) ∧
  (MAIL st', DHT_PEERS st', st_key st') = (MAIL st, DHT_PEERS st, st_key st).
Proof using Type*.
  intros Hinv Hpk Hrm. unfold remove_community, transaction in Hrm.
  destruct (st_online st) eqn:Hon; [|done]. cbn in Hrm. injection Hrm as <-.
  set (ks := (t_range (pk ++ _) _ _).*1).
  assert (∀ k v, t_get k (LOG st) = Some v → k ∈ ks ↔ take 32 k = pk) as Hks.
  { intros k v Hget. unfold ks. rewrite list_elem_of_fmap. split.
    - intros ([k' w] & -> & Hin). by apply community_range in Hin as [_ ?].
    - intros Ht. exists (k, v). split; [done|]. by apply community_range. }
  assert (∀ pk' ch since, wf_key pk' → is_u64 since →
    seq_scan (pk' ++ ulid_be ch) since (t_removes ks (LOG st)) =
    retain (λ _, negb (bool_decide (pk' = pk))) (seq_scan (pk' ++ ulid_be ch) since (LOG st))) as Hscan.
  { intros pk' ch since Hpk' Hs. unfold t_removes. rewrite seq_scan_removes.
    apply sorted_keys_unique; [apply sorted_retain, range_sorted..|].
    intros [k v]. rewrite !elem_of_retain. cbn. split; intros [Hn Hin].
    all: pose proof Hin as Hrow;
      apply (elem_of_seq_scan 48 (open_value st) le_seq) in Hrow as (e & _ & _ & Hk & _ & Hget);
      [|apply Hinv|by apply wf_log_prefix|done].
    all: apply negb_true_iff, bool_decide_eq_false in Hn; split; [|done].
    all: apply negb_true_iff, bool_decide_eq_false.
    all: rewrite (Hks _ _ Hget) in *; subst k; unfold seq_key in *.
    all: rewrite <- app_assoc, (take_app_length' pk') in * by (by destruct Hpk'); done. }
  split_and!.
  - destruct Hinv as [Hl Hm He Hp]. split; [|exact Hm| |exact Hp].
    + by apply seqlog_ok_remove.
    + intros k v. cbn. rewrite get_remove. case_decide; [done|apply He].
  - unfold get_community_meta, transaction; cbn. rewrite Hon; cbn.
    by rewrite get_remove, decide_True.
  - intros ch Hch. unfold get_messages, transaction; cbn. rewrite Hon; cbn.
    rewrite !log_key_seq_key. fold (seq_scan (pk ++ ulid_be ch) 0 (t_removes ks (LOG st))).
    rewrite Hscan by auto with bytes_db. rewrite bool_decide_true by done. cbn.
    by induction (seq_scan _ _ _).
  - intros pk' Hne. unfold get_community_meta, transaction; cbn. rewrite Hon; cbn.
    by rewrite get_remove, decide_False.
  - intros pk' ch since Hpk' Hs Hne. unfold get_messages, transaction; cbn. rewrite Hon; cbn.
    rewrite !log_key_seq_key. fold (seq_scan (pk' ++ ulid_be ch) since (t_removes ks (LOG st))).
    rewrite Hscan by done. rewrite bool_decide_false by done. by rewrite retain_all.
  - done.
Qed.

(** [remove_community] removes one community completely and nothing else: its
    metadata is gone, each of its channels reads as empty, and the metadata and channels
    of every other community, all mailboxes and all peer records are as before. *)
Theorem remove_community_correct pk st st' :
  store_inv st → wf_key pk → remove_community pk st = Ok st' →
  store_inv st' ∧ get_community_meta pk st' = Ok None ∧
  (∀ ch, is_u128 ch → get_messages pk ch 0 st' = Ok []) ∧
  (∀ pk', pk' ≠ pk → get_community_meta pk' st' = get_community_meta pk' st) ∧
  (∀ pk' ch since, wf_key pk' → is_u64 since → pk' ≠ pk →
     get_messages pk' ch since st' = get_messages pk' ch since st) ∧
  (MAIL st', DHT_PEERS st', st_key st') = (MAIL st, DHT_PEERS st, st_key st).
Proof using Type*. exact (remove_community_spec pk st st'). Qed.

(** *** Enumerations *)

Definition split_prefix (k : bytes) : bytes * bytes := (take 32 k, take 16 (drop 32 k)).
Definition prefix_le (p q : bytes * bytes) : Prop := lex_le (p.1 ++ p.2) (q.1 ++ q.2).

Lemma split_prefix_app k : (split_prefix k).1 ++ (split_prefix k).2 = take 48 k.
Proof. unfold split_prefix; cbn [fst snd]. apply (take_take_drop k 32 16). Qed.
Lemma split_prefix_key pk ch s :
  wf_key pk → split_prefix (log_key pk (ulid_be ch) s) = (pk, ulid_be ch).
Proof.
  intros [Hpk _]. unfold split_prefix, log_key.
  by rewrite take_app_length', drop_app_length', take_app_length'.
Qed.

Lemma ulid_be_of_be chan : wf_array 16 chan → ulid_be (of_be chan) = chan ∧ is_u128 (of_be chan).
Proof.
  intros [Hlen Hb]. unfold ulid_be, is_u128. split.
  - rewrite <- Hlen. by apply be_bytes_of_be.
  - pose proof (of_be_bound _ Hb) as Hbound. by rewrite Hlen in Hbound.
Qed.

(** Every row of the log belongs to a community and a channel. *)
Lemma log_row_channel st k v :
  store_inv st → t_get k (LOG st) = Some v →
  ∃ pk ch s, wf_key pk ∧ is_u128 ch ∧ is_u64 s ∧ k = log_key pk (ulid_be ch) s.
Proof using Type*.
  intros Hinv Hget. destruct (inv_log _ Hinv _ _ Hget) as (p & s & e & [Hp Hb] & Hs & -> & _).
  rewrite <- (take_drop 32 p) in Hb |- *. apply Forall_app in Hb as [Hb1 Hb2].
  destruct (ulid_be_of_be (drop 32 p)) as [Heq Hu]; [split; [by rewrite length_drop, Hp|done]|].
  exists (take 32 p), (of_be (drop 32 p)), s. split_and!; [|done..|].
  - split; [by rewrite length_take, Hp|done].
  - by rewrite Heq, log_key_seq_key.
Qed.

Lemma dedup_sorted_NoDup {A} `{EqDecision A} (P : A → Prop) (R : A → A → Prop) (l : list A) :
  (∀ x y, P x → P y → R x y → R y x → x = y) → Forall P l → StronglySorted R l →
  NoDup (dedup_by_key id l).
Proof.
  intros HR HP Hs. rewrite <- (list_fmap_id (dedup_by_key id l)).
  by apply (dedup_by_key_NoDup id P R HR); [rewrite list_fmap_id|].
Qed.
Lemma elem_of_dedup {A} `{EqDecision A} (x : A) l : x ∈ dedup_by_key id l ↔ x ∈ l.
Proof. pose proof (dedup_by_key_keys id x l) as Hk. by rewrite !list_fmap_id in Hk. Qed.

(** The prefixes the scan meets, before and after the repeats are skipped. *)
Definition log_prefixes st : list (bytes * bytes) :=
  split_prefix <$> retain (λ k, negb (length k <? 48)%nat) (t_iter (LOG st)).*1.
Lemma elem_of_log_prefixes st p :
  store_inv st →
  p ∈ log_prefixes st ↔
    ∃ pk ch s v, p = (pk, ulid_be ch) ∧ wf_key pk ∧ is_u128 ch ∧ is_u64 s ∧
                 t_get (log_key pk (ulid_be ch) s) (LOG st) = Some v.
Proof using Type*.
  intros Hinv. unfold log_prefixes. rewrite list_elem_of_fmap. setoid_rewrite elem_of_retain.
  setoid_rewrite elem_of_iter_keys. split.
  - intros (k & -> & _ & v & Hget).
    destruct (log_row_channel _ _ _ Hinv Hget) as (pk & ch & s & Hpk & Hch & Hs & ->).
    exists pk, ch, s, v. by rewrite split_prefix_key.
  - intros (pk & ch & s & v & -> & Hpk & Hch & Hs & Hget).
    exists (log_key pk (ulid_be ch) s). rewrite split_prefix_key by done.
    split_and!; [done| |eauto]. rewrite log_key_seq_key, seq_key_length.
    by rewrite (proj1 (wf_log_prefix pk ch Hpk)).
Qed.
Lemma log_prefixes_NoDup st :
  store_inv st →
  NoDup ((λ '(cpk, chan), (cpk, of_be chan)) <$> dedup_by_key id (log_prefixes st)).
Proof using Type*.
  intros Hinv. set (P := λ p : bytes * bytes, length p.1 = 32%nat ∧ wf_array 16 p.2).
  assert (∀ p, p ∈ log_prefixes st → P p) as HP.
  { intros p (pk & ch & s & v & -> & [? _] & _)%elem_of_log_prefixes; [|done].
    split; [done|apply wf_ulid_be]. }
  apply NoDup_fmap_2_strong.
  - intros [a b] [c d] [_ Ha]%elem_of_dedup%HP [_ Hb]%elem_of_dedup%HP Heq. cbn in *.
    injection Heq as -> Heq. apply ulid_be_of_be in Ha as [Ha _].
    apply ulid_be_of_be in Hb as [Hb _]. by rewrite <- Ha, <- Hb, Heq.
  - apply (dedup_sorted_NoDup P prefix_le).
    + intros [a b] [c d] [Ha _] [Hc _] Hle Hge. cbn in *.
      pose proof (lex_le_antisym _ _ Hle Hge) as Heq. cbn in Heq.
      apply app_inj_1 in Heq as [-> ->]; [done|by rewrite Ha].
    + by apply Forall_forall.
    + eapply sorted_fmap_retain, iter_sorted. intros a b [Hle _].
      unfold prefix_le. rewrite !split_prefix_app. by apply lex_le_take.
Qed.

(** [all_channel_ids] is exact: it lists a pair [(community, channel)] once for each
    channel whose log is non-empty, and no other pair. *)
Theorem all_channel_ids_correct st ids :
  store_inv st → all_channel_ids st = Ok ids →
  NoDup ids ∧ ∀ pk ch, wf_key pk → is_u128 ch →
    (pk, ch) ∈ ids ↔ ∃ e es, get_messages pk ch 0 st = Ok (e :: es).
Proof using Type*.
  intros Hinv. unfold all_channel_ids, transaction. destruct (st_online st) eqn:Hon; [|done].
  cbn. fold split_prefix. fold (log_prefixes st). intros [= <-].
  split; [by apply log_prefixes_NoDup|].
  intros pk ch Hpk Hch.
    destruct (holds_log_exists 48 (open_value st) le_seq (pk ++ ulid_be ch) (LOG st)) as (es & He);
      [apply Hinv|by apply wf_log_prefix|].
    destruct (channel_view _ _ _ _ Hinv Hpk Hon He) as [Hget _]. rewrite Hget.
    pose proof (holds_log_cons 48 _ _ _ _ _ (inv_log _ Hinv) (wf_log_prefix pk ch Hpk) He) as Hc.
    transitivity (es ≠ []); [|destruct es; naive_solver].
    rewrite Hc, list_elem_of_fmap. setoid_rewrite elem_of_dedup.
    setoid_rewrite (λ p, elem_of_log_prefixes st p Hinv).
    setoid_rewrite <- log_key_seq_key. split.
    + intros ([a b] & [= -> ->] & pk' & ch' & s & v & [= -> ->] & Hpk' & Hch' & Hs & Hv).
      exists s, v. destruct (ulid_be_of_be (ulid_be ch') (wf_ulid_be ch')) as [-> _]. done.
    + intros (s & v & Hs & Hv). exists (pk, ulid_be ch). split.
      * f_equal. unfold ulid_be. rewrite of_be_be_bytes_small; done.
      * by exists pk, ch, s, v.
Qed.

(** The same for mailboxes. *)
Lemma all_mailbox_recipients_spec st pks :
  store_inv st → all_mailbox_recipients st = Ok pks →
  NoDup pks ∧ ∀ pk, wf_key pk → pk ∈ pks ↔ ∃ e es, get_dms pk 0 st = Ok (e :: es).
Proof using Type*.
  intros Hinv. unfold all_mailbox_recipients, transaction.
  destruct (st_online st) eqn:Hon; [|done]. cbn. set (rows := retain _ _). intros [= <-].
  assert (∀ k v, t_get k (MAIL st) = Some v →
    ∃ pk s, wf_key pk ∧ is_u64 s ∧ k = seq_key pk s ∧ take 32 k = pk) as Hkey.
  { intros k v Hget. destruct (inv_mail _ Hinv _ _ Hget) as (p & s & e & Hp & Hs & -> & _).
    exists p, s. split_and!; [done..|]. apply take_app_length'. by destruct Hp. }
  assert (∀ pk, pk ∈ take 32 <$> rows ↔
    wf_key pk ∧ ∃ s v, is_u64 s ∧ t_get (seq_key pk s) (MAIL st) = Some v) as Hrows.
  { intros p. rewrite list_elem_of_fmap. unfold rows. setoid_rewrite elem_of_retain.
    setoid_rewrite elem_of_iter_keys. split.
    - intros (k & -> & _ & v & Hget).
      destruct (Hkey _ _ Hget) as (pk & s & Hpk & Hs & -> & ->). eauto.
    - intros (Hpk & s & v & Hs & Hget). exists (seq_key p s).
      split_and!; [symmetry; apply take_app_length'; by destruct Hpk| |eauto].
      by rewrite seq_key_length, (proj1 Hpk). }
  split.
  - apply (dedup_sorted_NoDup (λ _, True) lex_le).
    + intros; by apply lex_le_antisym.
    + by apply Forall_true.
    + eapply sorted_fmap_retain, iter_sorted. intros a b [Hle _]. by apply lex_le_take.
  - intros pk Hpk.
    destruct (holds_log_exists 32 (open_value st) le_seq pk (MAIL st)) as (es & He);
      [apply Hinv|done|].
    destruct (mailbox_view _ _ _ Hinv Hpk Hon He) as [Hget _]. rewrite Hget.
    pose proof (holds_log_cons 32 _ _ _ _ _ (inv_mail _ Hinv) Hpk He) as Hc.
    transitivity (es ≠ []); [|destruct es; naive_solver].
    rewrite Hc, elem_of_dedup, Hrows. naive_solver.
Qed.

(** *** Community peer records *)

Definition peer_row st (kv : bytes * bytes) (cr : bytes * CommunityPeerRecord) : Prop :=
  wf_key cr.1 ∧ wf_key (cp_node_pk cr.2) ∧ kv.1 = dht_peer_key cr.1 (cp_node_pk cr.2) ∧
  open_value st kv.2 = Ok cr.2.

Lemma read_peer_rows_spec st rows rs :
  Forall2 (peer_row st) rows rs → read_peer_rows st rows = Ok rs.
Proof using Type*.
  induction 1 as [|[k v] [cpk r] rows rs ([Hc Hcb] & [Hn Hnb] & Hk & Hopen) _ IH]; [done|].
  cbn [fst snd] in *. cbn [read_peer_rows]. subst k.
  assert (length (dht_peer_key cpk (cp_node_pk r)) = 64%nat) as ->
    by (unfold dht_peer_key; by rewrite length_app, Hc, Hn).
  cbn [Nat.ltb Nat.leb]. unfold open_value in Hopen.
  apply result_bind_ok in Hopen as (plain & -> & Hr%ok_or_ok). cbn. rewrite Hr, IH. cbn.
  unfold dht_peer_key. by rewrite take_app_length'.
Qed.
Lemma peer_rows_exist st :
  peers_ok st → ∃ rs, Forall2 (peer_row st) (t_iter (DHT_PEERS st)) rs.
Proof using Type*.
  intros Hinv.
  assert (∀ kv, kv ∈ t_iter (DHT_PEERS st) → ∃ cr, peer_row st kv cr) as Hin.
  { intros [k v] Hget%iter_get. destruct (Hinv _ _ Hget) as (cpk & r & ? & ? & ? & ?).
    by exists (cpk, r). }
  induction (t_iter (DHT_PEERS st)) as [|kv l IH]; [by exists []|].
  destruct (Hin kv) as (cr & Hcr); [by left|].
  destruct IH as (rs & ?); [intros; apply Hin; by right|]. exists (cr :: rs). by constructor.
Qed.
Lemma all_peers_view st rs :
  peers_ok st → all_community_peer_records st = Ok rs →
  st_online st = true ∧ Forall2 (peer_row st) (t_iter (DHT_PEERS st)) rs.
Proof using Type*.
  intros Hinv. unfold all_community_peer_records, transaction.
  destruct (st_online st) eqn:Hon; [|done]. cbn. intros Hall. split; [done|].
  destruct (peer_rows_exist _ Hinv) as (rs' & Hrs).
  pose proof (read_peer_rows_spec _ _ _ Hrs) as Hread. congruence.
Qed.

Lemma elem_of_peers_view st rs x :
  Forall2 (peer_row st) (t_iter (DHT_PEERS st)) rs →
  x ∈ rs ↔ wf_key x.1 ∧ wf_key (cp_node_pk x.2) ∧
    ∃ v, t_get (dht_peer_key x.1 (cp_node_pk x.2)) (DHT_PEERS st) = Some v ∧
         open_value st v = Ok x.2.
Proof using Type*.
  intros Hv. split.
  - intros (i & Hi)%list_elem_of_lookup.
    destruct (Forall2_lookup_r _ _ _ _ _ Hv Hi) as ([k v] & Hkv & ? & ? & Hk & Ho). cbn in *. subst k.
    apply list_elem_of_lookup_2, iter_get in Hkv. eauto.
  - destruct x as [cpk r]; cbn. intros ([Hc _] & [Hn _] & v & Hget & Ho).
    apply iter_get, list_elem_of_lookup in Hget as (i & Hi).
    destruct (Forall2_lookup_l _ _ _ _ _ Hv Hi) as ([cpk' r'] & Hx & ([Hc' _] & _ & Hk & Ho')). cbn in *.
    unfold dht_peer_key in Hk. apply app_inj_1 in Hk as [-> _]; [|by rewrite Hc, Hc'].
    assert (r' = r) as -> by congruence. by apply list_elem_of_lookup_2 in Hx.
Qed.

Lemma dht_peer_key_inj a b c d :
  wf_key a → wf_key b → dht_peer_key a c = dht_peer_key b d → (a, c) = (b, d).
Proof.
  unfold dht_peer_key. intros [Ha _] [Hb _] Heq.
  by apply app_inj_1 in Heq as [-> ->]; [|rewrite Ha, Hb].
Qed.

Lemma set_community_peer_record_spec rnd cpk r st st' rs :
  peers_ok st → all_community_peer_records st = Ok rs →
  length rnd = 24%nat → wf_key cpk → wf_key (cp_node_pk r) →
  set_community_peer_record rnd cpk r st = Ok st' →
  peers_ok st' ∧ ∃ rs', all_community_peer_records st' = Ok rs' ∧
    ∀ x, x ∈ rs' ↔ x = (cpk, r) ∨ (x ∈ rs ∧ (x.1, cp_node_pk x.2) ≠ (cpk, cp_node_pk r)).
Proof using Type*.
  intros Hinv Hall Hrnd Hcpk Hnode Hset.
  destruct (all_peers_view _ _ Hinv Hall) as [Hon Hview].
  unfold set_community_peer_record, transaction in Hset.
  apply result_bind_ok in Hset as (v & Hv & Hset). rewrite Hon in Hset. cbn in Hset.
  injection Hset as <-. apply open_seal_value in Hv; [|done].
  set (st' := with_peers _ st).
  assert (peers_ok st') as Hinv'.
  { intros k w. cbn. rewrite get_insert. case_decide as Hk; [|apply Hinv].
    intros [= <-]. subst k. by exists cpk, r. }
  split; [done|].
  destruct (peer_rows_exist _ Hinv') as (rs' & Hview').
  assert (all_community_peer_records st' = Ok rs') as Hrs'.
  { unfold all_community_peer_records, transaction. replace (st_online st') with true by done. cbn.
    by apply read_peer_rows_spec. }
  exists rs'. split; [done|]. intros x.
  rewrite (elem_of_peers_view _ _ _ Hview'), (elem_of_peers_view _ _ _ Hview). cbn.
  setoid_rewrite get_insert. destruct x as [c y]; cbn. split.
  + intros (Hc & Hy & w & Hget & Ho). case_decide as Hk.
    * left. injection Hget as <-. apply dht_peer_key_inj in Hk as [= -> _]; [|done..].
      change (open_value st v = Ok y) in Ho. congruence.
    * right. split; [eauto|]. intros Heq. injection Heq as Hceq Hneq. apply Hk. by rewrite Hceq, Hneq.
  + intros [[= -> ->]|[(Hc & Hy & w & Hget & Ho) Hne]].
    * split_and!; [done..|]. exists v. by rewrite decide_True.
    * split_and!; [done..|]. exists w. rewrite decide_False; [done|].
      intros Hk. apply dht_peer_key_inj in Hk; [|done..]. by apply Hne.
Qed.
Lemma remove_expired_community_peers_spec cutoff st st' rs :
  peers_ok st → all_community_peer_records st = Ok rs →
  remove_expired_community_peers cutoff st = Ok st' →
  peers_ok st' ∧
  all_community_peer_records st' = Ok (retain (λ x, cutoff <=? cp_announced_at x.2) rs).
Proof using Type*.
  intros Hinv Hall Hrm. destruct (all_peers_view _ _ Hinv Hall) as [Hon Hview].
  unfold remove_expired_community_peers, transaction in Hrm.
  rewrite Hon in Hrm. cbn in Hrm. set (ks := (retain _ _).*1) in Hrm.
  assert (st' = with_peers (t_removes ks (DHT_PEERS st)) st) as ->.
  { destruct ks; injection Hrm as <-; [by destruct st|done]. }
  assert (peers_ok (with_peers (t_removes ks (DHT_PEERS st)) st)) as Hinv'.
  { intros k w. cbn. unfold t_removes. rewrite get_removes. case_decide; [done|apply Hinv]. }
  split; [done|]. unfold all_community_peer_records, transaction; cbn. rewrite Hon; cbn.
  apply read_peer_rows_spec. apply (iter_prune (peer_row st)); [done|].
  intros [k v] [cpk r] Hin (_ & _ & _ & Ho). unfold peer_row_expired; cbn in *. rewrite Ho.
  destruct (Z.ltb_spec (cp_announced_at r) cutoff), (Z.leb_spec cutoff (cp_announced_at r)); done || lia.
Qed.

Lemma store_inv_peers_eq st st' :
  store_inv st → peers_ok st' →
  (LOG st', MAIL st', META st', st_key st') = (LOG st, MAIL st, META st, st_key st) → store_inv st'.
Proof.
  intros [Hl Hm He _] Hp [= E1 E2 E3 E4]. destruct st as [l m e p k o], st' as [l' m' e' p' k' o'].
  cbn in *. subst. split; [exact Hl|exact Hm|exact He|exact Hp].
Qed.
Lemma store_inv_set_peers rnd cpk r st st' :
  store_inv st → peers_ok st' → set_community_peer_record rnd cpk r st = Ok st' → store_inv st'.
Proof.
  intros Hinv Hp Hset. apply (store_inv_peers_eq st); [done..|].
  unfold set_community_peer_record, transaction in Hset.
  apply result_bind_ok in Hset as (v & _ & Hset).
  destruct (st_online st); [|done]. by injection Hset as <-.
Qed.
Lemma store_inv_remove_peers cutoff st st' :
  store_inv st → peers_ok st' → remove_expired_community_peers cutoff st = Ok st' → store_inv st'.
Proof.
  intros Hinv Hp Hrm. apply (store_inv_peers_eq st); [done..|].
  unfold remove_expired_community_peers, transaction in Hrm.
  destruct (st_online st); [|done]. cbn in Hrm. by destruct ((retain _ _).*1); injection Hrm as <-.
Qed.

(** Peer records on disk: storing a record replaces the one of the same node in the
    same community and keeps all others; pruning keeps exactly the records announced at
    or after the cutoff, in order. *)
Theorem peer_records_correct st rs :
  store_inv st → all_community_peer_records st = Ok rs →
  (∀ rnd cpk r st', length rnd = 24%nat → wf_key cpk → wf_key (cp_node_pk r) →
     set_community_peer_record rnd cpk r st = Ok st' →
     store_inv st' ∧ ∃ rs', all_community_peer_records st' = Ok rs' ∧
       ∀ x, x ∈ rs' ↔ x = (cpk, r) ∨ (x ∈ rs ∧ (x.1, cp_node_pk x.2) ≠ (cpk, cp_node_pk r))) ∧
  (∀ cutoff st', remove_expired_community_peers cutoff st = Ok st' →
     store_inv st' ∧
     all_community_peer_records st' = Ok (retain (λ x, cutoff <=? cp_announced_at x.2) rs)).
Proof using Type*.
  intros Hinv Hall. split.
  - intros rnd cpk r st' Hrnd Hcpk Hr Hset.
    destruct (set_community_peer_record_spec rnd cpk r st st' rs) as [Hp ?]; [apply Hinv|done..|].
    split; [|done]. by apply (store_inv_set_peers rnd cpk r st).
  - intros cutoff st' Hrm.
    destruct (remove_expired_community_peers_spec cutoff st st' rs) as [Hp ?]; [apply Hinv|done..|].
    split; [|done]. by apply (store_inv_remove_peers cutoff st).
Qed.
End store_props.

(** ** A concrete store: toy cryptography, the reference table, a concrete serialiser *)

Module NodeExample.
#[export] Existing Instance Toy.crypto.
#[export] Existing Instance Toy.crypto_laws.
#[export] Existing Instance RefTable.table.
#[export] Existing Instance RefTable.table_laws.
Definition pk (n : Z) : bytes := replicate 32 n.
Definition member1 : MembershipRecord := mkMember (pk 20) 1 "ann" None 0 [Member] (pk 2) (pk 3) [].
Definition manifest1 : SignedManifest := mkSigned (mkManifest 1 "c" "d" (pk 1) 0 [] [5] [] 1 false) [].
Definition channel1 : ChannelManifest := mkChannel 5 1 "general" Text ∅ 0 1.
Definition meta1 : CommunityMeta :=
  mkMeta (mkCert (pk 1) (pk 9) 2000 []) (Some manifest1) [channel1; mkChannel 6 1 "old" Text ∅ 0 1]
    {[ hex (be_bytes 16 5) := pk 42 ]} {[ "ann"%string := member1 ]}.
Definition meta2 : CommunityMeta := mkMeta (cert_new (pk 30) (pk 9) 2000) None [] ∅ ∅.
(** A community of key 9, with a member 2. *)
Definition signed9 : SignedManifest := mkSigned (mkManifest 1 "c" "d" (pk 9) 0 [pk 9] [5] [] 1 false) [].
Definition meta9 : CommunityMeta :=
  mkMeta (mkCert (pk 9) (pk 9) 2000 []) (Some signed9) [channel1] ∅
    {[ hex (pk 2) := mkMember (pk 2) 1 "ann" None 0 [Member] (pk 2) (pk 3) [] ]}.

#[export] Instance codecs : NodeCodecs := {|
  codec_log := countable_postcard LogEntry;
  codec_dm := countable_postcard DmEnvelope;
  codec_meta := abbrev_postcard CommunityMeta [meta1; meta2; meta9];
  codec_peer := countable_postcard CommunityPeerRecord |}.
#[export] Instance codecs_laws : NodeCodecsLaws.
Proof.
  split; [apply countable_postcard_laws..|apply abbrev_postcard_laws; cbn; lia|apply countable_postcard_laws].
Qed.
#[export] Instance order : HashOrder := {| hash_order V m := map_to_list m |}.
#[export] Instance order_laws : HashOrderLaws.
Proof. by split. Qed.

Definition Store := NodeStore (gmap bytes bytes).
Definition empty_store : Store := mkStore ∅ ∅ ∅ ∅ (Some (replicate 32 7)) true.
Lemma empty_store_inv : store_inv empty_store.
Proof. split; intros k v; cbn; by rewrite lookup_empty. Qed.

Definition rnd : bytes := replicate 24 0.
Definition post (p : bytes) (ch : Z) (c : bytes) (st : Store) : Store :=
  match append_message rnd p ch [] c "" "" 0 st with Ok (_, st') => st' | Err _ => st end.
Definition get_ok {A} (d : A) (r : result store_error A) : A :=
  match r with Ok a => a | Err _ => d end.

Lemma wf_pk n : is_byte n → wf_key (pk n).
Proof. apply wf_array_replicate. Qed.
Lemma post_inv p ch c st : wf_key p → store_inv st → store_inv (post p ch c st).
Proof.
  intros Hp Hinv. unfold post. destruct (append_message _ _ _ _ _ _ _ _ _) as [[seq st']|] eqn:Happ; [|done].
  by destruct (append_message_step rnd _ _ _ _ _ _ _ _ _ _ Hinv Hp (length_replicate 24 0) Happ)
    as (_ & ? & _).
Qed.

(** Two channels, with two and one messages. *)
Definition store3 : Store := post (pk 1) 6 [3] (post (pk 1) 5 [2] (post (pk 1) 5 [1] empty_store)).
Lemma store3_inv : store_inv store3.
Proof. by repeat (apply post_inv; [by apply wf_pk|]); apply empty_store_inv. Qed.
Definition msg (seq c : Z) : LogEntry := mkLogEntry seq [] [c] "" "" 0 false.
End NodeExample.

Section store_witnesses.
Import NodeExample.

Definition run_store {A} (r : result store_error (A * Store)) (st : Store) : Store :=
  match r with Ok (_, st') => st' | Err _ => st end.

Lemma append_message_correct_witness :
  let st' := run_store (append_message rnd (pk 1) 5 [] [4] "m" "a" 7 store3) store3 in
  last_seq (pk 1) 5 st' = Ok (Some 2) ∧ get_messages (pk 1) 5 2 st' = Ok [mkLogEntry 2 [] [4] "m" "a" 7 false].
Proof.
  cbv zeta. split; [|vm_refl].
  apply (append_message_correct rnd (pk 1) 5 [] [4] "m" "a" 7 store3 _ 2 [msg 0 1; msg 1 2]).
  - apply store3_inv.
  - by apply wf_pk.
  - by vm_compute.
  - reflexivity.
  - vm_refl.
  - intros e [= <-]. by vm_compute.
  - vm_refl.
Defined.

Lemma append_dm_correct_witness :
  let env := mkEnvelope [1] [2] [3] [4] in
  let st' := run_store (append_dm rnd 9 "d" (pk 8) (pk 2) env store3) store3 in
  store_inv st' ∧ all_mailbox_recipients st' = Ok [pk 8].
Proof.
  cbv zeta. split; [|vm_refl].
  apply (append_dm_correct rnd 9 "d" (pk 8) (pk 2) (mkEnvelope [1] [2] [3] [4]) store3 _ 0 []).
  - apply store3_inv.
  - by apply wf_pk.
  - reflexivity.
  - vm_refl.
  - by intros e [=].
  - vm_refl.
Defined.

(** Room for one of the two entries: the newer one stays. *)
Lemma enforce_retention_correct_witness :
  let size := rows_size (channel_rows (pk 1) 5 store3) in
  let st' := get_ok store3 (enforce_retention (pk 1) 5 (size - 1) store3) in
  store_inv st' ∧ get_messages (pk 1) 5 0 st' = Ok [msg 1 2].
Proof.
  cbv zeta. split; [|vm_refl].
  apply (enforce_retention_correct (pk 1) 5 (rows_size (channel_rows (pk 1) 5 store3) - 1)
           store3 _ [msg 0 1; msg 1 2]).
  - apply store3_inv.
  - by apply wf_pk.
  - by vm_compute.
  - by vm_compute.
  - by vm_compute.
  - vm_refl.
  - vm_refl.
Defined.

Lemma remove_community_correct_witness :
  let st' := get_ok store3 (remove_community (pk 1) store3) in
  store_inv st' ∧ get_messages (pk 1) 5 0 st' = Ok [].
Proof.
  cbv zeta. split; [|vm_refl]. apply (remove_community_correct (pk 1) store3).
  - apply store3_inv.
  - by apply wf_pk.
  - vm_refl.
Defined.

Lemma all_channel_ids_correct_witness :
  all_channel_ids store3 = Ok [(pk 1, 5); (pk 1, 6)] ∧ NoDup [(pk 1, 5); (pk 1, 6)].
Proof.
  split; [vm_refl|].
  apply (all_channel_ids_correct store3 [(pk 1, 5); (pk 1, 6)]).
  - apply store3_inv.
  - vm_refl.
Defined.

Definition peer1 : CommunityPeerRecord := mkPeer (pk 3) (mkNodeAddr (V4 [10; 0; 0; 1]) 7332) 100.
Lemma peer_records_correct_witness :
  let st' := get_ok store3 (set_community_peer_record rnd (pk 1) peer1 store3) in
  store_inv st' ∧ all_community_peer_records st' = Ok [(pk 1, peer1)].
Proof.
  cbv zeta. split; [|vm_refl].
  apply (peer_records_correct store3 [] store3_inv ltac:(vm_refl)) with (rnd := rnd) (cpk := pk 1) (r := peer1).
  - reflexivity.
  - by apply wf_pk.
  - by apply wf_pk.
  - vm_refl.
Defined.
End store_witnesses.
