(* ===== verification/Retention.v ===== *)
(** * The janitor of the desktop application: [enforce_cache_retention] of
    [bitcord-tauri/src/lib.rs]

    Every five minutes the limit of the store is divided among the channels that have
    messages, and each of them loses its oldest messages. *)

From S2P Require Import Prelude Bytes Redb Crypto Codec Model Store SeqLog.

Section retention.
Context {T : Type} `{Crypto} `{Table T} `{NodeCodecs}.

Definition per_channel_limit (max_total_bytes n : Z) : Z := Z.max (max_total_bytes / n) 1.
Definition enforce_cache_retention (max_total_bytes : Z) (st : NodeStore T) : NodeStore T :=
  match all_channel_ids st with
  | Err _ => st
  | Ok [] => st
  | Ok channel_ids =>
      let limit := per_channel_limit max_total_bytes (Z.of_nat (length channel_ids)) in
      foldl (λ st id, match enforce_retention id.1 id.2 limit st with Ok st' => st' | Err _ => st end) st channel_ids
  end.
End retention.

Section retention_props.
Context {T : Type} `{CryptoLaws} `{TableLaws T} `{NodeCodecsLaws}.
Implicit Types st : NodeStore T.

(** A channel, as the log names it. *)
Definition wf_channel (id : bytes * Ulid) : Prop := wf_key id.1 ∧ is_u128 id.2.

Lemma channel_ids_wf st ids id : store_inv st → all_channel_ids st = Ok ids → id ∈ ids → wf_channel id.
Proof using Type*.
  intros Hinv. unfold all_channel_ids, transaction. destruct (st_online st); [|done].
  cbn. fold split_prefix. fold (log_prefixes st). intros [= <-] Hin.
  apply list_elem_of_fmap in Hin as ([a b] & -> & Hin). rewrite elem_of_dedup in Hin.
  apply elem_of_log_prefixes in Hin as (pk & ch & s & v & [= -> ->] & Hpk & Hch & _); [|done].
  split; [done|]. apply (ulid_be_of_be _ (wf_ulid_be ch)).
Qed.

(** What the retention of one channel leaves of every channel. *)
Lemma retention_step st id max :
  store_inv st → st_online st = true → wf_channel id → 0 ≤ max → rows_size (channel_rows id.1 id.2 st) ≤ U64_MAX →
  ∃ st' m, enforce_retention id.1 id.2 max st = Ok st' ∧ store_inv st' ∧ st_online st' = true ∧
    (MAIL st', META st', DHT_PEERS st', st_key st') = (MAIL st, META st, DHT_PEERS st, st_key st) ∧
    channel_rows id.1 id.2 st' = drop m (channel_rows id.1 id.2 st) ∧ rows_size (channel_rows id.1 id.2 st') ≤ max ∧
    (∀ j, (j < m)%nat → max < rows_size (drop j (channel_rows id.1 id.2 st))) ∧
    ∀ id', wf_channel id' → id' ≠ id → channel_rows id'.1 id'.2 st' = channel_rows id'.1 id'.2 st.
Proof using Type*.
  intros Hinv Hon [Hpk Hch] Hmax Hsize.
  destruct (enforce_retention id.1 id.2 max st) as [st'|e] eqn:Hr.
  2:{ unfold enforce_retention, transaction in Hr. rewrite Hon in Hr. cbn in Hr. by destruct (_ <=? max). }
  destruct (enforce_retention_removes _ _ _ _ _ Hmax Hsize Hr) as (m & -> & Hsz & Hmin). exists (with_log
    (t_removes (take m (channel_rows id.1 id.2 st).*1) (LOG st)) st), m.
  assert (channel_rows id.1 id.2 (with_log (t_removes (take m (channel_rows id.1 id.2 st).*1) (LOG st)) st) =
          drop m (channel_rows id.1 id.2 st)) as Hdrop.
  { rewrite !channel_rows_scan. cbn. unfold t_removes. by rewrite seq_scan_removes_take. }
  split_and!; [done| |done|done|done|by rewrite Hdrop|done|].
  - apply store_inv_with_log; [done|]. apply seqlog_ok_remove, Hinv.
  - intros id' [Hpk' Hch'] Hne. rewrite !channel_rows_scan. cbn. unfold t_removes.
    apply (seq_scan_removes_other 48 (open_value st) le_seq); [apply Hinv|by apply wf_log_prefix..| |unfold is_u64, U64_MAX; lia].
    intros Heq. apply log_prefix_inj in Heq; [|done..]. apply Hne. destruct id, id'. cbn in *. naive_solver.
Qed.

(** The pass over a list of channels without repetitions. *)
Definition retention_pass (limit : Z) (st : NodeStore T) (ids : list (bytes * Ulid)) : NodeStore T :=
  foldl (λ st id, match enforce_retention id.1 id.2 limit st with Ok st' => st' | Err _ => st end) st ids.
Definition store_size (ids : list (bytes * Ulid)) st : Z :=
  foldr (λ id n, rows_size (channel_rows id.1 id.2 st) + n) 0 ids.
(** [after] has the newest messages of [before] that fit into [limit], and all of them when they fit. *)
Definition retained (limit : Z) (before after : list (bytes * bytes)) : Prop :=
  ∃ m, after = drop m before ∧ rows_size after ≤ limit ∧ ∀ j, (j < m)%nat → limit < rows_size (drop j before).

Lemma pass_spec limit ids st :
  0 ≤ limit → store_inv st → st_online st = true → NoDup ids → (∀ id, id ∈ ids → wf_channel id) →
  (∀ id, id ∈ ids → rows_size (channel_rows id.1 id.2 st) ≤ U64_MAX) →
  let st' := retention_pass limit st ids in
  store_inv st' ∧ (MAIL st', META st', DHT_PEERS st', st_key st') = (MAIL st, META st, DHT_PEERS st, st_key st) ∧
  (∀ id, id ∈ ids → retained limit (channel_rows id.1 id.2 st) (channel_rows id.1 id.2 st')) ∧
  (∀ id, wf_channel id → id ∉ ids → channel_rows id.1 id.2 st' = channel_rows id.1 id.2 st).
Proof using Type*.
  intros Hl. revert st. induction ids as [|id ids IH]; intros st Hinv Hon Hnd Hwf Hsz; [by split_and!; [done|done|intros id ?%elem_of_nil|]|].
  apply NoDup_cons in Hnd as [Hid Hnd].
  destruct (retention_step st id limit) as (st1 & m & Hr & Hinv1 & Hon1 & Heq1 & Hdrop & Hle & Hmin & Hoth);
    [done|done|apply Hwf; by left|done|apply Hsz; by left|].
  unfold retention_pass. cbn [foldl]. rewrite Hr. fold (retention_pass limit st1 ids).
  destruct (IH st1) as (Hinv2 & Heq2 & Hin2 & Hout2); [done|done|done|intros; apply Hwf; by right| |].
  { intros id' Hin. rewrite Hoth; [apply Hsz; by right|apply Hwf; by right|by intros ->]. }
  split_and!; [done|congruence| |].
  - intros id' [->|Hin]%elem_of_cons.
    + rewrite (Hout2 id); [|apply Hwf; by left|done]. exists m. by rewrite Hdrop in Hle |- *.
    + destruct (Hin2 id' Hin) as (m' & Hm'). exists m'.
      rewrite Hoth in Hm'; [done|apply Hwf; by right|by intros ->].
  - intros id' Hw' Hni. rewrite Hout2, Hoth; [done|done|set_solver|done|set_solver].
Qed.

Lemma store_size_bound limit ids st :
  (∀ id, id ∈ ids → rows_size (channel_rows id.1 id.2 st) ≤ limit) → store_size ids st ≤ Z.of_nat (length ids) * limit.
Proof.
  intros Hs. induction ids as [|id ids IH]; [done|]. cbn [store_size foldr length].
  assert (rows_size (channel_rows id.1 id.2 st) ≤ limit) as Hh by (apply Hs; by left).
  assert (store_size ids st ≤ Z.of_nat (length ids) * limit) as Ht by (apply IH; intros; apply Hs; by right).
  unfold store_size in Ht. lia.
Qed.

(** C37: the janitor keeps the store within its limit: after a pass the messages of the channels
    take [max] bytes at most, or one byte a channel where [max] is less than that. Every
    channel has the newest of its messages, as many as fit into an equal share of the limit;
    one that is within its share loses nothing. The other tables are untouched and the
    invariant of the store is kept. *)
Theorem retention_correct max st ids :
  store_inv st → all_channel_ids st = Ok ids → 0 ≤ max →
  (∀ id, id ∈ ids → rows_size (channel_rows id.1 id.2 st) ≤ U64_MAX) →
  let st' := enforce_cache_retention max st in
  let share := per_channel_limit max (Z.of_nat (length ids)) in
  store_inv st' ∧ store_size ids st' ≤ Z.max max (Z.of_nat (length ids)) ∧
  (∀ id, id ∈ ids → retained share (channel_rows id.1 id.2 st) (channel_rows id.1 id.2 st') ∧
     (rows_size (channel_rows id.1 id.2 st) ≤ share → channel_rows id.1 id.2 st' = channel_rows id.1 id.2 st)) ∧
  (∀ id, wf_channel id → id ∉ ids → channel_rows id.1 id.2 st' = channel_rows id.1 id.2 st) ∧
  (MAIL st', META st', DHT_PEERS st', st_key st') = (MAIL st, META st, DHT_PEERS st, st_key st).
Proof using Type*.
  intros Hinv Hids Hmax Hsz st' share.
  assert (st_online st = true) as Hon by (unfold all_channel_ids, transaction in Hids; by destruct (st_online st)).
  assert (0 ≤ share) as Hshare by (unfold share, per_channel_limit; lia).
  assert (st' = retention_pass share st ids) as Hst.
  { subst st'. unfold enforce_cache_retention. rewrite Hids. by destruct ids. }
  destruct (all_channel_ids_correct st ids Hinv Hids) as [Hnd _].
  destruct (pass_spec share ids st Hshare Hinv Hon Hnd (λ id, channel_ids_wf st ids id Hinv Hids) Hsz) as (Hinv' & Heq & Hin & Hout).
  cbv zeta in *. rewrite <- Hst in *. split_and!; [done| | |done|done].
  - transitivity (Z.of_nat (length ids) * share).
    { apply store_size_bound. intros id Hid. by destruct (Hin id Hid) as (m & _ & Hle & _). }
    unfold share, per_channel_limit. destruct ids as [|id ids]; [cbn; lia|]. set (n := Z.of_nat (length (id :: ids))).
    assert (0 < n) by (unfold n; cbn; lia). pose proof (Z.mul_div_le max n). nia.
  - intros id Hid. destruct (Hin id Hid) as (m & Hd & Hle & Hmin). split; [by exists m|]. intros Hfit.
    destruct m as [|m]; [done|]. specialize (Hmin 0%nat ltac:(lia)). rewrite drop_0 in Hmin. lia.
Qed.
End retention_props.

Section retention_witness.
Import NodeExample.
(** Two channels, and room for one byte each: both are emptied. *)
Lemma retention_correct_witness :
  store_inv (enforce_cache_retention 2 store3) ∧ store_size [(pk 1, 5); (pk 1, 6)] (enforce_cache_retention 2 store3) ≤ 2.
Proof.
  destruct (retention_correct 2 store3 [(pk 1, 5); (pk 1, 6)] store3_inv ltac:(vm_refl) ltac:(lia)
    ltac:(by intros id [->|[->|[]%elem_of_nil]%elem_of_cons]%elem_of_cons; vm_compute)) as (Hinv & Hsz & _).
  split; [exact Hinv|exact Hsz].
Defined.
End retention_witness.
