(* ===== verification/Resource.v ===== *)
(** * Resource limits: [bitcord-core/src/resource/], [network/peer_manager.rs], the accept loop

    The connection limiter and the accept loop of [node/server.rs] that asks it, the
    bandwidth limiter, the storage guard, the metrics and the table of peers. The token
    bucket is third-party code: the limiter is described by the requests it makes of it.
    Counters are unsigned 64-bit integers whose addition wraps around. *)

From S2P Require Import Prelude Bytes Routing Crypto Codec Model Store.

(** ** [connection_limiter.rs] *)

Record ConnectionLimiter := mkLimiter { max_connections : Z }.
Definition allow_inbound (lim : ConnectionLimiter) (connected incoming_rep : Z) (lowest_rep_connected : option Z) : bool :=
  if connected <? max_connections lim then true
  else match lowest_rep_connected with Some lowest => lowest <? incoming_rep | None => false end.

(** ** [NodeServer::serve]: the counter, the tasks that have been spawned and have not run
    yet, and those that serve a connection *)

Record Server := mkServer { connected : Z; spawned : nat; serving : nat }.
Definition server_start : Server := mkServer 0 0 0.
(** One turn of the accept loop. *)
Definition accept_incoming (lim : ConnectionLimiter) (s : Server) : Server :=
  if negb (allow_inbound lim (connected s) 0 None) then s
  else mkServer (connected s) (S (spawned s)) (serving s).
(** A spawned task starts, and ends. *)
Definition task_start (s : Server) : Server := mkServer (wrap64 (connected s + 1)) (pred (spawned s)) (S (serving s)).
Definition task_end (s : Server) : Server := mkServer (wrap64 (connected s - 1)) (spawned s) (pred (serving s)).
Inductive serve_step (lim : ConnectionLimiter) (s : Server) : Server → Prop :=
  | serve_accept : serve_step lim s (accept_incoming lim s)
  | serve_start : (0 < spawned s)%nat → serve_step lim s (task_start s)
  | serve_end : (0 < serving s)%nat → serve_step lim s (task_end s).

(** ** [bandwidth.rs] *)

Record BandwidthStats := mkStats { bytes_sent : Z; bytes_received : Z; rate_out_kbps : Z; rate_in_kbps : Z }.
(** [bl_burst]: the quota, in bytes per second; [None]: unlimited. *)
Record BandwidthLimiter := mkBandwidth { bl_burst : option Z; bl_stats : BandwidthStats }.
Definition bytes_per_sec (kbps : Z) : Z := Z.max (wrap32 (wrap64 (kbps * 125))) 1.
Definition bandwidth_new (limit_kbps : option Z) : BandwidthLimiter :=
  mkBandwidth (bytes_per_sec <$> limit_kbps) (mkStats 0 0 0 0).

(** The tokens that [throttle] waits for, one call of [until_n_ready] after the other;
    [None]: the fuel has run out. *)
Fixpoint throttle_loop (fuel : nat) (burst remaining : Z) : option (list Z) :=
  if remaining <=? 0 then Some []
  else
    match fuel with
    | O => None
    | S fuel =>
        let chunk := wrap32 (Z.min remaining burst) in
        let n := Z.max chunk 1 in
        cons n <$> throttle_loop fuel burst (sat_sub remaining chunk)
    end.
Definition throttle (burst bytes : Z) : option (list Z) := throttle_loop (Z.to_nat bytes) burst bytes.

Definition on_send (bytes : Z) (l : BandwidthLimiter) : option (list Z) * BandwidthLimiter :=
  let s := bl_stats l in
  (match bl_burst l with Some burst => throttle burst bytes | None => Some [] end,
   mkBandwidth (bl_burst l) (mkStats (wrap64 (bytes_sent s + bytes)) (bytes_received s) (rate_out_kbps s) (rate_in_kbps s))).
Definition on_receive (bytes : Z) (l : BandwidthLimiter) : option (list Z) * BandwidthLimiter :=
  let s := bl_stats l in
  (match bl_burst l with Some burst => throttle burst bytes | None => Some [] end,
   mkBandwidth (bl_burst l) (mkStats (bytes_sent s) (wrap64 (bytes_received s + bytes)) (rate_out_kbps s) (rate_in_kbps s))).

(** One second of [spawn_stats_updater]: [prev] is what it saw a second ago. *)
Definition rate_of (now prev : Z) : Z := wrap64 (sat_sub now prev * 8) / 1024.
Definition stats_tick (prev : Z * Z) (s : BandwidthStats) : (Z * Z) * BandwidthStats :=
  ((bytes_sent s, bytes_received s),
   mkStats (bytes_sent s) (bytes_received s) (rate_of (bytes_sent s) prev.1) (rate_of (bytes_received s) prev.2)).

(** ** [storage.rs] *)

(** What the file system holds below a directory, in the order in which it lists it;
    [None]: a directory that cannot be listed, or a file without metadata. *)
Inductive Entry :=
  | File (path : string) (amrg : bool) (meta : option (Z * option Z))   (* length, time of modification *)
  | Dir (listing : option (list Entry)).

Fixpoint walk_size (e : Entry) : Z :=
  match e with
  | File _ _ (Some (len, _)) => len
  | File _ _ None => 0
  | Dir None => 0
  | Dir (Some entries) => foldl (λ total e, wrap64 (total + walk_size e)) 0 entries
  end.
(** [None]: the directory does not exist. *)
Definition dir_size (d : option Entry) : Z := match d with Some e => walk_size e | None => 0 end.
(** [UNIX_EPOCH] where the time is not known. *)
Fixpoint collect_amrg (e : Entry) (out : list (Z * string)) : list (Z * string) :=
  match e with
  | File path true (Some (_, mtime)) => out ++ [(default 0 mtime, path)]
  | File _ _ _ => out
  | Dir None => out
  | Dir (Some entries) => foldl (λ out e, collect_amrg e out) out entries
  end.

Inductive StorageError := LimitExceeded (required available : Z).
Record StorageGuard := mkGuard { limit_bytes : Z; used_bytes : Z }.
Definition guard_new (d : option Entry) (limit_mb : Z) : StorageGuard :=
  mkGuard (wrap64 (limit_mb * 1024 * 1024)) (dir_size d).
Definition available_bytes (g : StorageGuard) : Z := sat_sub (limit_bytes g) (used_bytes g).
Definition refresh_usage (d : option Entry) (g : StorageGuard) : StorageGuard := mkGuard (limit_bytes g) (dir_size d).
Definition check_available (required : Z) (g : StorageGuard) : result StorageError unit :=
  let available := available_bytes g in
  if available <? required then Err (LimitExceeded required available) else Ok tt.
Definition record_write (b : Z) (g : StorageGuard) : StorageGuard := mkGuard (limit_bytes g) (wrap64 (used_bytes g + b)).
Definition record_free (b : Z) (g : StorageGuard) : StorageGuard :=
  mkGuard (limit_bytes g) (wrap64 (used_bytes g - Z.min b (used_bytes g))).
Definition near_limit (g : StorageGuard) : bool := wrap64 (limit_bytes g * 9) / 10 <=? used_bytes g.
Definition older (a b : Z * string) : bool := a.1 <=? b.1.
Definition oldest_channel_files (d : Entry) : list string := snd <$> sort_by older (collect_amrg d []).

(** ** [metrics.rs] *)

Record NodeMetrics := mkMetrics {
  m_connected_peers : Z; m_stored_channels : Z; m_disk_usage_mb : Z;
  m_bandwidth_in_kbps : Z; m_bandwidth_out_kbps : Z; m_uptime_secs : Z }.
Inductive MetricsUpdate := ConnectedPeers (n : Z) | StoredChannels (n : Z) | DiskUsageMb (n : Z).
Definition metrics_update (u : MetricsUpdate) (m : NodeMetrics) : NodeMetrics :=
  match u with
  | ConnectedPeers n => mkMetrics n (m_stored_channels m) (m_disk_usage_mb m) (m_bandwidth_in_kbps m) (m_bandwidth_out_kbps m) (m_uptime_secs m)
  | StoredChannels n => mkMetrics (m_connected_peers m) n (m_disk_usage_mb m) (m_bandwidth_in_kbps m) (m_bandwidth_out_kbps m) (m_uptime_secs m)
  | DiskUsageMb n => mkMetrics (m_connected_peers m) (m_stored_channels m) n (m_bandwidth_in_kbps m) (m_bandwidth_out_kbps m) (m_uptime_secs m)
  end.
(** The tick of every five seconds. *)
Definition metrics_tick (uptime : Z) (s : BandwidthStats) (m : NodeMetrics) : NodeMetrics :=
  mkMetrics (m_connected_peers m) (m_stored_channels m) (m_disk_usage_mb m) (rate_in_kbps s) (rate_out_kbps s) uptime.

(** ** [peer_manager.rs] *)

Definition I32_MIN : Z := - 2 ^ 31.
Definition I32_MAX : Z := 2 ^ 31 - 1.
Definition wrap_i32 (z : Z) : Z := (z + 2 ^ 31) mod 2 ^ 32 - 2 ^ 31.

Record PeerState := mkPeer {
  addresses : list NodeAddr; latency : option Z; relay_capable : bool; reputation : Z; connected_at : Z }.
Record PeerManager := mkPeers { pm_peers : gmap string PeerState; pm_max_connections : nat }.
Definition on_peer (f : PeerState → PeerState) (peer_id : string) (m : PeerManager) : PeerManager :=
  mkPeers (alter f peer_id (pm_peers m)) (pm_max_connections m).
Definition peers_new (max : nat) : PeerManager := mkPeers ∅ max.
(** [now]: [Instant::now]. *)
Definition peer_connected (now : Z) (peer_id : string) (addrs : list NodeAddr) (m : PeerManager) : PeerManager :=
  match pm_peers m !! peer_id with
  | Some _ => m
  | None => mkPeers (<[peer_id := mkPeer addrs None false 50 now]> (pm_peers m)) (pm_max_connections m)
  end.
Definition peer_disconnected (peer_id : string) (m : PeerManager) : PeerManager :=
  mkPeers (delete peer_id (pm_peers m)) (pm_max_connections m).
Definition record_latency (peer_id : string) (l : Z) : PeerManager → PeerManager :=
  on_peer (λ p, mkPeer (addresses p) (Some l) (relay_capable p) (reputation p) (connected_at p)) peer_id.
Definition set_relay_capable (peer_id : string) (capable : bool) : PeerManager → PeerManager :=
  on_peer (λ p, mkPeer (addresses p) (latency p) capable (reputation p) (connected_at p)) peer_id.
Definition clamp_reputation (r : Z) : Z := Z.min (Z.max r 0) 100.
Definition adjust_reputation (peer_id : string) (delta : Z) : PeerManager → PeerManager :=
  on_peer (λ p, mkPeer (addresses p) (latency p) (relay_capable p) (clamp_reputation (wrap_i32 (reputation p + delta)))
                  (connected_at p)) peer_id.
Definition is_at_limit (m : PeerManager) : bool := (pm_max_connections m <=? size (pm_peers m))%nat.
(** [Iterator::min_by_key]: the first of the minima. *)
Definition min_by_key {A} (key : A → Z) (l : list A) : option A :=
  match l with [] => None | x :: l => Some (foldl (λ m y, if key y <? key m then y else m) x l) end.
Definition evict_candidate `{HashOrder} (m : PeerManager) : option string :=
  if (size (pm_peers m) <=? pm_max_connections m)%nat then None
  else fst <$> min_by_key (λ kv, reputation kv.2) (hash_order (pm_peers m)).

(** ** The accept loop *)

Lemma allow_limit lim n rep : allow_inbound lim n rep None = (n <? max_connections lim).
Proof. unfold allow_inbound. by destruct (n <? max_connections lim). Qed.

Lemma wrap64_add_l a b : wrap64 (wrap64 a + b) = wrap64 (a + b).
Proof. unfold wrap64. apply Zplus_mod_idemp_l. Qed.

Lemma serve_counts lim s : rtc (serve_step lim) server_start s → connected s = wrap64 (Z.of_nat (serving s)).
Proof.
  intros Hr. assert (connected server_start = wrap64 (Z.of_nat (serving server_start))) as H0 by done.
  revert H0. induction Hr as [s|s1 s2 s3 Hs _ IH]; intros H1; [done|]. apply IH.
  destruct Hs as [|Hn|Hn]; cbn.
  - unfold accept_incoming. by destruct (allow_inbound lim (connected s1) 0 None).
  - rewrite H1, wrap64_add_l. f_equal. lia.
  - rewrite H1. change (wrap64 (Z.of_nat (serving s1)) - 1) with (wrap64 (Z.of_nat (serving s1)) + -1).
    rewrite wrap64_add_l. f_equal. lia.
Qed.

(** Schedules in which every admitted connection is counted before the next is accepted. *)
Inductive prompt_step (lim : ConnectionLimiter) (s : Server) : Server → Prop :=
  | prompt_accept : spawned s = 0%nat → prompt_step lim s (accept_incoming lim s)
  | prompt_start : (0 < spawned s)%nat → prompt_step lim s (task_start s)
  | prompt_end : (0 < serving s)%nat → prompt_step lim s (task_end s).
Lemma prompt_serve lim s s' : prompt_step lim s s' → serve_step lim s s'.
Proof. destruct 1; by constructor. Qed.

Lemma prompt_bound lim s :
  0 ≤ max_connections lim ≤ U64_MAX → rtc (prompt_step lim) server_start s →
  Z.of_nat (spawned s + serving s) ≤ max_connections lim.
Proof.
  intros Hm Hr. cut (∀ s', rtc (prompt_step lim) s' s → rtc (serve_step lim) server_start s' →
    Z.of_nat (spawned s' + serving s') ≤ max_connections lim → Z.of_nat (spawned s + serving s) ≤ max_connections lim).
  { intros Hc. apply (Hc _ Hr); [constructor|cbn; lia]. }
  clear Hr. intros s' Hr. induction Hr as [s|s1 s2 s3 Hs _ IH]; intros Hreach Hb; [done|]. apply IH.
  - eapply rtc_r; [exact Hreach|]. by apply prompt_serve.
  - pose proof (serve_counts _ _ Hreach) as Hc. destruct Hs as [H0|H0|H0]; cbn; [|lia..].
    unfold accept_incoming. rewrite allow_limit. destruct (Z.ltb_spec (connected s1) (max_connections lim)); cbn; [|lia].
    rewrite Hc, wrap64_small in H by (unfold is_u64; lia). lia.
Qed.

Lemma admit_burst lim k j c : c < max_connections lim →
  rtc (serve_step lim) (mkServer c j 0) (mkServer c (k + j) 0).
Proof.
  intros Hc. revert j. induction k as [|k IH]; intros j; [constructor|].
  eapply rtc_l; [apply serve_accept|]. unfold accept_incoming. rewrite allow_limit.
  destruct (Z.ltb_spec (connected (mkServer c j 0)) (max_connections lim)) as [_|Hn]; [|cbn in Hn; lia].
  cbn [negb connected spawned serving]. replace (S k + j)%nat with (k + S j)%nat by lia. apply IH.
Qed.
Lemma start_burst lim k : ∀ c a, ∃ c', rtc (serve_step lim) (mkServer c k a) (mkServer c' 0 (k + a)).
Proof.
  induction k as [|k IH]; intros c a; [exists c; constructor|].
  destruct (IH (wrap64 (c + 1)) (S a)) as [c' Hc]. exists c'. eapply rtc_l; [apply serve_start; cbn; lia|].
  unfold task_start. cbn [connected spawned serving pred]. by replace (S k + a)%nat with (k + S a)%nat by lia.
Qed.

(** C38: the admission of connections: the counter is the number of connections that are
    served, whatever the interleaving of the accept loop with the tasks it spawns, and at the
    limit a connection is refused; the limit holds as long as every admitted connection is
    counted before the next one is looked at. The loop does not wait for that: a burst of
    any length that arrives at once is admitted, however low the limit. *)
Theorem admission_correct lim :
  0 ≤ max_connections lim ≤ U64_MAX →
  (∀ s, rtc (serve_step lim) server_start s → Z.of_nat (serving s) ≤ U64_MAX →
     connected s = Z.of_nat (serving s) ∧
     (max_connections lim ≤ Z.of_nat (serving s) → accept_incoming lim s = s)) ∧
  (∀ s, rtc (prompt_step lim) server_start s → Z.of_nat (spawned s + serving s) ≤ max_connections lim) ∧
  (0 < max_connections lim → ∀ k, ∃ s, rtc (serve_step lim) server_start s ∧ serving s = k).
Proof.
  intros Hm. split; [|split].
  - intros s Hr Hs. pose proof (serve_counts _ _ Hr) as Hc. rewrite wrap64_small in Hc by (unfold is_u64; lia).
    split; [done|]. intros Hl. unfold accept_incoming. rewrite allow_limit.
    by destruct (Z.ltb_spec (connected s) (max_connections lim)); [lia|].
  - intros s. by apply prompt_bound.
  - intros Hpos k. pose proof (admit_burst lim k 0 0 Hpos) as Ha. rewrite Nat.add_0_r in Ha.
    destruct (start_burst lim k 0 0) as [c' Hb]. exists (mkServer c' 0 (k + 0)). split; [|cbn; lia]. by etransitivity.
Qed.
Lemma admission_correct_witness :
  ∃ s, rtc (serve_step (mkLimiter 1)) server_start s ∧ serving s = 3%nat.
Proof. by apply (admission_correct (mkLimiter 1)). Defined.

(** ** Bandwidth *)

(** [bytes] in pieces of the burst, the last of them what is left. *)
Definition pieces (burst bytes : Z) : list Z :=
  replicate (Z.to_nat (bytes / burst)) burst ++ if bytes mod burst =? 0 then [] else [bytes mod burst].

Lemma throttle_loop_pieces burst : 1 ≤ burst ≤ U32_MAX → ∀ fuel bytes, 0 ≤ bytes ≤ Z.of_nat fuel →
  throttle_loop fuel burst bytes = Some (pieces burst bytes).
Proof.
  intros Hb. unfold U32_MAX in Hb. induction fuel as [|fuel IH]; intros bytes Hf; cbn [throttle_loop].
  - assert (bytes = 0) as -> by lia. by unfold pieces.
  - destruct (Z.leb_spec bytes 0) as [H0|Hpos]; [assert (bytes = 0) as -> by lia; by unfold pieces|].
    assert (wrap32 (Z.min bytes burst) = Z.min bytes burst) as -> by (apply Z.mod_small; lia).
    assert (sat_sub bytes (Z.min bytes burst) = bytes - Z.min bytes burst) as -> by (unfold sat_sub; lia).
    rewrite IH by lia. cbn [fmap option_fmap option_map]. f_equal. unfold pieces.
    destruct (Z.le_gt_cases burst bytes) as [Hle|Hlt].
    + replace (Z.min bytes burst) with burst by lia. replace (Z.max burst 1) with burst by lia.
      assert (bytes / burst = (bytes - burst) / burst + 1) as ->
        by (rewrite <- (Z.div_add (bytes - burst) 1 burst) by lia; f_equal; lia).
      assert (bytes mod burst = (bytes - burst) mod burst) as ->
        by (rewrite <- (Z.mod_add (bytes - burst) 1 burst) by lia; f_equal; lia).
      assert (0 ≤ (bytes - burst) / burst) by (apply Z.div_pos; lia).
      replace (Z.to_nat ((bytes - burst) / burst + 1)) with (S (Z.to_nat ((bytes - burst) / burst))) by lia. done.
    + replace (Z.min bytes burst) with bytes by lia. replace (Z.max bytes 1) with bytes by lia.
      replace (bytes - bytes) with 0 by lia. rewrite (Z.div_small bytes), (Z.mod_small bytes), Z.div_0_l, Z.mod_0_l by lia.
      cbn. destruct (Z.eqb_spec bytes 0); [lia|done].
Qed.

Lemma burst_range kbps : 1 ≤ bytes_per_sec kbps ≤ U32_MAX.
Proof.
  unfold bytes_per_sec, wrap32, U32_MAX. pose proof (Z.mod_pos_bound (wrap64 (kbps * 125)) (2 ^ 32) ltac:(lia)). lia.
Qed.
Lemma burst_exact kbps : 1 ≤ kbps ≤ 34359738 → bytes_per_sec kbps = kbps * 125.
Proof.
  intros H. unfold bytes_per_sec, wrap32. rewrite wrap64_small by (unfold is_u64, U64_MAX; lia).
  rewrite Z.mod_small by lia. lia.
Qed.
(** From there on the quota wraps around: a limit of 34 Gbit/s lets 79 bytes per second pass. *)
Lemma burst_truncated : bytes_per_sec 34359739 = 79.
Proof. by vm_compute. Qed.

Lemma pieces_sum burst bytes : 1 ≤ burst → 0 ≤ bytes →
  foldr Z.add 0 (pieces burst bytes) = bytes ∧ Forall (λ n, 1 ≤ n ≤ burst) (pieces burst bytes).
Proof.
  intros Hb Hn. unfold pieces. rewrite foldr_app. pose proof (Z.mod_pos_bound bytes burst ltac:(lia)) as Hm.
  assert (∀ k s, foldr Z.add s (replicate k burst) = Z.of_nat k * burst + s) as Hrep.
  { induction k as [|k IH]; intros s; cbn; [lia|]. rewrite IH. lia. }
  split.
  - rewrite Hrep, Z2Nat.id by (apply Z.div_pos; lia). pose proof (Z.div_mod bytes burst ltac:(lia)).
    destruct (Z.eqb_spec (bytes mod burst) 0); cbn; lia.
  - apply Forall_app. split; [apply Forall_replicate; lia|].
    destruct (Z.eqb_spec (bytes mod burst) 0); [constructor|]. repeat constructor; lia.
Qed.

(** C39: throttling: what is sent waits for exactly its number of bytes, taken in pieces of
    the quota of one second and a rest, whatever its size and whatever limit was configured;
    so no request exceeds the bucket, the loop ends, and without a limit nothing waits. The
    bytes are counted. Up to 34359738 kbit/s the quota is the limit. *)
Theorem throttle_correct limit bytes s :
  is_u64 bytes →
  let waits := match limit with Some kbps => pieces (bytes_per_sec kbps) bytes | None => [] end in
  on_send bytes (mkBandwidth (bl_burst (bandwidth_new limit)) s) =
    (Some waits, mkBandwidth (bl_burst (bandwidth_new limit))
       (mkStats (wrap64 (bytes_sent s + bytes)) (bytes_received s) (rate_out_kbps s) (rate_in_kbps s))) ∧
  (∀ kbps, limit = Some kbps →
     foldr Z.add 0 waits = bytes ∧ Forall (λ n, 1 ≤ n ≤ bytes_per_sec kbps) waits ∧
     (1 ≤ kbps ≤ 34359738 → bytes_per_sec kbps = kbps * 125)).
Proof.
  intros [H0 Hmax] waits. split.
  - unfold on_send. cbn. f_equal. destruct limit as [kbps|]; [|done]. cbn. unfold throttle.
    apply throttle_loop_pieces; [apply burst_range|lia].
  - intros kbps ->. unfold waits. pose proof (burst_range kbps). destruct (pieces_sum (bytes_per_sec kbps) bytes) as [Hs Hf]; [lia..|].
    split; [done|]. split; [done|]. apply burst_exact.
Qed.
Lemma throttle_correct_witness :
  on_send 1000 (mkBandwidth (bl_burst (bandwidth_new (Some 3))) (mkStats 1 2 3 4)) =
    (Some [375; 375; 250], mkBandwidth (Some 375) (mkStats 1001 2 3 4)).
Proof. refine (eq_trans (proj1 (throttle_correct (Some 3) 1000 (mkStats 1 2 3 4) _)) eq_refl). by vm_compute. Defined.

(** The limiter counts 1000 bits as a kilobit and the statistics 1024: traffic at the limit
    is shown as less. *)
Lemma rate_below_limit kbps prev : 1 ≤ kbps ≤ 34359738 → 0 ≤ prev →
  rate_of (prev + bytes_per_sec kbps) prev = kbps * 1000 / 1024.
Proof.
  intros Hk Hp. rewrite burst_exact by lia. unfold rate_of, sat_sub.
  replace (Z.max 0 (prev + kbps * 125 - prev)) with (kbps * 125) by lia.
  rewrite wrap64_small by (unfold is_u64, U64_MAX; lia). f_equal. lia.
Qed.

(** ** Storage *)

(** The files below an entry, in the order of the walk. *)
Fixpoint files (e : Entry) : list (string * bool * option (Z * option Z)) :=
  match e with
  | File path amrg meta => [(path, amrg, meta)]
  | Dir None => []
  | Dir (Some entries) => foldl (λ out e, out ++ files e) [] entries
  end.
Definition file_len (f : string * bool * option (Z * option Z)) : Z := match f.2 with Some (len, _) => len | None => 0 end.
Definition amrg_file (f : string * bool * option (Z * option Z)) : option (Z * string) :=
  match f with (path, true, Some (_, mtime)) => Some (default 0 mtime, path) | _ => None end.
Definition lengths_ok (e : Entry) : Prop := Forall (λ f, is_u64 (file_len f)) (files e).

(** Induction on the tree. *)
Lemma entry_ind (P : Entry → Prop) :
  (∀ path amrg meta, P (File path amrg meta)) → P (Dir None) →
  (∀ es, Forall P es → P (Dir (Some es))) → ∀ e, P e.
Proof.
  intros Hf Hn Hd. fix IH 1. intros [path amrg meta|[es|]]; [apply Hf| |apply Hn].
  apply Hd. induction es as [|e es IHes]; constructor; [apply IH|apply IHes].
Qed.

Lemma foldl_files es acc : foldl (λ out e, out ++ files e) acc es = acc ++ (es ≫= files).
Proof.
  revert acc. induction es as [|e es IH]; intros acc; cbn [foldl mbind list_bind]; [by rewrite app_nil_r|].
  rewrite IH, <- app_assoc. done.
Qed.
Lemma sum_app l k : foldr Z.add 0 (l ++ k) = foldr Z.add 0 l + foldr Z.add 0 k.
Proof. induction l as [|x l IH]; cbn; [done|]. rewrite IH. lia. Qed.

Lemma walk_size_sum e : lengths_ok e → walk_size e = wrap64 (foldr Z.add 0 (file_len <$> files e)).
Proof.
  unfold lengths_ok. induction e as [path amrg [[len mtime]|]| |es IH] using entry_ind; cbn [walk_size files].
  - intros [Hf _]%Forall_cons. cbn. rewrite Z.add_0_r. symmetry. apply wrap64_small, Hf.
  - done.
  - done.
  - rewrite foldl_files. cbn [app]. assert (∀ l acc, Forall (λ e, e ∈ es) l → Forall (λ f, is_u64 (file_len f)) (l ≫= files) →
      foldl (λ total e, wrap64 (total + walk_size e)) (wrap64 acc) l = wrap64 (acc + foldr Z.add 0 (file_len <$> (l ≫= files)))) as Hl.
    { intros l. induction l as [|e l IHl]; intros acc Hin Hf; [cbn; by rewrite Z.add_0_r|].
      cbn [foldl mbind list_bind] in *. apply Forall_cons in Hin as [He Hin]. apply Forall_app in Hf as [Hfe Hfl].
      rewrite Forall_forall in IH. rewrite (IH e He Hfe), wrap64_add_l, (Z.add_comm acc), wrap64_add_l, (Z.add_comm _ acc), IHl by done.
      f_equal. rewrite fmap_app, sum_app. lia. }
    intros Hf. change 0 with (wrap64 0) at 1. rewrite Hl; [done| |done]. by apply Forall_forall.
Qed.

Lemma collect_amrg_files e out : collect_amrg e out = out ++ omap amrg_file (files e).
Proof.
  revert out. induction e as [path amrg meta| |es IH] using entry_ind; intros out; cbn [collect_amrg files].
  - destruct amrg, meta as [[len mtime]|]; cbn; by rewrite ?app_nil_r.
  - cbn. by rewrite app_nil_r.
  - rewrite foldl_files. cbn [app]. revert out. induction es as [|e es IHes]; intros out; cbn [foldl mbind list_bind]; [cbn; by rewrite app_nil_r|].
    apply Forall_cons in IH as [He Hes]. rewrite He, IHes by done. rewrite omap_app, app_assoc. done.
Qed.

Lemma older_total a b : older a b = true ∨ older b a = true.
Proof. unfold older. lia. Qed.
Lemma older_trans a b c : older a b = true → older b c = true → older a c = true.
Proof. unfold older. lia. Qed.

(** The guard: the usage it starts from is the sum of the files; a write is let through
    exactly when it fits under the limit; freeing never goes below zero; the files to evict
    are the [.amrg] files, the oldest first. *)
Theorem storage_guard_correct d limit_mb required b :
  lengths_ok d → foldr Z.add 0 (file_len <$> files d) ≤ U64_MAX → 0 ≤ limit_mb → limit_mb * 1024 * 1024 ≤ U64_MAX → is_u64 b →
  let g := guard_new (Some d) limit_mb in
  let used := foldr Z.add 0 (file_len <$> files d) in
  let limit := limit_mb * 1024 * 1024 in
  used_bytes g = used ∧
  (0 < required → check_available required g = Ok tt ↔ used + required ≤ limit) ∧
  used_bytes (record_free b g) = sat_sub used b ∧
  (used + b ≤ U64_MAX → record_free b (record_write b g) = g) ∧
  oldest_channel_files d = (sort_by older (omap amrg_file (files d))).*2 ∧
  StronglySorted (λ a b, older a b = true) (sort_by older (omap amrg_file (files d))) ∧
  sort_by older (omap amrg_file (files d)) ≡ₚ omap amrg_file (files d).
Proof.
  intros Hd Hs Hm Hl [Hb0 Hb1] g used limit.
  assert (0 ≤ used) as Hu.
  { unfold used. clear -Hd. unfold lengths_ok in Hd. induction Hd as [|f fs [Hf _] _ IH]; cbn; lia. }
  assert (used_bytes g = used) as Hg by (cbn; rewrite walk_size_sum by done; by apply wrap64_small).
  assert (limit_bytes g = limit) as Hlim by (cbn; apply wrap64_small; split; lia).
  split; [done|]. split.
  { unfold check_available, available_bytes, sat_sub. rewrite Hg, Hlim.
    destruct (Z.ltb_spec (Z.max 0 (limit - used)) required) as [Hlt|Hge]; intros Hx.
    - split; [done|]. intros Hfit. lia.
    - split; [|done]. intros _. lia. }
  split.
  { cbn [record_free used_bytes]. rewrite Hg. unfold sat_sub. rewrite wrap64_small by (split; lia). lia. }
  split.
  { intros Hfit. unfold record_free, record_write. cbn [used_bytes limit_bytes]. rewrite Hg.
    rewrite (wrap64_small (used + b)) by (split; lia). rewrite wrap64_small by (split; lia).
    destruct g as [l u]. cbn in *. f_equal. lia. }
  unfold oldest_channel_files. rewrite collect_amrg_files. split; [done|]. split; [|apply sort_by_perm].
  apply (sort_by_sorted older older_total older_trans).
Qed.

(** ** The table of peers *)

Inductive peers_step : PeerManager → PeerManager → Prop :=
  | ps_connected now id addrs m : peers_step m (peer_connected now id addrs m)
  | ps_disconnected id m : peers_step m (peer_disconnected id m)
  | ps_latency id l m : peers_step m (record_latency id l m)
  | ps_relay id c m : peers_step m (set_relay_capable id c m)
  | ps_reputation id delta m : peers_step m (adjust_reputation id delta m).

Definition scores_ok (m : PeerManager) : Prop := map_Forall (λ _ p, 0 ≤ reputation p ≤ 100) (pm_peers m).

Lemma scores_on_peer f id m : (∀ p, 0 ≤ reputation p ≤ 100 → 0 ≤ reputation (f p) ≤ 100) → scores_ok m → scores_ok (on_peer f id m).
Proof.
  intros Hf Hm i p Hp. cbn in Hp. apply lookup_alter_Some in Hp as [(-> & q & Hq & ->)|[_ Hp]]; [by apply Hf, (Hm i)|by apply (Hm i)].
Qed.
Lemma scores_step m m' : peers_step m m' → scores_ok m → scores_ok m'.
Proof.
  intros [] Hm; try (apply scores_on_peer; [|done]; intros p Hp; done).
  - unfold peer_connected. destruct (_ !! _); [done|]. apply map_Forall_insert_2; [cbn; lia|done].
  - by apply map_Forall_delete.
  - apply scores_on_peer; [|done]. intros p _. cbn. unfold clamp_reputation. lia.
Qed.

Lemma min_by_key_spec {A} (key : A → Z) l x :
  min_by_key key l = Some x → x ∈ l ∧ ∀ y, y ∈ l → key x ≤ key y.
Proof.
  destruct l as [|z l]; [done|]. intros [= <-]. cbn.
  assert (∀ l z, let r := foldl (λ m y, if key y <? key m then y else m) z l in
    (r = z ∨ r ∈ l) ∧ key r ≤ key z ∧ ∀ y, y ∈ l → key r ≤ key y) as Hl.
  { clear. induction l as [|y l IH]; intros z; cbn; [split; [by left|]; split; [lia|]; intros y Hy; by apply elem_of_nil in Hy|].
    destruct (IH (if key y <? key z then y else z)) as (Hr & Hle & Hall). split; [|split].
    - destruct Hr as [->|Hr]; [|right; by right]. destruct (key y <? key z); [right; by left|by left].
    - destruct (Z.ltb_spec (key y) (key z)); lia.
    - intros w Hw. apply elem_of_cons in Hw as [->|Hw]; [destruct (Z.ltb_spec (key y) (key z)); lia|by apply Hall]. }
  destruct (Hl l z) as (Hr & Hle & Hall). split.
  - destruct Hr as [->|Hr]; [by left|by right].
  - intros y Hy. apply elem_of_cons in Hy as [->|Hy]; [done|by apply Hall].
Qed.

(** Scores stay between 0 and 100, and the peer to evict, asked for when there are too
    many, has the lowest score of all. *)
Theorem peers_correct `{HashOrderLaws} max m :
  rtc peers_step (peers_new max) m →
  scores_ok m ∧
  match evict_candidate m with
  | None => (size (pm_peers m) ≤ pm_max_connections m)%nat
  | Some id => (pm_max_connections m < size (pm_peers m))%nat ∧
      ∃ p, pm_peers m !! id = Some p ∧ ∀ id' q, pm_peers m !! id' = Some q → reputation p ≤ reputation q
  end.
Proof.
  intros Hr. split.
  { assert (scores_ok (peers_new max)) as H0' by apply map_Forall_empty. revert H0'.
    induction Hr as [|m1 m2 m3 Hs _ IH]; intros H1; [done|]. by eapply IH, scores_step. }
  unfold evict_candidate. destruct (Nat.leb_spec (size (pm_peers m)) (pm_max_connections m)) as [Hle|Hlt]; [done|].
  destruct (min_by_key _ _) as [[id p]|] eqn:Hmin; cbn.
  - apply min_by_key_spec in Hmin as [Hin Hall]. split; [done|]. exists p. rewrite hash_order_perm, elem_of_map_to_list in Hin.
    split; [done|]. intros id' q Hq. apply (Hall (id', q)). by rewrite hash_order_perm, elem_of_map_to_list.
  - destruct (hash_order (pm_peers m)) eqn:Ho; [|done]. pose proof (Permutation_length (hash_order_perm (pm_peers m))) as Hlen.
    rewrite Ho, length_map_to_list in Hlen. cbn in Hlen. lia.
Qed.
