(* ===== verification/DhtNode.v ===== *)
(** * The DHT of a node: [bitcord-dht/src/store.rs], [expiry.rs] and [bitcord-core/src/dht/mod.rs]

    [DhtStore] persists community peer records and peer info records; the expiry tasks
    prune the memory and the disk and write snapshots; [DhtHandle] ties the routing state
    ([Routing]), the store and the iterative lookups ([Kademlia]) together. Messages to
    other nodes are values of [DhtSend], the tasks that [tokio::spawn] starts. *)

From stdpp Require Import countable.
From S2P Require Import Prelude Bytes Redb Routing Kademlia Crypto Codec Model Store.

(** ** [DhtStore] *)

Record DhtStore (T : Type) := mkDhtStore {
  DHT_COMMUNITY_PEERS : T;
  DHT_PEER_INFO : T;
  ds_online : bool }.
Arguments mkDhtStore {T}.
Arguments DHT_COMMUNITY_PEERS {T}.
Arguments DHT_PEER_INFO {T}.
Arguments ds_online {T}.

Section dht_store.
Context {T : Type} `{Table T} `{Postcard CommunityPeerRecord} `{Postcard PeerInfoRecord}.

Notation Result := (result store_error).
Notation DStore := (DhtStore T).

Definition ds_with_peers (t : T) (ds : DStore) : DStore := mkDhtStore t (DHT_PEER_INFO ds) (ds_online ds).
Definition ds_with_infos (t : T) (ds : DStore) : DStore :=
  mkDhtStore (DHT_COMMUNITY_PEERS ds) t (ds_online ds).
Definition ds_open (empty : T) (online : bool) : Result DStore :=
  if online then Ok (mkDhtStore empty empty true) else Err DbError.
Definition ds_transaction (ds : DStore) : Result unit := if ds_online ds then Ok tt else Err DbError.

Definition ds_set_community_peer_record (community_pk : bytes) (record : CommunityPeerRecord)
    (ds : DStore) : Result DStore :=
  let key := dht_peer_key community_pk (cp_node_pk record) in
  value ← ok_or EncodeError (to_allocvec record);
  ds_transaction ds;;
  Ok (ds_with_peers (t_insert key value (DHT_COMMUNITY_PEERS ds)) ds).

Fixpoint ds_read_peer_rows (rows : list (bytes * bytes)) : list (bytes * CommunityPeerRecord) :=
  match rows with
  | [] => []
  | (k, v) :: rows =>
      if (length k <? 64)%nat then ds_read_peer_rows rows
      else
        match from_bytes (A := CommunityPeerRecord) v with
        | Some record => (take 32 k, record) :: ds_read_peer_rows rows
        | None => ds_read_peer_rows rows
        end
  end.
Definition ds_all_community_peer_records (ds : DStore) : Result (list (bytes * CommunityPeerRecord)) :=
  ds_transaction ds;; Ok (ds_read_peer_rows (t_iter (DHT_COMMUNITY_PEERS ds))).

Definition ds_peer_expired (cutoff_secs : Z) (v : bytes) : bool :=
  match from_bytes (A := CommunityPeerRecord) v with
  | Some record => cp_announced_at record <? cutoff_secs
  | None => false
  end.
Definition ds_remove_expired_community_peers (cutoff_secs : Z) (ds : DStore) : Result DStore :=
  ds_transaction ds;;
  let expired_keys :=
    (retain (λ kv, ds_peer_expired cutoff_secs kv.2) (t_iter (DHT_COMMUNITY_PEERS ds))).*1 in
  match expired_keys with
  | [] => Ok ds
  | _ => Ok (ds_with_peers (t_removes expired_keys (DHT_COMMUNITY_PEERS ds)) ds)
  end.

Definition ds_set_peer_info_record (peer_id : bytes) (record : PeerInfoRecord) (ds : DStore)
    : Result DStore :=
  value ← ok_or EncodeError (to_allocvec record);
  ds_transaction ds;;
  Ok (ds_with_infos (t_insert peer_id value (DHT_PEER_INFO ds)) ds).

Definition ds_get_peer_info_record (peer_id : bytes) (ds : DStore) : Result (option PeerInfoRecord) :=
  ds_transaction ds;;
  match t_get peer_id (DHT_PEER_INFO ds) with
  | Some v => Some <$> ok_or DecodeError (from_bytes v)
  | None => Ok None
  end.

Fixpoint ds_read_info_rows (rows : list (bytes * bytes)) : list (bytes * PeerInfoRecord) :=
  match rows with
  | [] => []
  | (k, v) :: rows =>
      if negb (length k =? 32)%nat then ds_read_info_rows rows
      else
        match from_bytes (A := PeerInfoRecord) v with
        | Some record => (k, record) :: ds_read_info_rows rows
        | None => ds_read_info_rows rows
        end
  end.
Definition ds_all_peer_info_records (ds : DStore) : Result (list (bytes * PeerInfoRecord)) :=
  ds_transaction ds;; Ok (ds_read_info_rows (t_iter (DHT_PEER_INFO ds))).

Definition ds_info_expired (cutoff_secs : Z) (v : bytes) : bool :=
  match from_bytes (A := PeerInfoRecord) v with
  | Some record => pi_announced_at record <? cutoff_secs
  | None => false
  end.
Definition ds_remove_expired_peer_infos (cutoff_secs : Z) (ds : DStore) : Result DStore :=
  ds_transaction ds;;
  let expired_keys :=
    (retain (λ kv, ds_info_expired cutoff_secs kv.2) (t_iter (DHT_PEER_INFO ds))).*1 in
  match expired_keys with
  | [] => Ok ds
  | _ => Ok (ds_with_infos (t_removes expired_keys (DHT_PEER_INFO ds)) ds)
  end.

(** A failed write is logged and dropped. *)
Definition or_keep (ds : DStore) (r : Result DStore) : DStore :=
  match r with Ok ds' => ds' | Err _ => ds end.

(** ** [expiry.rs] *)

(** One tick of the ten-minute task. *)
Definition expiry_tick (instant system_time_ns : Z) (s : DhtState) (ds : DStore)
    : DhtState * DStore :=
  let now_secs := unix_now system_time_ns in
  let s := expire_records instant now_secs s in
  let peer_cutoff := sat_sub now_secs COMMUNITY_PEER_TTL_SECS in
  let ds := or_keep ds (ds_remove_expired_community_peers peer_cutoff ds) in
  let info_cutoff := sat_sub now_secs PEER_INFO_TTL_SECS in
  let ds := or_keep ds (ds_remove_expired_peer_infos info_cutoff ds) in
  (s, ds).

(** One tick of the hourly task; [snapshot] is the map in its iteration order. *)
Definition persist_record (community_pk : bytes) (ds : DStore) (record : CommunityPeerRecord) : DStore :=
  or_keep ds (ds_set_community_peer_record community_pk record ds).
Definition persist_tick (snapshot : list (bytes * list CommunityPeerRecord)) (ds : DStore) : DStore :=
  foldl (λ ds '(community_pk, records), foldl (persist_record community_pk) ds records) ds snapshot.
End dht_store.

(** ** [DhtHandle] *)

Inductive DhtSend :=
  | SendStoreDhtRecord (peer : NodeAddr) (user_pk : bytes) (addr : NodeAddr)
  | SendStoreCommunityPeer (peer : NodeAddr) (community_pk node_pk : bytes) (addr : NodeAddr)
  | SendStorePeerInfo (peer : NodeAddr) (peer_id ed25519_pk x25519_pk : bytes) (addr : NodeAddr)
      (display_name : string) (signature : bytes).

Record DhtHandle (T : Type) := mkHandle {
  dh_state : DhtState;
  dh_store : DhtStore T;
  dh_identity : bytes (* the Ed25519 secret key *) }.
Arguments mkHandle {T}.
Arguments dh_state {T}.
Arguments dh_store {T}.
Arguments dh_identity {T}.

Definition ANNOUNCE_COOLDOWN : Z := 60 * NANOS.
Definition PROPAGATE_K : nat := 20.

Section dht_handle.
Context {T : Type} `{Crypto} `{Table T} `{Postcard CommunityPeerRecord} `{Postcard PeerInfoRecord}
  `{Postcard NodeAddr}.

Notation Handle := (DhtHandle T).

Definition dh_with_state (s : DhtState) (h : Handle) : Handle := mkHandle s (dh_store h) (dh_identity h).

(** The routing state rebuilt from the records on disk. *)
Definition prepopulate (records : list (bytes * CommunityPeerRecord)) (s : DhtState) : DhtState :=
  foldl (λ s '(community_pk, record),
    let s := add_peer (cp_node_pk record) (cp_addr record) s in
    add_community_peer_record community_pk record s) s records.

Definition dh_new (node_pk : bytes) (addr : option NodeAddr) (identity : bytes)
    (store : DhtStore T) : Handle :=
  let state := dht_new node_pk addr in
  let state :=
    match ds_all_community_peer_records store with
    | Ok records => prepopulate records state
    | Err _ => state
    end in
  mkHandle state store identity.

(** [timed_out] is the routing state at the moment a lookup is cut off after 5 s, if it
    is: a walk only ever adds peers to it. *)
Definition find_mailbox_peers (find_node : entry → option (list entry * option NodeAddr))
    (timed_out : option DhtState) (now : Z) (user_pk : bytes) (h : Handle)
    : list NodeAddr * Handle :=
  match lookup_mailbox now user_pk (dh_state h) with
  | Some addr => ([addr], h)
  | None =>
      let '(result, s) :=
        match timed_out with
        | Some s => (None, s)
        | None => (kademlia_lookup find_node user_pk now (dh_state h)).1
        end in
      (match result with Some addr => [addr] | None => [] end, dh_with_state s h)
  end.

Definition find_community_peers (find_node : entry → option (list entry * option NodeAddr))
    (find_peers : entry → option (list CommunityPeerRecord)) (now : Z) (community_pk : bytes)
    (h : Handle) : list CommunityPeerRecord * Handle :=
  let '(records, s) :=
    kademlia_find_community_peers find_node community_pk find_peers now (dh_state h) in
  (records, dh_with_state s h).

Definition register_mailbox (instant : Z) (user_pk : bytes) (h : Handle) : Handle * list DhtSend :=
  let s := announce_mailbox instant user_pk (dh_state h) in
  match self_addr s with
  | None => (dh_with_state s h, [])
  | Some addr =>
      (dh_with_state s h,
       (λ e : entry, SendStoreDhtRecord e.2 user_pk addr) <$> closest_peers user_pk PROPAGATE_K s)
  end.

Definition register_community_peer (instant system_time_ns : Z) (community_pk : bytes) (h : Handle)
    : Handle * list DhtSend :=
  let '(s, acquired) := acquire_announce_slot instant community_pk ANNOUNCE_COOLDOWN (dh_state h) in
  if negb acquired then (dh_with_state s h, [])
  else
    match self_addr s with
    | None => (dh_with_state s h, [])
    | Some addr =>
        let own_node_pk := ed_public (dh_identity h) in
        let s := announce_community_peer (unix_now system_time_ns) community_pk own_node_pk addr s in
        (dh_with_state s h,
         (λ e : entry, SendStoreCommunityPeer e.2 community_pk own_node_pk addr)
           <$> closest_peers community_pk PROPAGATE_K s)
    end.

Definition update_self_addr (addr : NodeAddr) (h : Handle) : Handle :=
  dh_with_state (set_self_addr addr (dh_state h)) h.
Definition add_known_peer (node_pk : bytes) (addr : NodeAddr) (h : Handle) : Handle :=
  dh_with_state (add_peer node_pk addr (dh_state h)) h.

Definition peer_info_sig_msg (peer_id x25519_pk : bytes) (addr : NodeAddr) : bytes :=
  peer_id ++ x25519_pk ++ default [] (to_allocvec addr).

Definition register_peer_info (system_time_ns : Z) (peer_id x25519_pk : bytes)
    (display_name : string) (h : Handle) : Handle * list DhtSend :=
  match self_addr (dh_state h) with
  | None => (h, [])
  | Some addr =>
      let now := unix_now system_time_ns in
      let s := announce_peer_info now peer_id x25519_pk addr display_name (dh_state h) in
      let record := mkPeerInfo x25519_pk addr now display_name in
      let ds := or_keep (dh_store h) (ds_set_peer_info_record peer_id record (dh_store h)) in
      let signature := ed_sign (dh_identity h) (peer_info_sig_msg peer_id x25519_pk addr) in
      (mkHandle s ds (dh_identity h),
       (λ e : entry, SendStorePeerInfo e.2 peer_id (ed_public (dh_identity h)) x25519_pk addr
                       display_name signature)
         <$> closest_peers peer_id PROPAGATE_K s)
  end.

Definition find_peer_info (find_node : entry → option (list entry * option NodeAddr))
    (find_info : entry → option PeerInfoRecord) (completion : list entry → list entry)
    (timed_out : option DhtState) (now : Z) (peer_id : bytes) (h : Handle)
    : option PeerInfoRecord * Handle :=
  match lookup_peer_info now peer_id (dh_state h) with
  | Some record => (Some record, h)
  | None =>
      let '(result, s) :=
        match timed_out with
        | Some s => (None, s)
        | None => kademlia_find_peer_info find_node peer_id find_info completion (dh_state h)
        end in
      let s := match result with Some rec => add_peer_info_record peer_id rec s | None => s end in
      (result, dh_with_state s h)
  end.

(** [bootstrap]: the dials that succeeded, in order. *)
Definition bootstrap (connected : list (NodeAddr * bytes)) (h : Handle) : Handle :=
  foldl (λ h '(addr, node_pk), dh_with_state (add_peer node_pk addr (dh_state h)) h) h connected.
End dht_handle.

(** ** The store's invariant *)

Section dht_store_props.
Context {T : Type} `{CryptoLaws} `{TableLaws T} `{NodeCodecsLaws}
  `{Postcard PeerInfoRecord} `{!PostcardLaws PeerInfoRecord}.
Implicit Types ds : DhtStore T.

(** The peers table is that of an unencrypted node store, and the methods agree. *)
Definition as_node ds : NodeStore T :=
  mkStore (DHT_PEER_INFO ds) (DHT_PEER_INFO ds) (DHT_PEER_INFO ds) (DHT_COMMUNITY_PEERS ds) None
    (ds_online ds).

Lemma ds_set_as_node nonce cpk r ds :
  set_community_peer_record nonce cpk r (as_node ds) =
  as_node <$> ds_set_community_peer_record cpk r ds.
Proof.
  unfold set_community_peer_record, ds_set_community_peer_record, seal_value, transaction, ds_transaction.
  cbn. destruct (to_allocvec r); cbn; [|done]. by destruct (ds_online ds).
Qed.
Lemma ds_all_as_node ds :
  all_community_peer_records (as_node ds) = ds_all_community_peer_records ds.
Proof.
  unfold all_community_peer_records, ds_all_community_peer_records, transaction, ds_transaction. cbn.
  destruct (ds_online ds); cbn; [|done].
  assert (∀ rows, read_peer_rows (as_node ds) rows = Ok (ds_read_peer_rows rows)) as ->; [|done].
  induction rows as [|[k v] rows IH]; [done|]. cbn [read_peer_rows ds_read_peer_rows].
  destruct (length k <? 64)%nat; [done|]. cbn. rewrite IH. by destruct (from_bytes v).
Qed.
Lemma ds_remove_as_node cutoff ds :
  remove_expired_community_peers cutoff (as_node ds) =
  as_node <$> ds_remove_expired_community_peers cutoff ds.
Proof.
  unfold remove_expired_community_peers, ds_remove_expired_community_peers, transaction, ds_transaction.
  cbn. destruct (ds_online ds) eqn:Hon; cbn; [|done].
  assert (∀ rows, retain (λ kv, peer_row_expired cutoff (as_node ds) kv.2) rows =
    retain (λ kv, ds_peer_expired cutoff kv.2) rows) as ->.
  { intros rows. unfold retain. apply List.filter_ext. intros [k v].
    unfold peer_row_expired, ds_peer_expired, open_value; cbn. by destruct (from_bytes v). }
  by destruct ((retain _ _).*1); cbn; rewrite ?Hon.
Qed.

Definition infos_ok ds : Prop := ∀ k v, t_get k (DHT_PEER_INFO ds) = Some v →
  wf_key k ∧ ∃ r : PeerInfoRecord, from_bytes v = Some r.
Record ds_ok ds : Prop := {
  ds_peers_ok : peers_ok (as_node ds);
  ds_infos_ok : infos_ok ds }.

Lemma ds_all_online ds :
  ds_ok ds → ds_online ds = true → ∃ rs, ds_all_community_peer_records ds = Ok rs.
Proof using Type*.
  intros _ Hon. unfold ds_all_community_peer_records, ds_transaction. rewrite Hon. by eexists.
Qed.

Lemma ds_set_spec cpk r ds ds' rs :
  ds_ok ds → ds_all_community_peer_records ds = Ok rs → wf_key cpk → wf_key (cp_node_pk r) →
  ds_set_community_peer_record cpk r ds = Ok ds' →
  ds_ok ds' ∧ ds_online ds' = true ∧ ∃ rs', ds_all_community_peer_records ds' = Ok rs' ∧
    ∀ x, x ∈ rs' ↔ x = (cpk, r) ∨ (x ∈ rs ∧ (x.1, cp_node_pk x.2) ≠ (cpk, cp_node_pk r)).
Proof using Type*.
  intros Hok Hall Hc Hn Hset.
  assert (set_community_peer_record (replicate 24 0) cpk r (as_node ds) = Ok (as_node ds')) as Hset'
    by by rewrite ds_set_as_node, Hset.
  rewrite <- ds_all_as_node in Hall.
  destruct (set_community_peer_record_spec _ _ _ _ _ _ (ds_peers_ok _ Hok) Hall
    (length_replicate 24 0) Hc Hn Hset') as [Hp (rs' & Hall' & Hx)].
  unfold ds_set_community_peer_record, ds_transaction in Hset.
  apply result_bind_ok in Hset as (v & _ & Hset).
  destruct (ds_online ds) eqn:Hon; [|done]. cbn in Hset. injection Hset as <-.
  split_and!; [split; [exact Hp|apply Hok]|done|]. exists rs'. by rewrite <- ds_all_as_node.
Qed.

Lemma ds_remove_spec cutoff ds rs :
  ds_ok ds → ds_all_community_peer_records ds = Ok rs →
  ∃ ds', ds_remove_expired_community_peers cutoff ds = Ok ds' ∧ ds_ok ds' ∧
    ds_online ds' = true ∧ DHT_PEER_INFO ds' = DHT_PEER_INFO ds ∧
    ds_all_community_peer_records ds' = Ok (retain (λ x, cutoff <=? cp_announced_at x.2) rs).
Proof using Type*.
  intros Hok Hall.
  assert (∃ ds', ds_remove_expired_community_peers cutoff ds = Ok ds' ∧ ds_online ds' = true ∧
                 DHT_PEER_INFO ds' = DHT_PEER_INFO ds) as (ds' & Hrm & Hon' & Hi).
  { unfold ds_all_community_peer_records, ds_remove_expired_community_peers, ds_transaction in *.
    destruct (ds_online ds) eqn:Hon; [|done]. cbn. destruct ((retain _ _).*1); eauto. }
  assert (remove_expired_community_peers cutoff (as_node ds) = Ok (as_node ds')) as Hrm'
    by by rewrite ds_remove_as_node, Hrm.
  rewrite <- ds_all_as_node in Hall.
  destruct (remove_expired_community_peers_spec _ _ _ _ (ds_peers_ok _ Hok) Hall Hrm') as [Hp Hall'].
  exists ds'. split_and!; [done|split; [done|]|done|done|by rewrite <- ds_all_as_node].
  unfold infos_ok. rewrite Hi. apply Hok.
Qed.

(** Pruning the peer infos. *)
Definition info_row (kv : bytes * bytes) (x : bytes * PeerInfoRecord) : Prop :=
  kv.1 = x.1 ∧ from_bytes kv.2 = Some x.2.
Lemma info_row_fun rows l k : Forall2 info_row rows l → Forall2 info_row rows k → l = k.
Proof using Type.
  intros Hl. revert k. induction Hl as [|kv x rows l [Hk Hx] _ IH]; intros k Hr; [by inversion Hr|].
  apply Forall2_cons_inv_l in Hr as (y & k' & [Hk' Hy] & Hr & ->).
  f_equal; [|by apply IH]. destruct x, y; cbn in *. congruence.
Qed.
Lemma ds_read_info_rows_spec rows :
  (∀ k v, (k, v) ∈ rows → wf_key k ∧ ∃ r : PeerInfoRecord, from_bytes v = Some r) →
  Forall2 info_row rows (ds_read_info_rows rows).
Proof using Type.
  induction rows as [|[k v] rows IH]; cbn [ds_read_info_rows]; intros Hok; [constructor|].
  destruct (Hok k v) as ([Hk _] & r & Hr); [by left|]. rewrite Hk, Hr. cbn.
  constructor; [done|]. apply IH. intros k' v' Hin. apply Hok. by right.
Qed.
Lemma ds_remove_infos_spec cutoff ds rs :
  ds_ok ds → ds_all_peer_info_records ds = Ok rs →
  ∃ ds', ds_remove_expired_peer_infos cutoff ds = Ok ds' ∧ ds_ok ds' ∧
    DHT_COMMUNITY_PEERS ds' = DHT_COMMUNITY_PEERS ds ∧ ds_online ds' = ds_online ds ∧
    ds_all_peer_info_records ds' = Ok (retain (λ x, cutoff <=? pi_announced_at x.2) rs).
Proof using Type*.
  intros Hok Hall. unfold ds_remove_expired_peer_infos, ds_all_peer_info_records, ds_transaction in *.
  destruct (ds_online ds) eqn:Hon; [|done]. cbn in *. injection Hall as <-.
  set (ks := (retain _ _).*1).
  exists (ds_with_infos (t_removes ks (DHT_PEER_INFO ds)) ds).
  assert (infos_ok (ds_with_infos (t_removes ks (DHT_PEER_INFO ds)) ds)) as Hio.
  { intros k v. cbn. unfold t_removes. rewrite get_removes. case_decide; [done|apply Hok]. }
  split_and!; [by destruct ks; cbn; destruct ds|split; [apply Hok|exact Hio]|done|done|].
  cbn. rewrite Hon. cbn. f_equal.
  assert (∀ k v, (k, v) ∈ t_iter (DHT_PEER_INFO ds) →
    wf_key k ∧ ∃ r : PeerInfoRecord, from_bytes v = Some r) as Hrows
    by (intros k v Hin%iter_get; by apply Hok).
  eapply info_row_fun.
  - apply ds_read_info_rows_spec. intros k v Hin%iter_get. by apply Hio.
  - apply (iter_prune info_row); [by apply ds_read_info_rows_spec|].
    intros [k v] [k' r] Hin [Hk Hr]. unfold ds_info_expired; cbn in *. rewrite Hr.
    destruct (Z.ltb_spec (pi_announced_at r) cutoff), (Z.leb_spec cutoff (pi_announced_at r)); done || lia.
Qed.
End dht_store_props.

(** ** Expiry, snapshots and restarts *)

Lemma peers_of_expire instant now s cpk r :
  r ∈ peers_of cpk (expire_records instant now s) → r ∈ peers_of cpk s ∧ peer_fresh now r = true.
Proof.
  unfold peers_of, expire_records; cbn. rewrite lookup_map_retain, lookup_fmap.
  destruct (community_peers s !! cpk) as [l|]; cbn; [|by intros []%elem_of_nil].
  destruct (is_nonempty _); cbn; [|by intros []%elem_of_nil].
  by intros [? ?]%elem_of_retain.
Qed.

(** Each record with its community; the key under which it is stored. *)
Definition flatten (snapshot : list (bytes * list CommunityPeerRecord)) : list (bytes * CommunityPeerRecord) :=
  concat (map (λ x, map (pair x.1) x.2) snapshot).
Definition rec_key (x : bytes * CommunityPeerRecord) : bytes * bytes := (x.1, cp_node_pk x.2).
Definition rec_wf (x : bytes * CommunityPeerRecord) : Prop := wf_key x.1 ∧ wf_key (cp_node_pk x.2).

(** The routing state's community records: one per node, with well-formed keys. *)
Definition records_ok (s : DhtState) : Prop :=
  ∀ cpk l, community_peers s !! cpk = Some l →
    wf_key cpk ∧ NoDup (cp_node_pk <$> l) ∧ ∀ r, r ∈ l → wf_key (cp_node_pk r).

Lemma elem_of_flatten snapshot x :
  x ∈ flatten snapshot ↔ ∃ rs, (x.1, rs) ∈ snapshot ∧ x.2 ∈ rs.
Proof.
  unfold flatten. induction snapshot as [|[cpk rs] snap IH]; cbn.
  - split; [by intros []%elem_of_nil|]. by intros (rs & []%elem_of_nil & _).
  - rewrite elem_of_app, IH. setoid_rewrite elem_of_cons. destruct x as [c r]; cbn.
    change (map (pair cpk) rs) with (pair cpk <$> rs). rewrite list_elem_of_fmap.
    split; [naive_solver|]. intros (rs' & [[= -> ->]|?] & ?); [left; eauto|right; eauto].
Qed.

Lemma flatten_NoDup snapshot :
  NoDup snapshot.*1 → (∀ cpk rs, (cpk, rs) ∈ snapshot → NoDup (cp_node_pk <$> rs)) →
  NoDup (rec_key <$> flatten snapshot).
Proof.
  unfold flatten. induction snapshot as [|[cpk rs] snap IH]; csimpl; intros Hnd Hrs; [constructor|].
  apply NoDup_cons in Hnd as [Hc Hnd]. rewrite fmap_app. change (map (pair cpk) rs) with (pair cpk <$> rs).
  apply NoDup_app. split_and!.
  - rewrite <- list_fmap_compose. specialize (Hrs cpk rs ltac:(by left)).
    rewrite (list_fmap_ext _ (pair cpk ∘ cp_node_pk)), list_fmap_compose by done.
    by apply (NoDup_fmap_2 (pair cpk)).
  - intros k (x & -> & Hx)%list_elem_of_fmap (y & Heq & Hy)%list_elem_of_fmap.
    fold (flatten snap) in Hy. apply elem_of_flatten in Hy as (rs' & Hin & _).
    apply list_elem_of_fmap in Hx as (r & -> & _). unfold rec_key in Heq; cbn in Heq.
    injection Heq as -> _. apply Hc. by apply (list_elem_of_fmap_2 fst) in Hin.
  - apply IH; [done|]. intros c l Hin. apply (Hrs c). by right.
Qed.

Section restart.
Context {T : Type} `{CryptoLaws} `{TableLaws T} `{NodeCodecsLaws}
  `{Postcard PeerInfoRecord} `{!PostcardLaws PeerInfoRecord}.
Implicit Types ds : DhtStore T.

(** Every community record in memory is also on disk. *)
Definition on_disk (s : DhtState) (rs : list (bytes * CommunityPeerRecord)) : Prop :=
  ∀ cpk r, r ∈ peers_of cpk s → (cpk, r) ∈ rs.

(** One tick of the expiry task: on disk exactly the records announced less than a
    TTL before are kept, in order, for both kinds; no lookup made at the tick's time or
    later sees the difference; and memory stays a subset of the disk if it was one. *)
Theorem expiry_tick_correct instant time_ns s ds s' ds' rs infos :
  ds_ok ds → ds_all_community_peer_records ds = Ok rs → ds_all_peer_info_records ds = Ok infos →
  expiry_tick instant time_ns s ds = (s', ds') →
  let now := unix_now time_ns in
  let rs' := retain (λ x, sat_sub now COMMUNITY_PEER_TTL_SECS <=? cp_announced_at x.2) rs in
  ds_ok ds' ∧
  ds_all_community_peer_records ds' = Ok rs' ∧
  ds_all_peer_info_records ds' =
    Ok (retain (λ x, sat_sub now PEER_INFO_TTL_SECS <=? pi_announced_at x.2) infos) ∧
  (∀ cpk later, now ≤ later →
     lookup_community_peers later cpk s' = lookup_community_peers later cpk s) ∧
  ((∀ cpk r, r ∈ peers_of cpk s → is_u64 (cp_announced_at r)) → on_disk s rs → on_disk s' rs').
Proof using Type*.
  intros Hok Hall Hinfos Htick now rs'. unfold expiry_tick in Htick. fold now in Htick.
  destruct (ds_remove_spec (sat_sub now COMMUNITY_PEER_TTL_SECS) _ _ Hok Hall)
    as (ds1 & Hrm & Hok1 & Hon1 & Hi & Hall1).
  rewrite Hrm in Htick. cbn [or_keep] in Htick.
  assert (ds_all_peer_info_records ds1 = Ok infos) as Hinfos1.
  { unfold ds_all_peer_info_records, ds_transaction in *. rewrite Hi, Hon1.
    by destruct (ds_online ds). }
  destruct (ds_remove_infos_spec (sat_sub now PEER_INFO_TTL_SECS) _ _ Hok1 Hinfos1)
    as (ds2 & Hrm2 & Hok2 & Hp & Hon2 & Hinfos2).
  rewrite Hrm2 in Htick. cbn [or_keep] in Htick. injection Htick as <- <-.
  split_and!; [done| |done| |].
  - unfold ds_all_community_peer_records, ds_transaction in *. by rewrite Hp, Hon2.
  - intros. by apply lookup_peers_expire.
  - intros Hu Hdisk cpk r [Hin Hfresh]%peers_of_expire. destruct (Hu _ _ Hin) as [Hpos _]. apply elem_of_retain. split; [|by apply Hdisk].
    unfold peer_fresh, sat_sub in *. cbn. apply Z.ltb_lt in Hfresh. apply Z.leb_le. lia.
Qed.

Lemma persist_tick_flat snapshot ds :
  persist_tick snapshot ds = foldl (λ ds x, persist_record x.1 ds x.2) ds (flatten snapshot).
Proof.
  unfold persist_tick, flatten. revert ds; induction snapshot as [|[cpk rs] snap IH]; intros ds; [done|].
  cbn. rewrite foldl_app, IH. f_equal. clear IH. revert ds; induction rs as [|r rs IHr]; intros ds; cbn; auto.
Qed.

Lemma persist_all xs ds rs :
  (∀ r : CommunityPeerRecord, is_Some (to_allocvec r)) →
  ds_ok ds → ds_all_community_peer_records ds = Ok rs → Forall rec_wf xs → NoDup (rec_key <$> xs) →
  ∃ rs', let ds' := foldl (λ ds x, persist_record x.1 ds x.2) ds xs in
    ds_ok ds' ∧ ds_all_community_peer_records ds' = Ok rs' ∧
    (∀ x, x ∈ xs → x ∈ rs') ∧ (∀ x, x ∈ rs → rec_key x ∉ rec_key <$> xs → x ∈ rs').
Proof using Type*.
  intros Henc. revert ds rs; induction xs as [|[cpk r] xs IH]; intros ds rs Hok Hall Hwf Hnd.
  { exists rs. cbn. split_and!; [done|done|by intros ? []%elem_of_nil|done]. }
  apply Forall_cons in Hwf as [[Hc Hn] Hwf]. csimpl in Hnd. apply NoDup_cons in Hnd as [Hk Hnd].
  assert (∃ ds', ds_set_community_peer_record cpk r ds = Ok ds') as (ds' & Hset).
  { unfold ds_set_community_peer_record, ds_all_community_peer_records, ds_transaction in *.
    destruct (Henc r) as [v ->]. destruct (ds_online ds); [|done]. by eexists. }
  destruct (ds_set_spec _ _ _ _ _ Hok Hall Hc Hn Hset) as (Hok' & Hon' & rs1 & Hall' & Hrs1).
  destruct (IH ds' rs1) as (rs' & Hok2 & Hall2 & Hin & Hkeep); [done..|].
  exists rs'. cbn [foldl fst snd].
  assert (persist_record cpk ds r = ds') as -> by (unfold persist_record; by rewrite Hset).
  split_and!; [done|done| |].
  - intros x [->|Hx]%elem_of_cons; [|by apply Hin]. apply Hkeep; [|done]. apply Hrs1. by left.
  - intros x Hx Hnk. csimpl in Hnk. apply not_elem_of_cons in Hnk as [Hne Hnk].
    apply Hkeep; [|done]. apply Hrs1. by right.
Qed.
End restart.

Lemma peers_of_add_record cpk r c s :
  peers_of c (add_community_peer_record cpk r s) =
  if decide (cpk = c) then
    if any (is_node (cp_node_pk r)) (peers_of cpk s)
    then update_first (is_node (cp_node_pk r)) (λ _, r) (peers_of cpk s)
    else peers_of cpk s ++ [r]
  else peers_of c s.
Proof.
  unfold peers_of at 1, add_community_peer_record; cbn. rewrite lookup_insert.
  by case_decide.
Qed.
Lemma add_record_in cpk r s : r ∈ peers_of cpk (add_community_peer_record cpk r s).
Proof.
  rewrite peers_of_add_record, decide_True by done.
  destruct (any _ _) eqn:Ha; [by apply update_first_const|]. apply elem_of_app. right. by left.
Qed.
Lemma add_record_keeps cpk r s c x :
  x ∈ peers_of c s → (c, cp_node_pk x) ≠ (cpk, cp_node_pk r) →
  x ∈ peers_of c (add_community_peer_record cpk r s).
Proof.
  intros Hx Hne. rewrite peers_of_add_record. case_decide as Hc; [|done]. subst c.
  destruct (any _ _); [|apply elem_of_app; by left].
  apply update_first_keeps; [done|]. apply is_node_false. congruence.
Qed.
Lemma rt_inv_add_record cpk r s : rt_inv s → rt_inv (add_community_peer_record cpk r s).
Proof. done. Qed.
Lemma peers_of_add_peer id addr c s : peers_of c (add_peer id addr s) = peers_of c s.
Proof. unfold add_peer. case_decide; [done|]. by destruct (bucket_index _). Qed.

Lemma prepopulate_spec rs s :
  rt_inv s → Forall rec_wf rs → NoDup (rec_key <$> rs) →
  rt_inv (prepopulate rs s) ∧
  (∀ cpk r, (cpk, r) ∈ rs → r ∈ peers_of cpk (prepopulate rs s)) ∧
  (∀ cpk r, r ∈ peers_of cpk s → rec_key (cpk, r) ∉ rec_key <$> rs → r ∈ peers_of cpk (prepopulate rs s)).
Proof.
  revert s; induction rs as [|[c x] rs IH]; intros s Hs Hwf Hnd.
  { split_and!; [done|by intros ?? []%elem_of_nil|done]. }
  apply Forall_cons in Hwf as [[Hc Hn] Hwf]. csimpl in Hnd. apply NoDup_cons in Hnd as [Hk Hnd].
  destruct (IH (add_community_peer_record c x (add_peer (cp_node_pk x) (cp_addr x) s)))
    as (Hinv & Hin & Hkeep); [by apply rt_inv_add_record, rt_inv_add_peer|done..|].
  split_and!; [done| |].
  - intros cpk r [[= -> ->]|Hr]%elem_of_cons; [|by apply Hin]. apply Hkeep; [apply add_record_in|done].
  - intros cpk r Hr Hnk. csimpl in Hnk. apply not_elem_of_cons in Hnk as [Hne Hnk].
    apply Hkeep; [|done]. apply add_record_keeps; [by rewrite peers_of_add_peer|done].
Qed.

Section restart_correct.
Context {T : Type} `{CryptoLaws} `{TableLaws T} `{NodeCodecsLaws}
  `{Postcard PeerInfoRecord} `{!PostcardLaws PeerInfoRecord} `{Postcard NodeAddr}.
Implicit Types ds : DhtStore T.

Lemma disk_records_wf ds rs :
  ds_ok ds → ds_all_community_peer_records ds = Ok rs →
  Forall rec_wf rs ∧ NoDup (rec_key <$> rs).
Proof using Type*.
  intros Hok Hall. rewrite <- ds_all_as_node in Hall.
  destruct (all_peers_view _ _ (ds_peers_ok _ Hok) Hall) as [_ Hv].
  pose proof (iter_NoDup (DHT_PEERS (as_node ds))) as Hnd.
  split.
  - apply Forall_forall. intros x Hx. apply (elem_of_peers_view _ _ x Hv) in Hx as (? & ? & _). done.
  - assert ((t_iter (DHT_PEERS (as_node ds))).*1 = (λ k, dht_peer_key k.1 k.2) <$> (rec_key <$> rs)) as Heq.
    { clear Hnd Hall. induction Hv as [|[k v] x l rs (_ & _ & Hk & _) _ IH]; csimpl; [done|].
      f_equal; [done|exact IH]. }
    rewrite Heq in Hnd. by apply NoDup_fmap_1 in Hnd.
Qed.

(** What the hourly task saved comes back: after a snapshot of the community records
    (in whatever order the map yields them) and a restart, the new handle's routing
    state satisfies the routing invariant and lists every record of the snapshot under
    its community. *)
Theorem persist_restart_roundtrip s snapshot ds rs node_pk addr identity :
  (∀ r : CommunityPeerRecord, is_Some (to_allocvec r)) →
  records_ok s → snapshot ≡ₚ map_to_list (all_community_peers s) →
  ds_ok ds → ds_all_community_peer_records ds = Ok rs → wf_key node_pk →
  let h := dh_new node_pk addr identity (persist_tick snapshot ds) in
  rt_inv (dh_state h) ∧ ∀ cpk r, r ∈ peers_of cpk s → r ∈ peers_of cpk (dh_state h).
Proof using Type*.
  intros Henc Hs Hsnap Hok Hall Hpk h. unfold h, dh_new. rewrite persist_tick_flat.
  assert (∀ cpk l, (cpk, l) ∈ snapshot ↔ community_peers s !! cpk = Some l) as Hin.
  { intros cpk l. by rewrite Hsnap, elem_of_map_to_list. }
  destruct (persist_all (flatten snapshot) ds rs) as (rs' & Hok' & Hall' & Hmem & _); [done..| | |].
  - apply Forall_forall. intros [c r] (l & Hl & Hr)%elem_of_flatten. cbn in *.
    apply Hin, Hs in Hl as (? & _ & Hw). split; [done|by apply Hw].
  - apply flatten_NoDup.
    + rewrite Hsnap. apply NoDup_fst_map_to_list.
    + intros c l Hl%Hin. by apply Hs in Hl as (_ & ? & _).
  - cbn in Hok', Hall'. rewrite Hall'. cbn.
    destruct (disk_records_wf _ _ Hok' Hall') as [Hwf Hnd].
    destruct (prepopulate_spec rs' (dht_new node_pk addr)) as (Hinv & Hpre & _); [by apply rt_inv_new|done..|].
    split; [done|]. intros cpk r Hr. apply Hpre, Hmem, elem_of_flatten. cbn.
    unfold peers_of in Hr. destruct (community_peers s !! cpk) as [l|] eqn:Hl; [|by apply elem_of_nil in Hr].
    exists l. split; [by apply Hin|done].
Qed.

(** The peer info records the store also keeps are not read back: after a restart no
    peer's info is known until it is announced or looked up again. *)
Lemma restart_forgets_peer_infos node_pk addr identity ds now peer_id :
  lookup_peer_info now peer_id (dh_state (dh_new node_pk addr identity ds)) = None.
Proof.
  unfold dh_new; cbn. destruct (ds_all_community_peer_records ds) as [rs|]; [|done]. cbn.
  assert (∀ s, peer_infos s = ∅ → peer_infos (prepopulate rs s) = ∅) as Hp.
  { induction rs as [|[c x] rs IH]; intros s Hs; [done|]. apply IH. cbn.
    unfold add_peer. case_decide; [done|]. by destruct (bucket_index _). }
  unfold lookup_peer_info. by rewrite Hp.
Qed.
End restart_correct.

(** ** The handle *)

Section handle_props.
Context {T : Type} `{Crypto} `{Table T} `{Postcard CommunityPeerRecord} `{Postcard PeerInfoRecord}
  `{Postcard NodeAddr}.
Implicit Types h : DhtHandle T.

Lemma dh_with_state_id h : dh_with_state (dh_state h) h = h.
Proof. by destruct h. Qed.

Lemma announce_in_list_room now pk addr l :
  (length l < K)%nat →
  ∃ r, r ∈ announce_in_list now pk addr l ∧ cp_node_pk r = pk ∧ cp_addr r = addr ∧ cp_announced_at r = now.
Proof.
  intros Hlen. unfold announce_in_list. destruct (any (is_node pk) l) eqn:Ha.
  - revert Ha. unfold any. clear Hlen. induction l as [|y l IH]; cbn; [done|].
    destruct (is_node pk y) eqn:Hy; cbn.
    + intros _. exists (mkPeer (cp_node_pk y) addr now). split; [by left|]. by apply is_node_true in Hy.
    + intros Ha. destruct (IH Ha) as (r & ? & ?). exists r. split; [by right|done].
  - exists (mkPeer pk addr now). split; [|done].
    assert ((K <? length (l ++ [mkPeer pk addr now]))%nat = false) as ->
      by (apply Nat.ltb_ge; rewrite length_app; cbn; lia).
    apply elem_of_app. right. by left.
Qed.

Lemma slot_used (m : gmap bytes Z) pk t t' cooldown :
  t ≤ t' → t' < t + cooldown → slot_free (<[pk := t]> m) pk t' cooldown = false.
Proof.
  intros. unfold slot_free. rewrite lookup_insert_eq. unfold sat_sub. apply Z.leb_gt. lia.
Qed.

(** Announcing membership of a community, on every path. Within the cooldown nothing
    happens. Otherwise the cooldown restarts, and: with a known address the node records
    itself under its own key, address and time, and sends the record once to each of the
    (at most 20) nearest peers it knows; with no known address nothing is recorded or
    sent, and since the cooldown has restarted, an announcement made within the next
    60 s is dropped even though the address has become known. *)
Theorem register_community_peer_correct instant time_ns cpk h :
  let s := dh_state h in
  let now := unix_now time_ns in
  let own := ed_public (dh_identity h) in
  let '(h', sends) := register_community_peer instant time_ns cpk h in
  dh_store h' = dh_store h ∧ dh_identity h' = dh_identity h ∧
  routing_table (dh_state h') = routing_table s ∧ (length sends ≤ 20)%nat ∧
  if slot_free (last_announce s) cpk instant ANNOUNCE_COOLDOWN then
    last_announce (dh_state h') !! cpk = Some instant ∧
    match self_addr s with
    | Some addr =>
        peers_of cpk (dh_state h') = announce_in_list now own addr (peers_of cpk s) ∧
        sends = (λ e : entry, SendStoreCommunityPeer e.2 cpk own addr) <$> closest_peers cpk 20 s ∧
        ((length (peers_of cpk s) < K)%nat → ∃ r, r ∈ peers_of cpk (dh_state h') ∧
           cp_node_pk r = own ∧ cp_addr r = addr ∧ cp_announced_at r = now)
    | None =>
        sends = [] ∧ community_peers (dh_state h') = community_peers s ∧
        ∀ addr t t_ns, instant ≤ t → t < instant + ANNOUNCE_COOLDOWN →
          register_community_peer t t_ns cpk (update_self_addr addr h') =
          (update_self_addr addr h', [])
    end
  else h' = h ∧ sends = [].
Proof.
  cbv zeta. unfold register_community_peer at 1, acquire_announce_slot.
  destruct (slot_free _ _ _ _) eqn:Hfree; cbn [negb];
    [|rewrite dh_with_state_id; split_and!; done || (cbn; lia)].
  cbn [self_addr with_last_announce].
  destruct (self_addr (dh_state h)) as [addr|] eqn:Haddr.
  - assert (peers_of cpk (announce_community_peer (unix_now time_ns) cpk (ed_public (dh_identity h)) addr
      (with_last_announce (<[cpk := instant]> (last_announce (dh_state h))) (dh_state h))) =
      announce_in_list (unix_now time_ns) (ed_public (dh_identity h)) addr (peers_of cpk (dh_state h))) as Hp.
    { unfold announce_community_peer, peers_of; cbn. by rewrite lookup_insert_eq. }
    split_and!; [done..| | |exact Hp|done|].
    + rewrite length_fmap. unfold closest_peers. rewrite length_take. unfold PROPAGATE_K. lia.
    + cbn. by rewrite lookup_insert_eq.
    + intros Hlen. cbn [dh_state dh_with_state]. rewrite Hp. by apply announce_in_list_room.
  - split_and!; [done|done|done|cbn; lia|cbn; by rewrite lookup_insert_eq|done|done|].
    intros addr t t_ns Hlo Hhi. unfold register_community_peer, acquire_announce_slot; cbn.
    by rewrite slot_used.
Qed.
End handle_props.

(** What the walk of [find_peer_info] asks, and that it changes the routing table only. *)
Lemma walk_same find_node target s :
  rt_inv s → wf_key target → (∀ e cl m, find_node e = Some (cl, m) → all_wf cl) →
  let '(_, _, _, s') := walk find_node target s in rt_inv s' ∧ same_records s s'.
Proof.
  intros Hs Ht Hreply. unfold walk.
  pose proof (walk_rounds_spec find_node target Ht Hreply MAX_ROUNDS
    (closest_peers target K_SEED s) [] [] s Hs (frontier_seed _ _ _ Hs)) as H.
  destruct (walk_rounds _ _ _ _ _ _ _) as [[[found rest] unused] s'].
  destruct H as (? & ? & _); [done|constructor|by intros ?? []%elem_of_nil|done].
Qed.

Section find_info.
Context {T : Type}.
Context (find_node : entry → option (list entry * option NodeAddr)).
Context (find_info : entry → option PeerInfoRecord) (completion : list entry → list entry).
Context (Hreply : ∀ e cl m, find_node e = Some (cl, m) → all_wf cl).
Context (Hcompletion : ∀ l, completion l ≡ₚ l).
Implicit Types h : DhtHandle T.

(** The peers that are sent [FindPeerInfo]. *)
Definition info_queried (peer_id : bytes) (s : DhtState) : list entry :=
  query_set peer_id (walk find_node peer_id s).1.1.1.

Lemma kademlia_find_peer_info_spec peer_id s :
  rt_inv s → wf_key peer_id →
  let '(res, s') := kademlia_find_peer_info find_node peer_id find_info completion s in
  rt_inv s' ∧ same_records s s' ∧
  match res with
  | Some r => ∃ e, e ∈ info_queried peer_id s ∧ find_info e = Some r
  | None => closest_peers peer_id K_SEED s = [] ∨ ∀ e, e ∈ info_queried peer_id s → find_info e = None
  end.
Proof using Hreply Hcompletion.
  intros Hs Hp. unfold kademlia_find_peer_info.
  destruct (closest_peers peer_id K_SEED s) eqn:Hc; [by split_and!; [|reflexivity|left]|].
  pose proof (walk_same find_node peer_id s Hs Hp Hreply) as Hw. unfold info_queried.
  destruct (walk find_node peer_id s) as [[[found rest] unused] s'].
  destruct Hw as [Hs' Hsame]. cbn [fst]. split_and!; [done|done|].
  destruct (omap find_info (completion (query_set peer_id found))) as [|r rs] eqn:Ho; cbn.
  - right. intros e He. rewrite <- (Hcompletion (query_set peer_id found)) in He.
    destruct (find_info e) as [r|] eqn:Hr; [|done].
    assert (r ∈ omap find_info (completion (query_set peer_id found))) as Hin
      by (apply list_elem_of_omap; eauto).
    rewrite Ho in Hin. by apply elem_of_nil in Hin.
  - assert (r ∈ omap find_info (completion (query_set peer_id found))) as Hin by (rewrite Ho; by left).
    apply list_elem_of_omap in Hin as (e & He & Hr). exists e. split; [|done].
    by rewrite <- (Hcompletion (query_set peer_id found)).
Qed.

(** The lookups keep the routing table well-formed, cut off or not. *)
Lemma find_peer_info_inv timed_out now peer_id h :
  rt_inv (dh_state h) → wf_key peer_id → (∀ s, timed_out = Some s → rt_inv s) →
  rt_inv (dh_state (find_peer_info find_node find_info completion timed_out now peer_id h).2).
Proof using Hreply Hcompletion.
  intros Hs Hp Ht. unfold find_peer_info. destruct (lookup_peer_info _ _ _); [done|].
  destruct timed_out as [s|]; [by apply Ht|].
  pose proof (kademlia_find_peer_info_spec peer_id (dh_state h) Hs Hp) as Hk.
  destruct (kademlia_find_peer_info _ _ _ _ _) as [[r|] s']; apply Hk.
Qed.
Lemma find_mailbox_inv timed_out now pk h :
  rt_inv (dh_state h) → wf_key pk → (∀ s, timed_out = Some s → rt_inv s) →
  rt_inv (dh_state (find_mailbox_peers find_node timed_out now pk h).2).
Proof using Hreply.
  intros Hs Hp Ht. unfold find_mailbox_peers. destruct (lookup_mailbox _ _ _); [done|].
  destruct timed_out as [s|]; [by apply Ht|].
  pose proof (lookup_rt_inv find_node pk now (dh_state h) Hs Hp Hreply) as Hk.
  by destruct (kademlia_lookup _ _ _ _) as [[res s'] asked].
Qed.

(** Looking up a peer's info: a fresh local record is returned with no network
    traffic and no change of state. Otherwise, if the walk is not cut off, the result is a record one of the
    queried peers (the at most 20 nearest found) sent, and it is cached so that the next
    lookup is local while the record is fresh; no result means no peer is known or none
    of the queried peers had a record. Only the routing table and that one record change. *)
Theorem find_peer_info_correct now peer_id h :
  rt_inv (dh_state h) → wf_key peer_id →
  let '(res, h') := find_peer_info find_node find_info completion None now peer_id h in
  rt_inv (dh_state h') ∧
  match lookup_peer_info now peer_id (dh_state h) with
  | Some r => res = Some r ∧ h' = h
  | None =>
      (dh_store h' = dh_store h ∧ mailboxes (dh_state h') = mailboxes (dh_state h) ∧
       community_peers (dh_state h') = community_peers (dh_state h)) ∧
      match res with
      | Some r =>
          (∃ e, e ∈ info_queried peer_id (dh_state h) ∧ find_info e = Some r) ∧
          peer_infos (dh_state h') = <[peer_id := r]> (peer_infos (dh_state h)) ∧
          ∀ later, info_fresh later r = true →
            find_peer_info find_node find_info completion None later peer_id h' = (Some r, h')
      | None =>
          peer_infos (dh_state h') = peer_infos (dh_state h) ∧
          (closest_peers peer_id K_SEED (dh_state h) = [] ∨
           ∀ e, e ∈ info_queried peer_id (dh_state h) → find_info e = None)
      end
  end.
Proof using Hreply Hcompletion.
  intros Hs Hp. unfold find_peer_info at 1.
  destruct (lookup_peer_info now peer_id (dh_state h)) as [r|] eqn:Hl; [done|].
  pose proof (kademlia_find_peer_info_spec peer_id (dh_state h) Hs Hp) as Hk.
  destruct (kademlia_find_peer_info _ _ _ _ _) as [[r|] s']; destruct Hk as (Hs' & Hsame & Hres).
  - split; [done|]. cbn. unfold same_records in Hsame.
    split_and!; [done|by rewrite Hsame|by rewrite Hsame|done|by rewrite Hsame|].
    intros later Hfresh. unfold find_peer_info, lookup_peer_info; cbn.
    by rewrite lookup_insert_eq; cbn; rewrite Hfresh.
  - split; [done|]. cbn. unfold same_records in Hsame.
    split_and!; [done|by rewrite Hsame|by rewrite Hsame|by rewrite Hsame|done].
Qed.
End find_info.

(** ** A concrete DHT node *)

Module DhtExample.
Export NodeExample.
#[export] Instance PeerInfoRecord_countable : Countable PeerInfoRecord.
Proof.
  refine (inj_countable' (λ r, (pi_x25519_pk r, pi_addr r, pi_announced_at r, pi_display_name r))
    (λ p, mkPeerInfo (p.1.1.1) (p.1.1.2) (p.1.2) (p.2)) _).
  by intros [].
Defined.
#[export] Instance codec_info : Postcard PeerInfoRecord := countable_postcard PeerInfoRecord.
#[export] Instance codec_info_laws : PostcardLaws PeerInfoRecord := countable_postcard_laws PeerInfoRecord.
#[export] Instance codec_addr : Postcard NodeAddr := countable_postcard NodeAddr.

Definition ds0 : DhtStore (gmap bytes bytes) := mkDhtStore ∅ ∅ true.
Lemma ds0_ok : ds_ok ds0.
Proof. split; intros k v; cbn; by rewrite lookup_empty. Qed.

Definition rec_a : CommunityPeerRecord := mkPeer (pk 2) (addr_n 2) 5000.
Definition rec_b : CommunityPeerRecord := mkPeer (pk 3) (addr_n 3) 100.
Definition dht1 : DhtState :=
  with_community_peers {[ pk 9 := [rec_a; rec_b] ]} (dht_new (pk 1) None).
Lemma dht1_ok : records_ok dht1.
Proof.
  intros cpk l Hl.
  change ((singletonM (pk 9) [rec_a; rec_b] : gmap bytes (list CommunityPeerRecord)) !! cpk = Some l) in Hl.
  apply lookup_singleton_Some in Hl as [<- <-].
  split_and!; [by apply wf_array_replicate|by apply (bool_decide_unpack _)|].
  intros r. rewrite !elem_of_cons. intros [->|[->|[]%elem_of_nil]]; by apply wf_array_replicate.
Qed.
Definition ds1 : DhtStore (gmap bytes bytes) := persist_tick [(pk 9, [rec_a; rec_b])] ds0.
Lemma ds1_ok : ds_ok ds1 ∧ ds_all_community_peer_records ds1 = Ok [(pk 9, rec_a); (pk 9, rec_b)].
Proof.
  unfold ds1. rewrite persist_tick_flat.
  destruct (persist_all (flatten [(pk 9, [rec_a; rec_b])]) ds0 []) as (rs & Hok & _).
  - intros r. by eexists.
  - apply ds0_ok.
  - vm_refl.
  - repeat constructor; by apply (bool_decide_unpack _).
  - by apply (bool_decide_unpack _).
  - split; [exact Hok|vm_refl].
Qed.
End DhtExample.

Section dht_witnesses.
Import DhtExample.

(** At second 4000, the record of second 100 is past its hour. *)
Lemma expiry_tick_correct_witness :
  let ds' := (expiry_tick 0 (4000 * NANOS) dht1 ds1).2 in
  ds_all_community_peer_records ds' = Ok [(pk 9, rec_a)] ∧ ds_ok ds'.
Proof.
  cbv zeta. split; [vm_refl|].
  apply (expiry_tick_correct 0 (4000 * NANOS) dht1 ds1
    (expiry_tick 0 (4000 * NANOS) dht1 ds1).1 _ [(pk 9, rec_a); (pk 9, rec_b)] []).
  - apply ds1_ok.
  - apply ds1_ok.
  - vm_refl.
  - by destruct (expiry_tick 0 (4000 * NANOS) dht1 ds1).
Defined.

Lemma persist_restart_roundtrip_witness :
  let h := dh_new (pk 1) None [] (persist_tick [(pk 9, [rec_a; rec_b])] ds0) in
  peers_of (pk 9) (dh_state h) = [rec_a; rec_b] ∧ rt_inv (dh_state h).
Proof.
  cbv zeta. split; [vm_refl|].
  apply (persist_restart_roundtrip dht1 [(pk 9, [rec_a; rec_b])] ds0 []).
  - intros r. by eexists.
  - apply dht1_ok.
  - unfold all_community_peers, dht1; cbn [community_peers with_community_peers].
    by rewrite map_to_list_singleton.
  - apply ds0_ok.
  - vm_refl.
  - by apply wf_array_replicate.
Defined.

Definition info_net (e : entry) : option PeerInfoRecord :=
  if decide (e.1 = far_id 2) then Some (mkPeerInfo [7] e.2 10 "bob") else None.
Lemma find_peer_info_correct_witness :
  let h := mkHandle seeded ds0 [] in
  let '(res, h') := find_peer_info chain_net info_net reverse None 0 (key_of 7) h in
  res = Some (mkPeerInfo [7] (addr_n 2) 10 "bob") ∧ rt_inv (dh_state h').
Proof.
  cbv zeta. assert (wf_key (key_of 7)) as Hk by by apply wf_array_replicate.
  pose proof (find_peer_info_correct chain_net info_net reverse chain_net_wf
    (@reverse_Permutation _) 0 (key_of 7) (mkHandle seeded ds0 []) rt_inv_seeded Hk) as Hf.
  destruct (find_peer_info _ _ _ _ _ _ _) as [res h'] eqn:Heq. split; [|apply Hf].
  apply (f_equal fst) in Heq. cbn [fst] in Heq. rewrite <- Heq. vm_refl.
Defined.
End dht_witnesses.
