(* ===== verification/Protocol.v ===== *)
(** * The wire protocol: [bitcord-core/src/network/protocol.rs]

    Requests, responses and pushes, and the framing that carries them: a 4-byte big-endian
    length followed by the [postcard] payload. The reading side of the framing is the one
    of the connection handler ([node/handler.rs], [ConnectionHandler::run]): a stream that
    ends early or announces more than 4 MiB closes the connection. *)

From S2P Require Import Prelude Bytes Routing Crypto Codec Model.

(** ** Messages *)

Inductive ClientRequest :=
  | Authenticate (pk sig_r sig_s nonce : bytes)
  | JoinCommunity (cert : HostingCert) (community_id password : option string)
  | SendMessage (community_pk : bytes) (channel_id : Ulid) (nonce ciphertext : bytes)
  | GetMessages (community_pk : bytes) (channel_id : Ulid) (since_seq : Z)
  | SendDm (recipient_pk : bytes) (envelope : DmEnvelope)
  | GetDms (since_seq : Z)
  | FetchManifest (community_pk : bytes)
  | FindNode (target_id : bytes)
  | StoreDhtRecord (user_pk : bytes) (addr : NodeAddr)
  | Heartbeat
  | Gossip (topic : string) (data : bytes)
  | PushManifest (community_pk : bytes) (manifest : SignedManifest) (channels : list ChannelManifest)
      (channel_keys : gmap string bytes) (members : list MembershipRecord)
  | PushHistory (community_pk : bytes) (channel_id : Ulid) (entries : list LogEntry)
  | StoreCommunityPeer (community_pk node_pk : bytes) (addr : NodeAddr)
  | FindCommunityPeers (community_pk : bytes)
  | StorePeerInfo (peer_id ed25519_pk x25519_pk : bytes) (addr : NodeAddr) (display_name : string)
      (sig_r sig_s : bytes)
  | FindPeerInfo (peer_id : bytes).

Inductive NodeResponse :=
  | Authenticated (pk : bytes)
  | MessageAck (seq : Z)
  | Messages (entries : list LogEntry)
  | DmAck (seq : Z)
  | Dms (entries : list LogEntry)
  | Manifest (manifest : SignedManifest) (channels : list ChannelManifest)
      (channel_keys : gmap string bytes) (members : list MembershipRecord)
  | ClosestPeers (peers : list (bytes * NodeAddr)) (mailbox : option NodeAddr)
  | DhtAck
  | GossipAck
  | PushAck
  | CommunityPeerAck
  | CommunityPeers (records : list CommunityPeerRecord)
  | PeerInfo (x25519_pk : bytes) (addr : NodeAddr) (display_name : string)
  | PeerInfoAck
  | Error (code : Z) (msg : string).

Inductive NodePush :=
  | NewMessagePush (channel_id : Ulid) (entry : LogEntry)
  | NewDm (entry : LogEntry) (recipient_pk : bytes)
  | PresencePush (user_pk : bytes) (status : Z)
  | GossipMessage (topic source : string) (data : bytes).

(** ** Framing *)

Inductive frame_error := EncodeFailed | PayloadTooLarge | DecodeFailed.

Definition encode_frame {A} `{Postcard A} (value : A) : result frame_error bytes :=
  payload ← ok_or EncodeFailed (to_allocvec value);
  let len := Z.of_nat (length payload) in
  if len <=? U32_MAX then Ok (be_bytes 4 len ++ payload) else Err PayloadTooLarge.

Definition decode_payload {A} `{Postcard A} (payload : bytes) : result frame_error A :=
  ok_or DecodeFailed (from_bytes payload).

(** What the request loop makes of the bytes of one stream. *)
Definition MAX_REQUEST : Z := 4 * 1024 * 1024.

Inductive ReadOutcome (A : Type) :=
  | CloseConnection
  | SkipStream
  | GotRequest (req : A).
Arguments CloseConnection {A}.
Arguments SkipStream {A}.
Arguments GotRequest {A}.

Definition read_exact (n : nat) (stream : bytes) : option (bytes * bytes) :=
  if (length stream <? n)%nat then None else Some (take n stream, drop n stream).

Definition read_request {A} `{Postcard A} (stream : bytes) : ReadOutcome A :=
  match read_exact 4 stream with
  | None => CloseConnection
  | Some (len_buf, rest) =>
      let len := of_be len_buf in
      if MAX_REQUEST <? len then CloseConnection
      else
        match read_exact (Z.to_nat len) rest with
        | None => CloseConnection
        | Some (payload, _) =>
            match decode_payload payload with
            | Ok r => GotRequest r
            | Err _ => SkipStream
            end
        end
  end.

Lemma read_exact_app n a b : length a = n → read_exact n (a ++ b) = Some (a, b).
Proof.
  intros <-. unfold read_exact. rewrite length_app.
  assert ((length a + length b <? length a)%nat = false) as -> by (apply Nat.ltb_ge; lia).
  by rewrite take_app_length, drop_app_length.
Qed.

Section framing.
Context {A : Type} `{PostcardLaws A}.

Lemma encode_frame_spec (a : A) f :
  encode_frame a = Ok f ↔
  ∃ payload, to_allocvec a = Some payload ∧ Z.of_nat (length payload) ≤ U32_MAX ∧
             f = be_bytes 4 (Z.of_nat (length payload)) ++ payload.
Proof using Type.
  unfold encode_frame. rewrite result_bind_ok. split.
  - intros (p & Hp & Hf). apply ok_or_ok in Hp. destruct (Z.leb_spec (Z.of_nat (length p)) U32_MAX); [|done].
    injection Hf as <-. by exists p.
  - intros (p & Hp & Hl & ->). exists p. rewrite ok_or_ok. split; [done|].
    by destruct (Z.leb_spec (Z.of_nat (length p)) U32_MAX); [|lia].
Qed.

(** The length prefix, and the request behind it. *)
Lemma frame_len (payload : bytes) : Z.of_nat (length payload) ≤ U32_MAX → of_be (be_bytes 4 (Z.of_nat (length payload))) = Z.of_nat (length payload).
Proof using Type.
  intros Hlen. apply of_be_be_bytes_small. unfold U32_MAX in Hlen. change (256 ^ Z.of_nat 4) with (2 ^ 32). lia.
Qed.
Lemma read_request_frame (a : A) payload rest :
  to_allocvec a = Some payload → Z.of_nat (length payload) ≤ MAX_REQUEST →
  read_request (be_bytes 4 (Z.of_nat (length payload)) ++ payload ++ rest) = GotRequest a.
Proof using Type*.
  intros Hp Hmax. unfold read_request. rewrite (read_exact_app 4) by apply length_be_bytes.
  rewrite frame_len by (unfold MAX_REQUEST, U32_MAX in *; lia).
  destruct (Z.ltb_spec MAX_REQUEST (Z.of_nat (length payload))); [lia|].
  rewrite read_exact_app by lia. unfold decode_payload. by rewrite (postcard_roundtrip a payload Hp).
Qed.

(** A frame is read back as the value it carries, whatever follows it on the stream:
    its first four bytes are the payload's length in big-endian order, a value that
    serialises to at most 4 MiB comes back as the request, and a frame that announces
    more than that closes the connection before anything is decoded. A stream cut inside
    the frame closes the connection too. *)
Theorem frame_roundtrip (a : A) f rest :
  encode_frame a = Ok f →
  ∃ payload, to_allocvec a = Some payload ∧ length f = (4 + length payload)%nat ∧
    of_be (take 4 f) = Z.of_nat (length payload) ∧
    (Z.of_nat (length payload) ≤ MAX_REQUEST → read_request (f ++ rest) = GotRequest a) ∧
    (MAX_REQUEST < Z.of_nat (length payload) → read_request (A := A) (f ++ rest) = CloseConnection) ∧
    (∀ n, (n < length f)%nat → read_request (A := A) (take n f) = CloseConnection).
Proof using Type*.
  intros (payload & Hp & Hlen & ->)%encode_frame_spec. exists payload.
  set (len := Z.of_nat (length payload)) in *.
  assert (length (be_bytes 4 len) = 4%nat) as H4 by apply length_be_bytes.
  pose proof (frame_len payload Hlen) as Hlen'. fold len in Hlen'.
  split_and!; [done|by rewrite length_app, H4|by rewrite take_app_length'|..].
  - intros Hmax. rewrite <- app_assoc. by apply read_request_frame.
  - intros Hmax. unfold read_request. rewrite <- app_assoc, (read_exact_app 4) by done.
    rewrite Hlen'. by destruct (Z.ltb_spec MAX_REQUEST len); [|lia].
  - intros n Hn. rewrite length_app, H4 in Hn. unfold read_request, read_exact at 1.
    rewrite length_take, length_app, H4.
    destruct (Nat.ltb_spec (n `min` (4 + length payload)) 4) as [|Hge]; [done|].
    rewrite take_take, Nat.min_l, take_app_length' by lia. rewrite Hlen'.
    destruct (Z.ltb_spec MAX_REQUEST len); [done|]. unfold read_exact.
    rewrite length_drop, length_take, length_app, H4.
    by destruct (Nat.ltb_spec (n `min` (4 + length payload) - 4) (Z.to_nat len)); [|lia].
Qed.
End framing.

Section frame_witness.
#[local] Instance codec : Postcard (list Z) := countable_postcard (list Z).
#[local] Instance codec_laws : PostcardLaws (list Z) := countable_postcard_laws (list Z).

Definition frame123 : bytes := match encode_frame [1; 2; 3] with Ok f => f | Err _ => [] end.
Lemma frame_roundtrip_witness :
  read_request (frame123 ++ [9; 9]) = GotRequest [1; 2; 3] ∧
  ∃ p : bytes, of_be (take 4 frame123) = Z.of_nat (length p) ∧ length frame123 = (4 + length p)%nat.
Proof.
  split; [vm_compute; reflexivity|].
  destruct (frame_roundtrip [1; 2; 3] frame123 [9; 9]) as (p & _ & Hl & Ho & _);
    [vm_compute; reflexivity|]. exists p. by split.
Defined.
End frame_witness.
