(* ===== verification/Handler.v ===== *)
(** * The request handler: [bitcord-core/src/node/handler.rs]

    One connection's session, the push relay's filter, and the whole of
    [ConnectionHandler::dispatch]: a request takes the session and the node's services to
    a response, a new session and new services, and a list of effects on the rest of the
    node (broadcast pushes, commands to the network task, spawned tasks) in the order the
    code produces them. The request loop handles the streams of a connection one at a
    time, so a request is one step. *)

From S2P Require Import Prelude Bytes Redb SeqLog Routing Kademlia Crypto Codec Model Store DhtNode Protocol.

(** The textual form of a ULID and of the errors, produced by third-party formatters. *)
Class UlidText := { ulid_to_string : Ulid → string }.
Class UlidTextLaws `{UlidText} : Prop :=
  { ulid_to_string_inj a b : is_u128 a → is_u128 b → ulid_to_string a = ulid_to_string b → a = b }.
Class ErrorText := { store_error_text : store_error → string; cert_error_text : crypto_error → string }.

(** ** State *)

Record ClientSession := mkSession { client_pk : option bytes; joined_communities : list bytes }.
Definition session_new : ClientSession := mkSession None [].
Definition is_authenticated (s : ClientSession) : bool :=
  match client_pk s with Some _ => true | None => false end.
Definition has_joined (cpk : bytes) (s : ClientSession) : bool := bool_decide (cpk ∈ joined_communities s).
Definition current_community (s : ClientSession) : option bytes := head (joined_communities s).

Record NodeServices (T : Type) := mkServices {
  sv_store : NodeStore T;
  sv_dht : option (DhtHandle T);
  sv_node_pk : bytes;
  sv_join_password : option string }.
Arguments mkServices {T}.
Arguments sv_store {T}.
Arguments sv_dht {T}.
Arguments sv_node_pk {T}.
Arguments sv_join_password {T}.

Inductive Effect :=
  | Push (community_filter : option bytes) (push : NodePush)
  | NotifyCommunityJoined (community_pk : bytes) (community_id : string)
  | SpawnRegisterMailbox (user_pk : bytes).

(** Clock readings and randomness of one request. *)
Record Env := mkEnv {
  ev_rnd : nat → bytes;      (* at-rest nonces, in the order they are drawn *)
  ev_time_ns : Z;            (* SystemTime::now, Utc::now *)
  ev_instant : Z;            (* Instant::now *)
  ev_ulid : Ulid;            (* Ulid::new *)
  ev_ephem : Ulid → bytes;   (* the ephemeral secret and nonce of each wrapped key *)
  ev_nonce : Ulid → bytes }.

(** The push relay: the filter evaluated for one connection. *)
Definition should_send (community_filter : option bytes) (s : ClientSession) : bool :=
  match community_filter with
  | Some cpk => has_joined cpk s
  | None => is_authenticated s
  end.
Definition push_relay `{Postcard NodePush} (s : ClientSession) (community_filter : option bytes)
    (push : NodePush) : option bytes :=
  if should_send community_filter s then result_ok (encode_frame push) else None.

Definition is_continuation (c : Ascii.ascii) : bool := Nat.eqb (Nat.div (Ascii.nat_of_ascii c) 64) 2.

(** [s.chars().take(n).collect()] on UTF-8 bytes: a continuation byte [10xxxxxx] belongs to
    the character before it. *)
Fixpoint take_chars (n : nat) (s : string) : string :=
  match s with
  | EmptyString => EmptyString
  | String c s' =>
      if is_continuation c then String c (take_chars n s')
      else match n with O => EmptyString | S n' => String c (take_chars n' s') end
  end.

(** ** Dispatch *)

Section handler.
Context {T : Type} `{Crypto} `{Table T} `{NodeCodecs} `{HashOrder} `{UlidText} `{ErrorText}.
Context `{Postcard PeerInfoRecord} `{Postcard NodeAddr} `{Postcard NetworkEvent}.

Notation Services := (NodeServices T).

Definition Outcome : Type := NodeResponse * ClientSession * Services * list Effect.

Definition err (code : Z) (msg : string) : NodeResponse := Error code msg.
Definition answer (sess : ClientSession) (sv : Services) (resp : NodeResponse) : Outcome :=
  (resp, sess, sv, []).

Definition with_store (st : NodeStore T) (sv : Services) : Services :=
  mkServices st (sv_dht sv) (sv_node_pk sv) (sv_join_password sv).
Definition with_dht (d : DhtHandle T) (sv : Services) : Services :=
  mkServices (sv_store sv) (Some d) (sv_node_pk sv) (sv_join_password sv).
Definition map_dht (f : DhtHandle T → DhtHandle T) (sv : Services) : Services :=
  match sv_dht sv with Some d => with_dht (f d) sv | None => sv end.

(** [Result<Option<_>>::unwrap_or(None)]. *)
Definition meta_or_none (cpk : bytes) (st : NodeStore T) : option CommunityMeta :=
  match get_community_meta cpk st with Ok m => m | Err _ => None end.
Definition member_with_key (pk : bytes) (meta : CommunityMeta) : option MembershipRecord :=
  find_by (λ m, bool_decide (mr_public_key m = pk)) (hash_order (meta_members meta)).*2.
Definition now_ms (ev : Env) : Z := ev_time_ns ev / 1000000.

(** *** Authentication and membership *)

Definition handle_authenticate (pk sig_r sig_s nonce : bytes) (sess : ClientSession) (node_pk : bytes)
    : NodeResponse * ClientSession :=
  if ed_valid_key pk then
    if ed_verify_strict pk nonce (sig_r ++ sig_s)
    then (Authenticated node_pk, mkSession (Some pk) (joined_communities sess))
    else (err 401 "signature verification failed", sess)
  else (err 400 "invalid public key", sess).

Definition dispatch_authenticate (remote_addr : NodeAddr) (pk sig_r sig_s nonce : bytes)
    (sess : ClientSession) (sv : Services) : Outcome :=
  let '(resp, sess) := handle_authenticate pk sig_r sig_s nonce sess (sv_node_pk sv) in
  match resp with
  | Authenticated _ => (resp, sess, map_dht (add_known_peer pk remote_addr) sv, [])
  | _ => (resp, sess, sv, [])
  end.

Definition is_known_member (cert : HostingCert) (sess : ClientSession) (sv : Services) : bool :=
  match meta_or_none (cert_community_pk cert) (sv_store sv), client_pk sess with
  | Some meta, Some pk => match member_with_key pk meta with Some _ => true | None => false end
  | _, _ => false
  end.

(** The checks for a client that is not a known member: password, pinning, signature and
    expiry; [None] when it may join. *)
Definition refuse_cert (ev : Env) (cert : HostingCert) (provided required : option string)
    (node_pk : bytes) : option NodeResponse :=
  if match required with
     | Some r => negb (bool_decide (default ""%string provided = r))
     | None => false
     end
  then Some (err 403 "invalid node join password")
  else if negb (bool_decide (cert_node_pk cert = node_pk))
  then Some (err 403 "hosting cert node_pk does not match this node's identity")
  else
    match cert_verify (unix_now (ev_time_ns ev)) cert (cert_community_pk cert) with
    | Ok _ => None
    | Err e => Some (err 403 ("not a member and hosting cert invalid: " ++ cert_error_text e))
    end.

Definition new_meta (cert : HostingCert) : CommunityMeta := mkMeta cert None [] ∅ ∅.

(** Metadata is written only when the community is new. *)
Definition store_new_meta (rnd : bytes) (cert : HostingCert) (st : NodeStore T) : NodeStore T :=
  match meta_or_none (cert_community_pk cert) st with
  | Some _ => st
  | None =>
      match set_community_meta rnd (cert_community_pk cert) (new_meta cert) st with
      | Ok st' => st'
      | Err _ => st
      end
  end.

Definition handle_join_community (ev : Env) (cert : HostingCert)
    (community_id provided_password : option string) (sess : ClientSession) (sv : Services) : Outcome :=
  let cpk := cert_community_pk cert in
  let is_member := is_known_member cert sess sv in
  if negb (ed_valid_key cpk) then answer sess sv (err 400 "invalid community public key in cert")
  else
    match (if is_member then None
           else refuse_cert ev cert provided_password (sv_join_password sv) (sv_node_pk sv)) with
    | Some refusal => answer sess sv refusal
    | None =>
        let sv' := with_store (store_new_meta (ev_rnd ev 0%nat) cert (sv_store sv)) sv in
        let is_new_join := negb (has_joined cpk sess) in
        let sess' :=
          if is_new_join then mkSession (client_pk sess) (joined_communities sess ++ [cpk]) else sess in
        let effects :=
          match community_id with
          | Some id => if is_new_join then [NotifyCommunityJoined cpk id] else []
          | None => []
          end in
        (Authenticated (sv_node_pk sv), sess', sv', effects)
    end.

(** *** Channel messages *)

Definition handle_send_message (ev : Env) (cpk : bytes) (channel_id : Ulid)
    (nonce ciphertext : bytes) (sess : ClientSession) (sv : Services) : Outcome :=
  let author_id := default ""%string (hex <$> client_pk sess) in
  let message_id := ulid_to_string (ev_ulid ev) in
  let timestamp_ms := now_ms ev in
  match append_message (ev_rnd ev 0%nat) cpk channel_id nonce ciphertext message_id author_id
          timestamp_ms (sv_store sv) with
  | Err e => answer sess sv (err 500 (store_error_text e))
  | Ok (seq, st) =>
      let entry := mkLogEntry seq nonce ciphertext message_id author_id timestamp_ms false in
      (MessageAck seq, sess, with_store st sv, [Push (Some cpk) (NewMessagePush channel_id entry)])
  end.

(** The two guards of the channel requests. *)
Definition channel_guard (cpk : bytes) (sess : ClientSession) : option NodeResponse :=
  if negb (is_authenticated sess) then Some (err 401 "not authenticated")
  else if negb (has_joined cpk sess)
  then Some (err 403 "not a member of this community on this session")
  else None.

Definition dispatch_get_messages (cpk : bytes) (channel_id : Ulid) (since_seq : Z)
    (sess : ClientSession) (sv : Services) : Outcome :=
  match get_messages cpk channel_id since_seq (sv_store sv) with
  | Ok entries => answer sess sv (Messages entries)
  | Err e => answer sess sv (err 500 (store_error_text e))
  end.

(** *** Direct messages *)

Definition dispatch_send_dm (ev : Env) (recipient_pk : bytes) (envelope : DmEnvelope)
    (sess : ClientSession) (sv : Services) : Outcome :=
  match client_pk sess with
  | None => answer sess sv (err 401 "not authenticated")
  | Some sender_pk =>
      match append_dm (ev_rnd ev 0%nat) (now_ms ev) (ulid_to_string (ev_ulid ev)) recipient_pk sender_pk
              envelope (sv_store sv) with
      | Err e => answer sess sv (err 500 (store_error_text e))
      | Ok (seq, st) =>
          let spawned := match sv_dht sv with Some _ => [SpawnRegisterMailbox recipient_pk] | None => [] end in
          let pushed :=
            match get_dms recipient_pk seq st with
            | Ok (entry :: _) => [Push None (NewDm entry recipient_pk)]
            | _ => []
            end in
          (DmAck seq, sess, with_store st sv, spawned ++ pushed)
      end
  end.

Definition dispatch_get_dms (since_seq : Z) (sess : ClientSession) (sv : Services) : Outcome :=
  match client_pk sess with
  | None => answer sess sv (err 401 "not authenticated")
  | Some pk =>
      match get_dms pk since_seq (sv_store sv) with
      | Ok entries => answer sess sv (Dms entries)
      | Err e => answer sess sv (err 500 (store_error_text e))
      end
  end.

(** *** Manifests *)

Definition wrap_channel (ev : Env) (client_crypto : option (bytes * bytes))
    (stored_keys : gmap string bytes) (ch : ChannelManifest) : ChannelManifest :=
  match client_crypto with
  | None => ch
  | Some (uid, x25519_pk) =>
      match stored_keys !! ulid_to_string (ch_id ch) with
      | None => ch
      | Some key_bytes =>
          if (length key_bytes =? 32)%nat then
            match encrypt_for_member key_bytes (ev_ephem ev (ch_id ch)) (ev_nonce ev (ch_id ch)) x25519_pk with
            | Ok wrapped =>
                mkChannel (ch_id ch) (ch_community_id ch) (ch_name ch) (ch_kind ch)
                  (<[uid := wrapped]> (ch_encrypted_channel_key ch)) (ch_created_at ch) (ch_version ch)
            | Err _ => ch
            end
          else ch
      end
  end.

Definition is_live (manifest : SignedManifest) (ch : ChannelManifest) : bool :=
  bool_decide (ulid_to_string (ch_id ch) ∈ ulid_to_string <$> cm_channel_ids (sm_manifest manifest)).

Definition dispatch_fetch_manifest (ev : Env) (cpk : bytes) (sess : ClientSession) (sv : Services)
    : Outcome :=
  if negb (is_authenticated sess) then answer sess sv (err 401 "not authenticated")
  else
    match get_community_meta cpk (sv_store sv) with
    | Err e => answer sess sv (err 500 (store_error_text e))
    | Ok None => answer sess sv (err 404 "community not found")
    | Ok (Some meta) =>
        match meta_manifest meta with
        | None => answer sess sv (err 404 "community manifest not found on this node")
        | Some manifest =>
            let client_crypto :=
              pk ← client_pk sess; m ← member_with_key pk meta;
              Some (mr_user_id m, mr_x25519_public_key m) in
            let channels := wrap_channel ev client_crypto (meta_channel_keys meta)
                              <$> retain (is_live manifest) (meta_channels meta) in
            answer sess sv (Manifest manifest channels ∅ (hash_order (meta_members meta)).*2)
        end
    end.

Definition zero_cert (cpk node_pk : bytes) : HostingCert := mkCert cpk node_pk U64_MAX (replicate 64 0).

Definition push_guard (cpk : bytes) (sess : ClientSession) : bool :=
  is_authenticated sess && has_joined cpk sess.

Definition dispatch_push_manifest (ev : Env) (cpk : bytes) (manifest : SignedManifest)
    (channels : list ChannelManifest) (channel_keys : gmap string bytes)
    (members : list MembershipRecord) (sess : ClientSession) (sv : Services) : Outcome :=
  if negb (push_guard cpk sess)
  then answer sess sv (err 403 "not authenticated or not joined to this community")
  else
    let meta := default (mkMeta (zero_cert cpk (sv_node_pk sv)) None [] ∅ ∅)
                  (meta_or_none cpk (sv_store sv)) in
    let members' := foldl (λ acc m, <[hex (mr_user_id m) := m]> acc) ∅ members in
    let meta' := mkMeta (meta_cert meta) (Some manifest) channels channel_keys members' in
    match set_community_meta (ev_rnd ev 0%nat) cpk meta' (sv_store sv) with
    | Err e => answer sess sv (err 500 ("failed to store community meta: " ++ store_error_text e))
    | Ok st => answer sess (with_store st sv) PushAck
    end.

(** [let _ = append_message(...)]: an entry that cannot be stored is dropped. *)
Definition push_entry (rnd : bytes) (cpk : bytes) (channel_id : Ulid) (entry : LogEntry)
    (st : NodeStore T) : NodeStore T :=
  match append_message rnd cpk channel_id (le_nonce entry) (le_ciphertext entry) (le_message_id entry)
          (le_author_id entry) (le_timestamp_ms entry) st with
  | Ok (_, st') => st'
  | Err _ => st
  end.
Fixpoint push_entries (rnd : nat → bytes) (cpk : bytes) (channel_id : Ulid) (entries : list LogEntry)
    (st : NodeStore T) : NodeStore T :=
  match entries with
  | [] => st
  | entry :: entries =>
      push_entries (λ i, rnd (S i)) cpk channel_id entries (push_entry (rnd 0%nat) cpk channel_id entry st)
  end.
Definition dispatch_push_history (ev : Env) (cpk : bytes) (channel_id : Ulid) (entries : list LogEntry)
    (sess : ClientSession) (sv : Services) : Outcome :=
  if negb (push_guard cpk sess)
  then answer sess sv (err 403 "not authenticated or not joined to this community")
  else answer sess (with_store (push_entries (ev_rnd ev) cpk channel_id entries (sv_store sv)) sv) PushAck.

(** *** DHT requests *)

Definition dispatch_find_node (ev : Env) (target_id : bytes) (sess : ClientSession) (sv : Services)
    : Outcome :=
  match sv_dht sv with
  | Some dht =>
      answer sess sv (ClosestPeers (closest_peers target_id 20 (dh_state dht))
                        (lookup_mailbox (ev_instant ev) target_id (dh_state dht)))
  | None => answer sess sv (ClosestPeers [] None)
  end.

Definition on_state (f : DhtState → DhtState) (h : DhtHandle T) : DhtHandle T :=
  dh_with_state (f (dh_state h)) h.

Definition dispatch_store_community_peer (ev : Env) (cpk node_pk : bytes) (addr : NodeAddr)
    (sess : ClientSession) (sv : Services) : Outcome :=
  let record := mkPeer node_pk addr (unix_now (ev_time_ns ev)) in
  answer sess (map_dht (on_state (add_community_peer_record cpk record)) sv) CommunityPeerAck.

Definition dispatch_find_community_peers (ev : Env) (cpk : bytes) (sess : ClientSession) (sv : Services)
    : Outcome :=
  answer sess sv
    (CommunityPeers
       match sv_dht sv with
       | Some dht => lookup_community_peers (unix_now (ev_time_ns ev)) cpk (dh_state dht)
       | None => []
       end).

Definition stored_info_msg (peer_id x25519_pk : bytes) (addr : NodeAddr) : bytes :=
  peer_id ++ x25519_pk ++ default [] (to_allocvec addr).

Definition dispatch_store_peer_info (ev : Env) (peer_id ed25519_pk x25519_pk : bytes) (addr : NodeAddr)
    (display_name : string) (sig_r sig_s : bytes) (sess : ClientSession) (sv : Services) : Outcome :=
  if negb (bool_decide (sha256 ed25519_pk = peer_id))
  then answer sess sv (err 400 "peer_id does not match ed25519_pk")
  else if negb (ed_valid_key ed25519_pk) then answer sess sv (err 400 "invalid ed25519_pk")
  else if negb (ed_verify_strict ed25519_pk (stored_info_msg peer_id x25519_pk addr) (sig_r ++ sig_s))
  then answer sess sv (err 400 "invalid peer info signature")
  else
    let record := mkPeerInfo x25519_pk addr (unix_now (ev_time_ns ev)) (take_chars 64 display_name) in
    answer sess (map_dht (on_state (add_peer_info_record peer_id record)) sv) PeerInfoAck.

Definition dispatch_find_peer_info (ev : Env) (peer_id : bytes) (sess : ClientSession) (sv : Services)
    : Outcome :=
  answer sess sv
    match (dht ← sv_dht sv; lookup_peer_info (unix_now (ev_time_ns ev)) peer_id (dh_state dht)) with
    | Some rec => PeerInfo (pi_x25519_pk rec) (pi_addr rec) (pi_display_name rec)
    | None => err 404 "peer not found"
    end.

(** *** Gossip *)

Fixpoint find_channel_owner (channel : Ulid) (community_pks : list bytes) (st : NodeStore T)
    : option bytes :=
  match community_pks with
  | [] => None
  | cpk :: cpks =>
      match meta_or_none cpk st with
      | Some meta =>
          if any (λ c, ch_id c =? channel) (meta_channels meta) then Some cpk
          else find_channel_owner channel cpks st
      | None => find_channel_owner channel cpks st
      end
  end.

Definition persist_gossip (rnd : bytes) (topic : string) (data : bytes) (st : NodeStore T)
    : NodeStore T :=
  if String.prefix "/bitcord/channel/" topic then
    match from_bytes (A := NetworkEvent) data with
    | Some (NewMessage msg) =>
        match all_communities st with
        | Ok community_pks =>
            match find_channel_owner (rm_channel_id msg) community_pks st with
            | Some cpk =>
                match append_message rnd cpk (rm_channel_id msg) (rm_nonce msg) (rm_ciphertext msg)
                        (ulid_to_string (rm_id msg)) (hex (rm_author_id msg))
                        (timestamp_millis (rm_timestamp msg)) st with
                | Ok (_, st') => st'
                | Err _ => st
                end
            | None => st
            end
        | Err _ => st
        end
    | _ => st
    end
  else st.

Definition dispatch_gossip (ev : Env) (topic : string) (data : bytes) (sess : ClientSession)
    (sv : Services) : Outcome :=
  match client_pk sess with
  | None => answer sess sv (err 401 "not authenticated")
  | Some pk =>
      (GossipAck, sess, with_store (persist_gossip (ev_rnd ev 0%nat) topic data (sv_store sv)) sv,
       [Push None (GossipMessage topic (hex pk) data)])
  end.

(** *** The dispatcher *)

Definition dispatch (ev : Env) (remote_addr : NodeAddr) (req : ClientRequest) (sess : ClientSession)
    (sv : Services) : Outcome :=
  match req with
  | Authenticate pk sig_r sig_s nonce => dispatch_authenticate remote_addr pk sig_r sig_s nonce sess sv
  | JoinCommunity cert community_id password =>
      if negb (is_authenticated sess) then answer sess sv (err 401 "not authenticated")
      else handle_join_community ev cert community_id password sess sv
  | SendMessage cpk channel_id nonce ciphertext =>
      match channel_guard cpk sess with
      | Some refusal => answer sess sv refusal
      | None => handle_send_message ev cpk channel_id nonce ciphertext sess sv
      end
  | GetMessages cpk channel_id since_seq =>
      match channel_guard cpk sess with
      | Some refusal => answer sess sv refusal
      | None => dispatch_get_messages cpk channel_id since_seq sess sv
      end
  | SendDm recipient_pk envelope => dispatch_send_dm ev recipient_pk envelope sess sv
  | GetDms since_seq => dispatch_get_dms since_seq sess sv
  | FetchManifest cpk => dispatch_fetch_manifest ev cpk sess sv
  | FindNode target_id => dispatch_find_node ev target_id sess sv
  | StoreDhtRecord user_pk addr =>
      answer sess (map_dht (on_state (add_mailbox_record (ev_instant ev) user_pk addr)) sv) DhtAck
  | StoreCommunityPeer cpk node_pk addr => dispatch_store_community_peer ev cpk node_pk addr sess sv
  | FindCommunityPeers cpk => dispatch_find_community_peers ev cpk sess sv
  | StorePeerInfo peer_id ed25519_pk x25519_pk addr display_name sig_r sig_s =>
      dispatch_store_peer_info ev peer_id ed25519_pk x25519_pk addr display_name sig_r sig_s sess sv
  | FindPeerInfo peer_id => dispatch_find_peer_info ev peer_id sess sv
  | Heartbeat => answer sess sv (Authenticated (sv_node_pk sv))
  | Gossip topic data => dispatch_gossip ev topic data sess sv
  | PushManifest cpk manifest channels channel_keys members =>
      dispatch_push_manifest ev cpk manifest channels channel_keys members sess sv
  | PushHistory cpk channel_id entries => dispatch_push_history ev cpk channel_id entries sess sv
  end.

(** The request loop over the streams a client opens: the response frames, in order. A
    malformed request is skipped without an answer; a short or oversized one, or a
    response that does not encode, ends the connection. *)
Fixpoint run `{Postcard ClientRequest} `{Postcard NodeResponse} (remote_addr : NodeAddr)
    (streams : list (Env * bytes)) (sess : ClientSession) (sv : Services)
    : list bytes * ClientSession * Services * list Effect :=
  match streams with
  | [] => ([], sess, sv, [])
  | (ev, stream) :: streams =>
      match read_request (A := ClientRequest) stream with
      | CloseConnection => ([], sess, sv, [])
      | SkipStream => run remote_addr streams sess sv
      | GotRequest req =>
          let '(resp, sess, sv, effects) := dispatch ev remote_addr req sess sv in
          match encode_frame resp with
          | Ok frame =>
              let '(frames, sess, sv, effects') := run remote_addr streams sess sv in
              (frame :: frames, sess, sv, effects ++ effects')
          | Err _ => ([], sess, sv, effects)
          end
      end
  end.
End handler.

(** ** Access control *)

Section access.
Context {T : Type} `{Crypto} `{Table T} `{NodeCodecs} `{HashOrder} `{UlidText} `{ErrorText}.
Context `{Postcard PeerInfoRecord} `{Postcard NodeAddr} `{Postcard NetworkEvent}.
Implicit Types sv : NodeServices T.






(** A signed nonce carries nothing of the connection or of the node it was made for: a
    request that authenticates once authenticates on every connection of every node. *)
Lemma authenticate_replayable pk sig_r sig_s nonce sess node_pk :
  (handle_authenticate pk sig_r sig_s nonce sess node_pk).1 = Authenticated node_pk →
  ∀ sess' node_pk',
    handle_authenticate pk sig_r sig_s nonce sess' node_pk' =
    (Authenticated node_pk', mkSession (Some pk) (joined_communities sess')).
Proof.
  unfold handle_authenticate. destruct (ed_valid_key pk); [|done].
  by destruct (ed_verify_strict pk nonce (sig_r ++ sig_s)).
Qed.

(** Authenticating again as another key keeps the communities joined with the first. *)
Lemma reauthentication_keeps_memberships pk sig_r sig_s nonce sess node_pk :
  joined_communities (handle_authenticate pk sig_r sig_s nonce sess node_pk).2 =
  joined_communities sess.
Proof.
  unfold handle_authenticate. destruct (ed_valid_key pk); [|done].
  by destruct (ed_verify_strict pk nonce (sig_r ++ sig_s)).
Qed.

(** The push for a direct message passes the filter of every authenticated connection,
    whoever the recipient is. *)
Lemma dm_push_reaches_everyone ev addr recipient env sess sv seq sess' sv' effects filter push :
  dispatch ev addr (SendDm recipient env) sess sv = (DmAck seq, sess', sv', effects) →
  Push filter push ∈ effects → ∀ other, is_authenticated other = true → should_send filter other = true.
Proof.
  cbn. unfold dispatch_send_dm. destruct (client_pk sess); [|done].
  destruct (append_dm _ _ _ _ _ _ _) as [[n st]|]; [|done]. intros [= <- <- <- <-] Hin other Ho.
  apply elem_of_app in Hin as [Hin|Hin].
  - destruct (sv_dht sv); [|by apply elem_of_nil in Hin]. by apply list_elem_of_singleton in Hin.
  - destruct (get_dms _ _ _) as [[|e es]|]; try (by apply elem_of_nil in Hin).
    apply list_elem_of_singleton in Hin as [= -> ->]. done.
Qed.
End access.

(** ** Invariants *)

Definition sess_inv (sess : ClientSession) : Prop :=
  NoDup (joined_communities sess) ∧ (joined_communities sess ≠ [] → is_authenticated sess = true).

(** What the types of the wire guarantee of a request: keys are 32-byte arrays. *)
Definition req_wf (req : ClientRequest) : Prop :=
  match req with
  | Authenticate pk _ _ _ => wf_key pk
  | JoinCommunity cert _ _ => wf_key (cert_community_pk cert)
  | SendMessage cpk ch _ _ => wf_key cpk ∧ is_u128 ch
  | GetMessages cpk ch since => wf_key cpk ∧ is_u128 ch ∧ is_u64 since
  | SendDm recipient _ => wf_key recipient
  | PushManifest cpk _ _ _ _ => wf_key cpk
  | PushHistory cpk ch _ => wf_key cpk ∧ is_u128 ch
  | _ => True
  end.
Definition env_wf (ev : Env) : Prop := ∀ i, length (ev_rnd ev i) = 24%nat.

Section invariants.
Context {T : Type} `{CryptoLaws} `{TableLaws T} `{NodeCodecsLaws} `{HashOrderLaws} `{UlidText} `{ErrorText}.
Context `{Postcard PeerInfoRecord} `{Postcard NodeAddr} `{Postcard NetworkEvent}.
Implicit Types sv : NodeServices T.
Implicit Types st : NodeStore T.

Definition sv_inv sv : Prop :=
  store_inv (sv_store sv) ∧ ∀ h, sv_dht sv = Some h → rt_inv (dh_state h).

Lemma sv_inv_with_store st sv : sv_inv sv → store_inv st → sv_inv (with_store st sv).
Proof. intros [_ Hd] Hst. by split. Qed.
Lemma sv_inv_map_dht f sv :
  sv_inv sv → (∀ h, rt_inv (dh_state h) → rt_inv (dh_state (f h))) → sv_inv (map_dht f sv).
Proof.
  intros [Hst Hd] Hf. unfold map_dht. destruct (sv_dht sv) as [h|] eqn:Hh; [|by split; rewrite ?Hh].
  split; [done|]. intros h' [= <-]. by apply Hf, Hd.
Qed.

Lemma meta_or_none_some cpk st m : meta_or_none cpk st = Some m ↔ get_community_meta cpk st = Ok (Some m).
Proof. unfold meta_or_none. destruct (get_community_meta cpk st) as [[?|]|]; naive_solver. Qed.

Lemma member_with_key_spec pk meta m :
  member_with_key pk meta = Some m →
  mr_public_key m = pk ∧ ∃ k, meta_members meta !! k = Some m.
Proof using Type*.
  intros Hm. apply find_by_Some in Hm as [Hin Hk]. apply bool_decide_eq_true in Hk. split; [done|].
  apply list_elem_of_fmap in Hin as ([k m'] & -> & Hin). exists k.
  rewrite hash_order_perm in Hin. by apply elem_of_map_to_list in Hin.
Qed.

Lemma store_new_meta_inv rnd cert st :
  store_inv st → wf_key (cert_community_pk cert) → length rnd = 24%nat →
  store_inv (store_new_meta rnd cert st).
Proof using Type*.
  intros Hst Hc Hr. unfold store_new_meta. destruct (meta_or_none _ _); [done|].
  destruct (set_community_meta _ _ _ _) as [st'|] eqn:Hset; [|done].
  by destruct (set_community_meta_spec _ _ _ _ _ Hst Hc Hr Hset).
Qed.
Lemma push_entries_inv rnd cpk ch entries st :
  (∀ i, length (rnd i) = 24%nat) → wf_key cpk → store_inv st →
  store_inv (push_entries rnd cpk ch entries st).
Proof using Type*.
  intros Hr Hc. revert rnd st Hr; induction entries as [|e entries IH]; intros rnd st Hr Hst; [done|].
  cbn. apply IH; [auto|]. unfold push_entry.
  destruct (append_message _ _ _ _ _ _ _ _ _) as [[n st']|] eqn:Happ; [|done].
  by destruct (append_message_step _ _ _ _ _ _ _ _ _ _ _ Hst Hc (Hr 0%nat) Happ) as (_ & ? & _).
Qed.
Lemma find_channel_owner_in ch cpks st cpk :
  find_channel_owner ch cpks st = Some cpk →
  cpk ∈ cpks ∧ ∃ meta, get_community_meta cpk st = Ok (Some meta) ∧
                       any (λ c, ch_id c =? ch) (meta_channels meta) = true.
Proof.
  induction cpks as [|c cpks IH]; cbn; [done|].
  destruct (meta_or_none c st) as [meta|] eqn:Hm.
  - destruct (any _ _) eqn:Ha.
    + intros [= ->]. split; [by left|]. exists meta. by apply meta_or_none_some in Hm.
    + intros [? ?]%IH. split; [by right|done].
  - intros [? ?]%IH. split; [by right|done].
Qed.
Lemma persist_gossip_inv rnd topic data st :
  length rnd = 24%nat → store_inv st → store_inv (persist_gossip rnd topic data st).
Proof using Type*.
  intros Hr Hst. unfold persist_gossip. destruct (String.prefix _ _); [|done].
  destruct (from_bytes data) as [[msg| | | | | | | | |]|]; try done.
  destruct (all_communities st) as [cpks|] eqn:Hall; [|done].
  destruct (find_channel_owner _ _ _) as [cpk|] eqn:Ho; [|done].
  destruct (append_message _ _ _ _ _ _ _ _ _) as [[n st']|] eqn:Happ; [|done].
  apply find_channel_owner_in in Ho as [Hin _].
  destruct (all_communities_spec _ _ Hst Hall) as [_ Hspec]. apply Hspec in Hin.
  assert (wf_key cpk) as Hc.
  { destruct Hin as (meta & Hm). unfold get_community_meta, transaction in Hm.
    destruct (st_online st); [|done]. cbn in Hm.
    destruct (t_get cpk (META st)) as [v|] eqn:Hv; [|done]. by apply (inv_meta _ Hst) in Hv as [? _]. }
  by destruct (append_message_step _ _ _ _ _ _ _ _ _ _ _ Hst Hc Hr Happ) as (_ & ? & _).
Qed.

Lemma handle_join_inv ev cert cid pw sess sv :
  env_wf ev → wf_key (cert_community_pk cert) → is_authenticated sess = true →
  sess_inv sess → sv_inv sv →
  let '(_, sess', sv', _) := handle_join_community ev cert cid pw sess sv in
  sess_inv sess' ∧ sv_inv sv'.
Proof using Type*.
  intros Hev Hc Hauth [Hnd Hj] Hsv. unfold handle_join_community, answer.
  destruct (negb (ed_valid_key _)); [done|].
  destruct (if is_known_member cert sess sv then None else _); [done|]. split.
  - unfold has_joined. case_bool_decide as Hin; cbn; [done|]. split.
    + cbn. apply NoDup_app. split_and!; [done| |apply NoDup_singleton].
      intros x Hx ->%list_elem_of_singleton. done.
    + intros _. exact Hauth.
  - apply sv_inv_with_store; [done|]. apply store_new_meta_inv; [apply Hsv|done|apply Hev].
Qed.

Lemma dispatch_inv ev addr req sess sv :
  env_wf ev → req_wf req → sess_inv sess → sv_inv sv →
  let '(_, sess', sv', _) := dispatch ev addr req sess sv in sess_inv sess' ∧ sv_inv sv'.
Proof using Type*.
  intros Hev Hreq Hs Hsv. pose proof (proj1 Hsv) as Hst.
  destruct req; cbn -[take_chars String.prefix]; try done.
  - unfold dispatch_authenticate, handle_authenticate.
    destruct (ed_valid_key pk); [|done]. destruct (ed_verify_strict _ _ _); [|done].
    split; [split; [apply Hs|done]|]. apply sv_inv_map_dht; [done|].
    intros h Hh. by apply rt_inv_add_peer.
  - destruct (is_authenticated sess) eqn:Ha; cbn; [|done]. by apply handle_join_inv.
  - destruct Hreq as [Hc Hch]. destruct (channel_guard _ _); [done|]. unfold handle_send_message.
    destruct (append_message _ _ _ _ _ _ _ _ _) as [[n st]|] eqn:Happ; [|done]. split; [done|].
    apply sv_inv_with_store; [done|].
    by destruct (append_message_step _ _ _ _ _ _ _ _ _ _ _ Hst Hc (Hev 0%nat) Happ) as (_ & ? & _).
  - destruct (channel_guard _ _); [done|]. unfold dispatch_get_messages.
    by destruct (get_messages _ _ _ _).
  - unfold dispatch_send_dm. destruct (client_pk sess); [|done].
    destruct (append_dm _ _ _ _ _ _ _) as [[n st]|] eqn:Happ; [|done]. split; [done|].
    apply sv_inv_with_store; [done|].
    by destruct (append_dm_step _ _ _ _ _ _ _ _ _ Hst Hreq (Hev 0%nat) Happ) as (_ & ? & _).
  - unfold dispatch_get_dms. destruct (client_pk sess); [|done]. by destruct (get_dms _ _ _).
  - unfold dispatch_fetch_manifest. destruct (negb _); [done|].
    destruct (get_community_meta _ _) as [[meta|]|]; try done. by destruct (meta_manifest meta).
  - unfold dispatch_find_node. by destruct (sv_dht sv).
  - split; [done|]. by apply sv_inv_map_dht.
  - unfold dispatch_gossip. destruct (client_pk sess); [|done]. split; [done|].
    apply sv_inv_with_store; [done|]. by apply persist_gossip_inv.
  - unfold dispatch_push_manifest. destruct (negb _); [done|].
    destruct (set_community_meta _ _ _ _) as [st'|] eqn:Hset; [|done]. split; [done|].
    apply sv_inv_with_store; [done|].
    by destruct (set_community_meta_spec _ _ _ _ _ Hst Hreq (Hev 0%nat) Hset).
  - unfold dispatch_push_history. destruct (negb _); [done|]. split; [done|].
    apply sv_inv_with_store; [done|]. apply push_entries_inv; [done|apply Hreq|done].
  - split; [done|]. by apply sv_inv_map_dht.
  - unfold dispatch_store_peer_info. do 3 (destruct (negb _); [done|]). split; [done|].
    by apply sv_inv_map_dht.
Qed.
End invariants.

(** ** The node: every connection's requests, interleaved *)

Record Node (T : Type) := mkNode { nd_services : NodeServices T; nd_sessions : gmap nat ClientSession }.
Arguments mkNode {T}.
Arguments nd_services {T}.
Arguments nd_sessions {T}.

Section node.
Context {T : Type} `{CryptoLaws} `{TableLaws T} `{NodeCodecsLaws} `{HashOrderLaws} `{UlidText} `{ErrorText}.
Context `{Postcard PeerInfoRecord} `{Postcard NodeAddr} `{Postcard NetworkEvent}.
Implicit Types sv : NodeServices T.
Implicit Types st : NodeStore T.

(** A connection opens with an empty session, sends well-formed requests, and closes; in
    between, the tasks the node spawns touch the DHT state, and the retention and expiry
    tasks touch the store. *)
Inductive node_step : Node T → Node T → Prop :=
  | step_connect sv ss i :
      ss !! i = None → node_step (mkNode sv ss) (mkNode sv (<[i := session_new]> ss))
  | step_request sv ss i sess ev addr req resp sess' sv' effects :
      ss !! i = Some sess → env_wf ev → req_wf req →
      dispatch ev addr req sess sv = (resp, sess', sv', effects) →
      node_step (mkNode sv ss) (mkNode sv' (<[i := sess']> ss))
  | step_disconnect sv ss i : node_step (mkNode sv ss) (mkNode sv (delete i ss))
  | step_register_mailbox sv ss instant pk :
      node_step (mkNode sv ss) (mkNode (map_dht (λ h, (register_mailbox instant pk h).1) sv) ss)
  | step_retention sv ss cpk ch max st :
      wf_key cpk → is_u128 ch → 0 ≤ max →
      rows_size (channel_rows cpk ch (sv_store sv)) ≤ U64_MAX →
      enforce_retention cpk ch max (sv_store sv) = Ok st →
      node_step (mkNode sv ss) (mkNode (with_store st sv) ss).

Definition node_inv (n : Node T) : Prop :=
  sv_inv (nd_services n) ∧ ∀ i sess, nd_sessions n !! i = Some sess → sess_inv sess.

Lemma enforce_retention_inv cpk ch max st st' :
  store_inv st → 0 ≤ max → rows_size (channel_rows cpk ch st) ≤ U64_MAX →
  enforce_retention cpk ch max st = Ok st' → store_inv st'.
Proof using Type*.
  intros Hst Hmax Hsize Hret.
  destruct (enforce_retention_removes _ _ _ _ _ Hmax Hsize Hret) as (m & -> & _).
  apply store_inv_with_log; [done|]. apply seqlog_ok_remove, Hst.
Qed.

Lemma node_step_inv n n' : node_step n n' → node_inv n → node_inv n'.
Proof using Type*.
  intros Hstep [Hsv Hss]. destruct Hstep as
    [sv ss i Hi|sv ss i sess ev addr req resp sess' sv' eff Hi Hev Hreq Hd|sv ss i|sv ss instant pk
    |sv ss cpk ch max st Hc Hch Hmax Hsize Hret]; cbn in *.
  - split; [done|]. intros j sess. cbn. rewrite lookup_insert_Some. intros [[_ <-]|[_ Hj]]; [|eauto].
    split; [constructor|done].
  - pose proof (dispatch_inv ev addr req sess sv Hev Hreq (Hss _ _ Hi) Hsv) as Hinv. rewrite Hd in Hinv.
    split; [apply Hinv|]. intros j s. cbn. rewrite lookup_insert_Some.
    intros [[_ <-]|[_ Hj]]; [apply Hinv|eauto].
  - split; [done|]. intros j sess. cbn. rewrite lookup_delete_Some. intros [_ Hj]. eauto.
  - split; [|done]. apply sv_inv_map_dht; [done|]. intros h Hh. unfold register_mailbox.
    destruct (self_addr (announce_mailbox _ _ _)); cbn; unfold announce_mailbox;
      by destruct (self_addr (dh_state h)).
  - split; [|done]. apply sv_inv_with_store; [done|]. apply (enforce_retention_inv cpk ch max (sv_store sv)); done || apply Hsv.
Qed.

Lemma map_dht_node_pk f sv : sv_node_pk (map_dht f sv) = sv_node_pk sv.
Proof. unfold map_dht. by destruct (sv_dht sv). Qed.
Lemma dispatch_node_pk ev addr req sess sv :
  let '(_, _, sv', _) := dispatch ev addr req sess sv in sv_node_pk sv' = sv_node_pk sv.
Proof.
  destruct req; cbn -[String.prefix take_chars];
    unfold dispatch_authenticate, handle_join_community, handle_send_message, dispatch_get_messages,
      dispatch_send_dm, dispatch_get_dms, dispatch_fetch_manifest, dispatch_find_node, dispatch_gossip,
      dispatch_push_manifest, dispatch_push_history, dispatch_store_peer_info, answer;
    repeat case_match; simplify_eq/=; rewrite ?map_dht_node_pk; done.
Qed.
Lemma node_step_node_pk n n' :
  node_step n n' → sv_node_pk (nd_services n') = sv_node_pk (nd_services n).
Proof.
  destruct 1 as [| sv ss i sess ev addr req resp sess' sv' eff Hi Hev Hreq Hd| | |]; cbn; try done.
  - pose proof (dispatch_node_pk ev addr req sess sv) as Hpk. by rewrite Hd in Hpk.
  - apply map_dht_node_pk.
Qed.

Lemma rtc_node_step n n' :
  rtc node_step n n' → node_inv n →
  node_inv n' ∧ sv_node_pk (nd_services n') = sv_node_pk (nd_services n).
Proof using Type*.
  induction 1 as [n|n n1 n2 Hstep _ IH]; intros Hn; [done|].
  destruct IH as [? Hpk]; [by eapply node_step_inv|]. split; [done|].
  rewrite Hpk. by apply node_step_node_pk.
Qed.

(** C29: safety of the node under any interleaving of connections, requests and background
    tasks: starting from a node whose store and routing table satisfy their invariants
    and that has no connection yet, every reachable node has a well-formed store and
    routing table, and in every session no community is listed twice and a community is
    listed only if the client has authenticated; the node's key never changes. *)
Theorem node_invariant sv n :
  sv_inv sv → rtc node_step (mkNode sv ∅) n →
  sv_inv (nd_services n) ∧ sv_node_pk (nd_services n) = sv_node_pk sv ∧
  ∀ i sess, nd_sessions n !! i = Some sess →
    NoDup (joined_communities sess) ∧
    ∀ cpk, has_joined cpk sess = true → is_authenticated sess = true.
Proof using Type*.
  intros Hsv Hrtc.
  assert (node_inv (mkNode sv ∅)) as Hinit.
  { split; [done|]. intros i sess Hi. cbn [nd_sessions] in Hi. by rewrite lookup_empty in Hi. }
  destruct (rtc_node_step _ _ Hrtc Hinit) as [[Hsv' Hss] Hpk].
  split_and!; [done|done|]. intros i sess Hi. destruct (Hss _ _ Hi) as [Hnd Hj].
  split; [done|]. intros cpk Hc. apply Hj. unfold has_joined in Hc. apply bool_decide_eq_true in Hc.
  intros Heq. rewrite Heq in Hc. by apply elem_of_nil in Hc.
Qed.
End node.

(** ** What the requests do *)

Section behaviour.
Context {T : Type} `{CryptoLaws} `{TableLaws T} `{NodeCodecsLaws} `{HashOrderLaws} `{UlidTextLaws}
  `{ErrorText}.
Context `{Postcard PeerInfoRecord} `{Postcard NodeAddr} `{Postcard NetworkEvent}.
Implicit Types sv : NodeServices T.
Implicit Types st : NodeStore T.

(** *** Joining *)

Definition cert_accepted (ev : Env) cert (pw : option string) sv : Prop :=
  (∀ r, sv_join_password sv = Some r → default ""%string pw = r) ∧
  cert_node_pk cert = sv_node_pk sv ∧
  cert_verify (unix_now (ev_time_ns ev)) cert (cert_community_pk cert) = Ok tt.
Definition may_join (ev : Env) cert pw sess sv : Prop :=
  is_authenticated sess = true ∧ ed_valid_key (cert_community_pk cert) = true ∧
  (is_known_member cert sess sv = true ∨ cert_accepted ev cert pw sv).

Lemma refuse_cert_spec ev cert pw sv :
  match refuse_cert ev cert pw (sv_join_password sv) (sv_node_pk sv) with
  | None => cert_accepted ev cert pw sv
  | Some resp => ¬ cert_accepted ev cert pw sv ∧ ∃ msg, resp = Error 403 msg
  end.
Proof.
  unfold refuse_cert, cert_accepted, err.
  destruct (match sv_join_password sv with Some r => _ | None => false end) eqn:Hpw.
  { split; [|eauto]. intros [Hp _]. destruct (sv_join_password sv) as [r|]; [|done].
    rewrite (Hp r) in Hpw by done. by rewrite bool_decide_true in Hpw. }
  case_bool_decide as Hpk; cbn; [|split; [naive_solver|eauto]].
  destruct (cert_verify _ _ _) as [[]|e]; [|split; [naive_solver|eauto]].
  split_and!; [|done|done]. intros r Hr. rewrite Hr in Hpw.
  by apply negb_false_iff, bool_decide_eq_true in Hpw.
Qed.

Lemma store_new_meta_spec rnd cert st :
  store_inv st → wf_key (cert_community_pk cert) → length rnd = 24%nat →
  let cpk := cert_community_pk cert in
  let st' := store_new_meta rnd cert st in
  (∀ m, get_community_meta cpk st = Ok (Some m) → st' = st) ∧
  (∀ cpk', cpk' ≠ cpk → get_community_meta cpk' st' = get_community_meta cpk' st) ∧
  (∀ m, get_community_meta cpk st' = Ok (Some m) →
     get_community_meta cpk st = Ok (Some m) ∨ m = new_meta cert) ∧
  (LOG st', MAIL st', DHT_PEERS st') = (LOG st, MAIL st, DHT_PEERS st).
Proof using Type*.
  intros Hst Hc Hr cpk st'. unfold st', store_new_meta, meta_or_none. fold cpk.
  destruct (get_community_meta cpk st) as [[m|]|] eqn:Hm;
    [by split_and!; try done; left; congruence|..];
    (destruct (set_community_meta rnd cpk (new_meta cert) st) as [st1|] eqn:Hset;
     [|split_and!; try done; left; congruence]);
    destruct (set_community_meta_spec _ _ _ _ _ Hst Hc Hr Hset) as (_ & Hget & Hrest);
    (split_and!; [done|intros cpk' Hne; by rewrite Hget, decide_False|
      intros m'; rewrite Hget, decide_True by done; intros [= <-]; by right|by injection Hrest as -> -> -> _ _]).
Qed.

(** C27: who gets into a community. A [JoinCommunity] request is granted exactly to an
    authenticated client that the node's records list as a member, or that presents the
    node's password if it has one, and a certificate made out to this node, signed by
    the community's key and not expired. When granted, the community is added to the
    session once, its metadata is created from the certificate only if there was none,
    all other data is unchanged and the network is told on the first join; when refused,
    nothing changes at all. *)
Theorem join_community_correct ev addr cert cid pw sess sv :
  sv_inv sv → wf_key (cert_community_pk cert) → env_wf ev →
  let cpk := cert_community_pk cert in
  let out := dispatch ev addr (JoinCommunity cert cid pw) sess sv in
  (may_join ev cert pw sess sv →
     ∃ st', out = (Authenticated (sv_node_pk sv),
         mkSession (client_pk sess)
           (joined_communities sess ++ if has_joined cpk sess then [] else [cpk]),
         with_store st' sv,
         match cid with Some id => if has_joined cpk sess then [] else [NotifyCommunityJoined cpk id]
                      | None => [] end) ∧
       (∀ m, get_community_meta cpk (sv_store sv) = Ok (Some m) → st' = sv_store sv) ∧
       (∀ cpk', cpk' ≠ cpk → get_community_meta cpk' st' = get_community_meta cpk' (sv_store sv)) ∧
       (∀ m, get_community_meta cpk st' = Ok (Some m) →
          get_community_meta cpk (sv_store sv) = Ok (Some m) ∨ m = new_meta cert) ∧
       (LOG st', MAIL st', DHT_PEERS st') =
       (LOG (sv_store sv), MAIL (sv_store sv), DHT_PEERS (sv_store sv))) ∧
  (¬ may_join ev cert pw sess sv → ∃ code msg, out = (Error code msg, sess, sv, [])).
Proof using Type*.
  intros [Hst _] Hc Hev cpk out. unfold out; cbn. unfold may_join.
  destruct (is_authenticated sess) eqn:Hauth; cbn; [|split; [naive_solver|]; unfold answer, err; eauto].
  unfold handle_join_community, answer, err.
  destruct (ed_valid_key (cert_community_pk cert)) eqn:Hvalid; cbn; [|split; [naive_solver|eauto]].
  pose proof (refuse_cert_spec ev cert pw sv) as Href.
  set (refusal := if is_known_member cert sess sv then None else _).
  assert (match refusal with
          | None => is_known_member cert sess sv = true ∨ cert_accepted ev cert pw sv
          | Some resp => ¬ (is_known_member cert sess sv = true ∨ cert_accepted ev cert pw sv) ∧
                         ∃ msg, resp = Error 403 msg
          end) as Hr.
  { unfold refusal. destruct (is_known_member cert sess sv); [by left|].
    destruct (refuse_cert _ _ _ _ _); [|by right]. split; [|apply Href]. destruct Href. naive_solver. }
  destruct refusal as [resp|].
  - destruct Hr as [Hno (msg & ->)]. split; [naive_solver|eauto].
  - split; [intros _|naive_solver]. exists (store_new_meta (ev_rnd ev 0%nat) cert (sv_store sv)).
    split; [|by apply store_new_meta_spec].
    fold cpk. destruct (has_joined cpk sess); cbn; [|done]. rewrite app_nil_r. by destruct sess.
Qed.

(** *** Sending and reading a channel message *)

(** C30: from one client to the others: when a member's [SendMessage] is acknowledged with
    [seq], that is the channel's next number; the session is unchanged; the entry, under
    the sender's key, is pushed to exactly the connections that joined the community;
    and a [GetMessages] for any starting point on any such connection returns the
    previous entries from that point followed by the new one. *)
Theorem send_message_delivered ev addr cpk ch nonce ciphertext sess sv es pk seq sess' sv' effects :
  sv_inv sv → wf_key cpk → is_u128 ch → env_wf ev →
  get_messages cpk ch 0 (sv_store sv) = Ok es → log_room le_seq es →
  client_pk sess = Some pk → has_joined cpk sess = true →
  dispatch ev addr (SendMessage cpk ch nonce ciphertext) sess sv = (MessageAck seq, sess', sv', effects) →
  let e := mkLogEntry seq nonce ciphertext (ulid_to_string (ev_ulid ev)) (hex pk) (now_ms ev) false in
  seq = succ_seq le_seq es ∧ sess' = sess ∧
  effects = [Push (Some cpk) (NewMessagePush ch e)] ∧
  (∀ other, should_send (Some cpk) other = has_joined cpk other) ∧
  (∀ other ev' addr' since, is_authenticated other = true → has_joined cpk other = true → is_u64 since →
     dispatch ev' addr' (GetMessages cpk ch since) other sv' =
     (Messages (retain (λ x, since <=? le_seq x) (es ++ [e])), other, sv', [])).
Proof using Type*.
  intros [Hst _] Hc Hch Hev Hget Hroom Hpk Hjoin Hd e. cbn in Hd. unfold channel_guard in Hd.
  assert (is_authenticated sess = true) as Hauth by (unfold is_authenticated; by rewrite Hpk).
  rewrite Hauth, Hjoin in Hd. cbn in Hd. unfold handle_send_message in Hd. rewrite Hpk in Hd. cbn in Hd.
  destruct (append_message _ _ _ _ _ _ _ _ _) as [[n st']|] eqn:Happ; [|done].
  injection Hd as -> <- <- <-.
  destruct (append_message_holds _ _ _ _ _ _ _ _ _ _ _ _ Hst Hc (Hev 0%nat) Hget Hroom Happ)
    as (Hseq & Hst' & Hon' & He').
  split_and!; [done|done|done|done|]. intros other ev' addr' since Hauth' Hjoin' Hs. cbn.
  unfold channel_guard. rewrite Hauth', Hjoin'. cbn. unfold dispatch_get_messages. cbn.
  by rewrite (get_messages_since _ _ _ _ _ Hst' Hc Hs Hon' He').
Qed.

(** Membership is required by [SendMessage] but not by [Gossip]: an authenticated client
    that has joined nothing appends to the log of any channel the node hosts, under an
    author of its choice, by gossiping a message event on a channel topic. *)
Lemma gossip_appends_without_membership ev addr data msg sess sv pk cpk cpks es :
  sv_inv sv → env_wf ev → wf_key cpk → client_pk sess = Some pk →
  from_bytes (A := NetworkEvent) data = Some (NewMessage msg) →
  all_communities (sv_store sv) = Ok cpks →
  find_channel_owner (rm_channel_id msg) cpks (sv_store sv) = Some cpk →
  get_messages cpk (rm_channel_id msg) 0 (sv_store sv) = Ok es → log_room le_seq es →
  ∀ st' seq, append_message (ev_rnd ev 0%nat) cpk (rm_channel_id msg) (rm_nonce msg) (rm_ciphertext msg)
    (ulid_to_string (rm_id msg)) (hex (rm_author_id msg)) (timestamp_millis (rm_timestamp msg))
    (sv_store sv) = Ok (seq, st') →
  let '(resp, _, sv', _) := dispatch ev addr (Gossip "/bitcord/channel/x" data) sess sv in
  resp = GossipAck ∧
  get_messages cpk (rm_channel_id msg) 0 (sv_store sv') =
    Ok (es ++ [mkLogEntry seq (rm_nonce msg) (rm_ciphertext msg) (ulid_to_string (rm_id msg))
                 (hex (rm_author_id msg)) (timestamp_millis (rm_timestamp msg)) false]).
Proof using Type*.
  intros [Hst _] Hev Hc Hpk Hdec Hall Hown Hget Hroom st' seq Happ. cbn -[String.prefix].
  unfold dispatch_gossip. rewrite Hpk. split; [done|]. cbn [sv_store with_store].
  assert (persist_gossip (ev_rnd ev 0%nat) "/bitcord/channel/x" data (sv_store sv) = st') as ->.
  { unfold persist_gossip. rewrite Hdec, Hall, Hown, Happ. done. }
  destruct (append_message_holds _ _ _ _ _ _ _ _ _ _ _ _ Hst Hc (Hev 0%nat) Hget Hroom Happ)
    as (_ & Hst' & Hon' & He').
  by destruct (channel_view _ _ _ _ Hst' Hc Hon' He') as [? _].
Qed.

(** *** Fetching a manifest *)

(** What a member is given for one channel. *)
Definition delivers (uid x_sk : bytes) (keys : gmap string bytes) (ch ch' : ChannelManifest) : Prop :=
  ch_id ch' = ch_id ch ∧ ch_name ch' = ch_name ch ∧
  (∀ u, u ≠ uid → ch_encrypted_channel_key ch' !! u = ch_encrypted_channel_key ch !! u) ∧
  ∀ key, keys !! ulid_to_string (ch_id ch) = Some key → length key = 32%nat →
    ∃ wrapped, ch_encrypted_channel_key ch' !! uid = Some wrapped ∧ decrypt_for_self x_sk wrapped = Ok key.

Lemma wrap_channel_spec ev uid x_sk keys ch :
  (∀ k n t, is_Some (aead_encrypt k n t)) → (∀ id, length (ev_nonce ev id) = 24%nat) →
  delivers uid x_sk keys ch (wrap_channel ev (Some (uid, x_public x_sk)) keys ch).
Proof using Type*.
  intros Haead Hnonce. unfold delivers, wrap_channel.
  destruct (keys !! ulid_to_string (ch_id ch)) as [key|] eqn:Hkey; [|by split_and!].
  destruct (Nat.eqb_spec (length key) 32) as [Hlen|Hlen];
    [|split_and!; [done..|by intros key' [= <-]]].
  destruct (encrypt_for_member key (ev_ephem ev (ch_id ch)) (ev_nonce ev (ch_id ch)) (x_public x_sk))
    as [wrapped|] eqn:Hw.
  - cbn. split_and!; [done|done|intros u Hne; by rewrite lookup_insert_ne|].
    intros key' [= <-] _. exists wrapped. split; [by rewrite lookup_insert_eq|].
    by apply (unwrap_wrapped key (ev_ephem ev (ch_id ch)) (ev_nonce ev (ch_id ch))).
  - exfalso. unfold encrypt_for_member in Hw.
    destruct (Haead (wrapping_key (x_dh (ev_ephem ev (ch_id ch)) (x_public x_sk))
      (x_public (ev_ephem ev (ch_id ch)))) (ev_nonce ev (ch_id ch)) key) as [c Hc].
    by rewrite Hc in Hw.
Qed.

(** A member receives its channel keys: for an authenticated member with X25519 key
    [x_public x_sk], every channel of the reply is a stored channel the manifest still
    lists, and each of them whose 32-byte key the node holds carries a wrapped key under
    the member's user id that the member's secret unwraps to that key; the reply holds
    no plaintext keys and nothing changes on the node. Deleted channels are not served. *)
Theorem fetch_manifest_delivers_keys ev addr cpk sess sv pk meta manifest m x_sk :
  (∀ k n t, is_Some (aead_encrypt k n t)) → (∀ id, length (ev_nonce ev id) = 24%nat) →
  client_pk sess = Some pk → get_community_meta cpk (sv_store sv) = Ok (Some meta) →
  meta_manifest meta = Some manifest → member_with_key pk meta = Some m →
  mr_x25519_public_key m = x_public x_sk →
  ∃ channels, dispatch ev addr (FetchManifest cpk) sess sv =
      (Manifest manifest channels ∅ (hash_order (meta_members meta)).*2, sess, sv, []) ∧
    Forall2 (delivers (mr_user_id m) x_sk (meta_channel_keys meta))
      (retain (is_live manifest) (meta_channels meta)) channels.
Proof using Type*.
  intros Haead Hnonce Hpk Hmeta Hman Hm Hx. cbn. unfold dispatch_fetch_manifest, is_authenticated.
  rewrite Hpk, Hmeta; cbn. rewrite Hman, Hm; cbn. rewrite Hx. unfold answer. eexists. split; [done|].
  apply Forall2_fmap_r, Forall_Forall2_diag, Forall_forall. intros ch _. by apply wrap_channel_spec.
Qed.

(** *** Peer info records *)

(** A peer info record is accepted exactly when its id is the SHA-256 of a valid key
    and that key signs the id, the X25519 key and the address; then the record, with its
    name cut to 64 characters, is the one the node answers with, and otherwise nothing
    changes. *)
Theorem store_peer_info_correct ev addr peer_id ed x25519 paddr name sig_r sig_s sess sv h :
  sv_dht sv = Some h →
  let accepted := sha256 ed = peer_id ∧ ed_valid_key ed = true ∧
    ed_verify_strict ed (stored_info_msg peer_id x25519 paddr) (sig_r ++ sig_s) = true in
  let '(resp, sess', sv', effects) :=
    dispatch ev addr (StorePeerInfo peer_id ed x25519 paddr name sig_r sig_s) sess sv in
  sess' = sess ∧ effects = [] ∧
  (accepted → resp = PeerInfoAck ∧
     ∀ ev' addr' sess2, sat_sub (unix_now (ev_time_ns ev')) (unix_now (ev_time_ns ev)) < PEER_INFO_TTL_SECS →
       dispatch ev' addr' (FindPeerInfo peer_id) sess2 sv' =
       (PeerInfo x25519 paddr (take_chars 64 name), sess2, sv', [])) ∧
  (¬ accepted → (∃ msg, resp = Error 400 msg) ∧ sv' = sv).
Proof using Type*.
  intros Hdht accepted. cbn -[take_chars]. unfold dispatch_store_peer_info, answer, err, accepted.
  case_bool_decide as Hid; cbn -[take_chars]; [|split_and!; naive_solver].
  destruct (ed_valid_key ed); cbn -[take_chars]; [|split_and!; naive_solver].
  destruct (ed_verify_strict _ _ _); cbn -[take_chars]; [|split_and!; naive_solver].
  split_and!; [done|done| |naive_solver]. intros _. split; [done|]. intros ev' addr' sess2 Hfresh.
  cbn -[take_chars]. unfold dispatch_find_peer_info, map_dht. rewrite Hdht. cbn -[take_chars].
  unfold lookup_peer_info; cbn -[take_chars]. rewrite lookup_insert_eq; cbn -[take_chars].
  unfold info_fresh; cbn -[take_chars]. by rewrite (proj2 (Z.ltb_lt _ _) Hfresh).
Qed.

(** Announcements verify everywhere: every message [register_peer_info] sends, for the
    id derived from the node's own key, is accepted by every node that receives it. *)
Theorem peer_info_announcement_accepted time_ns x25519 name hd h' sends ev addr sess sv peer pid ed x a n signature :
  let peer_id := sha256 (ed_public (dh_identity hd)) in
  register_peer_info time_ns peer_id x25519 name hd = (h', sends) →
  SendStorePeerInfo peer pid ed x a n signature ∈ sends →
  (dispatch ev addr (StorePeerInfo pid ed x a n (take 32 signature) (drop 32 signature)) sess sv).1.1.1 =
    PeerInfoAck ∧ pid = peer_id ∧ x = x25519 ∧ self_addr (dh_state hd) = Some a.
Proof using Type*.
  intros peer_id. unfold register_peer_info. destruct (self_addr (dh_state hd)) as [own|] eqn:Ha;
    [|intros [= <- <-]; by intros []%elem_of_nil].
  intros [= <- <-] (e & Heq & _)%list_elem_of_fmap. injection Heq as -> -> -> -> -> -> ->.
  split; [|done]. cbn -[take_chars]. unfold dispatch_store_peer_info.
  rewrite bool_decide_true by done. rewrite ed_public_valid. cbn [negb].
  change (stored_info_msg peer_id x25519 own) with (peer_info_sig_msg peer_id x25519 own).
  by rewrite take_drop, ed_sign_verify_strict.
Qed.
End behaviour.

(** ** A concrete node *)

Module HandlerExample.
Export DhtExample.
#[export] Instance ulid_text : UlidText := {| ulid_to_string u := hex (be_bytes 16 u) |}.
#[export] Instance ulid_text_laws : UlidTextLaws.
Proof.
  split. intros a b Ha Hb Heq. cbn in Heq. apply hex_inj in Heq; [|apply wf_be_bytes..].
  by apply (be_bytes_inj 16) in Heq.
Qed.
#[export] Instance error_text : ErrorText :=
  {| store_error_text _ := "database error"; cert_error_text _ := "certificate error" |}.
#[export] Instance codec_event : Postcard NetworkEvent := countable_postcard NetworkEvent.

Lemma quad_eta {A B C D} (q : A * B * C * D) : q = (q.1.1.1, q.1.1.2, q.1.2, q.2).
Proof. by destruct q as [[[? ?] ?] ?]. Qed.

Definition ev0 : Env := mkEnv (λ _, rnd) (1000 * NANOS) 0 77 (λ _, pk 4) (λ _, replicate 24 1).
Lemma ev0_wf : env_wf ev0.
Proof. done. Qed.
Definition addr0 : NodeAddr := addr_n 1.

Definition store5 : Store := get_ok store3 (set_community_meta rnd (pk 1) meta1 store3).
Lemma store5_inv : store_inv store5.
Proof.
  assert (set_community_meta rnd (pk 1) meta1 store3 = Ok store5) as Hset by vm_refl.
  exact (proj1 (set_community_meta_spec rnd (pk 1) meta1 store3 store5 store3_inv
    (wf_array_replicate 32 1 (conj (ltac:(lia) : 0 ≤ 1) eq_refl)) (length_replicate 24 0) Hset)).
Qed.
Definition services1 : NodeServices (gmap bytes bytes) :=
  mkServices store5 (Some (mkHandle seeded ds0 (pk 9))) (pk 9) (Some "secret"%string).
Lemma services1_inv : sv_inv services1.
Proof. split; [apply store5_inv|]. intros h [= <-]. apply rt_inv_seeded. Qed.
Definition session1 : ClientSession := mkSession (Some (pk 2)) [pk 1].
End HandlerExample.

Section handler_witnesses.
Import HandlerExample.


(** A stranger with the password and a good certificate; the certificate's community has
    the key [pk 30]. *)
Lemma join_community_correct_witness :
  let cert := cert_new (pk 30) (pk 9) 2000 in
  let sess := mkSession (Some (pk 7)) [] in
  (dispatch ev0 addr0 (JoinCommunity cert None (Some "secret"%string)) sess services1).1.1.2 =
    mkSession (Some (pk 7)) [pk 30] ∧
  ∃ code msg, dispatch ev0 addr0 (JoinCommunity cert None (Some "wrong"%string)) sess services1 =
    (Error code msg, sess, services1, []).
Proof.
  cbv zeta. split; [vm_refl|].
  apply (join_community_correct ev0 addr0 (cert_new (pk 30) (pk 9) 2000) None (Some "wrong"%string)
    (mkSession (Some (pk 7)) []) services1 services1_inv).
  - apply (wf_ed_public (pk 30)).
  - apply ev0_wf.
  - intros (_ & _ & [Hm|[Hp _]]); [by vm_compute in Hm|]. specialize (Hp "secret"%string eq_refl). done.
Defined.

Lemma node_invariant_witness :
  ∃ n, rtc node_step (mkNode services1 ∅) n ∧
    nd_sessions n !! 0%nat = Some (mkSession (Some (pk 2)) []) ∧
    sv_node_pk (nd_services n) = pk 9.
Proof.
  set (req := Authenticate (pk 2) (pk 2) (take 32 (pk 5)) (pk 5)).
  set (out := dispatch ev0 addr0 req session_new services1).
  set (n := mkNode out.1.2 (<[0%nat := out.1.1.2]> (<[0%nat := session_new]> ∅))).
  assert (rtc node_step (mkNode services1 ∅) n) as Hrtc.
  { eapply rtc_l; [by apply (step_connect services1 ∅ 0%nat)|]. apply rtc_once.
    apply (step_request _ _ 0%nat session_new ev0 addr0 req out.1.1.1 out.1.1.2 out.1.2 out.2).
    - by rewrite lookup_insert_eq.
    - apply ev0_wf.
    - by apply wf_array_replicate.
    - fold out. by destruct out as [[[? ?] ?] ?]. }
  exists n. split; [exact Hrtc|]. split; [vm_refl|].
  change (pk 9) with (sv_node_pk services1).
  apply (node_invariant services1 n services1_inv Hrtc).
Defined.

Lemma send_message_delivered_witness :
  let out := dispatch ev0 addr0 (SendMessage (pk 1) 5 [] [8]) session1 services1 in
  out.1.1.1 = MessageAck 2 ∧
  dispatch ev0 addr0 (GetMessages (pk 1) 5 2) session1 out.1.2 =
    (Messages [mkLogEntry 2 [] [8] (ulid_to_string 77) (hex (pk 2)) 1000000 false], session1, out.1.2, []).
Proof.
  cbv zeta. split; [vm_refl|].
  assert (wf_key (pk 1)) as Hk by by apply wf_pk.
  assert (is_u128 5) as Hu by by vm_compute.
  assert (log_room le_seq [msg 0 1; msg 1 2]) as Hroom by (intros e [= <-]; by vm_compute).
  assert (has_joined (pk 1) session1 = true) as Hj by vm_refl.
  assert (is_u64 2) as H2 by by vm_compute.
  set (out := dispatch ev0 addr0 (SendMessage (pk 1) 5 [] [8]) session1 services1).
  assert (get_messages (pk 1) 5 0 (sv_store services1) = Ok [msg 0 1; msg 1 2]) as Hget by vm_refl.
  assert (out = (MessageAck 2, out.1.1.2, out.1.2, out.2)) as Hout.
  { assert (out.1.1.1 = MessageAck 2) as Hack by vm_refl. rewrite <- Hack. apply quad_eta. }
  destruct (send_message_delivered ev0 addr0 (pk 1) 5 [] [8] session1 services1 _ (pk 2) 2 _ _ _
    services1_inv Hk Hu ev0_wf Hget Hroom eq_refl Hj Hout) as (_ & _ & _ & _ & Hread).
  rewrite (Hread session1 ev0 addr0 2 eq_refl Hj H2). vm_refl.
Defined.

(** The reply holds channel 5 and not channel 6, which the manifest no longer lists. *)
Lemma fetch_manifest_delivers_keys_witness :
  retain (is_live manifest1) (meta_channels meta1) = [channel1] ∧
  ∃ channels, dispatch ev0 addr0 (FetchManifest (pk 1)) session1 services1 =
      (Manifest manifest1 channels ∅ (hash_order (meta_members meta1)).*2, session1, services1, []) ∧
    Forall2 (delivers (mr_user_id member1) (pk 3) (meta_channel_keys meta1))
      (retain (is_live manifest1) (meta_channels meta1)) channels.
Proof.
  split; [vm_refl|].
  assert (∀ k n t, is_Some (aead_encrypt k n t)) as Ha by (intros; by eexists).
  apply (fetch_manifest_delivers_keys ev0 addr0 (pk 1) session1 services1 (pk 2) meta1 manifest1 member1
    (pk 3) Ha (λ _, length_replicate 24 1) eq_refl ltac:(vm_refl) eq_refl ltac:(vm_refl) ltac:(vm_refl)).
Defined.

Lemma store_peer_info_correct_witness :
  let ed := pk 6 in let x := pk 3 in
  let signature := ed_sign (pk 6) (stored_info_msg (sha256 ed) x addr0) in
  let out := dispatch ev0 addr0 (StorePeerInfo (sha256 ed) ed x addr0 "bob" (take 32 signature) (drop 32 signature))
               session_new services1 in
  out.1.1.1 = PeerInfoAck ∧
  dispatch ev0 addr0 (FindPeerInfo (sha256 ed)) session1 out.1.2 =
    (PeerInfo x addr0 "bob", session1, out.1.2, []).
Proof.
  cbv zeta. split; [vm_refl|].
  set (signature := ed_sign _ _).
  pose proof (store_peer_info_correct ev0 addr0 (sha256 (pk 6)) (pk 6) (pk 3) addr0 "bob"
    (take 32 signature) (drop 32 signature) session_new services1 (mkHandle seeded ds0 (pk 9)) eq_refl) as Hs.
  cbv zeta in Hs. destruct (dispatch _ _ _ _ _) as [[[resp sess'] sv'] eff].
  destruct Hs as (_ & _ & [Hack Hfind] & _).
  - split_and!; [done|by vm_compute|]. rewrite take_drop. by vm_compute.
  - apply (Hfind ev0 addr0 session1). by vm_compute.
Defined.

Lemma peer_info_announcement_accepted_witness :
  let hd := mkHandle (set_self_addr (addr_n 50) seeded) ds0 (pk 9) in
  let pid := sha256 (ed_public (pk 9)) in
  let signature := ed_sign (pk 9) (peer_info_sig_msg pid (pk 3) (addr_n 50)) in
  (register_peer_info 0 pid (pk 3) "me" hd).2 =
    [SendStorePeerInfo (addr_n 0) pid (pk 9) (pk 3) (addr_n 50) "me" signature] ∧
  (dispatch ev0 addr0 (StorePeerInfo pid (pk 9) (pk 3) (addr_n 50) "me" (take 32 signature) (drop 32 signature))
    session_new services1).1.1.1 = PeerInfoAck.
Proof.
  cbv zeta. split; [vm_refl|].
  set (hd := mkHandle (set_self_addr (addr_n 50) seeded) ds0 (pk 9)).
  set (pid := sha256 (ed_public (pk 9))).
  apply (peer_info_announcement_accepted 0 (pk 3) "me" hd (register_peer_info 0 pid (pk 3) "me" hd).1
    (register_peer_info 0 pid (pk 3) "me" hd).2) with (peer := addr_n 0).
  - done.
  - assert ((register_peer_info 0 pid (pk 3) "me" hd).2 =
      [SendStorePeerInfo (addr_n 0) pid (pk 9) (pk 3) (addr_n 50) "me"
         (ed_sign (pk 9) (peer_info_sig_msg pid (pk 3) (addr_n 50)))]) as -> by vm_refl.
    by left.
Defined.
End handler_witnesses.
