(* ===== verification/AppState.v ===== *)
(** * The application state of a client: [bitcord-core/src/api/mod.rs], [api/types.rs] and
    [api/push_broadcaster.rs]

    [AppState] is the record of the tables a node keeps in memory for its user: the
    communities, channels, keys, members and messages it knows. A [World] is the state
    together with what it acts on: the files of the data directory, the commands sent to
    the network task and the events pushed to the frontend, in order, and the position in
    the entropy stream. The locks that protect the fields are taken and released within
    one function, with the exception treated in [ManifestEvents]. *)

From stdpp Require Import countable.
From S2P Require Import Prelude Bytes Config Redb Routing Crypto Codec Model ClientState Store DhtNode.
From S2P Require Import Protocol Handler.

(** ** Interfaces *)

(** [serde_json] on the tables that are written to disk. *)
Class Json (A : Type) := { to_json : A → option bytes; from_json : bytes → option A }.
Class JsonLaws (A : Type) `{Json A} : Prop := {
  json_total (a : A) : is_Some (to_json a);
  json_roundtrip (a : A) b : to_json a = Some b → from_json b = Some a }.

(** [crypto::dm::DmPayload], the plaintext of a direct message. *)
Record DmPayload := mkDmPayload { dpl_body : string; dpl_reply_to : option string; dpl_id : string }.

(** [OsRng]: the stream of random nonces and secrets, read once each. *)
Class Entropy := { rng24 : nat → bytes; rng32 : nat → bytes }.
Class EntropyLaws `{Entropy} : Prop := {
  rng24_length n : length (rng24 n) = 24%nat;
  rng32_length n : length (rng32 n) = 32%nat }.

(** Parsing of addresses and ULIDs by the standard library and the [ulid] crate. *)
Class AddrText := { parse_node_addr : string → option NodeAddr }.
Class UlidParse := { parse_ulid : string → option Ulid }.

(** ** [api/types.rs] *)

Inductive UserStatus := Online | Idle | DoNotDisturb | Invisible | Offline.
Record IdentityState := mkIdentity { is_display_name : option string; is_status : UserStatus }.
Record DmMessageInfo := mkDmInfo {
  di_id : string; di_peer_id : string; di_author_id : string; di_timestamp : DateTime;
  di_body : string; di_reply_to : option string; di_edited_at : option DateTime }.
Record PeerSummary := mkPeerSummary {
  ps_peer_id : string; ps_addresses : list string; ps_latency_ms : option Z;
  ps_relay_capable : bool; ps_reputation : Z; ps_is_admin : bool; ps_community_id : string }.
Record DmPeerInfo := mkDmPeer { dp_display_name : string; dp_x25519_public_key : bytes }.

(** [codec_channel] encodes a channel with its wrapped keys in the order in which the encoder's
    own map lists them; [reencode_channel n] encodes one that was read from bytes: the map built
    then is a [HashMap] with a seed of its own, and lists the keys in the order of the [n]th
    draw. *)
Class AppCodecs := {
  codec_event :: Postcard NetworkEvent;
  codec_content :: Postcard MessageContent;
  codec_legacy :: Postcard LegacyMessageContent;
  codec_manifest :: Postcard CommunityManifest;
  codec_channel :: Postcard ChannelManifest;
  reencode_channel : nat → ChannelManifest → option bytes;
  codec_role :: Postcard Role;
  codec_roles :: Postcard (list Role);
  codec_dm_payload :: Postcard DmPayload;
  json_communities :: Json (gmap string SignedManifest);
  json_channels :: Json (gmap string ChannelManifest);
  json_keys :: Json (gmap string bytes);
  json_members :: Json (gmap string (gmap string MembershipRecord));
  json_strings :: Json (gmap string string);
  json_dms :: Json (gmap string (list DmMessageInfo));
  json_dm_peers :: Json (gmap string DmPeerInfo);
  json_bans :: Json (gmap string (list string));
  json_read_state :: Json (gmap string Z) }.
Class AppCodecsLaws `{AppCodecs} : Prop := {
  codec_event_laws :: PostcardLaws NetworkEvent;
  reencode_same n (m : ChannelManifest) b : reencode_channel n m = Some b → from_bytes b = Some m;
  reencode_short n (m : ChannelManifest) :
    (size (ch_encrypted_channel_key m) ≤ 1)%nat → reencode_channel n m = to_allocvec m;
  json_communities_laws :: JsonLaws (gmap string SignedManifest);
  json_channels_laws :: JsonLaws (gmap string ChannelManifest);
  json_keys_laws :: JsonLaws (gmap string bytes);
  json_members_laws :: JsonLaws (gmap string (gmap string MembershipRecord));
  json_strings_laws :: JsonLaws (gmap string string);
  json_dms_laws :: JsonLaws (gmap string (list DmMessageInfo));
  json_dm_peers_laws :: JsonLaws (gmap string DmPeerInfo);
  json_bans_laws :: JsonLaws (gmap string (list string));
  json_read_state_laws :: JsonLaws (gmap string Z) }.

(** ** [api/push_broadcaster.rs] *)

Record MessageEventData := mkMessageEvent {
  me_message_id : string; me_channel_id : string; me_community_id : string; me_author_id : string;
  me_author_name : option string; me_timestamp : DateTime; me_body : option string }.
Record MessageDeletedData := mkMessageDeleted {
  md_message_id : string; md_channel_id : string; md_community_id : string }.
Record MemberEventData := mkMemberEvent {
  mev_user_id : string; mev_community_id : string; mev_display_name : string }.
Record PresenceChangedData := mkPresenceChanged {
  pc_user_id : string; pc_status : string; pc_last_seen : DateTime }.
Record ChannelEventData := mkChannelEvent {
  ce_channel_id : string; ce_community_id : string; ce_name : string }.
Record CommunityEventData := mkCommunityEvent {
  coe_community_id : string; coe_version : Z; coe_reason : string }.
(** The progress is a fraction; the code reports 0.0 at the start and 1.0 at the end. *)
Record SyncProgressData := mkSyncProgress { sp_channel_id : string; sp_progress : Z }.
Record ChannelHistorySyncedData := mkHistorySynced { hs_channel_id : string; hs_community_id : string }.
Record ReactionInfo := mkReactionInfo { ri_emoji : string; ri_user_ids : list string }.
Record ReactionUpdatedData := mkReactionUpdated {
  rud_message_id : string; rud_channel_id : string; rud_community_id : string;
  rud_reactions : list ReactionInfo }.
Record DmSendFailedData := mkDmSendFailed { df_peer_id : string; df_message_id : string }.
Record SeedStatusData := mkSeedStatus { ss_community_id : string; ss_connected : bool }.
Record MemberRoleUpdatedData := mkMemberRole {
  mru_user_id : string; mru_community_id : string; mru_new_role : string }.

Inductive PushEvent :=
  | PushMessageNew (d : MessageEventData)
  | PushMessageEdited (d : MessageEventData)
  | PushMessageDeleted (d : MessageDeletedData)
  | PushMemberJoined (d : MemberEventData)
  | PushMemberLeft (d : MemberEventData)
  | PushPresenceChanged (d : PresenceChangedData)
  | PushChannelCreated (d : ChannelEventData)
  | PushChannelDeleted (d : ChannelEventData)
  | PushCommunityManifestUpdated (d : CommunityEventData)
  | PushCommunityDeleted (d : CommunityEventData)
  | PushSyncProgress (d : SyncProgressData)
  | PushDmNew (message : DmMessageInfo)
  | PushDmSendFailed (d : DmSendFailedData)
  | PushChannelHistorySynced (d : ChannelHistorySyncedData)
  | PushReactionUpdated (d : ReactionUpdatedData)
  | PushSeedStatusChanged (d : SeedStatusData)
  | PushMemberRoleUpdated (d : MemberRoleUpdatedData).

(** ** [network/network_handle/types.rs]: the commands to the network task *)

Inductive NetworkCommand :=
  | CmdDial (addr : NodeAddr) (is_seed : bool) (join_community : option (bytes * string))
      (join_community_password : option string) (cert_fingerprint : bytes)
  | CmdSubscribe (topic : string)
  | CmdUnsubscribe (topic : string)
  | CmdPublish (topic : string) (data : bytes)
  | CmdSendDm (peer_id message_id : string) (recipient_x25519_pk : bytes) (envelope : DmEnvelope)
      (mailbox_addr peer_node_addr : option NodeAddr)
  | CmdFetchManifest (peer_id community_id : string) (community_pk : bytes)
  | CmdFetchChannelHistory (peer_id community_id : string) (community_pk : bytes)
      (channel_id : string) (since_seq : Z)
  | CmdAddListenAddr (addr : string)
  | CmdNotifyCommunityJoined (community_pk : bytes) (community_id : string)
  | CmdFetchMailbox (peer_id : string)
  | CmdDiscoverAndDial (peers : list (bytes * NodeAddr)) (community_pk : bytes) (community_id : string)
  | CmdShutdown.

(** What a handler does to the outside, in order: commands, pushed events, and the tasks it
    spawns (each a [DhtHandle] operation, see [DhtNode], or the copying of a community to a
    new seed, see [SeedSync]). *)
Inductive Output :=
  | Cmd (c : NetworkCommand)
  | Event (e : PushEvent)
  | SpawnDhtBootstrap
  | SpawnDiscover (community_pk : bytes) (community_id : string)
  | SpawnRegisterCommunityPeer (community_pk : bytes)
  | SpawnRegisterPeerInfo (peer_id x25519_pk : bytes) (display_name : string)
  | SpawnMailbox (x25519_pk : bytes)
  | SpawnSeedSync (community_id : string) (community_pk : bytes) (manifest : SignedManifest) (seed : string).

Definition community_topic (community_id : string) : string :=
  "/bitcord/community/" ++ community_id ++ "/1.0.0".
Definition channel_topic (channel_id : string) : string :=
  "/bitcord/channel/" ++ channel_id ++ "/1.0.0".

(** ** The state *)

Record AppState (T : Type) := mkApp {
  app_peer_id : string;
  app_public_key_hex : string;
  app_node_address : string;
  app_signing_key : bytes;
  app_encryption_key : option bytes;
  app_local_tls_fingerprint_hex : option string;
  app_identity_state : IdentityState;
  app_config : NodeConfig;
  app_message_log : MessageLog;
  app_connected_peers : gmap string (list PeerSummary);
  app_communities : gmap string SignedManifest;
  app_channels : gmap string ChannelManifest;
  app_channel_keys : gmap string bytes;
  app_previous_channel_keys : gmap string bytes;
  app_dms : gmap string (list DmMessageInfo);
  app_dm_peers : gmap string DmPeerInfo;
  app_members : gmap string (gmap string MembershipRecord);
  app_bans : gmap string (list string);
  app_read_state : gmap string Z;
  app_hosting_passwords : gmap string string;
  app_seed_fingerprints : gmap string bytes;
  app_presence : gmap string UserStatus;
  app_pending_manifest_syncs : list string;
  app_pending_rotation_messages : gmap string (list (string * bytes));
  app_actual_listen_addrs : list string;
  app_public_addr : option string;
  app_seed_connected_communities : gset string;
  app_metrics_connected_peers : Z;
  app_node_store : option (NodeStore T);
  app_dht : option (DhtHandle T) }.
Arguments mkApp {T}.
Arguments app_peer_id {T}.
Arguments app_public_key_hex {T}.
Arguments app_node_address {T}.
Arguments app_signing_key {T}.
Arguments app_encryption_key {T}.
Arguments app_local_tls_fingerprint_hex {T}.
Arguments app_identity_state {T}.
Arguments app_config {T}.
Arguments app_message_log {T}.
Arguments app_connected_peers {T}.
Arguments app_communities {T}.
Arguments app_channels {T}.
Arguments app_channel_keys {T}.
Arguments app_previous_channel_keys {T}.
Arguments app_dms {T}.
Arguments app_dm_peers {T}.
Arguments app_members {T}.
Arguments app_bans {T}.
Arguments app_read_state {T}.
Arguments app_hosting_passwords {T}.
Arguments app_seed_fingerprints {T}.
Arguments app_presence {T}.
Arguments app_pending_manifest_syncs {T}.
Arguments app_pending_rotation_messages {T}.
Arguments app_actual_listen_addrs {T}.
Arguments app_public_addr {T}.
Arguments app_seed_connected_communities {T}.
Arguments app_metrics_connected_peers {T}.
Arguments app_node_store {T}.
Arguments app_dht {T}.

Definition set_identity_state {T} (v : IdentityState) (a : AppState T) : AppState T :=
  mkApp (app_peer_id a) (app_public_key_hex a) (app_node_address a) (app_signing_key a)
    (app_encryption_key a) (app_local_tls_fingerprint_hex a) v (app_config a) (app_message_log
    a) (app_connected_peers a) (app_communities a) (app_channels a) (app_channel_keys a)
    (app_previous_channel_keys a) (app_dms a) (app_dm_peers a) (app_members a) (app_bans a)
    (app_read_state a) (app_hosting_passwords a) (app_seed_fingerprints a) (app_presence a)
    (app_pending_manifest_syncs a) (app_pending_rotation_messages a) (app_actual_listen_addrs a)
    (app_public_addr a) (app_seed_connected_communities a) (app_metrics_connected_peers a)
    (app_node_store a) (app_dht a).
Definition set_config {T} (v : NodeConfig) (a : AppState T) : AppState T :=
  mkApp (app_peer_id a) (app_public_key_hex a) (app_node_address a) (app_signing_key a)
    (app_encryption_key a) (app_local_tls_fingerprint_hex a) (app_identity_state a) v
    (app_message_log a) (app_connected_peers a) (app_communities a) (app_channels a)
    (app_channel_keys a) (app_previous_channel_keys a) (app_dms a) (app_dm_peers a) (app_members
    a) (app_bans a) (app_read_state a) (app_hosting_passwords a) (app_seed_fingerprints a)
    (app_presence a) (app_pending_manifest_syncs a) (app_pending_rotation_messages a)
    (app_actual_listen_addrs a) (app_public_addr a) (app_seed_connected_communities a)
    (app_metrics_connected_peers a) (app_node_store a) (app_dht a).
Definition set_message_log {T} (v : MessageLog) (a : AppState T) : AppState T :=
  mkApp (app_peer_id a) (app_public_key_hex a) (app_node_address a) (app_signing_key a)
    (app_encryption_key a) (app_local_tls_fingerprint_hex a) (app_identity_state a) (app_config
    a) v (app_connected_peers a) (app_communities a) (app_channels a) (app_channel_keys a)
    (app_previous_channel_keys a) (app_dms a) (app_dm_peers a) (app_members a) (app_bans a)
    (app_read_state a) (app_hosting_passwords a) (app_seed_fingerprints a) (app_presence a)
    (app_pending_manifest_syncs a) (app_pending_rotation_messages a) (app_actual_listen_addrs a)
    (app_public_addr a) (app_seed_connected_communities a) (app_metrics_connected_peers a)
    (app_node_store a) (app_dht a).
Definition set_connected_peers {T} (v : gmap string (list PeerSummary)) (a : AppState T) : AppState T :=
  mkApp (app_peer_id a) (app_public_key_hex a) (app_node_address a) (app_signing_key a)
    (app_encryption_key a) (app_local_tls_fingerprint_hex a) (app_identity_state a) (app_config
    a) (app_message_log a) v (app_communities a) (app_channels a) (app_channel_keys a)
    (app_previous_channel_keys a) (app_dms a) (app_dm_peers a) (app_members a) (app_bans a)
    (app_read_state a) (app_hosting_passwords a) (app_seed_fingerprints a) (app_presence a)
    (app_pending_manifest_syncs a) (app_pending_rotation_messages a) (app_actual_listen_addrs a)
    (app_public_addr a) (app_seed_connected_communities a) (app_metrics_connected_peers a)
    (app_node_store a) (app_dht a).
Definition set_communities {T} (v : gmap string SignedManifest) (a : AppState T) : AppState T :=
  mkApp (app_peer_id a) (app_public_key_hex a) (app_node_address a) (app_signing_key a)
    (app_encryption_key a) (app_local_tls_fingerprint_hex a) (app_identity_state a) (app_config
    a) (app_message_log a) (app_connected_peers a) v (app_channels a) (app_channel_keys a)
    (app_previous_channel_keys a) (app_dms a) (app_dm_peers a) (app_members a) (app_bans a)
    (app_read_state a) (app_hosting_passwords a) (app_seed_fingerprints a) (app_presence a)
    (app_pending_manifest_syncs a) (app_pending_rotation_messages a) (app_actual_listen_addrs a)
    (app_public_addr a) (app_seed_connected_communities a) (app_metrics_connected_peers a)
    (app_node_store a) (app_dht a).
Definition set_channels {T} (v : gmap string ChannelManifest) (a : AppState T) : AppState T :=
  mkApp (app_peer_id a) (app_public_key_hex a) (app_node_address a) (app_signing_key a)
    (app_encryption_key a) (app_local_tls_fingerprint_hex a) (app_identity_state a) (app_config
    a) (app_message_log a) (app_connected_peers a) (app_communities a) v (app_channel_keys a)
    (app_previous_channel_keys a) (app_dms a) (app_dm_peers a) (app_members a) (app_bans a)
    (app_read_state a) (app_hosting_passwords a) (app_seed_fingerprints a) (app_presence a)
    (app_pending_manifest_syncs a) (app_pending_rotation_messages a) (app_actual_listen_addrs a)
    (app_public_addr a) (app_seed_connected_communities a) (app_metrics_connected_peers a)
    (app_node_store a) (app_dht a).
Definition set_channel_keys {T} (v : gmap string bytes) (a : AppState T) : AppState T :=
  mkApp (app_peer_id a) (app_public_key_hex a) (app_node_address a) (app_signing_key a)
    (app_encryption_key a) (app_local_tls_fingerprint_hex a) (app_identity_state a) (app_config
    a) (app_message_log a) (app_connected_peers a) (app_communities a) (app_channels a) v
    (app_previous_channel_keys a) (app_dms a) (app_dm_peers a) (app_members a) (app_bans a)
    (app_read_state a) (app_hosting_passwords a) (app_seed_fingerprints a) (app_presence a)
    (app_pending_manifest_syncs a) (app_pending_rotation_messages a) (app_actual_listen_addrs a)
    (app_public_addr a) (app_seed_connected_communities a) (app_metrics_connected_peers a)
    (app_node_store a) (app_dht a).
Definition set_previous_channel_keys {T} (v : gmap string bytes) (a : AppState T) : AppState T :=
  mkApp (app_peer_id a) (app_public_key_hex a) (app_node_address a) (app_signing_key a)
    (app_encryption_key a) (app_local_tls_fingerprint_hex a) (app_identity_state a) (app_config
    a) (app_message_log a) (app_connected_peers a) (app_communities a) (app_channels a)
    (app_channel_keys a) v (app_dms a) (app_dm_peers a) (app_members a) (app_bans a)
    (app_read_state a) (app_hosting_passwords a) (app_seed_fingerprints a) (app_presence a)
    (app_pending_manifest_syncs a) (app_pending_rotation_messages a) (app_actual_listen_addrs a)
    (app_public_addr a) (app_seed_connected_communities a) (app_metrics_connected_peers a)
    (app_node_store a) (app_dht a).
Definition set_dms {T} (v : gmap string (list DmMessageInfo)) (a : AppState T) : AppState T :=
  mkApp (app_peer_id a) (app_public_key_hex a) (app_node_address a) (app_signing_key a)
    (app_encryption_key a) (app_local_tls_fingerprint_hex a) (app_identity_state a) (app_config
    a) (app_message_log a) (app_connected_peers a) (app_communities a) (app_channels a)
    (app_channel_keys a) (app_previous_channel_keys a) v (app_dm_peers a) (app_members a)
    (app_bans a) (app_read_state a) (app_hosting_passwords a) (app_seed_fingerprints a)
    (app_presence a) (app_pending_manifest_syncs a) (app_pending_rotation_messages a)
    (app_actual_listen_addrs a) (app_public_addr a) (app_seed_connected_communities a)
    (app_metrics_connected_peers a) (app_node_store a) (app_dht a).
Definition set_dm_peers {T} (v : gmap string DmPeerInfo) (a : AppState T) : AppState T :=
  mkApp (app_peer_id a) (app_public_key_hex a) (app_node_address a) (app_signing_key a)
    (app_encryption_key a) (app_local_tls_fingerprint_hex a) (app_identity_state a) (app_config
    a) (app_message_log a) (app_connected_peers a) (app_communities a) (app_channels a)
    (app_channel_keys a) (app_previous_channel_keys a) (app_dms a) v (app_members a) (app_bans
    a) (app_read_state a) (app_hosting_passwords a) (app_seed_fingerprints a) (app_presence a)
    (app_pending_manifest_syncs a) (app_pending_rotation_messages a) (app_actual_listen_addrs a)
    (app_public_addr a) (app_seed_connected_communities a) (app_metrics_connected_peers a)
    (app_node_store a) (app_dht a).
Definition set_members {T} (v : gmap string (gmap string MembershipRecord)) (a : AppState T) : AppState T :=
  mkApp (app_peer_id a) (app_public_key_hex a) (app_node_address a) (app_signing_key a)
    (app_encryption_key a) (app_local_tls_fingerprint_hex a) (app_identity_state a) (app_config
    a) (app_message_log a) (app_connected_peers a) (app_communities a) (app_channels a)
    (app_channel_keys a) (app_previous_channel_keys a) (app_dms a) (app_dm_peers a) v (app_bans
    a) (app_read_state a) (app_hosting_passwords a) (app_seed_fingerprints a) (app_presence a)
    (app_pending_manifest_syncs a) (app_pending_rotation_messages a) (app_actual_listen_addrs a)
    (app_public_addr a) (app_seed_connected_communities a) (app_metrics_connected_peers a)
    (app_node_store a) (app_dht a).
Definition set_bans {T} (v : gmap string (list string)) (a : AppState T) : AppState T :=
  mkApp (app_peer_id a) (app_public_key_hex a) (app_node_address a) (app_signing_key a)
    (app_encryption_key a) (app_local_tls_fingerprint_hex a) (app_identity_state a) (app_config
    a) (app_message_log a) (app_connected_peers a) (app_communities a) (app_channels a)
    (app_channel_keys a) (app_previous_channel_keys a) (app_dms a) (app_dm_peers a) (app_members
    a) v (app_read_state a) (app_hosting_passwords a) (app_seed_fingerprints a) (app_presence a)
    (app_pending_manifest_syncs a) (app_pending_rotation_messages a) (app_actual_listen_addrs a)
    (app_public_addr a) (app_seed_connected_communities a) (app_metrics_connected_peers a)
    (app_node_store a) (app_dht a).
Definition set_read_state {T} (v : gmap string Z) (a : AppState T) : AppState T :=
  mkApp (app_peer_id a) (app_public_key_hex a) (app_node_address a) (app_signing_key a)
    (app_encryption_key a) (app_local_tls_fingerprint_hex a) (app_identity_state a) (app_config
    a) (app_message_log a) (app_connected_peers a) (app_communities a) (app_channels a)
    (app_channel_keys a) (app_previous_channel_keys a) (app_dms a) (app_dm_peers a) (app_members
    a) (app_bans a) v (app_hosting_passwords a) (app_seed_fingerprints a) (app_presence a)
    (app_pending_manifest_syncs a) (app_pending_rotation_messages a) (app_actual_listen_addrs a)
    (app_public_addr a) (app_seed_connected_communities a) (app_metrics_connected_peers a)
    (app_node_store a) (app_dht a).
Definition set_hosting_passwords {T} (v : gmap string string) (a : AppState T) : AppState T :=
  mkApp (app_peer_id a) (app_public_key_hex a) (app_node_address a) (app_signing_key a)
    (app_encryption_key a) (app_local_tls_fingerprint_hex a) (app_identity_state a) (app_config
    a) (app_message_log a) (app_connected_peers a) (app_communities a) (app_channels a)
    (app_channel_keys a) (app_previous_channel_keys a) (app_dms a) (app_dm_peers a) (app_members
    a) (app_bans a) (app_read_state a) v (app_seed_fingerprints a) (app_presence a)
    (app_pending_manifest_syncs a) (app_pending_rotation_messages a) (app_actual_listen_addrs a)
    (app_public_addr a) (app_seed_connected_communities a) (app_metrics_connected_peers a)
    (app_node_store a) (app_dht a).
Definition set_seed_fingerprints {T} (v : gmap string bytes) (a : AppState T) : AppState T :=
  mkApp (app_peer_id a) (app_public_key_hex a) (app_node_address a) (app_signing_key a)
    (app_encryption_key a) (app_local_tls_fingerprint_hex a) (app_identity_state a) (app_config
    a) (app_message_log a) (app_connected_peers a) (app_communities a) (app_channels a)
    (app_channel_keys a) (app_previous_channel_keys a) (app_dms a) (app_dm_peers a) (app_members
    a) (app_bans a) (app_read_state a) (app_hosting_passwords a) v (app_presence a)
    (app_pending_manifest_syncs a) (app_pending_rotation_messages a) (app_actual_listen_addrs a)
    (app_public_addr a) (app_seed_connected_communities a) (app_metrics_connected_peers a)
    (app_node_store a) (app_dht a).
Definition set_presence {T} (v : gmap string UserStatus) (a : AppState T) : AppState T :=
  mkApp (app_peer_id a) (app_public_key_hex a) (app_node_address a) (app_signing_key a)
    (app_encryption_key a) (app_local_tls_fingerprint_hex a) (app_identity_state a) (app_config
    a) (app_message_log a) (app_connected_peers a) (app_communities a) (app_channels a)
    (app_channel_keys a) (app_previous_channel_keys a) (app_dms a) (app_dm_peers a) (app_members
    a) (app_bans a) (app_read_state a) (app_hosting_passwords a) (app_seed_fingerprints a) v
    (app_pending_manifest_syncs a) (app_pending_rotation_messages a) (app_actual_listen_addrs a)
    (app_public_addr a) (app_seed_connected_communities a) (app_metrics_connected_peers a)
    (app_node_store a) (app_dht a).
Definition set_pending_manifest_syncs {T} (v : list string) (a : AppState T) : AppState T :=
  mkApp (app_peer_id a) (app_public_key_hex a) (app_node_address a) (app_signing_key a)
    (app_encryption_key a) (app_local_tls_fingerprint_hex a) (app_identity_state a) (app_config
    a) (app_message_log a) (app_connected_peers a) (app_communities a) (app_channels a)
    (app_channel_keys a) (app_previous_channel_keys a) (app_dms a) (app_dm_peers a) (app_members
    a) (app_bans a) (app_read_state a) (app_hosting_passwords a) (app_seed_fingerprints a)
    (app_presence a) v (app_pending_rotation_messages a) (app_actual_listen_addrs a)
    (app_public_addr a) (app_seed_connected_communities a) (app_metrics_connected_peers a)
    (app_node_store a) (app_dht a).
Definition set_pending_rotation_messages {T} (v : gmap string (list (string * bytes))) (a : AppState T) : AppState T :=
  mkApp (app_peer_id a) (app_public_key_hex a) (app_node_address a) (app_signing_key a)
    (app_encryption_key a) (app_local_tls_fingerprint_hex a) (app_identity_state a) (app_config
    a) (app_message_log a) (app_connected_peers a) (app_communities a) (app_channels a)
    (app_channel_keys a) (app_previous_channel_keys a) (app_dms a) (app_dm_peers a) (app_members
    a) (app_bans a) (app_read_state a) (app_hosting_passwords a) (app_seed_fingerprints a)
    (app_presence a) (app_pending_manifest_syncs a) v (app_actual_listen_addrs a)
    (app_public_addr a) (app_seed_connected_communities a) (app_metrics_connected_peers a)
    (app_node_store a) (app_dht a).
Definition set_actual_listen_addrs {T} (v : list string) (a : AppState T) : AppState T :=
  mkApp (app_peer_id a) (app_public_key_hex a) (app_node_address a) (app_signing_key a)
    (app_encryption_key a) (app_local_tls_fingerprint_hex a) (app_identity_state a) (app_config
    a) (app_message_log a) (app_connected_peers a) (app_communities a) (app_channels a)
    (app_channel_keys a) (app_previous_channel_keys a) (app_dms a) (app_dm_peers a) (app_members
    a) (app_bans a) (app_read_state a) (app_hosting_passwords a) (app_seed_fingerprints a)
    (app_presence a) (app_pending_manifest_syncs a) (app_pending_rotation_messages a) v
    (app_public_addr a) (app_seed_connected_communities a) (app_metrics_connected_peers a)
    (app_node_store a) (app_dht a).
Definition set_public_addr {T} (v : option string) (a : AppState T) : AppState T :=
  mkApp (app_peer_id a) (app_public_key_hex a) (app_node_address a) (app_signing_key a)
    (app_encryption_key a) (app_local_tls_fingerprint_hex a) (app_identity_state a) (app_config
    a) (app_message_log a) (app_connected_peers a) (app_communities a) (app_channels a)
    (app_channel_keys a) (app_previous_channel_keys a) (app_dms a) (app_dm_peers a) (app_members
    a) (app_bans a) (app_read_state a) (app_hosting_passwords a) (app_seed_fingerprints a)
    (app_presence a) (app_pending_manifest_syncs a) (app_pending_rotation_messages a)
    (app_actual_listen_addrs a) v (app_seed_connected_communities a)
    (app_metrics_connected_peers a) (app_node_store a) (app_dht a).
Definition set_seed_connected_communities {T} (v : gset string) (a : AppState T) : AppState T :=
  mkApp (app_peer_id a) (app_public_key_hex a) (app_node_address a) (app_signing_key a)
    (app_encryption_key a) (app_local_tls_fingerprint_hex a) (app_identity_state a) (app_config
    a) (app_message_log a) (app_connected_peers a) (app_communities a) (app_channels a)
    (app_channel_keys a) (app_previous_channel_keys a) (app_dms a) (app_dm_peers a) (app_members
    a) (app_bans a) (app_read_state a) (app_hosting_passwords a) (app_seed_fingerprints a)
    (app_presence a) (app_pending_manifest_syncs a) (app_pending_rotation_messages a)
    (app_actual_listen_addrs a) (app_public_addr a) v (app_metrics_connected_peers a)
    (app_node_store a) (app_dht a).
Definition set_metrics_connected_peers {T} (v : Z) (a : AppState T) : AppState T :=
  mkApp (app_peer_id a) (app_public_key_hex a) (app_node_address a) (app_signing_key a)
    (app_encryption_key a) (app_local_tls_fingerprint_hex a) (app_identity_state a) (app_config
    a) (app_message_log a) (app_connected_peers a) (app_communities a) (app_channels a)
    (app_channel_keys a) (app_previous_channel_keys a) (app_dms a) (app_dm_peers a) (app_members
    a) (app_bans a) (app_read_state a) (app_hosting_passwords a) (app_seed_fingerprints a)
    (app_presence a) (app_pending_manifest_syncs a) (app_pending_rotation_messages a)
    (app_actual_listen_addrs a) (app_public_addr a) (app_seed_connected_communities a) v
    (app_node_store a) (app_dht a).
Definition set_node_store {T} (v : option (NodeStore T)) (a : AppState T) : AppState T :=
  mkApp (app_peer_id a) (app_public_key_hex a) (app_node_address a) (app_signing_key a)
    (app_encryption_key a) (app_local_tls_fingerprint_hex a) (app_identity_state a) (app_config
    a) (app_message_log a) (app_connected_peers a) (app_communities a) (app_channels a)
    (app_channel_keys a) (app_previous_channel_keys a) (app_dms a) (app_dm_peers a) (app_members
    a) (app_bans a) (app_read_state a) (app_hosting_passwords a) (app_seed_fingerprints a)
    (app_presence a) (app_pending_manifest_syncs a) (app_pending_rotation_messages a)
    (app_actual_listen_addrs a) (app_public_addr a) (app_seed_connected_communities a)
    (app_metrics_connected_peers a) v (app_dht a).
Definition set_dht {T} (v : option (DhtHandle T)) (a : AppState T) : AppState T :=
  mkApp (app_peer_id a) (app_public_key_hex a) (app_node_address a) (app_signing_key a)
    (app_encryption_key a) (app_local_tls_fingerprint_hex a) (app_identity_state a) (app_config
    a) (app_message_log a) (app_connected_peers a) (app_communities a) (app_channels a)
    (app_channel_keys a) (app_previous_channel_keys a) (app_dms a) (app_dm_peers a) (app_members
    a) (app_bans a) (app_read_state a) (app_hosting_passwords a) (app_seed_fingerprints a)
    (app_presence a) (app_pending_manifest_syncs a) (app_pending_rotation_messages a)
    (app_actual_listen_addrs a) (app_public_addr a) (app_seed_connected_communities a)
    (app_metrics_connected_peers a) (app_node_store a) v.

Record World (T : Type) := mkWorld {
  w_app : AppState T;
  w_disk : gmap string bytes;    (* the files of the data directory *)
  w_disk_ok : bool;              (* whether writes succeed *)
  w_out : list Output;
  w_draws : nat }.
Arguments mkWorld {T}.
Arguments w_app {T}.
Arguments w_disk {T}.
Arguments w_disk_ok {T}.
Arguments w_out {T}.
Arguments w_draws {T}.

Section app.
Context {T : Type} `{Crypto} `{Table T} `{NodeCodecs} `{HashOrder} `{UlidText} `{Entropy}.
Implicit Types w : World T.

Definition upd (f : AppState T → AppState T) w : World T :=
  mkWorld (f (w_app w)) (w_disk w) (w_disk_ok w) (w_out w) (w_draws w).
Definition emit (o : Output) w : World T :=
  mkWorld (w_app w) (w_disk w) (w_disk_ok w) (w_out w ++ [o]) (w_draws w).
Definition emits (os : list Output) w : World T := foldl (λ w o, emit o w) w os.
Definition command (c : NetworkCommand) w : World T := emit (Cmd c) w.
Definition broadcast (e : PushEvent) w : World T := emit (Event e) w.
(** The commands given so far. *)
Definition commands w : nat := length (omap (λ o, match o with Cmd c => Some c | _ => None end) (w_out w)).
Definition draw w : World T :=
  mkWorld (w_app w) (w_disk w) (w_disk_ok w) (w_out w) (S (w_draws w)).
Definition write_file (name : string) (data : bytes) w : World T :=
  mkWorld (w_app w) (if w_disk_ok w then <[name := data]> (w_disk w) else w_disk w)
    (w_disk_ok w) (w_out w) (w_draws w).

(** ** [save_table], [load_table] *)

Definition save_table {A} `{Json (gmap string A)} (name : string) (data : gmap string A) w : World T :=
  match to_json data with
  | None => w
  | Some json_bytes =>
      match app_encryption_key (w_app w) with
      | Some key =>
          match encrypt_bytes (rng24 (w_draws w)) json_bytes key with
          | Ok encrypted => write_file name encrypted (draw w)
          | Err _ => draw w
          end
      | None => write_file name json_bytes w
      end
  end.

Definition load_table {A} `{Json (gmap string A)} (name : string) (key : option bytes)
    (disk : gmap string bytes) : gmap string A :=
  match disk !! name with
  | None => ∅
  | Some raw =>
      match key with
      | Some key =>
          match decrypt_bytes raw key with
          | Ok decrypted => default ∅ (from_json decrypted)
          | Err _ => default ∅ (from_json raw)
          end
      | None => default ∅ (from_json raw)
      end
  end.

(** ** The embedded node store: [if let Some(store) = &state.node_store] *)

(** A write whose failure is ignored: the store stays as it was. *)
Definition on_store (f : bytes → NodeStore T → result store_error (NodeStore T)) w : World T :=
  match app_node_store (w_app w) with
  | Some st =>
      match f (rng24 (w_draws w)) st with
      | Ok st' => draw (upd (set_node_store (Some st')) w)
      | Err _ => draw w
      end
  | None => w
  end.
Definition stored_meta (cpk : bytes) w : option CommunityMeta :=
  st ← app_node_store (w_app w); meta_or_none cpk st.
Definition write_meta (cpk : bytes) (meta : CommunityMeta) w : World T :=
  on_store (λ rnd, set_community_meta rnd cpk meta) w.
(** [if let Ok(Some(mut meta)) = store.get_community_meta(..)], then change and write it. *)
Definition update_meta (cpk : bytes) (f : CommunityMeta → CommunityMeta) w : World T :=
  match stored_meta cpk w with
  | Some meta => write_meta cpk (f meta) w
  | None => w
  end.
Definition persist_message (cpk : bytes) (channel_id : Ulid) (nonce ciphertext : bytes)
    (message_id author_id : string) (timestamp_ms : Z) w : World T :=
  on_store (λ rnd st,
    '(_, st') ← append_message rnd cpk channel_id nonce ciphertext message_id author_id timestamp_ms st;
    Ok st') w.

(** ** The persisted tables *)

Context `{AppCodecs}.

Definition save_communities w : World T := save_table "communities.json" (app_communities (w_app w)) w.
Definition save_channels w : World T := save_table "channels.json" (app_channels (w_app w)) w.
Definition save_channel_keys w : World T := save_table "channel_keys.json" (app_channel_keys (w_app w)) w.
Definition save_previous_keys w : World T :=
  save_table "previous_channel_keys.json" (app_previous_channel_keys (w_app w)) w.
Definition save_members w : World T := save_table "members.json" (app_members (w_app w)) w.
Definition save_passwords w : World T :=
  save_table "hosting_passwords.json" (app_hosting_passwords (w_app w)) w.
Definition save_dms w : World T := save_table "dms.json" (app_dms (w_app w)) w.
Definition save_dm_peers w : World T := save_table "dm_peers.json" (app_dm_peers (w_app w)) w.
Definition save_bans w : World T := save_table "bans.json" (app_bans (w_app w)) w.
Definition save_read_state w : World T := save_table "read_state.json" (app_read_state (w_app w)) w.
Definition save_fingerprints w : World T := save_table "seed_fingerprints.json" (app_seed_fingerprints (w_app w)) w.

(** ** [remove_community_local] *)

Definition channels_of_community (community_id : string) (chs : gmap string ChannelManifest)
    : list string :=
  (λ kc, ulid_to_string (ch_id kc.2)) <$>
    retain (λ kc, bool_decide (ulid_to_string (ch_community_id kc.2) = community_id)) (hash_order chs).

Definition deletes {A} (ids : list string) (m : gmap string A) : gmap string A :=
  foldl (λ m id, delete id m) m ids.

Definition known_community_pk (community_id : string) w : option bytes :=
  s ← app_communities (w_app w) !! community_id; Some (cm_public_key (sm_manifest s)).

Definition remove_community_local (community_id : string) w : World T :=
  let channel_ids := channels_of_community community_id (app_channels (w_app w)) in
  let community_pk := known_community_pk community_id w in
  let w := save_communities (upd (λ a, set_communities (delete community_id (app_communities a)) a) w) in
  let w := save_members (upd (λ a, set_members (delete community_id (app_members a)) a) w) in
  let w := save_channels (upd (λ a, set_channels (deletes channel_ids (app_channels a)) a) w) in
  let w := save_channel_keys (upd (λ a, set_channel_keys (deletes channel_ids (app_channel_keys a)) a) w) in
  let w := save_passwords
             (upd (λ a, set_hosting_passwords (delete community_id (app_hosting_passwords a)) a) w) in
  let w := match community_pk with
           | Some pk => on_store (λ _, remove_community pk) w
           | None => w
           end in
  let w := command (CmdUnsubscribe (community_topic community_id)) w in
  foldl (λ w ch_id, command (CmdUnsubscribe (channel_topic ch_id)) w) w channel_ids.
End app.

(** ** Invariant

    What holds of the application state between two events. Tables are keyed by the
    identifiers of their values; a message id occurs once in a channel, a direct message
    once in a conversation, a peer once in a community's list; what is buffered during a
    rotation are messages of that channel; the embedded store and the routing table are
    well-formed. *)

Definition log_unique (log : MessageLog) : Prop :=
  ∀ channel_id, NoDup (le_message_id <$> entries_of channel_id log).

Section invariant.
Context {T : Type} `{CryptoLaws} `{TableLaws T} `{NodeCodecsLaws} `{HashOrder} `{UlidText} `{EntropyLaws}.
Context `{AppCodecs}.
Implicit Types w : World T.
Implicit Types a : AppState T.

Record app_inv a : Prop := {
  ai_store : ∀ st, app_node_store a = Some st → store_inv st;
  ai_dht : ∀ d, app_dht a = Some d → rt_inv (dh_state d);
  ai_communities : ∀ k s, app_communities a !! k = Some s → wf_key (cm_public_key (sm_manifest s));
  ai_channels : ∀ k c, app_channels a !! k = Some c → k = ulid_to_string (ch_id c);
  ai_members : ∀ k l, app_members a !! k = Some l → ∀ u m, l !! u = Some m → u = hex (mr_user_id m);
  ai_log : log_unique (app_message_log a);
  ai_dms : ∀ k l, app_dms a !! k = Some l → NoDup (di_id <$> l);
  ai_peers : ∀ k l, app_connected_peers a !! k = Some l → NoDup (ps_peer_id <$> l);
  ai_pending : NoDup (app_pending_manifest_syncs a);
  ai_buffers : ∀ ch buf, app_pending_rotation_messages a !! ch = Some buf →
    ∀ td, td ∈ buf → ∃ raw, from_bytes td.2 = Some (NewMessage raw) ∧ ulid_to_string (rm_channel_id raw) = ch }.

Definition inv w : Prop := app_inv (w_app w).

(** The steps that do not touch the state. *)
Lemma save_table_app {A} `{Json (gmap string A)} name data w : w_app (save_table name data w) = w_app w.
Proof using Type.
  unfold save_table. destruct (to_json data); [|done]. destruct (app_encryption_key (w_app w)); [|done].
  by destruct (encrypt_bytes _ _ _).
Qed.
Lemma emits_app os w : w_app (emits os w) = w_app w.
Proof using Type. revert w; induction os as [|o os IH]; intros w; [done|]. exact (IH (emit o w)). Qed.
Lemma last_emit o w : last (w_out (emit o w)) = Some o.
Proof using Type. cbn. by rewrite last_snoc. Qed.
Lemma commands_emit o w : commands (emit o w) = (commands w + match o with Cmd _ => 1 | _ => 0 end)%nat.
Proof using Type. unfold commands, emit. cbn. rewrite omap_app, length_app. by destruct o. Qed.
Lemma fold_app {A} (f : World T → A → World T) l w :
  (∀ w x, w_app (f w x) = w_app w) → w_app (foldl f w l) = w_app w.
Proof using Type. intros Hf. revert w; induction l as [|x l IH]; intros w; [done|]. cbn. by rewrite IH. Qed.
Lemma fold_frame {A B} (proj : AppState T → B) (f : World T → A → World T) l w :
  (∀ w x, proj (w_app (f w x)) = proj (w_app w)) → proj (w_app (foldl f w l)) = proj (w_app w).
Proof using Type. intros Hf. revert w; induction l as [|x l IH]; intros w; [done|]. cbn. by rewrite IH. Qed.
Lemma fold_inv {A} (P : World T → Prop) (f : World T → A → World T) l w :
  P w → (∀ w x, x ∈ l → P w → P (f w x)) → P (foldl f w l).
Proof using Type.
  revert w; induction l as [|x l IH]; intros w Hw Hf; [done|]. cbn. apply IH.
  - apply Hf; [by left|done].
  - intros w' y Hy. apply Hf. by right.
Qed.

(** What is sent out only grows. *)
Lemma save_table_out {A} `{Json (gmap string A)} name (data : gmap string A) w : w_out (save_table name data w) = w_out w.
Proof using Type.
  unfold save_table. destruct (to_json data); [|done]. destruct (app_encryption_key (w_app w)); [|done].
  by destruct (encrypt_bytes _ _ _).
Qed.
Lemma on_store_out f w : w_out (on_store f w) = w_out w.
Proof using Type. unfold on_store. destruct (app_node_store _); [|done]. by destruct (f _ _). Qed.
Lemma fold_out {A} (f : World T → A → World T) l w :
  (∀ w x, w_out w `prefix_of` w_out (f w x)) → w_out w `prefix_of` w_out (foldl f w l).
Proof using Type.
  intros Hf. revert w. induction l as [|x l IH]; intros w; [done|]. cbn. etrans; [apply Hf|apply IH].
Qed.
Lemma out_elem o w w' : w_out w `prefix_of` w_out w' → o ∈ w_out w → o ∈ w_out w'.
Proof using Type. intros [k ->] Ho. apply elem_of_app. by left. Qed.

(** A write to the embedded store changes nothing else. *)
Lemma set_store_id s a : app_node_store a = s → set_node_store s a = a.
Proof using Type. intros <-. by destruct a. Qed.
Lemma on_store_app f w : ∃ s, w_app (on_store f w) = set_node_store s (w_app w).
Proof using Type.
  unfold on_store. destruct (app_node_store (w_app w)) as [st|] eqn:Hst.
  - destruct (f _ st) as [st'|]; [by exists (Some st')|]. exists (Some st). cbn. by rewrite set_store_id.
  - exists None. by rewrite set_store_id.
Qed.
Lemma on_store_frame {A} (proj : AppState T → A) f w :
  (∀ s a, proj (set_node_store s a) = proj a) → proj (w_app (on_store f w)) = proj (w_app w).
Proof using Type. intros Hproj. destruct (on_store_app f w) as [s ->]. apply Hproj. Qed.

(** The invariant through the writes to one field. *)
Lemma inv_ext w w' : w_app w' = w_app w → inv w → inv w'.
Proof using Type. unfold inv. by intros ->. Qed.

Lemma inv_on_store f w :
  inv w →
  (∀ rnd st st', length rnd = 24%nat → store_inv st → f rnd st = Ok st' → store_inv st') →
  inv (on_store f w).
Proof using Type*.
  intros Hinv Hf. unfold on_store. destruct (app_node_store (w_app w)) as [st|] eqn:Hst; [|done].
  destruct (f _ st) as [st'|] eqn:Hw; [|by eapply inv_ext].
  destruct Hinv as [Hs ? ? ? ? ? ? ? ? ?]. split; cbn; try done. intros ? [= <-].
  eapply Hf; [apply rng24_length|by apply Hs|done].
Qed.
Lemma set_community_meta_succeeds rnd pk (m : CommunityMeta) (st : NodeStore T) :
  (∀ k n p, is_Some (aead_encrypt k n p)) → is_Some (to_allocvec m) → st_online st = true →
  ∃ st', set_community_meta rnd pk m st = Ok st'.
Proof using Type.
  intros Haead [b Hb] Hon. unfold set_community_meta, seal_value, store_encrypt, transaction. rewrite Hon, Hb. cbn [ok_or mbind result_bind].
  destruct (st_key st) as [k|]; [|by eexists]. unfold encrypt_bytes. destruct (Haead k rnd b) as [c ->]. by eexists.
Qed.
Lemma inv_write_meta pk meta w : inv w → wf_key pk → inv (write_meta pk meta w).
Proof using Type*.
  intros Hw Hpk. apply inv_on_store; [done|]. intros rnd st st' Hr Hst Hset.
  by destruct (set_community_meta_spec _ _ _ _ _ Hst Hpk Hr Hset).
Qed.
Lemma inv_update_meta pk f w : inv w → wf_key pk → inv (update_meta pk f w).
Proof using Type*.
  intros Hw Hpk. unfold update_meta. destruct (stored_meta pk w); [|done]. by apply inv_write_meta.
Qed.
Lemma inv_persist_message pk ch nonce ct mid author ts w :
  inv w → wf_key pk → inv (persist_message pk ch nonce ct mid author ts w).
Proof using Type*.
  intros Hw Hpk. apply inv_on_store; [done|]. intros rnd st st' Hr Hst Happ.
  apply result_bind_ok in Happ as ([seq s] & Happ & [= <-]).
  by destruct (append_message_step _ _ _ _ _ _ _ _ _ _ _ Hst Hpk Hr Happ) as (_ & ? & _).
Qed.
Lemma known_community_pk_wf id w pk : inv w → known_community_pk id w = Some pk → wf_key pk.
Proof using Type.
  intros Hw Hk. unfold known_community_pk in Hk. apply bind_Some in Hk as (s & Hs & [= <-]).
  by eapply ai_communities.
Qed.

Ltac inv_field :=
  let H := fresh in intros H; destruct H as [? ? ? ? ? ? ? ? ? ?]; intros; split; cbn; done.

Lemma inv_set_communities g w :
  inv w → (∀ k s, g (w_app w) !! k = Some s → wf_key (cm_public_key (sm_manifest s))) →
  inv (upd (λ a, set_communities (g a) a) w).
Proof using Type. inv_field. Qed.
Lemma inv_set_channels g w :
  inv w → (∀ k c, g (w_app w) !! k = Some c → k = ulid_to_string (ch_id c)) →
  inv (upd (λ a, set_channels (g a) a) w).
Proof using Type. inv_field. Qed.
Lemma inv_set_members g w :
  inv w → (∀ k l, g (w_app w) !! k = Some l → ∀ u m, l !! u = Some m → u = hex (mr_user_id m)) →
  inv (upd (λ a, set_members (g a) a) w).
Proof using Type. inv_field. Qed.
Lemma inv_set_log g w : inv w → log_unique (g (w_app w)) → inv (upd (λ a, set_message_log (g a) a) w).
Proof using Type. inv_field. Qed.
Lemma inv_set_dms g w :
  inv w → (∀ k l, g (w_app w) !! k = Some l → NoDup (di_id <$> l)) → inv (upd (λ a, set_dms (g a) a) w).
Proof using Type. inv_field. Qed.
Lemma inv_set_peers g w :
  inv w → (∀ k l, g (w_app w) !! k = Some l → NoDup (ps_peer_id <$> l)) →
  inv (upd (λ a, set_connected_peers (g a) a) w).
Proof using Type. inv_field. Qed.
Lemma inv_set_syncs g w : inv w → NoDup (g (w_app w)) → inv (upd (λ a, set_pending_manifest_syncs (g a) a) w).
Proof using Type. inv_field. Qed.
Lemma inv_set_buffers g w :
  inv w →
  (∀ ch buf, g (w_app w) !! ch = Some buf → ∀ td, td ∈ buf →
     ∃ raw, from_bytes td.2 = Some (NewMessage raw) ∧ ulid_to_string (rm_channel_id raw) = ch) →
  inv (upd (λ a, set_pending_rotation_messages (g a) a) w).
Proof using Type. inv_field. Qed.
Lemma inv_set_dht d w : inv w → rt_inv (dh_state d) → inv (upd (λ a, set_dht (Some d) a) w).
Proof using Type.
  intros [? ? ? ? ? ? ? ? ? ?] Hv. split; cbn; try done. by intros ? [= <-].
Qed.

(** The fields the invariant says nothing of. *)
Lemma inv_set_channel_keys g w : inv w → inv (upd (λ a, set_channel_keys (g a) a) w).
Proof using Type. inv_field. Qed.
Lemma inv_set_previous_keys g w : inv w → inv (upd (λ a, set_previous_channel_keys (g a) a) w).
Proof using Type. inv_field. Qed.
Lemma inv_set_passwords g w : inv w → inv (upd (λ a, set_hosting_passwords (g a) a) w).
Proof using Type. inv_field. Qed.
Lemma inv_set_dm_peers g w : inv w → inv (upd (λ a, set_dm_peers (g a) a) w).
Proof using Type. inv_field. Qed.
Lemma inv_set_presence g w : inv w → inv (upd (λ a, set_presence (g a) a) w).
Proof using Type. inv_field. Qed.
Lemma inv_set_seeds g w : inv w → inv (upd (λ a, set_seed_connected_communities (g a) a) w).
Proof using Type. inv_field. Qed.
Lemma inv_set_metrics g w : inv w → inv (upd (λ a, set_metrics_connected_peers (g a) a) w).
Proof using Type. inv_field. Qed.
Lemma inv_set_listen g w : inv w → inv (upd (λ a, set_actual_listen_addrs (g a) a) w).
Proof using Type. inv_field. Qed.
Lemma inv_set_public g w : inv w → inv (upd (λ a, set_public_addr (g a) a) w).
Proof using Type. inv_field. Qed.

Lemma inv_save_table {A} `{Json (gmap string A)} name (data : gmap string A) w :
  inv w → inv (save_table name data w).
Proof using Type. apply inv_ext, save_table_app. Qed.
Lemma inv_emit o w : inv w → inv (emit o w).
Proof using Type. by apply inv_ext. Qed.
Lemma inv_draw w : inv w → inv (draw w).
Proof using Type. by apply inv_ext. Qed.

(** Tables indexed by the identifiers of their values, under insertion and deletion. *)
Lemma keyed_insert {A} (P : string → A → Prop) k v (m : gmap string A) :
  P k v → (∀ j x, m !! j = Some x → P j x) → ∀ j x, <[k := v]> m !! j = Some x → P j x.
Proof using Type.
  intros Hv Hm j x. rewrite lookup_insert_Some. intros [[<- <-]|[_ ?]]; [done|by apply Hm].
Qed.
Lemma keyed_delete {A} (P : string → A → Prop) k (m : gmap string A) :
  (∀ j x, m !! j = Some x → P j x) → ∀ j x, delete k m !! j = Some x → P j x.
Proof using Type. intros Hm j x. rewrite lookup_delete_Some. intros [_ ?]. by apply Hm. Qed.
Lemma lookup_deletes {A} ids (m : gmap string A) k :
  deletes ids m !! k = if bool_decide (k ∈ ids) then None else m !! k.
Proof using Type.
  revert m; induction ids as [|i ids IH]; intros m; [done|]. cbn [deletes foldl]. unfold deletes in IH.
  rewrite IH. destruct (decide (k = i)) as [->|Hne].
  - rewrite lookup_delete_eq. by case_bool_decide; rewrite bool_decide_eq_true_2 by left.
  - rewrite lookup_delete_ne by done. assert (bool_decide (k ∈ i :: ids) = bool_decide (k ∈ ids)) as ->; [|done].
    apply bool_decide_ext. rewrite elem_of_cons. naive_solver.
Qed.
Lemma keyed_deletes {A} (P : string → A → Prop) ids (m : gmap string A) :
  (∀ j x, m !! j = Some x → P j x) → ∀ j x, deletes ids m !! j = Some x → P j x.
Proof using Type. intros Hm j x. rewrite lookup_deletes. case_bool_decide; [done|]. apply Hm. Qed.

Lemma inv_remove_community_local id w : inv w → inv (remove_community_local id w).
Proof using Type*.
  intros Hw. unfold remove_community_local. set (ids := channels_of_community _ _).
  set (pk := known_community_pk id w). assert (∀ p, pk = Some p → wf_key p) as Hpk.
  { intros p Hp. by eapply known_community_pk_wf. }
  apply fold_inv; [|intros; by apply inv_emit]. apply inv_emit.
  set (w1 := save_passwords _). assert (inv w1) as Hw1.
  { subst w1. apply inv_save_table, inv_set_passwords, inv_save_table, inv_set_channel_keys, inv_save_table.
    apply inv_set_channels.
    - apply inv_save_table, inv_set_members.
      + apply inv_save_table, inv_set_communities; [done|]. apply keyed_delete, (ai_communities _ Hw).
      + unfold save_communities. rewrite save_table_app. cbn.
        apply (keyed_delete (λ _ l, ∀ u m, l !! u = Some m → u = hex (mr_user_id m))), (ai_members _ Hw).
    - unfold save_members, save_communities. rewrite !save_table_app. cbn. rewrite !save_table_app.
      apply keyed_deletes, (ai_channels _ Hw). }
  destruct pk as [p|] eqn:Hp; [|done]. apply inv_on_store; [done|].
  intros rnd st st' Hr Hst Hrm. by destruct (remove_community_spec _ _ _ Hst (Hpk p eq_refl) Hrm).
Qed.

(** ** Forgetting a community *)

(** The state without the community's manifest, members, hosting password, channels and channel
    keys. The message log, the previous keys, the read markers and the pinned fingerprints
    are not among the tables that are cleaned. *)
Definition without_community (id : string) a : AppState T :=
  let ids := channels_of_community id (app_channels a) in
  set_hosting_passwords (delete id (app_hosting_passwords a))
    (set_channel_keys (deletes ids (app_channel_keys a))
      (set_channels (deletes ids (app_channels a))
        (set_members (delete id (app_members a))
          (set_communities (delete id (app_communities a)) a)))).
(** What forgetting a community amounts to: five tables lose it and everything else stays; the
    embedded store, if it can be written, has neither its metadata nor a message of any of its
    channels, and still has the other communities; and its topics are unsubscribed from. *)
Definition forgotten (id : string) w w' : Prop :=
  (∃ st, w_app w' = set_node_store st (without_community id (w_app w))) ∧
  (∀ pk st, known_community_pk id w = Some pk → wf_key pk → app_node_store (w_app w) = Some st →
     store_inv st → st_online st = true →
     ∃ st', app_node_store (w_app w') = Some st' ∧ get_community_meta pk st' = Ok None ∧
       (∀ ch, is_u128 ch → get_messages pk ch 0 st' = Ok []) ∧
       (∀ pk', pk' ≠ pk → get_community_meta pk' st' = get_community_meta pk' st)) ∧
  ∀ topic, topic ∈ community_topic id :: (channel_topic <$> channels_of_community id (app_channels (w_app w))) →
    Cmd (CmdUnsubscribe topic) ∈ w_out w'.

Lemma elem_of_commands_fold {A} (f : A → NetworkCommand) l w o :
  o ∈ w_out (foldl (λ w x, command (f x) w) w l) ↔ o ∈ w_out w ∨ ∃ x, x ∈ l ∧ o = Cmd (f x).
Proof using Type.
  revert w; induction l as [|x l IH]; intros w; cbn [foldl].
  { split; [by left|]. intros [?|(x & Hx & _)]; [done|by apply elem_of_nil in Hx]. }
  rewrite IH. cbn [command emit w_out]. rewrite elem_of_app, list_elem_of_singleton.
  setoid_rewrite elem_of_cons. clear. naive_solver.
Qed.
Lemma remove_local_state id w :
  let saved := w_app (remove_community_local id w) in
  ∃ w1, w_app w1 = without_community id (w_app w) ∧
    saved = w_app (match known_community_pk id w with Some pk => on_store (λ _, remove_community pk) w1 | None => w1 end).
Proof using Type.
  intros saved. subst saved. unfold remove_community_local. set (ids := channels_of_community _ _).
  rewrite fold_app by done. cbn [command emit w_app]. set (w1 := save_passwords _). exists w1. split; [|done].
  subst w1. unfold save_passwords, save_channel_keys, save_channels, save_members, save_communities.
  repeat (rewrite save_table_app; cbn -[deletes]). done.
Qed.
Lemma remove_local_forgets id w : forgotten id w (remove_community_local id w).
Proof using All.
  destruct (remove_local_state id w) as (w1 & Hw1 & Hs). cbv zeta in Hs. unfold forgotten. split_and!.
  - rewrite Hs, <- Hw1. destruct (known_community_pk id w); [apply on_store_app|].
    exists (app_node_store (w_app w1)). symmetry. by apply set_store_id.
  - intros pk st Hk Hpk Hst Hinv Hon. rewrite Hs, Hk. unfold on_store. rewrite Hw1.
    change (app_node_store (without_community id (w_app w))) with (app_node_store (w_app w)). rewrite Hst.
    destruct (remove_community pk st) as [st'|e] eqn:Hrm.
    + destruct (remove_community_spec _ _ _ Hinv Hpk Hrm) as (_ & Hmeta & Hlog & Hother & _). by exists st'.
    + exfalso. revert Hrm. unfold remove_community, transaction. by rewrite Hon.
  - intros topic Hin. unfold remove_community_local. apply elem_of_commands_fold. apply elem_of_cons in Hin as [->|Hin].
    + left. cbn [command emit w_out]. apply elem_of_app. right. by left.
    + apply list_elem_of_fmap in Hin as (ch & -> & Hin). right. by exists ch.
Qed.
Lemma forgotten_emit id o w w' : forgotten id w w' → forgotten id w (emit o w').
Proof using Type.
  intros (Ha & Hs & Ho). split_and!; [done|done|]. intros topic Ht. apply (out_elem _ w'); [by apply prefix_app_r|by apply Ho].
Qed.
Lemma remove_local_app id w :
  ∃ s, w_app (remove_community_local id w) = set_node_store s (without_community id (w_app w)).
Proof using All. apply remove_local_forgets. Qed.
Lemma remove_local_communities id w :
  app_communities (w_app (remove_community_local id w)) = delete id (app_communities (w_app w)).
Proof using All. by destruct (remove_local_app id w) as [s ->]. Qed.

End invariant.

Create HintDb client_db.
#[export] Hint Resolve inv_emit inv_draw inv_save_table inv_set_channel_keys inv_set_previous_keys
  inv_set_passwords inv_set_dm_peers inv_set_presence inv_set_seeds inv_set_metrics inv_set_listen
  inv_set_public inv_remove_community_local : client_db.
