(* ===== verification/ChannelEvents.v ===== *)
(** * Channel events: [bitcord-core/src/api/event_processor/channel_handler.rs]

    What a client does with the events gossiped on a channel topic: messages, edits,
    deletions and key rotations, and with the history a peer returns. [Handled] is the
    result of a handler that takes the lock on the messages buffered during a rotation, or
    sends commands: it runs to the end, waits for a lock that its own task holds, waits for
    room in the queue of commands ([ClientEvents]), or panics. *)

From S2P Require Import Prelude Bytes Redb Crypto Codec Model ClientState SeqLog Store DhtNode Handler AppState.

Inductive Handled (T : Type) :=
  | Done (w : World T)
  | Blocked
  | Stalled
  | Panicked.
Arguments Done {T} w.
Arguments Blocked {T}.
Arguments Stalled {T}.
Arguments Panicked {T}.

Definition and_then {T} (h : Handled T) (f : World T → Handled T) : Handled T :=
  match h with Done w => f w | Blocked => Blocked | Stalled => Stalled | Panicked => Panicked end.

Section channel_events.
Context {T : Type} `{Crypto} `{Table T} `{NodeCodecs} `{HashOrder} `{UlidText} `{UlidParse}.
Context `{Entropy} `{AppCodecs}.
Implicit Types w : World T.

(** ** Lookups shared by the handlers *)

Definition member_of (community_id user_id : string) w : option MembershipRecord :=
  list ← app_members (w_app w) !! community_id; list !! user_id.
Definition community_of_channel (channel_id : string) w : option string :=
  ulid_to_string ∘ ch_community_id <$> app_channels (w_app w) !! channel_id.
Definition peers_of (community_id : string) w : list PeerSummary :=
  default [] (app_connected_peers (w_app w) !! community_id).
(** The admin among the connected peers, else the first peer. *)
Definition preferred_peer (community_id : string) w : option string :=
  let list := peers_of community_id w in
  match find_by ps_is_admin list with
  | Some p => Some (ps_peer_id p)
  | None => ps_peer_id <$> head list
  end.

(** ** New messages *)

Definition decrypt_with_previous (key : bytes) (previous : option bytes) (nonce ciphertext : bytes)
    : option bytes :=
  match decrypt_message key nonce ciphertext with
  | Ok plaintext => Some plaintext
  | Err _ => previous ← previous; result_ok (decrypt_message previous nonce ciphertext)
  end.

(** A message that no key opens is kept when a rotation is in progress on the channel.
    [locked]: the caller holds the lock on the buffers. *)
Definition buffer_rotation (locked : bool) (channel_id topic : string) (data : bytes) w : Handled T :=
  if locked then Blocked
  else
    match app_pending_rotation_messages (w_app w) !! channel_id with
    | Some buf =>
        Done (upd (λ a, set_pending_rotation_messages
                          (<[channel_id := buf ++ [(topic, data)]]> (app_pending_rotation_messages a)) a) w)
    | None => Done w
    end.

Definition apply_reaction (content : option MessageContent) (author_id : string) (log : MessageLog)
    : MessageLog :=
  match content with
  | Some (Reaction target emoji true) => (react target emoji author_id log).1
  | Some (Reaction target emoji false) => (unreact target emoji author_id log).1
  | _ => log
  end.

Definition new_message_event (community_id : string) (content : option MessageContent)
    (raw : RawMessage) w : PushEvent :=
  let channel_id := ulid_to_string (rm_channel_id raw) in
  match content with
  | Some (Reaction target _ _) =>
      PushReactionUpdated (mkReactionUpdated target channel_id community_id
        ((λ p, mkReactionInfo p.1 p.2) <$> get_reactions target (app_message_log (w_app w))))
  | _ =>
      let author_id := hex (rm_author_id raw) in
      PushMessageNew (mkMessageEvent (ulid_to_string (rm_id raw)) channel_id community_id author_id
        (mr_display_name <$> member_of community_id author_id w) (rm_timestamp raw) None)
  end.

Definition store_new_message (community_id : string) (content : option MessageContent)
    (raw : RawMessage) w : World T :=
  let channel_id := ulid_to_string (rm_channel_id raw) in
  let message_id := ulid_to_string (rm_id raw) in
  let author_id := hex (rm_author_id raw) in
  let timestamp_ms := timestamp_millis (rm_timestamp raw) in
  match get_entry channel_id message_id (app_message_log (w_app w)) with
  | Some _ => w
  | None =>
      let w := upd (λ a, set_message_log
                  (append channel_id message_id author_id timestamp_ms (rm_nonce raw) (rm_ciphertext raw)
                     (apply_reaction content author_id (app_message_log a))).1 a) w in
      let w :=
        match known_community_pk community_id w with
        | Some pk => persist_message pk (rm_channel_id raw) (rm_nonce raw) (rm_ciphertext raw)
                       message_id author_id timestamp_ms w
        | None => w
        end in
      broadcast (new_message_event community_id content raw w) w
  end.

Definition handle_new_message (locked : bool) (topic : string) (data : bytes) (raw : RawMessage) w
    : Handled T :=
  let channel_id := ulid_to_string (rm_channel_id raw) in
  match community_of_channel channel_id w with
  | None => Done w
  | Some community_id =>
      match app_channel_keys (w_app w) !! channel_id with
      | None => Done w
      | Some key =>
          match decrypt_with_previous key (app_previous_channel_keys (w_app w) !! channel_id)
                  (rm_nonce raw) (rm_ciphertext raw) with
          | None => buffer_rotation locked channel_id topic data w
          | Some plaintext =>
              match member_of community_id (hex (rm_author_id raw)) w with
              | None => Done w
              | Some m =>
                  if ed_valid_key (mr_public_key m) && raw_verify raw (mr_public_key m)
                  then Done (store_new_message community_id (content_decode plaintext) raw w)
                  else Done w
              end
          end
      end
  end.

(** ** Edits and deletions *)

Definition handle_edit_message (payload : EditMessagePayload) w : World T :=
  let channel_id := ulid_to_string (em_channel_id payload) in
  let message_id := ulid_to_string (em_message_id payload) in
  let author_id := hex (em_author_id payload) in
  match get_entry channel_id message_id (app_message_log (w_app w)) with
  | None => w
  | Some entry =>
      if negb (bool_decide (le_author_id entry = author_id)) then w
      else
        let '(log, edited) := edit channel_id message_id (em_new_nonce payload)
                                (em_new_ciphertext payload) (app_message_log (w_app w)) in
        if negb edited then w
        else
          let w := upd (set_message_log log) w in
          match community_of_channel channel_id w with
          | None => w
          | Some community_id =>
              let author_name := mr_display_name <$> member_of community_id author_id w in
              let body :=
                key ← app_channel_keys (w_app w) !! channel_id;
                plain ← result_ok (decrypt_message key (em_new_nonce payload) (em_new_ciphertext payload));
                content ← content_decode plain;
                match content with TextContent body _ _ _ => Some body | _ => None end in
              broadcast (PushMessageEdited (mkMessageEvent message_id channel_id community_id author_id
                author_name (em_timestamp payload) body)) w
          end
  end.

Definition handle_delete_message (payload : DeleteMessagePayload) w : World T :=
  let channel_id := ulid_to_string (dm_channel_id payload) in
  let message_id := ulid_to_string (dm_message_id payload) in
  let author_id := hex (dm_author_id payload) in
  match get_entry channel_id message_id (app_message_log (w_app w)) with
  | None => w
  | Some entry =>
      if negb (bool_decide (le_author_id entry = author_id)) then w
      else
        let '(log, deleted) := tombstone channel_id message_id (app_message_log (w_app w)) in
        if negb deleted then w
        else
          let w := upd (set_message_log log) w in
          match community_of_channel channel_id w with
          | None => w
          | Some community_id =>
              broadcast (PushMessageDeleted (mkMessageDeleted message_id channel_id community_id)) w
          end
  end.

(** ** Key rotation *)

Definition is_newer_channel (new_manifest : ChannelManifest) w : bool :=
  match app_channels (w_app w) !! ulid_to_string (ch_id new_manifest) with
  | Some current => ch_version current <? ch_version new_manifest
  | None => false
  end.

Definition replace_or_push (channel_id : string) (ch : ChannelManifest) (meta : CommunityMeta)
    : CommunityMeta :=
  let same c := bool_decide (ulid_to_string (ch_id c) = channel_id) in
  mkMeta (meta_cert meta) (meta_manifest meta)
    (if any same (meta_channels meta) then update_first same (λ _, ch) (meta_channels meta)
     else meta_channels meta ++ [ch])
    (meta_channel_keys meta) (meta_members meta).

(** The signature is checked over the new channel as the receiver encodes it, the wrapped keys in
    the order of the map it decoded. *)
Definition rotation_verified (order : nat) (admin_pk : bytes) (payload : ChannelKeyRotationPayload) : bool :=
  ed_valid_key admin_pk && (length (kr_signature payload) =? 64)%nat &&
  match reencode_channel order (kr_new_manifest payload) with
  | Some encoded => ed_verify admin_pk encoded (kr_signature payload)
  | None => false
  end.

Definition handle_channel_key_rotation (locked : bool) (payload : ChannelKeyRotationPayload) w
    : Handled T :=
  let new_manifest := kr_new_manifest payload in
  let channel_id := ulid_to_string (ch_id new_manifest) in
  let community_id := ulid_to_string (ch_community_id new_manifest) in
  match known_community_pk community_id w with
  | None => Done w
  | Some admin_pk =>
      let order := w_draws w in
      let w := draw w in
      if negb (rotation_verified order admin_pk payload) then Done w
      else if negb (is_newer_channel new_manifest w) then Done w
      else
        let w := save_channels
                   (upd (λ a, set_channels (<[channel_id := new_manifest]> (app_channels a)) a) w) in
        let w := update_meta admin_pk (replace_or_push channel_id new_manifest) w in
        if locked then Blocked
        else
          let w := upd (λ a, set_pending_rotation_messages
                     (<[channel_id := default [] (app_pending_rotation_messages a !! channel_id)]>
                        (app_pending_rotation_messages a)) a) w in
          Done match preferred_peer community_id w with
               | Some peer_id => command (CmdFetchManifest peer_id community_id admin_pk) w
               | None => w
               end
  end.

(** ** The channel topic *)

Definition handle_channel_message (locked : bool) (topic : string) (data : bytes) w : Handled T :=
  match from_bytes (A := NetworkEvent) data with
  | Some (NewMessage raw) => handle_new_message locked topic data raw w
  | Some (ChannelKeyRotation payload) => handle_channel_key_rotation locked payload w
  | Some (EditMessage payload) => Done (handle_edit_message payload w)
  | Some (DeleteMessage payload) => Done (handle_delete_message payload w)
  | _ => Done w
  end.

(** ** History received from a peer *)

Definition history_reaction (key : option bytes) (entry : LogEntry) : option MessageContent :=
  key ← key; plain ← result_ok (decrypt_message key (le_nonce entry) (le_ciphertext entry));
  content_decode plain.

Definition add_history_entry (channel_id : string) (channel_ulid : Ulid) (community_pk key : option bytes)
    (entry : LogEntry) w : World T :=
  match get_entry channel_id (le_message_id entry) (app_message_log (w_app w)) with
  | Some _ => w
  | None =>
      let w := upd (λ a, set_message_log
                 (append_entry channel_id entry
                    (apply_reaction (history_reaction key entry) (le_author_id entry) (app_message_log a))) a) w in
      match community_pk with
      | Some pk => persist_message pk channel_ulid (le_nonce entry) (le_ciphertext entry)
                     (le_message_id entry) (le_author_id entry) (le_timestamp_ms entry) w
      | None => w
      end
  end.

Definition sync_complete (channel_id community_id : string) w : World T :=
  broadcast (PushChannelHistorySynced (mkHistorySynced channel_id community_id))
    (broadcast (PushSyncProgress (mkSyncProgress channel_id 1)) w).

Definition handle_channel_history_received (community_id channel_id : string)
    (entries : list LogEntry) w : World T :=
  match entries with
  | [] => sync_complete channel_id community_id w
  | _ =>
      let community_pk := known_community_pk community_id w in
      match parse_ulid channel_id with
      | None => sync_complete channel_id community_id w
      | Some channel_ulid =>
          let key := app_channel_keys (w_app w) !! channel_id in
          sync_complete channel_id community_id
            (foldl (λ w entry, add_history_entry channel_id channel_ulid community_pk key entry w) w entries)
      end
  end.
End channel_events.

(** ** The invariant through the channel events *)

Section channel_invariant.
Context {T : Type} `{CryptoLaws} `{TableLaws T} `{NodeCodecsLaws} `{HashOrder} `{UlidText} `{UlidParse}.
Context `{EntropyLaws} `{AppCodecs}.
Implicit Types w : World T.

Lemma entries_of_reaction c content author log :
  entries_of c (apply_reaction content author log) = entries_of c log.
Proof using Type.
  unfold apply_reaction, entries_of. destruct content as [[| t e []]|]; try done.
  - by rewrite (proj1 (react_channels t e author log)).
  - by rewrite (proj2 (react_channels t e author log)).
Qed.
Lemma log_unique_snoc c e log :
  log_unique log → le_message_id e ∉ le_message_id <$> entries_of c log →
  log_unique (set_entries c (entries_of c log ++ [e]) log).
Proof using Type.
  intros Hu Hn c'. rewrite entries_of_set. case_bool_decide; [subst c'|apply Hu].
  rewrite fmap_app. apply NoDup_app. split_and!; [apply Hu| |apply NoDup_singleton].
  by intros x Hx ->%list_elem_of_singleton.
Qed.
Lemma log_unique_reaction content author log :
  log_unique log → log_unique (apply_reaction content author log).
Proof using Type. intros Hu c. rewrite entries_of_reaction. apply Hu. Qed.
Lemma log_unique_edit c mid nonce ct log :
  log_unique log → log_unique (edit c mid nonce ct log).1 ∧ log_unique (tombstone c mid log).1.
Proof using Type.
  intros Hu. split; intros c'; rewrite ?edit_entries, ?tombstone_entries; case_bool_decide; try apply Hu;
    rewrite update_first_fmap by done; apply Hu.
Qed.

Lemma inv_store_new_message community_id content raw w : inv w → inv (store_new_message community_id content raw w).
Proof using Type*.
  intros Hw. unfold store_new_message. destruct (get_entry _ _ _) eqn:Hnew; [done|].
  apply get_entry_None in Hnew. cbv zeta. apply inv_emit.
  set (w1 := upd _ w). assert (inv w1) as Hw1.
  { apply inv_set_log; [done|]. apply log_unique_snoc; [apply log_unique_reaction, (ai_log _ Hw)|].
    cbn. by rewrite entries_of_reaction. }
  destruct (known_community_pk community_id w1) eqn:Hpk; [|done].
  apply inv_persist_message; [done|]. by eapply known_community_pk_wf.
Qed.

Lemma inv_buffer_rotation locked channel_id topic data raw w w' :
  inv w → from_bytes data = Some (NewMessage raw) → channel_id = ulid_to_string (rm_channel_id raw) →
  buffer_rotation locked channel_id topic data w = Done w' → inv w'.
Proof using Type*.
  intros Hw Hd Hc. unfold buffer_rotation. destruct locked; [done|].
  destruct (app_pending_rotation_messages (w_app w) !! channel_id) as [buf|] eqn:Hb; [|by intros [= <-]].
  intros [= <-]. apply inv_set_buffers; [done|].
  intros ch b. rewrite lookup_insert_Some. intros [[<- <-]|[_ Hb']]; [|by apply (ai_buffers _ Hw)].
  intros td [Hin| ->%list_elem_of_singleton]%elem_of_app; [by eapply (ai_buffers _ Hw)|]. by exists raw.
Qed.

Lemma inv_new_message locked topic data raw w w' :
  inv w → from_bytes data = Some (NewMessage raw) →
  handle_new_message locked topic data raw w = Done w' → inv w'.
Proof using Type*.
  intros Hw Hd. unfold handle_new_message.
  destruct (community_of_channel _ w); [|by intros [= <-]].
  destruct (app_channel_keys (w_app w) !! _); [|by intros [= <-]].
  destruct (decrypt_with_previous _ _ _ _).
  - destruct (member_of _ _ w) as [m|]; [|by intros [= <-]].
    destruct (_ && _); intros [= <-]; [by apply inv_store_new_message|done].
  - by apply (inv_buffer_rotation _ _ _ _ raw).
Qed.

Lemma inv_edit_message payload w : inv w → inv (handle_edit_message payload w).
Proof using Type*.
  intros Hw. unfold handle_edit_message. destruct (get_entry _ _ _) as [e|]; [|done].
  destruct (negb _); [done|]. destruct (edit _ _ _ _ _) as [log ok] eqn:He. destruct (negb ok); [done|].
  assert (inv (upd (set_message_log log) w)) as Hw'.
  { apply (inv_set_log (λ _, log)); [done|]. change log with (log, ok).1. rewrite <- He.
    apply log_unique_edit, (ai_log _ Hw). }
  destruct (community_of_channel _ _); [|done]. by apply inv_emit.
Qed.
Lemma inv_delete_message payload w : inv w → inv (handle_delete_message payload w).
Proof using Type*.
  intros Hw. unfold handle_delete_message. destruct (get_entry _ _ _) as [e|]; [|done].
  destruct (negb _); [done|]. destruct (tombstone _ _ _) as [log ok] eqn:He. destruct (negb ok); [done|].
  assert (inv (upd (set_message_log log) w)) as Hw'.
  { apply (inv_set_log (λ _, log)); [done|]. change log with (log, ok).1. rewrite <- He.
    exact (proj2 (log_unique_edit _ _ [] [] _ (ai_log _ Hw))). }
  destruct (community_of_channel _ _); [|done]. by apply inv_emit.
Qed.

Lemma inv_save_channels_insert channel_id ch w :
  inv w → channel_id = ulid_to_string (ch_id ch) →
  inv (save_channels (upd (λ a, set_channels (<[channel_id := ch]> (app_channels a)) a) w)).
Proof using Type.
  intros Hw ->. apply inv_save_table, inv_set_channels; [done|]. by apply keyed_insert, (ai_channels _ Hw).
Qed.

Lemma inv_key_rotation locked payload w w' :
  inv w → handle_channel_key_rotation locked payload w = Done w' → inv w'.
Proof using Type*.
  intros Hw. unfold handle_channel_key_rotation.
  destruct (known_community_pk _ w) as [pk|] eqn:Hpk; [|by intros [= <-]]. cbv zeta.
  apply inv_draw in Hw. change (known_community_pk (ulid_to_string (ch_community_id (kr_new_manifest payload))) (draw w) = Some pk) in Hpk.
  destruct (negb (rotation_verified _ _ _)); [by intros [= <-]|].
  destruct (negb (is_newer_channel _ _)); [by intros [= <-]|]. destruct locked; [done|]. intros [= <-].
  set (w1 := update_meta pk _ _). assert (inv w1) as Hw1.
  { apply inv_update_meta; [by apply inv_save_channels_insert|by eapply known_community_pk_wf]. }
  set (w2 := upd _ w1). assert (inv w2) as Hw2.
  { apply inv_set_buffers; [done|]. intros ch buf. rewrite lookup_insert_Some.
    intros [[<- <-]|[_ ?]]; [|by apply (ai_buffers _ Hw1)].
    destruct (app_pending_rotation_messages (w_app w1) !! _) eqn:Hb; cbn.
    - by apply (ai_buffers _ Hw1).
    - by intros td ?%elem_of_nil. }
  destruct (preferred_peer _ _); [by apply inv_emit|done].
Qed.

Lemma inv_channel_message locked topic data w w' :
  inv w → handle_channel_message locked topic data w = Done w' → inv w'.
Proof using Type*.
  intros Hw. unfold handle_channel_message. destruct (from_bytes data) as [[]|] eqn:Hd; try (by intros [= <-]).
  - by eapply inv_new_message.
  - intros [= <-]. by apply inv_edit_message.
  - intros [= <-]. by apply inv_delete_message.
  - by apply inv_key_rotation.
Qed.

Lemma inv_history_entry channel_id ulid pk key e w :
  inv w → (∀ p, pk = Some p → wf_key p) → inv (add_history_entry channel_id ulid pk key e w).
Proof using Type*.
  intros Hw Hpk. unfold add_history_entry. destruct (get_entry _ _ _) eqn:Hnew; [done|].
  apply get_entry_None in Hnew. set (w1 := upd _ w). assert (inv w1) as Hw1.
  { apply inv_set_log; [done|]. apply log_unique_snoc; [apply log_unique_reaction, (ai_log _ Hw)|].
    by rewrite entries_of_reaction. }
  destruct pk; [|done]. apply inv_persist_message; auto.
Qed.
Lemma inv_history community_id channel_id entries w :
  inv w → inv (handle_channel_history_received community_id channel_id entries w).
Proof using Type*.
  intros Hw. unfold handle_channel_history_received, sync_complete.
  destruct entries as [|e es]; [apply inv_emit, inv_emit, Hw|].
  destruct (parse_ulid channel_id); [|apply inv_emit, inv_emit, Hw].
  apply inv_emit, inv_emit, fold_inv; [done|]. intros w' x _ Hw'. apply inv_history_entry; [done|].
  intros p Hp. exact (known_community_pk_wf _ _ _ Hw Hp).
Qed.
End channel_invariant.

(** ** Correctness of the channel events *)

Section channel_theorems.
Context {T : Type} `{CryptoLaws} `{TableLaws T} `{NodeCodecsLaws} `{HashOrder} `{UlidText} `{UlidParse}.
Context `{EntropyLaws} `{AppCodecs}.
Implicit Types w : World T.

(** [raw] opens to [plaintext] under a key of its channel and is signed by a member of the
    channel's community, whose record is [m]. *)
Definition acceptable (raw : RawMessage) (community_id : string) (m : MembershipRecord) (plaintext : bytes) w
    : Prop :=
  let channel_id := ulid_to_string (rm_channel_id raw) in
  community_of_channel channel_id w = Some community_id ∧
  (∃ key, app_channel_keys (w_app w) !! channel_id = Some key ∧
     decrypt_with_previous key (app_previous_channel_keys (w_app w) !! channel_id) (rm_nonce raw)
       (rm_ciphertext raw) = Some plaintext) ∧
  member_of community_id (hex (rm_author_id raw)) w = Some m ∧
  ed_valid_key (mr_public_key m) = true ∧ raw_verify raw (mr_public_key m) = true.

Lemma acceptable_frame w w' raw community_id m plaintext :
  app_channels (w_app w') = app_channels (w_app w) →
  app_channel_keys (w_app w') = app_channel_keys (w_app w) →
  app_previous_channel_keys (w_app w') = app_previous_channel_keys (w_app w) →
  app_members (w_app w') = app_members (w_app w) →
  acceptable raw community_id m plaintext w → acceptable raw community_id m plaintext w'.
Proof using Type.
  intros Hc Hk Hp Hm. unfold acceptable, community_of_channel, member_of. by rewrite Hc, Hk, Hp, Hm.
Qed.
(** Storing a message changes the log, the node store and nothing else. *)
Lemma store_new_message_frame {A} (proj : AppState T → A) community_id content raw w :
  (∀ s a, proj (set_node_store s a) = proj a) → (∀ l a, proj (set_message_log l a) = proj a) →
  proj (w_app (store_new_message community_id content raw w)) = proj (w_app w).
Proof using Type.
  intros Hs Hl. unfold store_new_message. destruct (get_entry _ _ _); [done|]. cbv zeta.
  destruct (known_community_pk _ _); cbn [broadcast emit w_app].
  - unfold persist_message. rewrite (on_store_frame proj) by done. apply Hl.
  - apply Hl.
Qed.

Definition received_entry (raw : RawMessage) (log : MessageLog) : LogEntry :=
  let channel_id := ulid_to_string (rm_channel_id raw) in
  mkLogEntry (Z.of_nat (length (entries_of channel_id log))) (rm_nonce raw) (rm_ciphertext raw)
    (ulid_to_string (rm_id raw)) (hex (rm_author_id raw)) (timestamp_millis (rm_timestamp raw)) false.

Lemma new_message_accepted locked topic data raw community_id m plaintext w :
  acceptable raw community_id m plaintext w →
  handle_new_message locked topic data raw w =
  Done (store_new_message community_id (content_decode plaintext) raw w).
Proof using Type.
  intros (Hc & (key & Hk & Hp) & Hm & Hv & Hs). unfold handle_new_message. by rewrite Hc, Hk, Hp, Hm, Hv, Hs.
Qed.

Lemma store_new_message_log community_id content raw w :
  let channel_id := ulid_to_string (rm_channel_id raw) in
  let log := app_message_log (w_app w) in
  ulid_to_string (rm_id raw) ∉ le_message_id <$> entries_of channel_id log →
  app_message_log (w_app (store_new_message community_id content raw w)) =
  set_entries channel_id (entries_of channel_id log ++ [received_entry raw log])
    (apply_reaction content (hex (rm_author_id raw)) log).
Proof using Type.
  cbv zeta. intros Hnew. apply get_entry_None in Hnew. unfold store_new_message. rewrite Hnew. destruct (known_community_pk _ _) as [pk|]; cbn [broadcast emit w_app].
  - unfold persist_message. rewrite (on_store_frame app_message_log) by done. cbn.
    unfold append, received_entry. by rewrite entries_of_reaction.
  - cbn. unfold append, received_entry. by rewrite entries_of_reaction.
Qed.

Lemma new_message_log_changed locked topic data raw w w' :
  handle_new_message locked topic data raw w = Done w' →
  (app_message_log (w_app w'), app_node_store (w_app w'), w_out w') ≠
    (app_message_log (w_app w), app_node_store (w_app w), w_out w) →
  ∃ community_id m plaintext, acceptable raw community_id m plaintext w.
Proof using Type.
  unfold handle_new_message, acceptable.
  destruct (community_of_channel _ w) as [c|]; [|by intros [= <-]].
  destruct (app_channel_keys (w_app w) !! _) as [key|] eqn:Hk; [|by intros [= <-]].
  destruct (decrypt_with_previous _ _ _ _) as [plain|] eqn:Hd.
  - destruct (member_of _ _ w) as [m|] eqn:Hm; [|by intros [= <-]].
    destruct (_ && _) eqn:Hv; [|by intros [= <-]]. apply andb_true_iff in Hv as [? ?]. intros [= <-] _.
    exists c, m, plain. split_and!; try done. by exists key.
  - unfold buffer_rotation. destruct locked; [done|].
    by destruct (app_pending_rotation_messages (w_app w) !! _); intros [= <-].
Qed.

(** Where the embedded store can be written, the message is its channel's next entry. *)
Lemma persist_message_spec pk ch nonce ct mid author ts w st es :
  (∀ e : LogEntry, is_Some (to_allocvec e)) → (∀ k n p, is_Some (aead_encrypt k n p)) →
  inv w → app_node_store (w_app w) = Some st → wf_key pk →
  get_messages pk ch 0 st = Ok es → log_room le_seq es →
  ∃ st', app_node_store (w_app (persist_message pk ch nonce ct mid author ts w)) = Some st' ∧
    get_messages pk ch 0 st' = Ok (es ++ [mkLogEntry (succ_seq le_seq es) nonce ct mid author ts false]).
Proof using Type*.
  intros Henc Haead Hw Hst Hpk Hget Hroom. pose proof (ai_store _ Hw _ Hst) as Hinv. pose proof (rng24_length (w_draws w)) as Hr.
  destruct (get_messages_holds _ _ _ _ Hinv Hpk Hget) as [Hon _].
  assert (∃ r, append_message (rng24 (w_draws w)) pk ch nonce ct mid author ts st = Ok r) as [[seq st'] Happ].
  { unfold append_message, transaction, seal_value, store_encrypt. rewrite Hon. cbn [mbind result_bind].
    destruct (Henc (mkLogEntry (next_seq 48 (t_range (log_key pk (ulid_be ch) 0) (log_key pk (ulid_be ch) U64_MAX) (LOG st)))
      nonce ct mid author ts false)) as [b ->]. cbn [ok_or mbind result_bind].
    destruct (st_key st) as [k|]; [|by eexists]. unfold encrypt_bytes. destruct (Haead k (rng24 (w_draws w)) b) as [c ->]. by eexists. }
  destruct (append_message_holds _ _ _ _ _ _ _ _ _ _ _ _ Hinv Hpk Hr Hget Hroom Happ) as (-> & Hinv' & Hon' & He').
  exists st'. unfold persist_message, on_store. rewrite Hst, Happ. split; [done|].
  exact (proj1 (channel_view _ _ _ _ Hinv' Hpk Hon' He')).
Qed.
(** Storing a message that is not there yet tells the frontend, once. *)
Lemma store_new_message_out community_id content raw w :
  let w' := store_new_message community_id content raw w in
  get_entry (ulid_to_string (rm_channel_id raw)) (ulid_to_string (rm_id raw)) (app_message_log (w_app w)) = None →
  w_out w' = w_out w ++ [Event (new_message_event community_id content raw w')].
Proof using Type.
  intros w' Hnew. subst w'. unfold store_new_message. rewrite Hnew. cbv zeta. cbn [broadcast emit w_out].
  destruct (known_community_pk _ _); [unfold persist_message; by rewrite on_store_out|done].
Qed.
Lemma store_new_message_store community_id content raw w pk st es :
  (∀ e : LogEntry, is_Some (to_allocvec e)) → (∀ k n p, is_Some (aead_encrypt k n p)) →
  inv w → app_node_store (w_app w) = Some st → known_community_pk community_id w = Some pk →
  get_messages pk (rm_channel_id raw) 0 st = Ok es → log_room le_seq es →
  get_entry (ulid_to_string (rm_channel_id raw)) (ulid_to_string (rm_id raw)) (app_message_log (w_app w)) = None →
  ∃ st', app_node_store (w_app (store_new_message community_id content raw w)) = Some st' ∧
    get_messages pk (rm_channel_id raw) 0 st' = Ok (es ++ [mkLogEntry (succ_seq le_seq es) (rm_nonce raw) (rm_ciphertext raw)
      (ulid_to_string (rm_id raw)) (hex (rm_author_id raw)) (timestamp_millis (rm_timestamp raw)) false]).
Proof using Type*.
  intros Henc Haead Hw Hst Hk Hget Hroom Hnew. unfold store_new_message. rewrite Hnew. cbv zeta.
  set (w1 := upd _ w). change (known_community_pk community_id w1) with (known_community_pk community_id w). rewrite Hk.
  cbn [broadcast emit w_app]. apply (persist_message_spec _ _ _ _ _ _ _ w1 st); try done; [|by eapply known_community_pk_wf].
  apply inv_set_log; [done|]. apply get_entry_None in Hnew. apply log_unique_snoc; [apply log_unique_reaction, (ai_log _ Hw)|].
  cbn. by rewrite entries_of_reaction.
Qed.

(** C1: what members post is what the others see, and nothing else. A message encrypted under
    a channel's current key (or under the previous one, when the current one does not open
    it) and signed by a member of the channel's community is appended at the end of that
    channel's log, decrypts there to what was posted, and leaves the other channels alone;
    the frontend is told of it, by one event; the embedded node's store, where there is one
    that can be read and written, has it as the channel's next entry; and delivered a second
    time it changes nothing. Conversely, a gossiped message changes the log, the embedded
    store or what is sent out only if it opens under one of the two keys and the key of a
    member of the channel's community signed it. *)
Theorem new_message_correct w :
  inv w →
  (∀ sk key nonce plaintext ct id ch ts community_id m topic data,
     let channel_id := ulid_to_string ch in
     let raw := raw_create id ch sk ts ct nonce in
     let log := app_message_log (w_app w) in
     from_bytes data = Some (NewMessage raw) →
     aead_encrypt key nonce plaintext = Some ct →
     (app_channel_keys (w_app w) !! channel_id = Some key ∨
      app_previous_channel_keys (w_app w) !! channel_id = Some key ∧
      ∃ cur, app_channel_keys (w_app w) !! channel_id = Some cur ∧ aead_decrypt cur nonce ct = None) →
     community_of_channel channel_id w = Some community_id →
     member_of community_id (hex (from_verifying_key (ed_public sk))) w = Some m →
     mr_public_key m = ed_public sk →
     ulid_to_string id ∉ le_message_id <$> entries_of channel_id log →
     ∃ w', handle_channel_message false topic data w = Done w' ∧
       entries_of channel_id (app_message_log (w_app w')) =
         entries_of channel_id log ++ [received_entry raw log] ∧
       decrypt_message key (le_nonce (received_entry raw log)) (le_ciphertext (received_entry raw log)) =
         Ok plaintext ∧
       (∀ c, c ≠ channel_id → entries_of c (app_message_log (w_app w')) = entries_of c log) ∧
       w_out w' = w_out w ++ [Event (new_message_event community_id (content_decode plaintext) raw w')] ∧
       (∀ st pk es, app_node_store (w_app w) = Some st → known_community_pk community_id w = Some pk →
          get_messages pk ch 0 st = Ok es → log_room le_seq es →
          (∀ e : LogEntry, is_Some (to_allocvec e)) → (∀ k n p, is_Some (aead_encrypt k n p)) →
          ∃ st', app_node_store (w_app w') = Some st' ∧
            get_messages pk ch 0 st' = Ok (es ++ [mkLogEntry (succ_seq le_seq es) nonce ct (ulid_to_string id)
              (hex (from_verifying_key (ed_public sk))) (timestamp_millis ts) false])) ∧
       handle_channel_message false topic data w' = Done w') ∧
  (∀ raw topic data w',
     from_bytes data = Some (NewMessage raw) → handle_channel_message false topic data w = Done w' →
     (app_message_log (w_app w'), app_node_store (w_app w'), w_out w') ≠
       (app_message_log (w_app w), app_node_store (w_app w), w_out w) →
     ∃ community_id m plaintext, acceptable raw community_id m plaintext w).
Proof using Type*.
  intros Hw. split.
  - intros sk key nonce plaintext ct id ch ts community_id m topic data channel_id raw log Hd He Hkey Hc Hm Hpk Hn.
    assert (decrypt_message key nonce ct = Ok plaintext) as Hdec.
    { unfold decrypt_message. by rewrite (aead_roundtrip _ _ _ _ He). }
    assert (acceptable raw community_id m plaintext w) as Hacc.
    { split_and!; [done| |done|rewrite Hpk; apply ed_public_valid|rewrite Hpk; apply raw_create_verify].
      unfold decrypt_with_previous. destruct Hkey as [Hk|(Hk & cur & Hcur & Hno)].
      - exists key. split; [done|]. cbn. by rewrite Hdec.
      - exists cur. split; [done|]. cbn. fold channel_id. rewrite Hk. unfold decrypt_message at 1.
        rewrite Hno. cbn. by rewrite Hdec. }
    unfold handle_channel_message. rewrite Hd, (new_message_accepted _ _ _ _ _ _ _ _ Hacc).
    pose proof (store_new_message_log community_id (content_decode plaintext) raw w Hn) as Hlog.
    set (w' := store_new_message _ _ _ _) in *. exists w'.
    assert (entries_of channel_id (app_message_log (w_app w')) =
            entries_of channel_id log ++ [received_entry raw log]) as Hent.
    { rewrite Hlog, entries_of_set. by rewrite bool_decide_eq_true_2. }
    split_and!; [done|done|done| | | |].
    + intros c Hne. rewrite Hlog, entries_of_set, bool_decide_eq_false_2 by done. apply entries_of_reaction.
    + by apply store_new_message_out, get_entry_None.
    + intros st pk es Hst Hk Hget Hroom Henc Haead.
      exact (store_new_message_store _ _ raw _ _ _ _ Henc Haead Hw Hst Hk Hget Hroom (proj2 (get_entry_None _ _ _) Hn)).
    + assert (get_entry channel_id (ulid_to_string id) (app_message_log (w_app w')) ≠ None) as Hdup.
      { rewrite get_entry_None, Hent, fmap_app. intros Hx. apply Hx, elem_of_app. right. by left. }
      assert (acceptable raw community_id m plaintext w') as Hacc'.
      { by apply (acceptable_frame w); [by apply store_new_message_frame..|]. }
      rewrite (new_message_accepted _ _ _ _ _ _ _ _ Hacc'). f_equal.
      destruct (get_entry channel_id (ulid_to_string id) (app_message_log (w_app w'))) as [e|] eqn:Hg; [|done].
      unfold store_new_message at 1. change (ulid_to_string (rm_channel_id raw)) with channel_id.
      change (ulid_to_string (rm_id raw)) with (ulid_to_string id). by rewrite Hg.
  - intros raw topic data w' Hd. unfold handle_channel_message. rewrite Hd. apply new_message_log_changed.
Qed.

Lemma edit_applied c mid nonce ct log e :
  get_entry c mid log = Some e → edit c mid nonce ct log = ((edit c mid nonce ct log).1, true).
Proof using Type.
  unfold get_entry, edit. destruct (channels log !! c) as [l|]; [|done]. cbn. intros [Hin Hm]%find_by_Some.
  assert (any (has_message_id mid) l = true) as -> by (apply any_true; by exists e). done.
Qed.
Lemma tombstone_applied c mid log e :
  get_entry c mid log = Some e → tombstone c mid log = ((tombstone c mid log).1, true).
Proof using Type.
  unfold get_entry, tombstone. destruct (channels log !! c) as [l|]; [|done]. cbn. intros [Hin Hm]%find_by_Some.
  assert (any (has_message_id mid) l = true) as -> by (apply any_true; by exists e). done.
Qed.
(** An edit or a deletion takes effect exactly on a message whose recorded author is the
    author the event names: its text is replaced, or it is marked deleted, its number,
    author and time stay, and every other message of every channel is as it was; for any
    other event the state does not change. The signature of the event plays no part: an
    event with another signature has the same effect. *)
Theorem edit_delete_correct w :
  (∀ p, let c := ulid_to_string (em_channel_id p) in
     let mid := ulid_to_string (em_message_id p) in
     let log := app_message_log (w_app w) in
     let w' := handle_edit_message p w in
     ((∃ e, get_entry c mid log = Some e ∧ le_author_id e = hex (em_author_id p) ∧
         get_entry c mid (app_message_log (w_app w')) =
           Some (mkLogEntry (le_seq e) (em_new_nonce p) (em_new_ciphertext p) (le_message_id e)
                   (le_author_id e) (le_timestamp_ms e) (le_deleted e)) ∧
         ∀ c' mid', ¬ (c = c' ∧ mid = mid') →
           get_entry c' mid' (app_message_log (w_app w')) = get_entry c' mid' log) ∨
      (∀ e, get_entry c mid log = Some e → le_author_id e ≠ hex (em_author_id p)) ∧ w' = w) ∧
     ∀ s, handle_edit_message (mkEdit (em_message_id p) (em_channel_id p) (em_author_id p)
            (em_new_ciphertext p) (em_new_nonce p) s (em_timestamp p)) w = w') ∧
  (∀ p, let c := ulid_to_string (dm_channel_id p) in
     let mid := ulid_to_string (dm_message_id p) in
     let log := app_message_log (w_app w) in
     let w' := handle_delete_message p w in
     ((∃ e, get_entry c mid log = Some e ∧ le_author_id e = hex (dm_author_id p) ∧
         get_entry c mid (app_message_log (w_app w')) =
           Some (mkLogEntry (le_seq e) (le_nonce e) (le_ciphertext e) (le_message_id e)
                   (le_author_id e) (le_timestamp_ms e) true) ∧
         ∀ c' mid', ¬ (c = c' ∧ mid = mid') →
           get_entry c' mid' (app_message_log (w_app w')) = get_entry c' mid' log) ∨
      (∀ e, get_entry c mid log = Some e → le_author_id e ≠ hex (dm_author_id p)) ∧ w' = w) ∧
     ∀ s, handle_delete_message (mkDelete (dm_message_id p) (dm_channel_id p) (dm_author_id p) s
            (dm_timestamp p)) w = w').
Proof using Type.
  split; intros p c mid log w'; (split; [|done]); subst w'.
  - unfold handle_edit_message. fold c mid log. destruct (get_entry c mid log) as [e|] eqn:He; [|by right].
    case_bool_decide as Ha; cbn [negb]; [left|right; naive_solver]. exists e. split_and!; [done|done| |];
      rewrite (edit_applied _ _ _ _ _ _ He); cbn [negb]; destruct (community_of_channel _ _); cbn -[edit].
    1, 2: by rewrite edit_get_entry, bool_decide_eq_true_2, He by done.
    all: intros c' mid' Hne; by rewrite edit_get_entry, bool_decide_eq_false_2 by done.
  - unfold handle_delete_message. fold c mid log. destruct (get_entry c mid log) as [e|] eqn:He; [|by right].
    case_bool_decide as Ha; cbn [negb]; [left|right; naive_solver]. exists e. split_and!; [done|done| |];
      rewrite (tombstone_applied _ _ _ _ He); cbn [negb]; destruct (community_of_channel _ _); cbn -[tombstone].
    1, 2: by rewrite tombstone_get_entry, bool_decide_eq_true_2, He by done.
    all: intros c' mid' Hne; by rewrite tombstone_get_entry, bool_decide_eq_false_2 by done.
Qed.

(** What an accepted rotation leaves behind. *)
Lemma rotation_accepted payload w pk :
  let m := kr_new_manifest payload in
  let channel_id := ulid_to_string (ch_id m) in
  known_community_pk (ulid_to_string (ch_community_id m)) w = Some pk →
  rotation_verified (w_draws w) pk payload = true → is_newer_channel m w = true →
  ∃ w', handle_channel_key_rotation false payload w = Done w' ∧
    app_channels (w_app w') = <[channel_id := m]> (app_channels (w_app w)) ∧
    app_pending_rotation_messages (w_app w') =
      <[channel_id := default [] (app_pending_rotation_messages (w_app w) !! channel_id)]>
        (app_pending_rotation_messages (w_app w)) ∧
    (∀ A (proj : AppState T → A),
       (∀ s a, proj (set_node_store s a) = proj a) → (∀ c a, proj (set_channels c a) = proj a) →
       (∀ b a, proj (set_pending_rotation_messages b a) = proj a) → proj (w_app w') = proj (w_app w)) ∧
    (∀ peer, preferred_peer (ulid_to_string (ch_community_id m)) w = Some peer →
       last (w_out w') = Some (Cmd (CmdFetchManifest peer (ulid_to_string (ch_community_id m)) pk))).
Proof using Type.
  intros m channel_id Hpk Hv Hn. unfold handle_channel_key_rotation. fold m channel_id. rewrite Hpk, Hv.
  change (is_newer_channel m (draw w)) with (is_newer_channel m w). rewrite Hn.
  cbn [negb]. set (w1 := save_channels _). set (w2 := update_meta _ _ w1).
  assert (∀ A (proj : AppState T → A), (∀ s a, proj (set_node_store s a) = proj a) →
            proj (w_app w2) = proj (w_app w1)) as Hframe.
  { intros A proj Hs. subst w2. unfold update_meta. destruct (stored_meta pk w1); [|done].
    by apply on_store_frame. }
  assert (w_app w1 = set_channels (<[channel_id := m]> (app_channels (w_app w))) (w_app w)) as Hw1.
  { subst w1. unfold save_channels. by rewrite save_table_app. }
  eexists. split; [done|]. split_and!.
  - transitivity (app_channels (w_app w2)); [by destruct (preferred_peer _ _)|].
    by rewrite (Hframe _ app_channels), Hw1.
  - pose proof (Hframe _ app_pending_rotation_messages (λ _ _, eq_refl)) as Hp. rewrite Hw1 in Hp.
    destruct (preferred_peer _ _); cbn in *; by rewrite Hp.
  - intros A proj Hs Hc Hb. destruct (preferred_peer _ _); cbn; by rewrite Hb, Hframe, Hw1, Hc.
  - intros peer Hp. assert (preferred_peer (ulid_to_string (ch_community_id m)) w2 = Some peer) as Hp2.
    { unfold preferred_peer, peers_of in *. by rewrite (Hframe _ app_connected_peers), Hw1. }
    unfold preferred_peer, peers_of in *. cbn. rewrite Hp2. cbn. by rewrite last_snoc.
Qed.

(** A message of [channel_id] that the client cannot open, from a channel it knows. *)
Definition unreadable (channel_id : string) (raw : RawMessage) w : Prop :=
  ulid_to_string (rm_channel_id raw) = channel_id ∧ is_Some (community_of_channel channel_id w) ∧
  ∃ key, app_channel_keys (w_app w) !! channel_id = Some key ∧
    decrypt_with_previous key (app_previous_channel_keys (w_app w) !! channel_id) (rm_nonce raw)
      (rm_ciphertext raw) = None.

Lemma new_message_unreadable locked channel_id topic data raw w :
  unreadable channel_id raw w →
  handle_new_message locked topic data raw w = buffer_rotation locked channel_id topic data w.
Proof using Type.
  intros (<- & [c Hc] & key & Hk & Hd). unfold handle_new_message. by rewrite Hc, Hk, Hd.
Qed.

(** Key rotation. A rotation is applied exactly when the key of a community the client
    knows signed the new channel manifest as the client encodes it and its version is above the stored one; then the
    new manifest replaces the stored one, the keys, the log and the members stay as they
    are, and the preferred peer is asked for the new key. Otherwise nothing changes; in
    particular the same rotation is not applied twice. From an applied rotation on, a
    message of the channel that no key opens is kept, after those kept before. *)
Theorem key_rotation_correct payload w :
  let m := kr_new_manifest payload in
  let channel_id := ulid_to_string (ch_id m) in
  let community_id := ulid_to_string (ch_community_id m) in
  let authorised pk := known_community_pk community_id w = Some pk ∧ rotation_verified (w_draws w) pk payload = true ∧
                       is_newer_channel m w = true in
  (∀ w', handle_channel_key_rotation false payload w = Done w' → w' = w ∨ w' = draw w ∨ ∃ pk, authorised pk) ∧
  ∀ pk, authorised pk →
    ∃ w', handle_channel_key_rotation false payload w = Done w' ∧
      app_channels (w_app w') = <[channel_id := m]> (app_channels (w_app w)) ∧
      (app_channel_keys (w_app w'), app_previous_channel_keys (w_app w'), app_message_log (w_app w'),
       app_members (w_app w'), app_communities (w_app w')) =
      (app_channel_keys (w_app w), app_previous_channel_keys (w_app w), app_message_log (w_app w),
       app_members (w_app w), app_communities (w_app w)) ∧
      (∀ peer, preferred_peer community_id w = Some peer →
         last (w_out w') = Some (Cmd (CmdFetchManifest peer community_id pk))) ∧
      handle_channel_key_rotation false payload w' = Done (draw w') ∧
      ∃ buf, app_pending_rotation_messages (w_app w') !! channel_id = Some buf ∧
        ∀ raw topic data, unreadable channel_id raw w' → from_bytes data = Some (NewMessage raw) →
          ∃ w'', handle_channel_message false topic data w' = Done w'' ∧
            app_pending_rotation_messages (w_app w'') !! channel_id = Some (buf ++ [(topic, data)]).
Proof using Type.
  intros m channel_id community_id authorised. split.
  - intros w'. unfold handle_channel_key_rotation. fold m community_id.
    destruct (known_community_pk community_id w) as [pk|] eqn:Hpk; [|intros [= <-]; by left].
    destruct (rotation_verified _ pk payload) eqn:Hv; cbn [negb]; [|intros [= <-]; by right; left].
    change (is_newer_channel m (draw w)) with (is_newer_channel m w).
    destruct (is_newer_channel m w) eqn:Hn; cbn [negb]; [|intros [= <-]; by right; left].
    intros _. right. right. exists pk. by split_and!.
  - intros pk (Hpk & Hv & Hn).
    destruct (rotation_accepted payload w pk Hpk Hv Hn) as (w' & Hw' & Hch & Hbuf & Hkeep & Hcmd).
    exists w'. split; [done|]. split; [done|]. split; [by rewrite !Hkeep by done|]. split; [done|]. split.
    + unfold handle_channel_key_rotation. fold m community_id.
      assert (known_community_pk community_id w' = Some pk) as ->.
      { rewrite <- Hpk. unfold known_community_pk. by rewrite (Hkeep _ app_communities). }
      cbv zeta. destruct (rotation_verified (w_draws w') pk payload); [|done]. cbn [negb]. unfold is_newer_channel. cbn [draw w_app].
      rewrite Hch. fold m channel_id. rewrite lookup_insert_eq, Z.ltb_irrefl. done.
    + exists (default [] (app_pending_rotation_messages (w_app w) !! channel_id)).
      rewrite Hbuf, lookup_insert_eq. split; [done|]. intros raw topic data Hun Hd.
      unfold handle_channel_message. rewrite Hd, (new_message_unreadable _ channel_id) by done.
      unfold buffer_rotation. rewrite Hbuf, lookup_insert_eq. eexists. split; [done|]. cbn.
      by rewrite lookup_insert_eq.
Qed.

(** ** History *)

(** The entries of a history that are not there yet, each message once. *)
Fixpoint fresh_entries (seen : list string) (entries : list LogEntry) : list LogEntry :=
  match entries with
  | [] => []
  | e :: entries =>
      if bool_decide (le_message_id e ∈ seen) then fresh_entries seen entries
      else e :: fresh_entries (seen ++ [le_message_id e]) entries
  end.

Lemma add_history_entry_log channel_id ulid pk key e w :
  let log := app_message_log (w_app w) in
  ∀ c, entries_of c (app_message_log (w_app (add_history_entry channel_id ulid pk key e w))) =
    if bool_decide (channel_id = c)
    then entries_of c log ++ fresh_entries (le_message_id <$> entries_of c log) [e]
    else entries_of c log.
Proof using Type.
  intros log c. unfold add_history_entry. fold log. destruct (get_entry channel_id _ log) as [e'|] eqn:Hg.
  - apply get_entry_Some in Hg as [Hin Hid]. case_bool_decide; [subst c|done]. cbn.
    rewrite bool_decide_eq_true_2; [by rewrite app_nil_r|]. rewrite <- Hid. by apply list_elem_of_fmap_2.
  - apply get_entry_None in Hg.
    assert (∀ w1, w_app w1 = set_message_log (append_entry channel_id e
              (apply_reaction (history_reaction key e) (le_author_id e) log)) (w_app w) →
            entries_of c (app_message_log (w_app w1)) =
            if bool_decide (channel_id = c)
            then entries_of c log ++ fresh_entries (le_message_id <$> entries_of c log) [e]
            else entries_of c log) as Hlog.
    { intros w1 ->. cbn [set_message_log app_message_log]. unfold append_entry.
      rewrite entries_of_set, !entries_of_reaction. case_bool_decide; [subst c|done]. cbn.
      by rewrite bool_decide_eq_false_2. }
    destruct pk as [pk|]; [|by apply Hlog]. unfold persist_message.
    rewrite (on_store_frame app_message_log) by done. by apply Hlog.
Qed.
Lemma fresh_entries_cons seen e es :
  fresh_entries seen (e :: es) =
  fresh_entries seen [e] ++ fresh_entries (seen ++ (le_message_id <$> fresh_entries seen [e])) es.
Proof using Type. cbn. case_bool_decide; cbn; [by rewrite app_nil_r|done]. Qed.
Lemma fresh_entries_seen seen es : (∀ e, e ∈ es → le_message_id e ∈ seen) → fresh_entries seen es = [].
Proof using Type.
  induction es as [|e es IH]; intros Hs; [done|]. cbn. rewrite bool_decide_eq_true_2 by (apply Hs; by left).
  apply IH. intros x Hx. apply Hs. by right.
Qed.
Lemma fresh_entries_all seen es e :
  e ∈ es → le_message_id e ∈ seen ++ (le_message_id <$> fresh_entries seen es).
Proof using Type.
  revert seen; induction es as [|x es IH]; intros seen Hin; [by apply elem_of_nil in Hin|]. cbn.
  apply elem_of_cons in Hin as [->|Hin].
  - case_bool_decide; [by apply elem_of_app; left|]. csimpl. apply elem_of_app. right. by left.
  - case_bool_decide; [by apply IH|]. csimpl. specialize (IH (seen ++ [le_message_id x]) Hin).
    by rewrite <- app_assoc in IH.
Qed.

Lemma history_fold_log channel_id ulid pk key es w c :
  entries_of c (app_message_log (w_app
     (foldl (λ w e, add_history_entry channel_id ulid pk key e w) w es))) =
  if bool_decide (channel_id = c)
  then entries_of c (app_message_log (w_app w)) ++
         fresh_entries (le_message_id <$> entries_of c (app_message_log (w_app w))) es
  else entries_of c (app_message_log (w_app w)).
Proof using Type.
  revert w; induction es as [|e es IH]; intros w; cbn [foldl fresh_entries].
  { case_bool_decide; [by rewrite app_nil_r|done]. }
  rewrite IH, add_history_entry_log. case_bool_decide; [|done].
  rewrite fmap_app, <- app_assoc. f_equal. symmetry. apply fresh_entries_cons.
Qed.
Lemma history_fold_known channel_id ulid pk key es w :
  (∀ e, e ∈ es → le_message_id e ∈ le_message_id <$> entries_of channel_id (app_message_log (w_app w))) →
  foldl (λ w e, add_history_entry channel_id ulid pk key e w) w es = w.
Proof using Type.
  induction es as [|e es IH]; intros Hs; [done|]. cbn [foldl].
  assert (add_history_entry channel_id ulid pk key e w = w) as ->.
  { unfold add_history_entry. destruct (get_entry _ _ _) eqn:Hg; [done|]. apply get_entry_None in Hg.
    exfalso. apply Hg, Hs. by left. }
  apply IH. intros x Hx. apply Hs. by right.
Qed.

(** Catching up with a channel's history. The entries whose message is not in the log yet
    are appended in the order received, each message once; no other channel changes, and
    the frontend is told that the synchronisation is complete. Receiving the same history
    again leaves the state as it is. *)
Theorem history_catch_up_correct community_id channel_id ulid entries w :
  parse_ulid channel_id = Some ulid →
  let log := app_message_log (w_app w) in
  let w' := handle_channel_history_received community_id channel_id entries w in
  entries_of channel_id (app_message_log (w_app w')) =
    entries_of channel_id log ++ fresh_entries (le_message_id <$> entries_of channel_id log) entries ∧
  (∀ e, e ∈ entries → is_Some (get_entry channel_id (le_message_id e) (app_message_log (w_app w')))) ∧
  (∀ c, c ≠ channel_id → entries_of c (app_message_log (w_app w')) = entries_of c log) ∧
  last (w_out w') = Some (Event (PushChannelHistorySynced (mkHistorySynced channel_id community_id))) ∧
  w_app (handle_channel_history_received community_id channel_id entries w') = w_app w'.
Proof using Type.
  intros Hu log w'.
  assert (∀ w, ∃ pk key, w_app (handle_channel_history_received community_id channel_id entries w) =
    w_app (foldl (λ w e, add_history_entry channel_id ulid pk key e w) w entries)) as Hfold.
  { intros w0. unfold handle_channel_history_received.
    destruct entries as [|e es]; [by exists None, None|]. rewrite Hu. by eexists _, _. }
  assert (∀ c, entries_of c (app_message_log (w_app w')) =
    if bool_decide (channel_id = c)
    then entries_of c log ++ fresh_entries (le_message_id <$> entries_of c log) entries
    else entries_of c log) as Hlog.
  { intros c. subst w'. destruct (Hfold w) as (pk & key & ->). apply history_fold_log. }
  assert (∀ e, e ∈ entries → le_message_id e ∈
            le_message_id <$> entries_of channel_id (app_message_log (w_app w'))) as Hall.
  { intros e He. rewrite Hlog, bool_decide_eq_true_2, fmap_app by done. by apply fresh_entries_all. }
  split_and!.
  - by rewrite Hlog, bool_decide_eq_true_2.
  - intros e He. apply Hall in He. destruct (get_entry _ _ _) eqn:Hg; [done|]. by apply get_entry_None in Hg.
  - intros c Hc. by rewrite Hlog, bool_decide_eq_false_2.
  - subst w'. unfold handle_channel_history_received, sync_complete.
    destruct entries; [apply last_emit|]. destruct (parse_ulid channel_id); apply last_emit.
  - destruct (Hfold w') as (pk & key & ->). by rewrite history_fold_known.
Qed.
End channel_theorems.
