(* ===== verification/CommunityEvents.v ===== *)
(** * Community events: [bitcord-core/src/api/event_processor/community_handler.rs]

    What a client does with the events gossiped on a community topic: channel manifests,
    manifest updates, members joining and leaving, role changes and presence. *)

From S2P Require Import Prelude Bytes Redb Routing Crypto Codec Model ClientState Store DhtNode Handler.
From S2P Require Import AppState ChannelEvents.

Section community_events.
Context {T : Type} `{Crypto} `{Table T} `{NodeCodecs} `{HashOrder} `{UlidText} `{UlidParse} `{AddrText}.
Context `{Entropy} `{AppCodecs}.
Implicit Types w : World T.

(** ** The node's own identity *)

(** [(0..s.len()).step_by(2).map(|i| u8::from_str_radix(&s[i..i + 2], 16).unwrap_or(0))],
    for the even-length strings the state holds. *)
Fixpoint hex_pairs_or_zero (s : string) : bytes :=
  match s with
  | String c1 (String c2 s') => default 0 (parse_hex_pair c1 c2) :: hex_pairs_or_zero s'
  | _ => []
  end.
Definition key_of_hex (s : string) : bytes :=
  let l := hex_pairs_or_zero s in if (length l =? 32)%nat then l else replicate 32 0.
Definition own_user_id w : UserId := key_of_hex (app_peer_id (w_app w)).
Definition own_pk w : bytes := ed_public (app_signing_key (w_app w)).
(** [NodeIdentity::x25519_secret]. *)
Definition own_x25519_sk w : bytes := sha256 (app_signing_key (w_app w)).

(** ** [handle_community_joined] *)

Definition placeholder_manifest (now : DateTime) (fresh : Ulid) (community_pk : bytes)
    (community_id : string) : SignedManifest :=
  mkSigned (mkManifest (default fresh (parse_ulid community_id)) "Syncing..." "" community_pk now
              [] [] [] 0 false) (replicate 64 0).

Definition queue_manifest_sync (community_id : string) w : World T :=
  if bool_decide (community_id ∈ app_pending_manifest_syncs (w_app w)) then w
  else upd (λ a, set_pending_manifest_syncs (app_pending_manifest_syncs a ++ [community_id]) a) w.

Definition handle_community_joined (now : DateTime) (fresh : Ulid) (community_pk : bytes)
    (community_id : string) w : World T :=
  let w := command (CmdSubscribe (community_topic community_id)) w in
  match stored_meta community_pk w with
  | None => w
  | Some meta =>
      match app_communities (w_app w) !! community_id with
      | Some _ => w
      | None =>
          match meta_manifest meta with
          | Some manifest =>
              save_communities
                (upd (λ a, set_communities (<[community_id := manifest]> (app_communities a)) a) w)
          | None =>
              queue_manifest_sync community_id
                (upd (λ a, set_communities
                        (<[community_id := placeholder_manifest now fresh community_pk community_id]>
                           (app_communities a)) a) w)
          end
      end
  end.

(** ** Channel manifests *)

(** Store a channel key; a different key that it replaces is kept as the previous one. *)
Definition retain_previous_key (channel_id : string) (new_key : bytes) w : World T :=
  match app_channel_keys (w_app w) !! channel_id with
  | Some old =>
      if bool_decide (old = new_key) then w
      else save_previous_keys
             (upd (λ a, set_previous_channel_keys (<[channel_id := old]> (app_previous_channel_keys a)) a) w)
  | None => w
  end.
Definition install_channel_key (channel_id : string) (new_key : bytes) w : World T :=
  let w := retain_previous_key channel_id new_key w in
  save_channel_keys
    (upd (λ a, set_channel_keys (<[channel_id := new_key]> (app_channel_keys a)) a) w).

(** The number after the last stored entry, [s + 1] being a [u64] addition. *)
Definition since_seq_of (channel_id : string) (community_pk : bytes) w : Z :=
  match app_node_store (w_app w) with
  | Some st =>
      match parse_ulid channel_id with
      | Some ulid =>
          match last_seq community_pk ulid st with
          | Ok (Some s) => wrap64 (s + 1)
          | _ => 0
          end
      | None => log_len channel_id (app_message_log (w_app w))
      end
  | None => log_len channel_id (app_message_log (w_app w))
  end.

Definition fetch_history (peer_id community_id : string) (community_pk : bytes) (channel_id : string) w
    : World T :=
  let since_seq := since_seq_of channel_id community_pk w in
  command (CmdFetchChannelHistory peer_id community_id community_pk channel_id since_seq)
    (broadcast (PushSyncProgress (mkSyncProgress channel_id 0)) w).

Definition unwrap_own_key (community_id : string) (community_pk : bytes) (ch : ChannelManifest) w : World T :=
  let channel_id := ulid_to_string (ch_id ch) in
  match ch_encrypted_channel_key ch !! own_user_id w with
  | None => w
  | Some wrapped =>
      match decrypt_for_self (own_x25519_sk w) wrapped with
      | Err _ => w
      | Ok new_key =>
          let w := install_channel_key channel_id new_key w in
          match preferred_peer community_id w with
          | Some peer_id => fetch_history peer_id community_id community_pk channel_id w
          | None => w
          end
      end
  end.

Definition push_or_replace (ch : ChannelManifest) (meta : CommunityMeta) : CommunityMeta :=
  let same c := ch_id c =? ch_id ch in
  mkMeta (meta_cert meta) (meta_manifest meta)
    (if negb (any same (meta_channels meta)) then meta_channels meta ++ [ch]
     else update_first same (λ _, ch) (meta_channels meta))
    (meta_channel_keys meta) (meta_members meta).

Definition handle_channel_manifest (payload : ChannelManifestBroadcastPayload) w : World T :=
  let ch := cb_manifest payload in
  let channel_id := ulid_to_string (ch_id ch) in
  let community_id := ulid_to_string (ch_community_id ch) in
  match known_community_pk community_id w with
  | None => w
  | Some community_pk =>
      let w := save_channels (upd (λ a, set_channels (<[channel_id := ch]> (app_channels a)) a) w) in
      let w := unwrap_own_key community_id community_pk ch w in
      let w := update_meta community_pk (push_or_replace ch) w in
      command (CmdSubscribe (channel_topic channel_id)) w
  end.

(** ** Manifest updates *)

Definition set_manifest (signed : SignedManifest) (meta : CommunityMeta) : CommunityMeta :=
  mkMeta (meta_cert meta) (Some signed) (meta_channels meta) (meta_channel_keys meta) (meta_members meta).

Definition remove_dropped_channels (community_id : string) (removed : list string) w : World T :=
  match removed with
  | [] => w
  | _ =>
      let w := foldl (λ w ch_id, command (CmdUnsubscribe (channel_topic ch_id)) w) w removed in
      let w := save_channels (upd (λ a, set_channels (deletes removed (app_channels a)) a) w) in
      foldl (λ w ch_id, broadcast (PushChannelDeleted (mkChannelEvent ch_id community_id "")) w) w removed
  end.

Definition dial_new_seed (community_id : string) (old_seeds : list string) (new_signed : SignedManifest) w
    : World T :=
  let new_seed := default ""%string (head (cm_seed_nodes (sm_manifest new_signed))) in
  let old_seed := default ""%string (head old_seeds) in
  if negb (bool_decide (new_seed = ""%string)) && negb (bool_decide (new_seed = old_seed)) then
    match parse_node_addr new_seed with
    | Some addr =>
        command (CmdDial addr true (Some (cm_public_key (sm_manifest new_signed), community_id))
          (app_hosting_passwords (w_app w) !! community_id)
          (default (replicate 32 0) (app_seed_fingerprints (w_app w) !! new_seed))) w
    | None => w
    end
  else w.

Definition apply_manifest_update (source : option string) (old new_signed : SignedManifest) w : World T :=
  let new := sm_manifest new_signed in
  let community_id := ulid_to_string (cm_id new) in
  let old_ids := cm_channel_ids (sm_manifest old) in
  let w := save_communities
             (upd (λ a, set_communities (<[community_id := new_signed]> (app_communities a)) a) w) in
  let w := update_meta (cm_public_key new) (set_manifest new_signed) w in
  let new_ids := ulid_to_string <$> retain (λ id, negb (bool_decide (id ∈ old_ids))) (cm_channel_ids new) in
  let w := foldl (λ w ch_id, command (CmdSubscribe (channel_topic ch_id)) w) w new_ids in
  let removed := ulid_to_string <$> retain (λ id, negb (bool_decide (id ∈ cm_channel_ids new))) old_ids in
  let w := remove_dropped_channels community_id removed w in
  let w := match source with
           | Some src => command (CmdFetchManifest src community_id (cm_public_key new)) w
           | None => queue_manifest_sync community_id w
           end in
  let w := dial_new_seed community_id (cm_seed_nodes (sm_manifest old)) new_signed w in
  broadcast (PushCommunityManifestUpdated (mkCommunityEvent community_id (cm_version new) "")) w.

Definition delete_community (community_id : string) (version : Z) (reason : string) w : World T :=
  broadcast (PushCommunityDeleted (mkCommunityEvent community_id version reason))
    (remove_community_local community_id w).

Definition handle_manifest_update (source : option string) (new_signed : SignedManifest) w : Handled T :=
  match manifest_verify new_signed with
  | None => Panicked
  | Some false => Done w
  | Some true =>
      let community_id := ulid_to_string (cm_id (sm_manifest new_signed)) in
      let new_version := cm_version (sm_manifest new_signed) in
      match app_communities (w_app w) !! community_id with
      | None => Done w
      | Some current =>
          if negb (cm_version (sm_manifest current) <? new_version) then Done w
          else if cm_deleted (sm_manifest new_signed) then Done (delete_community community_id new_version "" w)
          else Done (apply_manifest_update source current new_signed w)
      end
  end.

(** ** Members joining *)

(** What a member signs: the id, the community, the name, the time and the roles. *)
Definition membership_message (user_id : UserId) (community_id : CommunityId) (display_name : string)
    (joined_at : DateTime) (roles : list Role) : bytes :=
  user_id ++ ulid_bytes community_id ++ bytes_of_string display_name ++
  le_bytes 8 (timestamp_millis joined_at) ++ default [] (to_allocvec roles).

Definition member_verified (record : MembershipRecord) : bool :=
  ed_valid_key (mr_public_key record) &&
  bool_decide (mr_user_id record = from_verifying_key (mr_public_key record)) &&
  (length (mr_signature record) =? 64)%nat &&
  ed_verify (mr_public_key record)
    (membership_message (mr_user_id record) (mr_community_id record) (mr_display_name record)
       (mr_joined_at record) (mr_roles record)) (mr_signature record).

Definition is_banned (community_id user_id : string) w : bool :=
  match app_bans (w_app w) !! community_id with
  | Some list => bool_decide (user_id ∈ list)
  | None => false
  end.

Definition insert_member (community_id : string) (record : MembershipRecord) w : World T :=
  save_members
    (upd (λ a, set_members
            (<[community_id := <[hex (mr_user_id record) := record]>
                                 (default ∅ (app_members a !! community_id))]> (app_members a)) a) w).

Definition cache_dm_peer (record : MembershipRecord) w : World T :=
  save_dm_peers
    (upd (λ a, set_dm_peers
            (<[hex (mr_user_id record) := mkDmPeer (mr_display_name record) (mr_x25519_public_key record)]>
               (app_dm_peers a)) a) w).

(** A certificate with a zero signature stands in the metadata the node writes for itself. *)
Definition dummy_cert (community_pk : bytes) w : HostingCert :=
  mkCert community_pk (key_of_hex (app_public_key_hex (w_app w))) U64_MAX (replicate 64 0).

Definition meta_with_member (record : MembershipRecord) (meta : CommunityMeta) : CommunityMeta :=
  mkMeta (meta_cert meta) (meta_manifest meta) (meta_channels meta) (meta_channel_keys meta)
    (<[hex (mr_user_id record) := record]> (meta_members meta)).

Definition sync_member_to_store (community_id : string) (record : MembershipRecord) w : World T :=
  match app_node_store (w_app w), app_communities (w_app w) !! community_id with
  | Some _, Some signed =>
      let pk := cm_public_key (sm_manifest signed) in
      let meta := default (mkMeta (dummy_cert pk w) (Some signed) [] ∅ ∅) (stored_meta pk w) in
      write_meta pk (meta_with_member record meta) w
  | _, _ => w
  end.

Definition insert_wrapped (user_id : UserId) (wrapped : bytes) (ch : ChannelManifest) : ChannelManifest :=
  mkChannel (ch_id ch) (ch_community_id ch) (ch_name ch) (ch_kind ch)
    (<[user_id := wrapped]> (ch_encrypted_channel_key ch)) (ch_created_at ch) (ch_version ch).

Definition publish_event (topic : string) (event : NetworkEvent) w : World T :=
  match to_allocvec event with
  | Some encoded => command (CmdPublish topic encoded) w
  | None => w
  end.

(** One channel of a community this node administers: a key is wrapped for the new member
    unless there is one. *)
Definition wrap_for_new_member (topic : string) (channel_keys : gmap string bytes)
    (record : MembershipRecord) (channel_id : string) w : World T :=
  match channel_keys !! channel_id, app_channels (w_app w) !! channel_id with
  | Some key, Some ch =>
      match ch_encrypted_channel_key ch !! mr_user_id record with
      | Some _ => w
      | None =>
          match encrypt_for_member key (rng32 (w_draws w)) (rng24 (w_draws w)) (mr_x25519_public_key record) with
          | Err _ => draw w
          | Ok wrapped =>
              let ch := insert_wrapped (mr_user_id record) wrapped ch in
              let w := upd (λ a, set_channels (<[channel_id := ch]> (app_channels a)) a) (draw w) in
              save_channels (publish_event topic (ChannelManifestBroadcast (mkBroadcast ch)) w)
          end
      end
  | _, _ => w
  end.

Definition wrap_keys_as_admin (community_id : string) (record : MembershipRecord) w : World T :=
  match app_communities (w_app w) !! community_id with
  | Some signed =>
      if bool_decide (cm_public_key (sm_manifest signed) = own_pk w) then
        let keys := app_channel_keys (w_app w) in
        foldl (λ w id, wrap_for_new_member (community_topic community_id) keys record id w) w
          (ulid_to_string <$> cm_channel_ids (sm_manifest signed))
      else w
  | None => w
  end.

Definition handle_member_joined (record : MembershipRecord) w : World T :=
  if negb (member_verified record) then w
  else
    let community_id := ulid_to_string (mr_community_id record) in
    let user_id := hex (mr_user_id record) in
    if is_banned community_id user_id w then w
    else
      let w := insert_member community_id record w in
      let w := cache_dm_peer record w in
      let w := sync_member_to_store community_id record w in
      let w := wrap_keys_as_admin community_id record w in
      broadcast (PushMemberJoined (mkMemberEvent user_id community_id (mr_display_name record))) w.

(** ** Members leaving and changing roles *)

Definition leave_message (user_id : UserId) (community_id : CommunityId) : bytes :=
  user_id ++ ulid_bytes community_id ++ bytes_of_string "leave".
Definition role_message (user_id : UserId) (community_id : CommunityId) (new_role : Role) : bytes :=
  user_id ++ ulid_bytes community_id ++ default [] (to_allocvec new_role) ++ bytes_of_string "role_update".

Definition is_privileged (m : MembershipRecord) : bool :=
  any (λ r, match r with Admin | Moderator => true | Member => false end) (mr_roles m).
Definition is_admin_member (m : MembershipRecord) : bool :=
  any (λ r, match r with Admin => true | _ => false end) (mr_roles m).

(** Some member that satisfies [may] signed [msg]. *)
Definition signed_by_member (may : MembershipRecord → bool) (community_id : string) (msg signature : bytes) w
    : bool :=
  match app_members (w_app w) !! community_id with
  | Some list =>
      any (λ m, may m && (ed_valid_key (mr_public_key m) && ed_verify (mr_public_key m) msg signature))
        (hash_order list).*2
  | None => false
  end.

Definition meta_without_member (user_id : string) (meta : CommunityMeta) : CommunityMeta :=
  mkMeta (meta_cert meta) (meta_manifest meta) (meta_channels meta) (meta_channel_keys meta)
    (delete user_id (meta_members meta)).

Definition handle_member_left (payload : MemberLeftPayload) w : World T :=
  let community_id := ulid_to_string (ml_community_id payload) in
  let user_id := hex (ml_user_id payload) in
  if negb (length (ml_signature payload) =? 64)%nat then w
  else if negb (signed_by_member
                  (λ m, bool_decide (mr_user_id m = ml_user_id payload) || is_privileged m)
                  community_id (leave_message (ml_user_id payload) (ml_community_id payload))
                  (ml_signature payload) w) then w
  else
    match member_of community_id user_id w with
    | None => w
    | Some removed =>
        let w := save_members
          (upd (λ a, set_members
             (<[community_id := delete user_id (default ∅ (app_members a !! community_id))]>
                (app_members a)) a) w) in
        let w := match known_community_pk community_id w with
                 | Some pk => update_meta pk (meta_without_member user_id) w
                 | None => w
                 end in
        broadcast (PushMemberLeft (mkMemberEvent user_id community_id (mr_display_name removed))) w
    end.

Definition with_roles (roles : list Role) (m : MembershipRecord) : MembershipRecord :=
  mkMember (mr_user_id m) (mr_community_id m) (mr_display_name m) (mr_avatar_cid m) (mr_joined_at m)
    roles (mr_public_key m) (mr_x25519_public_key m) (mr_signature m).

Definition role_text (r : Role) : string :=
  match r with Admin => "admin" | Moderator => "moderator" | Member => "member" end.

Definition handle_member_role_updated (payload : MemberRoleUpdatedPayload) w : World T :=
  let community_id := ulid_to_string (ru_community_id payload) in
  let user_id := hex (ru_user_id payload) in
  if negb (length (ru_signature payload) =? 64)%nat then w
  else if negb (signed_by_member is_admin_member community_id
                  (role_message (ru_user_id payload) (ru_community_id payload) (ru_new_role payload))
                  (ru_signature payload) w) then w
  else
    match member_of community_id user_id w with
    | None => w
    | Some member =>
        let w := save_members
          (upd (λ a, set_members
             (<[community_id := <[user_id := with_roles [ru_new_role payload] member]>
                                  (default ∅ (app_members a !! community_id))]> (app_members a)) a) w) in
        broadcast (PushMemberRoleUpdated
          (mkMemberRole user_id community_id (role_text (ru_new_role payload)))) w
    end.

(** ** Presence *)

(** The public key of a member of any community. *)
Definition key_of_member (user_id : UserId) w : option bytes :=
  let records := concat ((λ kl : string * gmap string MembershipRecord, (hash_order kl.2).*2)
                           <$> hash_order (app_members (w_app w))) in
  mr_public_key <$> find_by (λ m, bool_decide (mr_user_id m = user_id)) records.

Definition heartbeat_message (hb : PresenceHeartbeatPayload) : bytes :=
  ph_user_id hb ++ bytes_of_string (ph_status hb) ++ le_bytes 8 (timestamp_millis (ph_timestamp hb)).
Definition heartbeat_signature (hb : PresenceHeartbeatPayload) : bytes :=
  if (length (ph_signature hb) =? 64)%nat then ph_signature hb else replicate 64 0.

Definition parse_status (s : string) : UserStatus * string :=
  if bool_decide (s = "online"%string) then (Online, "online"%string)
  else if bool_decide (s = "idle"%string) then (Idle, "idle"%string)
  else if bool_decide (s = "do_not_disturb"%string) then (DoNotDisturb, "do_not_disturb"%string)
  else if bool_decide (s = "invisible"%string) then (Invisible, "invisible"%string)
  else (Offline, "offline"%string).

Definition handle_presence_heartbeat (hb : PresenceHeartbeatPayload) w : World T :=
  match key_of_member (ph_user_id hb) w with
  | None => w
  | Some pk =>
      if negb (ed_valid_key pk && ed_verify pk (heartbeat_message hb) (heartbeat_signature hb)) then w
      else
        let user_id := hex (ph_user_id hb) in
        let '(status, status_str) := parse_status (ph_status hb) in
        let w := upd (λ a, set_presence (<[user_id := status]> (app_presence a)) a) w in
        broadcast (PushPresenceChanged (mkPresenceChanged user_id status_str (ph_timestamp hb))) w
  end.

(** ** The community topic *)

Definition handle_community_message (data : bytes) (source : option string) w : Handled T :=
  match from_bytes (A := NetworkEvent) data with
  | Some (ChannelManifestBroadcast payload) => Done (handle_channel_manifest payload w)
  | Some (ManifestUpdate new_signed) => handle_manifest_update source new_signed w
  | Some (MemberJoined record) => Done (handle_member_joined record w)
  | Some (MemberLeft payload) => Done (handle_member_left payload w)
  | Some (MemberRoleUpdated payload) => Done (handle_member_role_updated payload w)
  | Some (PresenceHeartbeat hb) => Done (handle_presence_heartbeat hb w)
  | _ => Done w
  end.
End community_events.

(** ** The invariant through the community events *)

Section community_invariant.
Context {T : Type} `{CryptoLaws} `{TableLaws T} `{NodeCodecsLaws} `{HashOrder} `{UlidText} `{UlidParse} `{AddrText}.
Context `{EntropyLaws} `{AppCodecs}.
Implicit Types w : World T.

Lemma inv_set_communities_insert id s w :
  inv w → wf_key (cm_public_key (sm_manifest s)) →
  inv (upd (λ a, set_communities (<[id := s]> (app_communities a)) a) w).
Proof using Type.
  intros Hw Hs. apply inv_set_communities; [done|].
  apply (keyed_insert (λ _ s, wf_key (cm_public_key (sm_manifest s)))); [done|]. apply (ai_communities _ Hw).
Qed.
Lemma inv_queue_manifest_sync id w : inv w → inv (queue_manifest_sync id w).
Proof using Type.
  intros Hw. unfold queue_manifest_sync. case_bool_decide as Hin; [done|]. apply inv_set_syncs; [done|].
  apply NoDup_app. split_and!; [apply (ai_pending _ Hw)| |apply NoDup_singleton].
  by intros x Hx ->%list_elem_of_singleton.
Qed.

Lemma inv_community_joined now fresh pk id w :
  inv w → wf_key pk →
  (∀ meta s, stored_meta pk w = Some meta → meta_manifest meta = Some s → wf_key (cm_public_key (sm_manifest s))) →
  inv (handle_community_joined now fresh pk id w).
Proof using Type*.
  intros Hw Hpk Hs. unfold handle_community_joined. set (w1 := command _ w).
  assert (inv w1) as Hw1 by by apply inv_emit.
  change (stored_meta pk w1) with (stored_meta pk w). destruct (stored_meta pk w) as [meta|] eqn:Hm; [|done].
  destruct (app_communities (w_app w1) !! id); [done|].
  destruct (meta_manifest meta) as [s|] eqn:Hman.
  - apply inv_save_table, inv_set_communities_insert; [done|]. by eapply Hs.
  - by apply inv_queue_manifest_sync, inv_set_communities_insert.
Qed.

Lemma inv_install_key channel_id key w : inv w → inv (install_channel_key channel_id key w).
Proof using Type.
  intros Hw. unfold install_channel_key. apply inv_save_table, inv_set_channel_keys. unfold retain_previous_key.
  destruct (app_channel_keys (w_app w) !! channel_id); [|done]. case_bool_decide; [done|].
  by apply inv_save_table, inv_set_previous_keys.
Qed.
Lemma inv_channel_manifest payload w : inv w → inv (handle_channel_manifest payload w).
Proof using Type*.
  intros Hw. unfold handle_channel_manifest.
  destruct (known_community_pk _ w) as [pk|] eqn:Hpk; [|done]. apply inv_emit, inv_update_meta.
  - set (w1 := save_channels _). assert (inv w1) as Hw1 by by apply inv_save_channels_insert.
    unfold unwrap_own_key. destruct (_ !! _); [|done]. destruct (decrypt_for_self _ _); [|done].
    set (w2 := install_channel_key _ _ _). assert (inv w2) as Hw2 by by apply inv_install_key.
    destruct (preferred_peer _ w2); [|done]. by apply inv_emit, inv_emit.
  - exact (known_community_pk_wf _ _ _ Hw Hpk).
Qed.

Lemma inv_commands {A} (f : A → Output) l w : inv w → inv (foldl (λ w x, emit (f x) w) w l).
Proof using Type. intros Hw. apply fold_inv; [done|]. intros. by apply inv_emit. Qed.

Lemma inv_dropped_channels id removed w : inv w → inv (remove_dropped_channels id removed w).
Proof using Type.
  intros Hw. unfold remove_dropped_channels. destruct removed as [|r rs]; [done|].
  apply (inv_commands (λ ch_id, Event (PushChannelDeleted (mkChannelEvent ch_id id "")))), inv_save_table.
  set (w1 := foldl _ w _). assert (inv w1) as Hw1 by by apply (inv_commands (λ c, Cmd (CmdUnsubscribe (channel_topic c)))).
  apply inv_set_channels; [done|]. apply keyed_deletes, (ai_channels _ Hw1).
Qed.
Lemma inv_manifest_update source s w w' :
  inv w → wf_key (cm_public_key (sm_manifest s)) → handle_manifest_update source s w = Done w' → inv w'.
Proof using Type*.
  intros Hw Hpk. unfold handle_manifest_update. destruct (manifest_verify s) as [[]|]; [|by intros [= <-]|done].
  destruct (app_communities (w_app w) !! _) as [cur|]; [|by intros [= <-]].
  destruct (negb _); [by intros [= <-]|]. destruct (cm_deleted _); intros [= <-].
  { by apply inv_emit, inv_remove_community_local. }
  unfold apply_manifest_update. apply inv_emit.
  set (w1 := update_meta _ _ _). assert (inv w1) as Hw1.
  { apply inv_update_meta; [|done]. by apply inv_save_table, inv_set_communities_insert. }
  set (w2 := foldl _ w1 _). assert (inv w2) as Hw2 by by apply (inv_commands (λ c, Cmd (CmdSubscribe (channel_topic c)))).
  set (w3 := remove_dropped_channels _ _ w2). assert (inv w3) as Hw3 by by apply inv_dropped_channels.
  set (w4 := match source with Some _ => _ | None => _ end). assert (inv w4) as Hw4.
  { subst w4. destruct source; [by apply inv_emit|by apply inv_queue_manifest_sync]. }
  unfold dial_new_seed. destruct (_ && _); [|done]. destruct (parse_node_addr _); [by apply inv_emit|done].
Qed.

Lemma members_insert_wf (mem : gmap string (gmap string MembershipRecord)) id l :
  (∀ k l, mem !! k = Some l → ∀ u m, l !! u = Some m → u = hex (mr_user_id m)) →
  (∀ u m, l !! u = Some m → u = hex (mr_user_id m)) →
  ∀ k l', <[id := l]> mem !! k = Some l' → ∀ u m, l' !! u = Some m → u = hex (mr_user_id m).
Proof using Type.
  intros Hm Hl. by apply (keyed_insert (λ _ l, ∀ u m, l !! u = Some m → u = hex (mr_user_id m))).
Qed.
Lemma members_default_wf id w :
  inv w → ∀ u m, default ∅ (app_members (w_app w) !! id) !! u = Some m → u = hex (mr_user_id m).
Proof using Type.
  intros Hw u m. destruct (app_members (w_app w) !! id) as [l|] eqn:Hl; cbn; [|by rewrite lookup_empty].
  by apply (ai_members _ Hw id).
Qed.
Lemma inv_update_member id l w :
  inv w → (∀ u m, l !! u = Some m → u = hex (mr_user_id m)) →
  inv (save_members (upd (λ a, set_members (<[id := l]> (app_members a)) a) w)).
Proof using Type.
  intros Hw Hl. apply inv_save_table, inv_set_members; [done|]. apply members_insert_wf; [|done].
  apply (ai_members _ Hw).
Qed.

Lemma inv_publish topic e w : inv w → inv (publish_event topic e w).
Proof using Type. intros Hw. unfold publish_event. destruct (to_allocvec e); [by apply inv_emit|done]. Qed.

Lemma inv_wrap_for_new_member topic keys r id w : inv w → inv (wrap_for_new_member topic keys r id w).
Proof using Type.
  intros Hw. unfold wrap_for_new_member. destruct (keys !! id); [|done].
  destruct (app_channels (w_app w) !! id) as [ch|] eqn:Hch; [|done]. destruct (ch_encrypted_channel_key ch !! mr_user_id r); [done|].
  destruct (encrypt_for_member _ _ _ _); [|by apply inv_draw]. apply inv_save_table, inv_publish, inv_set_channels.
  - by apply inv_draw.
  - apply keyed_insert; [|apply (ai_channels _ Hw)]. apply (ai_channels _ Hw _ _ Hch).
Qed.
Lemma inv_wrap_keys_as_admin id r w : inv w → inv (wrap_keys_as_admin id r w).
Proof using Type.
  intros Hw. unfold wrap_keys_as_admin. destruct (app_communities (w_app w) !! id); [|done].
  case_bool_decide; [|done]. apply fold_inv; [done|]. intros. by apply inv_wrap_for_new_member.
Qed.
Lemma inv_sync_member id r w : inv w → inv (sync_member_to_store id r w).
Proof using Type*.
  intros Hw. unfold sync_member_to_store. destruct (app_node_store (w_app w)); [|done].
  destruct (app_communities (w_app w) !! id) as [s|] eqn:Hs; [|done].
  apply inv_write_meta; [done|]. by eapply ai_communities.
Qed.
Lemma inv_member_joined r w : inv w → inv (handle_member_joined r w).
Proof using Type*.
  intros Hw. unfold handle_member_joined. destruct (negb _); [done|]. destruct (is_banned _ _ _); [done|].
  apply inv_emit, inv_wrap_keys_as_admin, inv_sync_member, inv_save_table, inv_set_dm_peers.
  apply (inv_update_member _ (<[_ := r]> (default ∅ (app_members (w_app w) !! _)))); [done|].
  intros u m. rewrite lookup_insert_Some. intros [[<- <-]|[_ Hm]]; [done|]. by eapply members_default_wf.
Qed.
Lemma inv_member_left p w : inv w → inv (handle_member_left p w).
Proof using Type*.
  intros Hw. unfold handle_member_left. destruct (negb _); [done|]. destruct (negb _); [done|].
  destruct (member_of _ _ w) as [m|]; [|done]. apply inv_emit.
  set (w1 := save_members _). assert (inv w1) as Hw1.
  { apply (inv_update_member _ (delete _ (default ∅ (app_members (w_app w) !! _)))); [done|].
    intros u m'. rewrite lookup_delete_Some. intros [_ Hm]. by eapply members_default_wf. }
  destruct (known_community_pk _ w1) eqn:Hpk; [|done]. apply inv_update_meta; [done|].
  exact (known_community_pk_wf _ _ _ Hw1 Hpk).
Qed.
Lemma inv_role_updated p w : inv w → inv (handle_member_role_updated p w).
Proof using Type*.
  intros Hw. unfold handle_member_role_updated. destruct (negb _); [done|]. destruct (negb _); [done|].
  destruct (member_of _ _ w) as [m|] eqn:Hm; [|done]. apply inv_emit.
  apply (inv_update_member _ (<[_ := with_roles _ m]> (default ∅ (app_members (w_app w) !! _)))); [done|].
  intros u m'. rewrite lookup_insert_Some. intros [[<- <-]|[_ Hm']]; [|by eapply members_default_wf].
  unfold member_of in Hm. apply bind_Some in Hm as (l & Hl & Hm). cbn. by apply (ai_members _ Hw _ _ Hl).
Qed.
Lemma inv_presence hb w : inv w → inv (handle_presence_heartbeat hb w).
Proof using Type*.
  intros Hw. unfold handle_presence_heartbeat. destruct (key_of_member _ w); [|done].
  destruct (negb _); [done|]. destruct (parse_status _). by apply inv_emit, inv_set_presence.
Qed.

Lemma inv_community_message data source w w' :
  inv w →
  (∀ s, from_bytes data = Some (ManifestUpdate s) → wf_key (cm_public_key (sm_manifest s))) →
  handle_community_message data source w = Done w' → inv w'.
Proof using Type*.
  intros Hw Hs. unfold handle_community_message. destruct (from_bytes data) as [[]|] eqn:Hd; try (by intros [= <-]).
  - intros [= <-]. by apply inv_member_joined.
  - intros [= <-]. by apply inv_member_left.
  - apply inv_manifest_update; [done|]. by apply Hs.
  - intros [= <-]. by apply inv_presence.
  - intros [= <-]. by apply inv_channel_manifest.
  - intros [= <-]. by apply inv_role_updated.
Qed.
End community_invariant.

(** ** Membership *)

Section membership.
Context {T : Type} `{CryptoLaws} `{TableLaws T} `{NodeCodecsLaws} `{HashOrderLaws} `{UlidText} `{UlidParse} `{AddrText}.
Context `{EntropyLaws} `{AppCodecs}.
Implicit Types w : World T.

Lemma publish_event_out topic e w : w_out w `prefix_of` w_out (publish_event topic e w).
Proof using Type. unfold publish_event. destruct (to_allocvec e); [by apply prefix_app_r|done]. Qed.
Lemma publish_event_sent topic e w data :
  to_allocvec e = Some data → Cmd (CmdPublish topic data) ∈ w_out (publish_event topic e w).
Proof using Type. intros He. unfold publish_event. rewrite He. apply elem_of_app. right. by left. Qed.
Lemma publish_event_app topic e w : w_app (publish_event topic e w) = w_app w.
Proof using Type. unfold publish_event. by destruct (to_allocvec e). Qed.

(** Wrapping keys changes the channels only. *)
Lemma wrap_frame {A} (proj : AppState T → A) topic keys r id w :
  (∀ c a, proj (set_channels c a) = proj a) →
  proj (w_app (wrap_for_new_member topic keys r id w)) = proj (w_app w).
Proof using Type.
  intros Hp. unfold wrap_for_new_member. destruct (keys !! id); [|done].
  destruct (app_channels (w_app w) !! id) as [ch|]; [|done].
  destruct (ch_encrypted_channel_key ch !! mr_user_id r); [done|].
  destruct (encrypt_for_member _ _ _ _); [|done]. unfold save_channels.
  rewrite save_table_app, publish_event_app. apply Hp.
Qed.
Lemma admin_wrap_frame {A} (proj : AppState T → A) id r w :
  (∀ c a, proj (set_channels c a) = proj a) → proj (w_app (wrap_keys_as_admin id r w)) = proj (w_app w).
Proof using Type.
  intros Hp. unfold wrap_keys_as_admin. destruct (app_communities (w_app w) !! id) as [s|]; [|done].
  case_bool_decide; [|done]. apply (fold_frame proj). intros. by apply wrap_frame.
Qed.
Lemma sync_member_frame {A} (proj : AppState T → A) id r w :
  (∀ s a, proj (set_node_store s a) = proj a) → proj (w_app (sync_member_to_store id r w)) = proj (w_app w).
Proof using Type.
  intros Hp. unfold sync_member_to_store. destruct (app_node_store (w_app w)); [|done].
  destruct (app_communities (w_app w) !! id); [|done]. by apply on_store_frame.
Qed.

(** [ch'] is [ch] with the channel's key wrapped for the owner of [x_sk]. *)
Definition key_offered (uid : UserId) (x_sk key : bytes) (ch ch' : ChannelManifest) : Prop :=
  ∃ wrapped, ch' = insert_wrapped uid wrapped ch ∧ decrypt_for_self x_sk wrapped = Ok key.

Lemma wrap_other topic keys r id w j :
  j ≠ id → app_channels (w_app (wrap_for_new_member topic keys r id w)) !! j = app_channels (w_app w) !! j.
Proof using Type.
  intros Hj. unfold wrap_for_new_member. destruct (keys !! id); [|done].
  destruct (app_channels (w_app w) !! id) as [ch|]; [|done].
  destruct (ch_encrypted_channel_key ch !! mr_user_id r); [done|].
  destruct (encrypt_for_member _ _ _ _); [|done]. unfold save_channels.
  rewrite save_table_app, publish_event_app. cbn. by rewrite lookup_insert_ne.
Qed.
Lemma wrap_present topic keys r id w ch :
  app_channels (w_app w) !! id = Some ch → is_Some (ch_encrypted_channel_key ch !! mr_user_id r) →
  wrap_for_new_member topic keys r id w = w.
Proof using Type.
  intros Hch [k Hk]. unfold wrap_for_new_member. rewrite Hch, Hk. by destruct (keys !! id).
Qed.
Definition key_published (topic : string) (w' : World T) (ch' : ChannelManifest) : Prop :=
  ∀ data, to_allocvec (ChannelManifestBroadcast (mkBroadcast ch')) = Some data →
    Cmd (CmdPublish topic data) ∈ w_out w'.
Lemma wrap_out topic keys r id w : w_out w `prefix_of` w_out (wrap_for_new_member topic keys r id w).
Proof using Type.
  unfold wrap_for_new_member. destruct (keys !! id); [|done]. destruct (app_channels (w_app w) !! id) as [ch|]; [|done].
  destruct (ch_encrypted_channel_key ch !! mr_user_id r); [done|]. destruct (encrypt_for_member _ _ _ _); [|done].
  unfold save_channels. rewrite save_table_out. exact (publish_event_out _ _ (upd _ (draw w))).
Qed.
Lemma wrap_absent topic keys r id w ch key x_sk :
  (∀ k n t, is_Some (aead_encrypt k n t)) → mr_x25519_public_key r = x_public x_sk →
  keys !! id = Some key → length key = 32%nat → app_channels (w_app w) !! id = Some ch →
  ch_encrypted_channel_key ch !! mr_user_id r = None →
  ∃ ch', app_channels (w_app (wrap_for_new_member topic keys r id w)) !! id = Some ch' ∧
         key_offered (mr_user_id r) x_sk key ch ch' ∧ key_published topic (wrap_for_new_member topic keys r id w) ch'.
Proof using Type*.
  intros Haead Hx Hk Hlen Hch Hno. unfold wrap_for_new_member. rewrite Hk, Hch, Hno, Hx.
  destruct (encrypt_for_member _ _ _ _) as [wrapped|] eqn:Hw.
  - unfold save_channels. rewrite save_table_app, publish_event_app. cbn. rewrite lookup_insert_eq.
    eexists. split; [done|]. split.
    + exists wrapped. split; [done|]. by apply unwrap_wrapped in Hw as [_ ?]; [..|apply rng24_length].
    + intros data Hd. rewrite save_table_out. by apply publish_event_sent.
  - exfalso. unfold encrypt_for_member in Hw. revert Hw.
    destruct (Haead (wrapping_key (x_dh (rng32 (w_draws w)) (x_public x_sk)) (x_public (rng32 (w_draws w))))
      (rng24 (w_draws w)) key) as [c ->]. done.
Qed.

Lemma wrap_fold_present topic keys r ids w id ch :
  app_channels (w_app w) !! id = Some ch → is_Some (ch_encrypted_channel_key ch !! mr_user_id r) →
  app_channels (w_app (foldl (λ w id, wrap_for_new_member topic keys r id w) w ids)) !! id = Some ch.
Proof using Type.
  intros Hch Hk. revert w Hch; induction ids as [|i ids IH]; intros w Hch; [done|]. cbn [foldl].
  apply IH. destruct (decide (id = i)) as [->|Hne]; [by rewrite (wrap_present _ _ _ _ _ ch)|].
  by rewrite wrap_other.
Qed.
Lemma wrap_fold_absent topic keys r ids w id ch key x_sk :
  (∀ k n t, is_Some (aead_encrypt k n t)) → mr_x25519_public_key r = x_public x_sk →
  keys !! id = Some key → length key = 32%nat → id ∈ ids → app_channels (w_app w) !! id = Some ch →
  ch_encrypted_channel_key ch !! mr_user_id r = None →
  let w' := foldl (λ w id, wrap_for_new_member topic keys r id w) w ids in
  ∃ ch', app_channels (w_app w') !! id = Some ch' ∧ key_offered (mr_user_id r) x_sk key ch ch' ∧ key_published topic w' ch'.
Proof using Type*.
  intros Haead Hx Hk Hlen Hin. revert w; induction ids as [|i ids IH]; intros w Hch Hno.
  { by apply elem_of_nil in Hin. }
  cbn [foldl]. destruct (decide (id = i)) as [->|Hne].
  - destruct (wrap_absent topic keys r i w ch key x_sk) as (ch' & Hch' & (wrapped & -> & Hd) & Hpub); [done..|].
    exists (insert_wrapped (mr_user_id r) wrapped ch). split_and!; [|by exists wrapped|].
    + apply wrap_fold_present; [done|]. cbn. by rewrite lookup_insert_eq.
    + intros data Hdata. eapply out_elem; [apply fold_out; intros; apply wrap_out|by apply Hpub].
  - apply elem_of_cons in Hin as [|Hin]; [done|]. apply IH; [done| |done]. by rewrite wrap_other.
Qed.

Lemma member_of_update c l w c' u' :
  member_of c' u' (save_members (upd (λ a, set_members (<[c := l]> (app_members a)) a) w)) =
  (if decide (c = c') then l !! u' else member_of c' u' w).
Proof using Type.
  unfold member_of, save_members. rewrite save_table_app. cbn. rewrite lookup_insert. by case_decide.
Qed.

(** The branches of [handle_member_joined]. *)
Lemma member_joined_spec r w :
  (∀ k n t, is_Some (aead_encrypt k n t)) →
  let c := ulid_to_string (mr_community_id r) in
  let uid := hex (mr_user_id r) in
  let w' := handle_member_joined r w in
  (member_verified r = false ∨ is_banned c uid w = true → w' = w) ∧
  (member_verified r = true → is_banned c uid w = false →
     member_of c uid w' = Some r ∧
     (∀ c' u, ¬ (c' = c ∧ u = uid) → member_of c' u w' = member_of c' u w) ∧
     last (w_out w') = Some (Event (PushMemberJoined (mkMemberEvent uid c (mr_display_name r)))) ∧
     ∀ signed x_sk id ch key,
       app_communities (w_app w) !! c = Some signed → cm_public_key (sm_manifest signed) = own_pk w →
       mr_x25519_public_key r = x_public x_sk →
       id ∈ ulid_to_string <$> cm_channel_ids (sm_manifest signed) →
       app_channels (w_app w) !! id = Some ch → app_channel_keys (w_app w) !! id = Some key →
       length key = 32%nat → ch_encrypted_channel_key ch !! mr_user_id r = None →
       ∃ ch', app_channels (w_app w') !! id = Some ch' ∧ key_offered (mr_user_id r) x_sk key ch ch' ∧
         key_published (community_topic c) w' ch').
Proof using Type*.
  intros Haead c uid w'. subst w'. unfold handle_member_joined. fold c uid. split.
  { intros [-> | ->]; [done|]. by destruct (negb _). }
  intros -> ->. cbn [negb]. set (w1 := sync_member_to_store c r _).
  assert (∀ A (proj : AppState T → A), (∀ s a, proj (set_node_store s a) = proj a) →
    (∀ s a, proj (set_dm_peers s a) = proj a) → (∀ s a, proj (set_members s a) = proj a) →
    proj (w_app w1) = proj (w_app w)) as Hframe.
  { intros A proj Hs Hp Hm. subst w1. rewrite sync_member_frame by done.
    unfold cache_dm_peer, save_dm_peers, insert_member, save_members. rewrite save_table_app. cbn.
    rewrite Hp, save_table_app. apply Hm. }
  assert (∀ c' u, member_of c' u w1 =
    if decide (c = c') then <[uid := r]> (default ∅ (app_members (w_app w) !! c)) !! u
    else member_of c' u w) as Hmem.
  { intros c' u. unfold member_of. subst w1. rewrite (sync_member_frame app_members) by done.
    unfold cache_dm_peer, save_dm_peers. rewrite save_table_app. cbn.
    exact (member_of_update c _ w c' u). }
  set (w2 := wrap_keys_as_admin c r w1).
  assert (∀ c' u, member_of c' u w2 = member_of c' u w1) as Hmem2.
  { intros c' u. unfold member_of, w2. by rewrite (admin_wrap_frame app_members). }
  split_and!.
  - change (member_of c uid w2 = Some r). rewrite Hmem2, Hmem, decide_True by done. by rewrite lookup_insert_eq.
  - intros c' u Hne. change (member_of c' u w2 = member_of c' u w). rewrite Hmem2, Hmem. case_decide; [|done].
    subst c'. rewrite lookup_insert_ne by naive_solver. unfold member_of.
    by destruct (app_members (w_app w) !! c).
  - apply last_emit.
  - intros signed x_sk id ch key Hcom Hown Hx Hid Hch Hkey Hlen Hno.
    assert (∃ ch', app_channels (w_app w2) !! id = Some ch' ∧ key_offered (mr_user_id r) x_sk key ch ch' ∧
              key_published (community_topic c) w2 ch') as (ch' & Hch' & Hoff & Hpub).
    2:{ exists ch'. split_and!; [done|done|]. intros data Hd. eapply out_elem; [by apply prefix_app_r|by apply Hpub]. }
    unfold w2, wrap_keys_as_admin. rewrite (Hframe _ app_communities), Hcom by done.
    rewrite bool_decide_eq_true_2.
    + apply (wrap_fold_absent _ _ _ _ _ _ _ key); try done; by rewrite (Hframe _ app_channel_keys) || rewrite (Hframe _ app_channels).
    + rewrite Hown. unfold own_pk. by rewrite (Hframe _ app_signing_key).
Qed.

(** The record's own key signed it, and the user is the one with that key. *)
Definition genuine (r : MembershipRecord) : Prop :=
  mr_user_id r = from_verifying_key (mr_public_key r) ∧ ed_valid_key (mr_public_key r) = true ∧
  length (mr_signature r) = 64%nat ∧
  ed_verify (mr_public_key r)
    (membership_message (mr_user_id r) (mr_community_id r) (mr_display_name r) (mr_joined_at r) (mr_roles r))
    (mr_signature r) = true.
Lemma genuine_spec r : member_verified r = true ↔ genuine r.
Proof using Type.
  unfold member_verified, genuine. rewrite !andb_true_iff, bool_decide_eq_true, Nat.eqb_eq. tauto.
Qed.

(** C24: joining a community. A membership record is accepted exactly when its own key signed
    it, the user id is the hash of that key and the user is not banned from the community;
    otherwise nothing changes. An accepted record becomes the user's record in that
    community, every other membership of every community is kept, and the frontend is
    told. When the client administers the community, every channel of its manifest whose
    key it holds, and that has no key for the newcomer, then carries one that the
    newcomer's X25519 secret unwraps to the channel key, and the channel with that key is
    published to the community. *)
Theorem member_joined_correct r w :
  (∀ k n t, is_Some (aead_encrypt k n t)) →
  let c := ulid_to_string (mr_community_id r) in
  let uid := hex (mr_user_id r) in
  let w' := handle_member_joined r w in
  (¬ genuine r ∨ is_banned c uid w = true → w' = w) ∧
  (genuine r → is_banned c uid w = false →
     member_of c uid w' = Some r ∧
     (∀ c' u, ¬ (c' = c ∧ u = uid) → member_of c' u w' = member_of c' u w) ∧
     last (w_out w') = Some (Event (PushMemberJoined (mkMemberEvent uid c (mr_display_name r)))) ∧
     ∀ signed x_sk id ch key,
       app_communities (w_app w) !! c = Some signed → cm_public_key (sm_manifest signed) = own_pk w →
       mr_x25519_public_key r = x_public x_sk →
       id ∈ ulid_to_string <$> cm_channel_ids (sm_manifest signed) →
       app_channels (w_app w) !! id = Some ch → app_channel_keys (w_app w) !! id = Some key →
       length key = 32%nat → ch_encrypted_channel_key ch !! mr_user_id r = None →
       ∃ ch', app_channels (w_app w') !! id = Some ch' ∧ key_offered (mr_user_id r) x_sk key ch ch' ∧
         ∀ data, to_allocvec (ChannelManifestBroadcast (mkBroadcast ch')) = Some data →
           Cmd (CmdPublish (community_topic c) data) ∈ w_out w').
Proof using Type*.
  intros Haead. destruct (member_joined_spec r w Haead) as [Hno Hyes]. split.
  - intros [Hg|Hb]; apply Hno; [left|by right]. destruct (member_verified r) eqn:Hv; [|done]. by apply genuine_spec in Hv.
  - intros Hg. by apply Hyes, genuine_spec.
Qed.

Lemma signed_by_member_spec may c msg sig w :
  signed_by_member may c msg sig w = true ↔
  ∃ u m, member_of c u w = Some m ∧ may m = true ∧ ed_valid_key (mr_public_key m) = true ∧
         ed_verify (mr_public_key m) msg sig = true.
Proof using Type*.
  unfold signed_by_member, member_of. destruct (app_members (w_app w) !! c) as [l|]; cbn.
  - rewrite any_true. split.
    + intros (m & Hin & Hb). apply andb_true_iff in Hb as [Hm Hb]. apply andb_true_iff in Hb as [Hv Hs]. apply list_elem_of_fmap in Hin as ([u m'] & -> & Hin).
      rewrite hash_order_perm in Hin. apply elem_of_map_to_list in Hin. exists u, m'. by split_and!.
    + intros (u & m & Hl & Hm & Hv & Hs). exists m. split; [|by rewrite Hm, Hv, Hs].
      apply list_elem_of_fmap. exists (u, m). split; [done|]. rewrite hash_order_perm. by apply elem_of_map_to_list.
  - split; [done|]. by intros (? & ? & ? & _).
Qed.

(** The signature of [msg] by a member of [c] that satisfies [may]. *)
Definition authorised (may : MembershipRecord → bool) (c : string) (msg sig : bytes) w : Prop :=
  length sig = 64%nat ∧ signed_by_member may c msg sig w = true.

Lemma member_left_spec p w :
  let c := ulid_to_string (ml_community_id p) in
  let uid := hex (ml_user_id p) in
  let may m := bool_decide (mr_user_id m = ml_user_id p) || is_privileged m in
  let signed := authorised may c (leave_message (ml_user_id p) (ml_community_id p)) (ml_signature p) w in
  let w' := handle_member_left p w in
  (¬ signed → w' = w) ∧
  (signed → member_of c uid w' = None ∧
     ∀ c' u, ¬ (c' = c ∧ u = uid) → member_of c' u w' = member_of c' u w).
Proof using Type.
  intros c uid may signed w'. subst signed w'. unfold authorised, handle_member_left. fold c uid may.
  destruct (Nat.eqb_spec (length (ml_signature p)) 64) as [Hl|Hl]; cbn [negb]; [|naive_solver].
  destruct (signed_by_member may _ _ _ _); cbn [negb]; [|naive_solver]. split; [naive_solver|]. intros _.
  destruct (member_of c uid w) as [removed|] eqn:Hm; [|done].
  set (w1 := save_members _).
  set (w2 := match known_community_pk c w1 with Some _ => _ | None => _ end).
  assert (∀ c' u, member_of c' u w2 = member_of c' u w1) as Hm2.
  { intros c' u. unfold member_of, w2. destruct (known_community_pk c w1); [|done].
    unfold update_meta, write_meta. destruct (stored_meta _ w1); [|done].
    by rewrite (on_store_frame app_members). }
  assert (∀ c' u, member_of c' u w1 =
    if decide (c = c') then delete uid (default ∅ (app_members (w_app w) !! c)) !! u else member_of c' u w) as Hm1.
  { intros c' u. exact (member_of_update c _ w c' u). }
  split.
  + change (member_of c uid w2 = None). rewrite Hm2, Hm1, decide_True by done. by rewrite lookup_delete_eq.
  + intros c' u Hne. change (member_of c' u w2 = member_of c' u w). rewrite Hm2, Hm1. case_decide; [|done].
    subst c'. rewrite lookup_delete_ne by naive_solver. unfold member_of. by destruct (app_members (w_app w) !! c).
Qed.
Lemma member_role_updated_spec p w :
  let c := ulid_to_string (ru_community_id p) in
  let uid := hex (ru_user_id p) in
  let signed := authorised is_admin_member c
                  (role_message (ru_user_id p) (ru_community_id p) (ru_new_role p)) (ru_signature p) w in
  let w' := handle_member_role_updated p w in
  (¬ signed → w' = w) ∧
  (signed → member_of c uid w' = with_roles [ru_new_role p] <$> member_of c uid w ∧
     ∀ c' u, ¬ (c' = c ∧ u = uid) → member_of c' u w' = member_of c' u w).
Proof using Type.
  intros c uid signed w'. subst signed w'. unfold authorised, handle_member_role_updated. fold c uid.
  destruct (Nat.eqb_spec (length (ru_signature p)) 64) as [Hl|Hl]; cbn [negb]; [|naive_solver].
  destruct (signed_by_member _ _ _ _ _); cbn [negb]; [|naive_solver]. split; [naive_solver|]. intros _.
  destruct (member_of c uid w) as [m|] eqn:Hm; [|by rewrite Hm].
  set (w1 := save_members _).
  assert (∀ c' u, member_of c' u w1 =
    if decide (c = c') then <[uid := with_roles [ru_new_role p] m]> (default ∅ (app_members (w_app w) !! c)) !! u
    else member_of c' u w) as Hm1.
  { intros c' u. exact (member_of_update c _ w c' u). }
  split.
  + change (member_of c uid w1 = Some (with_roles [ru_new_role p] m)).
    rewrite Hm1, decide_True by done. by rewrite lookup_insert_eq.
  + intros c' u Hne. change (member_of c' u w1 = member_of c' u w). rewrite Hm1. case_decide; [|done].
    subst c'. rewrite lookup_insert_ne by naive_solver. unfold member_of. by destruct (app_members (w_app w) !! c).
Qed.

(** C25: who may remove members and change roles. A departure is honoured exactly when it is
    signed with the key of a current member of the community who is the one departing or
    an admin or moderator; a role change exactly when it is signed with the key of a
    current admin. Then that one membership is removed, or its roles become the new one;
    every other membership of every community stays as it was. Otherwise nothing changes. *)
Theorem member_changes_authorised w :
  (∀ p, let c := ulid_to_string (ml_community_id p) in
     let uid := hex (ml_user_id p) in
     let may m := bool_decide (mr_user_id m = ml_user_id p) || is_privileged m in
     let signed := authorised may c (leave_message (ml_user_id p) (ml_community_id p)) (ml_signature p) w in
     let w' := handle_member_left p w in
     (¬ signed → w' = w) ∧
     (signed → member_of c uid w' = None ∧
        ∀ c' u, ¬ (c' = c ∧ u = uid) → member_of c' u w' = member_of c' u w)) ∧
  (∀ p, let c := ulid_to_string (ru_community_id p) in
     let uid := hex (ru_user_id p) in
     let signed := authorised is_admin_member c
                     (role_message (ru_user_id p) (ru_community_id p) (ru_new_role p)) (ru_signature p) w in
     let w' := handle_member_role_updated p w in
     (¬ signed → w' = w) ∧
     (signed → member_of c uid w' = with_roles [ru_new_role p] <$> member_of c uid w ∧
        ∀ c' u, ¬ (c' = c ∧ u = uid) → member_of c' u w' = member_of c' u w)) ∧
  (∀ may c msg sig, authorised may c msg sig w ↔
     length sig = 64%nat ∧ ∃ u m, member_of c u w = Some m ∧ may m = true ∧
       ed_valid_key (mr_public_key m) = true ∧ ed_verify (mr_public_key m) msg sig = true).
Proof using Type*.
  split_and!; [intros p; apply member_left_spec|intros p; apply member_role_updated_spec|].
  intros may c msg sig. unfold authorised. by rewrite signed_by_member_spec.
Qed.

(** Roles are self-asserted. The roles of a membership record are part of what its owner
    signs and nobody else vouches for them: any key that is not banned can join a
    community as an admin, and from then on the role changes that key signs are applied to
    every member. *)
Theorem self_promotion sk c name ts x25519 w :
  is_banned (ulid_to_string c) (hex (from_verifying_key (ed_public sk))) w = false →
  (∀ k n t, is_Some (aead_encrypt k n t)) →
  let uid := from_verifying_key (ed_public sk) in
  let r := mkMember uid c name None ts [Admin] (ed_public sk) x25519
             (ed_sign sk (membership_message uid c name ts [Admin])) in
  let w1 := handle_member_joined r w in
  member_of (ulid_to_string c) (hex uid) w1 = Some r ∧
  ∀ victim m role t, member_of (ulid_to_string c) (hex victim) w1 = Some m →
    member_of (ulid_to_string c) (hex victim)
      (handle_member_role_updated
         (mkRoleUpdate victim c role t (ed_sign sk (role_message victim c role))) w1) =
    Some (with_roles [role] m).
Proof using Type*.
  intros Hban Haead uid r w1.
  assert (member_verified r = true) as Hv.
  { unfold member_verified; cbn. rewrite ed_public_valid, bool_decide_eq_true_2, (proj1 (wf_ed_sign _ _)) by done.
    cbn. apply ed_sign_verify. }
  destruct (member_joined_spec r w Haead) as [_ Hj]. destruct (Hj Hv Hban) as (Hm & _).
  split; [exact Hm|]. intros victim m role t Hvic. unfold handle_member_role_updated; cbn [ru_signature].
  rewrite (proj1 (wf_ed_sign _ _)). cbn [negb Nat.eqb].
  assert (signed_by_member is_admin_member (ulid_to_string c) (role_message victim c role)
            (ed_sign sk (role_message victim c role)) w1 = true) as Hs.
  { apply signed_by_member_spec. exists (hex uid), r. split_and!; [exact Hm|done| |]; cbn.
    - apply ed_public_valid.
    - apply ed_sign_verify. }
  cbn [ru_community_id ru_user_id ru_new_role]. rewrite Hs. cbn [negb]. rewrite Hvic.
  etrans; [exact (member_of_update (ulid_to_string c) _ w1 _ _)|].
  rewrite decide_True by done. by rewrite lookup_insert_eq.
Qed.

(** ** Manifest updates *)

Lemma queue_sync_out id w : w_out (queue_manifest_sync id w) = w_out w.
Proof using Type. unfold queue_manifest_sync. by case_bool_decide. Qed.
Lemma queue_sync_in id w : id ∈ app_pending_manifest_syncs (w_app (queue_manifest_sync id w)).
Proof using Type. unfold queue_manifest_sync. case_bool_decide; [done|]. apply elem_of_app. right. by left. Qed.
Lemma queue_sync_frame {A} (proj : AppState T → A) id w :
  (∀ l a, proj (set_pending_manifest_syncs l a) = proj a) →
  proj (w_app (queue_manifest_sync id w)) = proj (w_app w).
Proof using Type. intros Hp. unfold queue_manifest_sync. case_bool_decide; [done|]. apply Hp. Qed.
Lemma dropped_channels_frame {A} (proj : AppState T → A) id removed w :
  (∀ c a, proj (set_channels c a) = proj a) → proj (w_app (remove_dropped_channels id removed w)) = proj (w_app w).
Proof using Type.
  intros Hp. unfold remove_dropped_channels. destruct removed as [|r rs]; [done|].
  rewrite fold_app by done. unfold save_channels. rewrite save_table_app. cbn. rewrite Hp. by rewrite fold_app.
Qed.
Lemma dropped_channels_out id removed w : w_out w `prefix_of` w_out (remove_dropped_channels id removed w).
Proof using Type.
  unfold remove_dropped_channels. destruct removed as [|x l]; [done|].
  etrans; [|apply fold_out; intros; by apply prefix_app_r]. unfold save_channels. rewrite save_table_out. cbn [upd w_out].
  apply fold_out. intros. by apply prefix_app_r.
Qed.
Lemma dropped_channels_channels id removed w :
  app_channels (w_app (remove_dropped_channels id removed w)) = deletes removed (app_channels (w_app w)).
Proof using Type.
  unfold remove_dropped_channels. destruct removed as [|r rs]; [done|].
  rewrite fold_app by done. unfold save_channels. rewrite save_table_app. cbn -[deletes]. by rewrite fold_app.
Qed.
Lemma dial_new_seed_app id old s w : w_app (dial_new_seed id old s w) = w_app w.
Proof using Type. unfold dial_new_seed. destruct (_ && _); [|done]. by destruct (parse_node_addr _). Qed.

Definition dropped_ids (old new : SignedManifest) : list string :=
  ulid_to_string <$> retain (λ id, negb (bool_decide (id ∈ cm_channel_ids (sm_manifest new))))
                       (cm_channel_ids (sm_manifest old)).

Lemma apply_manifest_update_spec source old s w :
  let id := ulid_to_string (cm_id (sm_manifest s)) in
  let w' := apply_manifest_update source old s w in
  app_communities (w_app w') = <[id := s]> (app_communities (w_app w)) ∧
  app_channels (w_app w') = deletes (dropped_ids old s) (app_channels (w_app w)) ∧
  (app_members (w_app w'), app_channel_keys (w_app w'), app_message_log (w_app w')) =
  (app_members (w_app w), app_channel_keys (w_app w), app_message_log (w_app w)).
Proof using Type.
  intros id w'. subst w'. unfold apply_manifest_update. fold id.
  set (w1 := update_meta _ _ _).
  assert (∀ A (proj : AppState T → A), (∀ s a, proj (set_node_store s a) = proj a) →
    proj (w_app w1) = proj (set_communities (<[id := s]> (app_communities (w_app w))) (w_app w))) as Hw1.
  { intros A proj Hs. subst w1. unfold update_meta, write_meta. set (w0 := save_communities _).
    assert (w_app w0 = set_communities (<[id := s]> (app_communities (w_app w))) (w_app w)) as Hw0.
    { subst w0. unfold save_communities. by rewrite save_table_app. }
    destruct (stored_meta _ w0); [rewrite (on_store_frame proj) by done|]; by rewrite Hw0. }
  set (w2 := foldl _ w1 _). assert (w_app w2 = w_app w1) as Hw2 by by apply fold_app.
  fold (dropped_ids old s). set (w3 := remove_dropped_channels id (dropped_ids old s) w2).
  set (w4 := match source with Some _ => _ | None => _ end).
  assert (∀ A (proj : AppState T → A), (∀ l a, proj (set_pending_manifest_syncs l a) = proj a) →
    proj (w_app (dial_new_seed id (cm_seed_nodes (sm_manifest old)) s w4)) = proj (w_app w3)) as Hw4.
  { intros A proj Hp. rewrite dial_new_seed_app. subst w4. destruct source; [done|]. by apply queue_sync_frame. }
  unfold broadcast. cbn [emit w_app]. rewrite (Hw4 _ app_communities), (Hw4 _ app_channels), (Hw4 _ app_members),
    (Hw4 _ app_channel_keys), (Hw4 _ app_message_log) by done. subst w3.
  rewrite dropped_channels_channels, (dropped_channels_frame app_communities), (dropped_channels_frame app_members),
    (dropped_channels_frame app_channel_keys), (dropped_channels_frame app_message_log) by done.
  rewrite Hw2, (Hw1 _ app_communities), (Hw1 _ app_channels), (Hw1 _ app_members), (Hw1 _ app_channel_keys),
    (Hw1 _ app_message_log) by done. done.
Qed.

(** What an applied update sends. *)
Lemma apply_manifest_update_out source old s w :
  let id := ulid_to_string (cm_id (sm_manifest s)) in
  let w' := apply_manifest_update source old s w in
  last (w_out w') = Some (Event (PushCommunityManifestUpdated (mkCommunityEvent id (cm_version (sm_manifest s)) ""))) ∧
  (∀ ch, ch ∈ cm_channel_ids (sm_manifest s) → ch ∉ cm_channel_ids (sm_manifest old) →
     Cmd (CmdSubscribe (channel_topic (ulid_to_string ch))) ∈ w_out w') ∧
  match source with
  | Some src => Cmd (CmdFetchManifest src id (cm_public_key (sm_manifest s))) ∈ w_out w'
  | None => id ∈ app_pending_manifest_syncs (w_app w')
  end.
Proof using Type.
  intros id w'. subst w'. unfold apply_manifest_update. fold id.
  set (w1 := update_meta _ _ _). set (w2 := foldl _ w1 _). set (w3 := remove_dropped_channels _ _ w2).
  set (w4 := match source with Some _ => _ | None => _ end). set (w5 := dial_new_seed _ _ _ w4).
  pose proof (dropped_channels_out id (ulid_to_string <$> retain (λ id, negb (bool_decide (id ∈ cm_channel_ids (sm_manifest s))))
    (cm_channel_ids (sm_manifest old))) w2) as H23. fold w3 in H23.
  assert (w_out w3 `prefix_of` w_out w4) as H34.
  { subst w4. destruct source; [by apply prefix_app_r|by rewrite queue_sync_out]. }
  assert (w_out w4 `prefix_of` w_out w5) as H45.
  { subst w5. unfold dial_new_seed. destruct (_ && _); [|done]. destruct (parse_node_addr _); [by apply prefix_app_r|done]. }
  split_and!.
  - apply last_emit.
  - intros ch Hin Hold. apply (out_elem _ w2).
    { etrans; [exact H23|]. etrans; [exact H34|]. etrans; [exact H45|]. by apply prefix_app_r. }
    apply elem_of_commands_fold. right. exists (ulid_to_string ch). split; [|done]. apply list_elem_of_fmap. exists ch. split; [done|].
    apply elem_of_retain. split; [by rewrite bool_decide_eq_false_2|done].
  - destruct source as [src|].
    + apply (out_elem _ w4); [etrans; [exact H45|by apply prefix_app_r]|]. apply elem_of_app. right. by left.
    + unfold broadcast. cbn [emit w_app]. subst w5. rewrite dial_new_seed_app. apply queue_sync_in.
Qed.

(** C26: manifest updates. An update that does not verify, that names a community the client is
    not in, or that has no higher version than the manifest it holds changes nothing. Every
    other is applied: a tombstone makes the client forget the community and tells the frontend;
    any other update replaces the manifest, removes the channels the new one no longer lists,
    keeps members, keys and messages, subscribes to the channels that are new, and asks the
    peer it came from (or, later, another one) for what belongs to it. The other communities
    are not affected, and the same update again changes nothing. *)
Theorem manifest_update_correct source s w :
  let id := ulid_to_string (cm_id (sm_manifest s)) in
  let version := cm_version (sm_manifest s) in
  (manifest_verify s = Some false ∨
     manifest_verify s = Some true ∧
       (∀ old, app_communities (w_app w) !! id = Some old → version <= cm_version (sm_manifest old)) →
   handle_manifest_update source s w = Done w) ∧
  (∀ old, manifest_verify s = Some true → app_communities (w_app w) !! id = Some old →
     cm_version (sm_manifest old) < version →
     ∃ w', handle_manifest_update source s w = Done w' ∧ handle_manifest_update source s w' = Done w' ∧
       (∀ id', id' ≠ id → app_communities (w_app w') !! id' = app_communities (w_app w) !! id') ∧
       if cm_deleted (sm_manifest s)
       then forgotten id w w' ∧
            last (w_out w') = Some (Event (PushCommunityDeleted (mkCommunityEvent id version "")))
       else app_communities (w_app w') !! id = Some s ∧
            (∀ ch, app_channels (w_app w') !! ch =
                   if bool_decide (ch ∈ dropped_ids old s) then None else app_channels (w_app w) !! ch) ∧
            (app_members (w_app w'), app_channel_keys (w_app w'), app_message_log (w_app w')) =
            (app_members (w_app w), app_channel_keys (w_app w), app_message_log (w_app w)) ∧
            (∀ ch, ch ∈ cm_channel_ids (sm_manifest s) → ch ∉ cm_channel_ids (sm_manifest old) →
               Cmd (CmdSubscribe (channel_topic (ulid_to_string ch))) ∈ w_out w') ∧
            match source with
            | Some src => Cmd (CmdFetchManifest src id (cm_public_key (sm_manifest s))) ∈ w_out w'
            | None => id ∈ app_pending_manifest_syncs (w_app w')
            end ∧
            last (w_out w') = Some (Event (PushCommunityManifestUpdated (mkCommunityEvent id version "")))).
Proof using Type*.
  intros id version. unfold handle_manifest_update. fold id version. split.
  - intros [-> |[-> Hold]]; [done|]. destruct (app_communities (w_app w) !! id) as [old|] eqn:Ho; [|done].
    destruct (Z.ltb_spec (cm_version (sm_manifest old)) version); [|done]. specialize (Hold old eq_refl). lia.
  - intros old -> Hold Hlt. rewrite Hold, (proj2 (Z.ltb_lt _ _) Hlt). cbn [negb].
    destruct (cm_deleted (sm_manifest s)); (eexists; split; [done|]).
    + assert (app_communities (w_app (delete_community id version "" w)) = delete id (app_communities (w_app w))) as Hc
        by exact (remove_local_communities id w).
      rewrite Hc, lookup_delete_eq. split; [done|]. split; [intros; by rewrite lookup_delete_ne|].
      split; [apply forgotten_emit, remove_local_forgets|apply last_emit].
    + destruct (apply_manifest_update_spec source old s w) as (Hc & Hch & Hrest). fold id in Hc.
      destruct (apply_manifest_update_out source old s w) as (Hlast & Hsub & Hsrc). fold id in Hlast, Hsrc.
      split; [rewrite Hc, lookup_insert_eq; by rewrite Z.ltb_irrefl|].
      split; [intros; by rewrite Hc, lookup_insert_ne|].
      split_and!; [by rewrite Hc, lookup_insert_eq| |done..]. intros ch. by rewrite Hch, lookup_deletes.
Qed.

(** A manifest update is not pinned to the community's key. The signature is checked
    against the key the new manifest itself names: whoever holds some signing key can
    replace the manifest of any community the client is in by one that names that key, so
    that the client then takes it for the community's key. *)
Theorem manifest_update_not_pinned sk m b old w source :
  app_communities (w_app w) !! ulid_to_string (cm_id m) = Some old →
  cm_version (sm_manifest old) < cm_version m → cm_deleted m = false → cm_public_key m = ed_public sk →
  to_allocvec m = Some b →
  ∃ w', handle_manifest_update source (mkSigned m (ed_sign sk b)) w = Done w' ∧
    known_community_pk (ulid_to_string (cm_id m)) w' = Some (ed_public sk).
Proof using Type*.
  intros Hold Hv Hdel Hpk Hb. unfold handle_manifest_update, manifest_verify, canonical_bytes. cbn.
  rewrite Hpk, ed_public_valid, (proj1 (wf_ed_sign _ _)), Hb. cbn. rewrite ed_sign_verify, Hold, Hdel.
  rewrite (proj2 (Z.ltb_lt _ _) Hv). cbn [negb]. eexists. split; [done|].
  destruct (apply_manifest_update_spec source old (mkSigned m (ed_sign sk b)) w) as (Hc & _).
  unfold known_community_pk. rewrite Hc. cbn. rewrite lookup_insert_eq. cbn. by rewrite Hpk.
Qed.
End membership.
