(* ===== verification/ManifestEvents.v ===== *)
(** * Manifests received from a peer: [bitcord-core/src/api/event_processor/manifest_handler.rs]

    The answer to a [FetchManifest]: the manifest and the channels replace the local ones,
    the channel keys are unwrapped, the messages buffered during a rotation are replayed,
    the node store and the member list are brought up to date, the node announces itself
    and asks for the history it is missing. The replay runs while the task holds the lock
    on the buffers ([handle_channel_message true]). *)

From S2P Require Import Prelude Bytes Redb Routing Crypto Codec Model ClientState Store DhtNode Handler.
From S2P Require Import AppState ChannelEvents CommunityEvents.

Section manifest_events.
Context {T : Type} `{Crypto} `{Table T} `{NodeCodecs} `{HashOrder} `{UlidText} `{UlidParse} `{AddrText}.
Context `{Entropy} `{AppCodecs}.
Implicit Types w : World T.

(** ** Peers and channels *)

Definition register_peer (from community_id : string) (admin_pk : bytes) w : World T :=
  let list := peers_of community_id w in
  let list' :=
    if any (λ p, bool_decide (ps_peer_id p = from)) list then list
    else list ++ [mkPeerSummary from [] None false 0 (bool_decide (hex admin_pk = from)) community_id] in
  upd (λ a, set_connected_peers (<[community_id := list']> (app_connected_peers a)) a) w.

(** The received channels are stored; channels of the community that the manifest no longer
    lists are evicted. *)
Definition merge_channels (community_id : string) (live_ids : list string) (chs : list ChannelManifest)
    (known : gmap string ChannelManifest) : gmap string ChannelManifest :=
  filter (λ kc : string * ChannelManifest,
            ulid_to_string (ch_community_id kc.2) ≠ community_id ∨ kc.1 ∈ live_ids)
    (foldl (λ m ch, <[ulid_to_string (ch_id ch) := ch]> m) known chs).

(** ** Keys *)

(** Keys, previous keys, and the channels whose key changed, in order. *)
Definition KeyState : Type := gmap string bytes * gmap string bytes * list string.

Definition unwrap_one (user_id : UserId) (x25519_sk : bytes) (acc : KeyState) (ch : ChannelManifest) : KeyState :=
  let '(keys, prev_keys, rotated) := acc in
  let channel_id := ulid_to_string (ch_id ch) in
  match ch_encrypted_channel_key ch !! user_id with
  | None => acc
  | Some wrapped =>
      match decrypt_for_self x25519_sk wrapped with
      | Err _ => acc
      | Ok key =>
          match keys !! channel_id with
          | Some old =>
              if bool_decide (old = key) then (<[channel_id := key]> keys, prev_keys, rotated)
              else (<[channel_id := key]> keys, <[channel_id := old]> prev_keys, rotated ++ [channel_id])
          | None => (<[channel_id := key]> keys, prev_keys, rotated)
          end
      end
  end.

(** Plaintext keys of older nodes, for the channels that have none. *)
Definition plaintext_keys (channel_keys keys : gmap string bytes) : gmap string bytes :=
  keys ∪ filter (λ kv : string * bytes, length kv.2 = 32%nat) channel_keys.

Definition receive_keys (admin_pk : bytes) (chs : list ChannelManifest) (channel_keys : gmap string bytes) w
    : World T * list string :=
  let a := w_app w in
  let start := (app_channel_keys a, app_previous_channel_keys a, []) in
  let '(keys, prev_keys, rotated) :=
    if bool_decide (admin_pk = own_pk w) then start
    else foldl (unwrap_one (own_user_id w) (own_x25519_sk w)) start chs in
  let keys := plaintext_keys channel_keys keys in
  let w := upd (λ a, set_previous_channel_keys prev_keys (set_channel_keys keys a)) w in
  let w := save_channel_keys w in
  (match rotated with [] => w | _ => save_previous_keys w end, rotated).

(** ** Replay of the buffered messages *)

Fixpoint replay (buffered : list (string * bytes)) w : Handled T :=
  match buffered with
  | [] => Done w
  | (topic, data) :: buffered => and_then (handle_channel_message true topic data w) (replay buffered)
  end.

Fixpoint drain (rotated : list string) w : Handled T :=
  match rotated with
  | [] => Done w
  | channel_id :: rotated =>
      match app_pending_rotation_messages (w_app w) !! channel_id with
      | None => drain rotated w
      | Some buffered =>
          let w := upd (λ a, set_pending_rotation_messages
                     (delete channel_id (app_pending_rotation_messages a)) a) w in
          and_then (replay buffered w) (drain rotated)
      end
  end.

Definition retry_rotation (from community_id : string) (community_pk : bytes) (channel_ids rotated : list string)
    w : World T :=
  let stale id := bool_decide (is_Some (app_pending_rotation_messages (w_app w) !! id)) &&
                  negb (bool_decide (id ∈ rotated)) in
  match retain stale channel_ids with
  | [] => w
  | _ =>
      match find_by (λ p, negb (bool_decide (ps_peer_id p = from))) (peers_of community_id w) with
      | Some p => command (CmdFetchManifest (ps_peer_id p) community_id community_pk) w
      | None => w
      end
  end.

(** ** The node store and the members *)

Definition keys_of (channel_ids : list string) (keys : gmap string bytes) : gmap string bytes :=
  foldl (λ m id, match keys !! id with Some k => <[id := k]> m | None => m end) ∅ channel_ids.
Definition members_by_id (records : list MembershipRecord) : gmap string MembershipRecord :=
  foldl (λ m r, <[hex (mr_user_id r) := r]> m) ∅ records.

Definition sync_manifest_to_store (manifest : SignedManifest) (chs : list ChannelManifest)
    (peer_members : list MembershipRecord) w : World T :=
  let pk := cm_public_key (sm_manifest manifest) in
  let channel_ids := (λ ch, ulid_to_string (ch_id ch)) <$> chs in
  write_meta pk (mkMeta (dummy_cert pk w) (Some manifest) chs
                   (keys_of channel_ids (app_channel_keys (w_app w))) (members_by_id peer_members)) w.

Definition upsert_members (community_id : string) (peer_members : list MembershipRecord) w : World T :=
  match peer_members with
  | [] => w
  | _ =>
      let list := default ∅ (app_members (w_app w) !! community_id) in
      let list' := foldl (λ m r, <[hex (mr_user_id r) := r]> m) list peer_members in
      let w := save_members (upd (λ a, set_members (<[community_id := list']> (app_members a)) a) w) in
      let peers' := foldl (λ m r,
        match m !! hex (mr_user_id r) with
        | Some _ => m
        | None => <[hex (mr_user_id r) := mkDmPeer (mr_display_name r) (mr_x25519_public_key r)]> m
        end) (app_dm_peers (w_app w)) peer_members in
      save_dm_peers (upd (set_dm_peers peers') w)
  end.

(** ** Keys for members who joined while the admin was away *)

Definition wrap_for_member (key : bytes) (acc : World T * ChannelManifest * bool) (m : MembershipRecord)
    : World T * ChannelManifest * bool :=
  let '(w, ch, updated) := acc in
  match ch_encrypted_channel_key ch !! mr_user_id m with
  | Some _ => acc
  | None =>
      match encrypt_for_member key (rng32 (w_draws w)) (rng24 (w_draws w)) (mr_x25519_public_key m) with
      | Ok wrapped => (draw w, insert_wrapped (mr_user_id m) wrapped ch, true)
      | Err _ => (draw w, ch, updated)
      end
  end.

Definition wrap_channel_for_members (topic : string) (keys : gmap string bytes)
    (all_members : list MembershipRecord) (acc : World T * bool) (channel_id : string) : World T * bool :=
  let '(w, any_updated) := acc in
  match keys !! channel_id, app_channels (w_app w) !! channel_id with
  | Some key, Some ch =>
      let '(w, ch, updated) := foldl (wrap_for_member key) (w, ch, false) all_members in
      let w := upd (λ a, set_channels (<[channel_id := ch]> (app_channels a)) a) w in
      if updated then (publish_event topic (ChannelManifestBroadcast (mkBroadcast ch)) w, true)
      else (w, any_updated)
  | _, _ => (w, any_updated)
  end.

Definition wrap_for_absent_members (community_id : string) (admin_pk : bytes) (channel_ids : list string) w
    : World T :=
  if bool_decide (admin_pk = own_pk w) then
    let all_members := (hash_order (default ∅ (app_members (w_app w) !! community_id))).*2 in
    let '(w, any_updated) :=
      foldl (wrap_channel_for_members (community_topic community_id) (app_channel_keys (w_app w)) all_members)
        (w, false) channel_ids in
    if any_updated then save_channels w else w
  else w.

(** ** Announcing oneself *)

Definition own_display_name w : string :=
  match is_display_name (app_identity_state (w_app w)) with
  | Some name => name
  | None => String.substring 0 8 (app_peer_id (w_app w))
  end.

Definition self_record (now : DateTime) (manifest : CommunityManifest) (known : option MembershipRecord) w
    : MembershipRecord :=
  let user_id := own_user_id w in
  let roles :=
    if bool_decide (user_id ∈ cm_admin_ids manifest) then [Admin]
    else match known with Some m => mr_roles m | None => [Member] end in
  mkMember user_id (cm_id manifest) (own_display_name w) None now roles
    (key_of_hex (app_public_key_hex (w_app w))) (x_public (own_x25519_sk w))
    (ed_sign (app_signing_key (w_app w))
       (membership_message user_id (cm_id manifest) (own_display_name w) now roles)).

Definition announce_self (now : DateTime) (community_id : string) (manifest : CommunityManifest) w : World T :=
  match member_of community_id (app_peer_id (w_app w)) w with
  | None => w
  | Some known =>
      let record := self_record now manifest (Some known) w in
      publish_event (community_topic community_id) (MemberJoined record) (handle_member_joined record w)
  end.

(** ** History of the channels whose key is known *)

Definition sync_history (from community_id : string) (community_pk : bytes) w (channel_id : string) : World T :=
  let list := peers_of community_id w in
  let fetch_peer :=
    match find_by ps_is_admin list with
    | Some p => ps_peer_id p
    | None =>
        match find_by (λ p, negb (bool_decide (ps_peer_id p = from))) list with
        | Some p => ps_peer_id p
        | None => match head list with Some p => ps_peer_id p | None => from end
        end
    end in
  fetch_history fetch_peer community_id community_pk channel_id w.

(** ** [handle_manifest_received] *)

Definition manifest_pending_done (community_id : string) (version : Z) w : World T :=
  if 0 <? version then
    upd (λ a, set_pending_manifest_syncs
           (retain (λ id, negb (bool_decide (id = community_id))) (app_pending_manifest_syncs a)) a) w
  else w.

(** The part before the replay: the manifest, the peer, the channels and their keys. *)
Definition install_manifest (from : string) (manifest : SignedManifest) (chs : list ChannelManifest)
    (channel_keys : gmap string bytes) w : World T * list string :=
  let m := sm_manifest manifest in
  let community_id := ulid_to_string (cm_id m) in
  let w := save_communities
             (upd (λ a, set_communities (<[community_id := manifest]> (app_communities a)) a) w) in
  let w := register_peer from community_id (cm_public_key m) w in
  let live_ids := ulid_to_string <$> cm_channel_ids m in
  let w := save_channels
             (upd (λ a, set_channels (merge_channels community_id live_ids chs (app_channels a)) a) w) in
  receive_keys (cm_public_key m) chs channel_keys w.

(** The part after the replay. *)
Definition finish_manifest (now : DateTime) (from : string) (manifest : SignedManifest)
    (chs : list ChannelManifest) (rotated : list string) (peer_members : list MembershipRecord)
    (needs_key_refetch : bool) w : World T :=
  let m := sm_manifest manifest in
  let community_id := ulid_to_string (cm_id m) in
  let channel_ids := (λ ch, ulid_to_string (ch_id ch)) <$> chs in
  let w := retry_rotation from community_id (cm_public_key m) channel_ids rotated w in
  let w := sync_manifest_to_store manifest chs peer_members w in
  let w := upsert_members community_id peer_members w in
  let w := wrap_for_absent_members community_id (cm_public_key m) channel_ids w in
  let w := foldl (λ w id, command (CmdSubscribe (channel_topic id)) w) w channel_ids in
  let w := command (CmdSubscribe (community_topic community_id)) w in
  let w := announce_self now community_id m w in
  let w := broadcast (PushCommunityManifestUpdated (mkCommunityEvent community_id (cm_version m) "")) w in
  if needs_key_refetch then w
  else
    let syncable := retain (λ id, bool_decide (is_Some (app_channel_keys (w_app w) !! id))) channel_ids in
    foldl (sync_history from community_id (cm_public_key m)) w syncable.

Definition handle_manifest_received (now : DateTime) (from : string) (manifest : SignedManifest)
    (chs : list ChannelManifest) (channel_keys : gmap string bytes) (peer_members : list MembershipRecord) w
    : Handled T :=
  match manifest_verify manifest with
  | None => Panicked
  | Some false => Done w
  | Some true =>
      let m := sm_manifest manifest in
      let community_id := ulid_to_string (cm_id m) in
      let w := manifest_pending_done community_id (cm_version m) w in
      if cm_deleted m then Done (delete_community community_id (cm_version m) "" w)
      else
        let '(w, rotated) := install_manifest from manifest chs channel_keys w in
        let needs_key_refetch :=
          any (λ ch, negb (bool_decide (is_Some (app_channel_keys (w_app w) !! ulid_to_string (ch_id ch))))) chs in
        and_then (drain rotated w)
          (λ w, Done (finish_manifest now from manifest chs rotated peer_members needs_key_refetch w))
  end.
End manifest_events.

(** ** The invariant through a received manifest *)

Section manifest_invariant.
Context {T : Type} `{CryptoLaws} `{TableLaws T} `{NodeCodecsLaws} `{HashOrder} `{UlidText} `{UlidParse} `{AddrText}.
Context `{EntropyLaws} `{AppCodecs}.
Implicit Types w : World T.

Lemma add_peer_NoDup (p : PeerSummary) (l : list PeerSummary) :
  NoDup (ps_peer_id <$> l) →
  NoDup (ps_peer_id <$> (if any (λ q, bool_decide (ps_peer_id q = ps_peer_id p)) l then l else l ++ [p])).
Proof using Type.
  intros Hl. destruct (any _ l) eqn:Hany; [done|]. rewrite fmap_app. apply NoDup_app.
  split_and!; [done| |apply NoDup_singleton]. intros x Hx ->%list_elem_of_singleton.
  apply list_elem_of_fmap in Hx as (q & Hq & Hin). apply (proj1 (any_false _ _) Hany) in Hin.
  by rewrite bool_decide_eq_false in Hin.
Qed.
Lemma peers_of_NoDup id w : inv w → NoDup (ps_peer_id <$> peers_of id w).
Proof using Type.
  intros Hw. unfold peers_of. destruct (app_connected_peers (w_app w) !! id) as [l|] eqn:Hl; cbn.
  - by apply (ai_peers _ Hw id).
  - constructor.
Qed.
Lemma inv_set_peers_of id l w :
  inv w → NoDup (ps_peer_id <$> l) →
  inv (upd (λ a, set_connected_peers (<[id := l]> (app_connected_peers a)) a) w).
Proof using Type.
  intros Hw Hl. apply inv_set_peers; [done|].
  apply (keyed_insert (λ _ l, NoDup (ps_peer_id <$> l))); [done|]. apply (ai_peers _ Hw).
Qed.
Lemma inv_register_peer from id pk w : inv w → inv (register_peer from id pk w).
Proof using Type.
  intros Hw. apply inv_set_peers_of; [done|].
  set (p := mkPeerSummary _ _ _ _ _ _ _). change from with (ps_peer_id p). by apply add_peer_NoDup, peers_of_NoDup.
Qed.

Lemma merge_channels_keyed id live chs (m : gmap string ChannelManifest) :
  (∀ k c, m !! k = Some c → k = ulid_to_string (ch_id c)) →
  ∀ k c, merge_channels id live chs m !! k = Some c → k = ulid_to_string (ch_id c).
Proof using Type.
  intros Hm k c. unfold merge_channels. rewrite map_lookup_filter_Some. intros [Hk _]. revert k c Hk.
  revert m Hm; induction chs as [|ch chs IH]; intros m Hm; [exact Hm|]. cbn [foldl]. apply IH.
  by apply keyed_insert.
Qed.

Lemma receive_keys_app pk chs plain w :
  ∃ keys prev, w_app (receive_keys pk chs plain w).1 =
    set_previous_channel_keys prev (set_channel_keys keys (w_app w)).
Proof using Type.
  unfold receive_keys. destruct (if bool_decide _ then _ else _) as [[keys prev] rotated]. cbn [fst].
  exists (plaintext_keys plain keys), prev. unfold save_previous_keys, save_channel_keys.
  destruct rotated; by rewrite ?save_table_app.
Qed.
Lemma inv_receive_keys pk chs plain w : inv w → inv (receive_keys pk chs plain w).1.
Proof using Type.
  intros Hw. destruct (receive_keys_app pk chs plain w) as (keys & prev & Heq).
  apply (inv_ext (upd (λ a, set_previous_channel_keys prev a) (upd (λ a, set_channel_keys keys a) w)));
    [exact Heq|]. by apply inv_set_previous_keys, inv_set_channel_keys.
Qed.

Lemma inv_and_then (h : Handled T) f w' :
  (∀ w, h = Done w → inv w) → (∀ w, inv w → f w = Done w' → inv w') → and_then h f = Done w' → inv w'.
Proof using Type. destruct h; cbn; eauto; done. Qed.
Lemma inv_replay buffered w w' : inv w → replay buffered w = Done w' → inv w'.
Proof using Type*.
  revert w; induction buffered as [|[topic data] l IH]; intros w Hw; cbn; [by intros [= <-]|].
  apply inv_and_then; [|done]. intros w1. by apply inv_channel_message.
Qed.
Lemma inv_drain rotated w w' : inv w → drain rotated w = Done w' → inv w'.
Proof using Type*.
  revert w; induction rotated as [|id rotated IH]; intros w Hw; cbn; [by intros [= <-]|].
  destruct (app_pending_rotation_messages (w_app w) !! id) as [buf|] eqn:Hb; [|by apply IH].
  apply inv_and_then; [|done]. intros w1. apply inv_replay, inv_set_buffers; [done|].
  apply (keyed_delete (λ ch buf, ∀ td, td ∈ buf → _)), (ai_buffers _ Hw).
Qed.

Lemma inv_upsert_members id ms w : inv w → inv (upsert_members id ms w).
Proof using Type.
  intros Hw. unfold upsert_members. destruct ms as [|m ms]; [done|]. set (l := m :: ms).
  apply inv_save_table, (inv_set_dm_peers (λ _, _)). apply inv_update_member; [done|].
  generalize (members_default_wf id w Hw). generalize (default ∅ (app_members (w_app w) !! id)). generalize l.
  clear. intros l. induction l as [|r l IH]; intros g Hg; [exact Hg|]. cbn [foldl]. apply IH.
  intros u m. rewrite lookup_insert_Some. intros [[<- <-]|[_ ?]]; [done|]. by apply Hg.
Qed.

(** Wrapping a key changes neither the state nor the identity of the channel. *)
Lemma wrap_for_member_fold key ms w ch up :
  let '(w', ch', up') := foldl (wrap_for_member key) (w, ch, up) ms in
  w_app w' = w_app w ∧ w_disk w' = w_disk w ∧ w_disk_ok w' = w_disk_ok w ∧ ch_id ch' = ch_id ch ∧
  (up' = false → ch' = ch ∧ up = false).
Proof using Type.
  revert w ch up; induction ms as [|m ms IH]; intros w ch up; [done|]. cbn [foldl].
  unfold wrap_for_member at 2. destruct (ch_encrypted_channel_key ch !! mr_user_id m); [apply IH|].
  destruct (encrypt_for_member _ _ _ _) as [wrapped|].
  - specialize (IH (draw w) (insert_wrapped (mr_user_id m) wrapped ch) true).
    destruct (foldl _ _ ms) as [[w' ch'] up']. destruct IH as (? & ? & ? & ? & Hup).
    split_and!; [done..|]. intros [? ?]%Hup. done.
  - specialize (IH (draw w) ch up). by destruct (foldl _ _ ms) as [[w' ch'] up'].
Qed.
Lemma inv_wrap_channel topic keys ms acc id : inv acc.1 → inv (wrap_channel_for_members topic keys ms acc id).1.
Proof using Type.
  intros Hw. unfold wrap_channel_for_members. destruct acc as [w any]. cbn [fst] in Hw.
  destruct (keys !! id) as [key|]; [|done]. destruct (app_channels (w_app w) !! id) as [ch|] eqn:Hch; [|done].
  pose proof (wrap_for_member_fold key ms w ch false) as Hf.
  destruct (foldl _ _ ms) as [[w' ch'] up']. destruct Hf as (Happ & _ & _ & Hid & _).
  assert (inv w') as Hw' by by eapply inv_ext.
  set (w1 := upd _ w'). assert (inv w1) as Hw1.
  { apply inv_set_channels; [done|]. apply keyed_insert; [|apply (ai_channels _ Hw')].
    rewrite Hid. apply (ai_channels _ Hw _ _ Hch). }
  destruct up'; [by apply inv_publish|done].
Qed.
Lemma inv_wrap_absent id pk ids w : inv w → inv (wrap_for_absent_members id pk ids w).
Proof using Type.
  intros Hw. unfold wrap_for_absent_members. case_bool_decide; [|done].
  set (ms := (hash_order _).*2). set (keys := app_channel_keys (w_app w)). set (topic := community_topic id).
  assert (inv (foldl (wrap_channel_for_members topic keys ms) (w, false) ids).1) as Hf.
  { assert (inv (w, false).1) as Hstart by done. revert Hstart. generalize (w, false). clear -ids.
    induction ids as [|i ids IH]; intros acc Hacc; [done|]. cbn [foldl]. by apply IH, inv_wrap_channel. }
  destruct (foldl _ _ ids) as [w' any]. destruct any; [by apply inv_save_table|done].
Qed.

Lemma inv_announce now id m w : inv w → inv (announce_self now id m w).
Proof using Type*.
  intros Hw. unfold announce_self. destruct (member_of _ _ w); [|done]. by apply inv_publish, inv_member_joined.
Qed.
Lemma inv_finish now from s chs rotated ms refetch w :
  inv w → wf_key (cm_public_key (sm_manifest s)) → inv (finish_manifest now from s chs rotated ms refetch w).
Proof using Type*.
  intros Hw Hpk. unfold finish_manifest. set (id := ulid_to_string (cm_id (sm_manifest s))).
  set (w1 := retry_rotation _ _ _ _ _ w). assert (inv w1) as Hw1.
  { subst w1. unfold retry_rotation. destruct (retain _ _); [done|].
    destruct (find_by _ _); [by apply inv_emit|done]. }
  set (w2 := sync_manifest_to_store _ _ _ w1). assert (inv w2) as Hw2 by by apply inv_write_meta.
  set (w3 := announce_self _ _ _ _). assert (inv w3) as Hw3.
  { apply inv_announce, inv_emit, (inv_commands (λ c, Cmd (CmdSubscribe (channel_topic c)))), inv_wrap_absent.
    by apply inv_upsert_members. }
  destruct refetch; [by apply inv_emit|]. apply fold_inv; [by apply inv_emit|].
  intros. by apply inv_emit, inv_emit.
Qed.

Lemma inv_install from s chs plain w :
  inv w → wf_key (cm_public_key (sm_manifest s)) → inv (install_manifest from s chs plain w).1.
Proof using Type*.
  intros Hw Hpk. unfold install_manifest. cbv zeta. apply inv_receive_keys, inv_save_table.
  set (wr := register_peer _ _ _ _). assert (inv wr) as Hr.
  { by apply inv_register_peer, inv_save_table, inv_set_communities_insert. }
  apply inv_set_channels; [done|]. apply merge_channels_keyed, (ai_channels _ Hr).
Qed.
Lemma inv_manifest_received now from s chs plain ms w w' :
  inv w → wf_key (cm_public_key (sm_manifest s)) →
  handle_manifest_received now from s chs plain ms w = Done w' → inv w'.
Proof using Type*.
  intros Hw Hpk. unfold handle_manifest_received. destruct (manifest_verify s) as [[]|]; [|by intros [= <-]|done].
  set (id := ulid_to_string (cm_id (sm_manifest s))). set (w0 := manifest_pending_done id _ w).
  assert (inv w0) as Hw0.
  { subst w0. unfold manifest_pending_done. destruct (0 <? _); [|done]. apply inv_set_syncs; [done|].
    eapply sublist_NoDup; [apply (ai_pending _ Hw)|apply retain_sublist]. }
  destruct (cm_deleted _). { intros [= <-]. by apply inv_emit, inv_remove_community_local. }
  pose proof (inv_install from s chs plain w0 Hw0 Hpk) as Hw2.
  destruct (install_manifest _ s chs plain w0) as [w2 rotated]. cbn [fst] in Hw2.
  apply inv_and_then; [intros w3; by apply inv_drain|]. intros w3 Hw3 [= <-]. by apply inv_finish.
Qed.
End manifest_invariant.

(** ** The replay *)

Section replay.
Context {T : Type} `{CryptoLaws} `{TableLaws T} `{NodeCodecsLaws} `{HashOrder} `{UlidText} `{UlidParse} `{AddrText}.
Context `{EntropyLaws} `{AppCodecs}.
Implicit Types w : World T.

(** Nothing changes between [w] and [w'] but the log, which only grows, and the store. *)
Record grows w w' : Prop := {
  gr_frame : ∀ A (proj : AppState T → A), (∀ s a, proj (set_node_store s a) = proj a) →
    (∀ l a, proj (set_message_log l a) = proj a) → proj (w_app w') = proj (w_app w);
  gr_log : ∀ c e, e ∈ entries_of c (app_message_log (w_app w)) →
                  e ∈ entries_of c (app_message_log (w_app w')) }.

#[global] Instance grows_preorder : PreOrder grows.
Proof using Type.
  split; [by split|]. intros w1 w2 w3 [Hf1 Hl1] [Hf2 Hl2]. split; [|by auto].
  intros A proj Hs Hl. by rewrite Hf2, Hf1.
Qed.

Lemma unreadable_grows w w' id raw : grows w w' → unreadable id raw w ↔ unreadable id raw w'.
Proof using Type.
  intros [Hf _]. unfold unreadable, community_of_channel.
  by rewrite (Hf _ app_channels), (Hf _ app_channel_keys), (Hf _ app_previous_channel_keys).
Qed.
Lemma acceptable_grows w w' raw c m p : grows w w' → acceptable raw c m p w → acceptable raw c m p w'.
Proof using Type. intros [Hf _]. by apply acceptable_frame; apply Hf. Qed.

Lemma store_new_message_present c content raw w :
  ∃ e, e ∈ entries_of (ulid_to_string (rm_channel_id raw)) (app_message_log (w_app (store_new_message c content raw w))) ∧
       le_message_id e = ulid_to_string (rm_id raw).
Proof using Type.
  destruct (get_entry (ulid_to_string (rm_channel_id raw)) (ulid_to_string (rm_id raw)) (app_message_log (w_app w)))
    as [e|] eqn:Hg.
  - exists e. unfold store_new_message. rewrite Hg. by apply get_entry_Some.
  - apply get_entry_None in Hg. exists (received_entry raw (app_message_log (w_app w))). split; [|done].
    rewrite store_new_message_log, entries_of_set, bool_decide_eq_true_2 by done. apply elem_of_app. right. by left.
Qed.
Lemma grows_store_new_message c content raw w : grows w (store_new_message c content raw w).
Proof using Type.
  split; [intros A proj Hs Hl; by apply store_new_message_frame|]. intros c' e He.
  destruct (get_entry (ulid_to_string (rm_channel_id raw)) (ulid_to_string (rm_id raw)) (app_message_log (w_app w)))
    as [e'|] eqn:Hg.
  - unfold store_new_message. by rewrite Hg.
  - apply get_entry_None in Hg. rewrite store_new_message_log, entries_of_set by done. case_bool_decide as Hc.
    + subst c'. apply elem_of_app. by left.
    + by rewrite entries_of_reaction.
Qed.

(** Under the lock a message either blocks, when no key opens it, or is handled. *)
Lemma new_message_locked topic data raw w :
  (unreadable (ulid_to_string (rm_channel_id raw)) raw w ∧ handle_new_message true topic data raw w = Blocked) ∨
  (¬ unreadable (ulid_to_string (rm_channel_id raw)) raw w ∧
   ∃ w', handle_new_message true topic data raw w = Done w' ∧ grows w w').
Proof using Type.
  unfold unreadable, handle_new_message.
  destruct (community_of_channel _ w) as [c|] eqn:Hc; [|right; split; [by intros (_ & [? ?] & _)|by exists w]].
  destruct (app_channel_keys (w_app w) !! _) as [key|] eqn:Hk;
    [|right; split; [by intros (_ & _ & k & ? & _)|by exists w]].
  destruct (decrypt_with_previous _ _ _ _) as [plain|] eqn:Hd.
  - right. split; [intros (_ & _ & k & [= <-] & Hno); congruence|].
    destruct (member_of _ _ w) as [m|]; [|by exists w]. destruct (_ && _); [|by exists w].
    eexists. split; [done|]. apply grows_store_new_message.
  - left. split; [|done]. split_and!; [done|by exists c|]. by exists key.
Qed.

Definition buffer_of (id : string) (l : list (string * bytes)) : Prop :=
  ∀ td, td ∈ l → ∃ raw, from_bytes td.2 = Some (NewMessage raw) ∧ ulid_to_string (rm_channel_id raw) = id.
(** [td] is a buffered message that no key of its channel opens. *)
Definition stuck (id : string) w (td : string * bytes) : Prop :=
  ∃ raw, from_bytes td.2 = Some (NewMessage raw) ∧ unreadable id raw w.

Lemma replay_spec id l w :
  buffer_of id l →
  (Exists (stuck id w) l ∧ replay l w = Blocked) ∨
  (¬ Exists (stuck id w) l ∧ ∃ w', replay l w = Done w' ∧ grows w w' ∧
     ∀ td raw c m p, td ∈ l → from_bytes td.2 = Some (NewMessage raw) → acceptable raw c m p w →
       is_Some (get_entry id (ulid_to_string (rm_id raw)) (app_message_log (w_app w')))).
Proof using Type.
  revert w; induction l as [|[topic data] l IH]; intros w Hl; cbn [replay].
  { right. split; [by intros ?%Exists_nil|]. exists w. split_and!; [done|done|]. by intros ????? ?%elem_of_nil. }
  destruct (Hl (topic, data)) as (raw & Hd & Hid); [by left|]. cbn in Hd.
  assert (buffer_of id l) as Hl' by (intros td Htd; apply Hl; by right).
  assert (∀ w, stuck id w (topic, data) ↔ unreadable id raw w) as Hstuck.
  { intros w0. unfold stuck. cbn. rewrite Hd. split; [by intros (r & [= <-] & ?)|by exists raw]. }
  unfold handle_channel_message. rewrite Hd.
  destruct (new_message_locked topic data raw w) as [[Hun ->]|(Hun & w1 & Hw1 & Hg1)]; rewrite Hid in Hun.
  { left. split; [|done]. left. by apply Hstuck. }
  rewrite Hw1. cbn [and_then].
  assert (Exists (stuck id w1) l ↔ Exists (stuck id w) l) as Hex.
  { rewrite !Exists_exists. split; intros (td & Hin & r & Hr & Hu); exists td; (split; [done|]); exists r;
      (split; [done|]); by apply (unreadable_grows w w1). }
  destruct (IH w1 Hl') as [[Hs ->]|(Hs & w' & Hw' & Hg & Hlog)].
  { left. split; [|done]. right. by apply Hex. }
  right. split; [rewrite Exists_cons, Hstuck, <- Hex; tauto|]. exists w'. split_and!; [done|by etrans|].
  intros td r c m p [->|Hin]%elem_of_cons Hr Hacc.
  - cbn in Hr. rewrite Hd in Hr. injection Hr as <-. destruct (get_entry id _ _) eqn:Hget; [done|].
    apply get_entry_None in Hget. exfalso. apply Hget. rewrite (new_message_accepted _ _ _ _ _ _ _ _ Hacc) in Hw1.
    injection Hw1 as <-. destruct (store_new_message_present c (content_decode p) raw w) as (e & He & Hmid).
    rewrite Hid in He. apply (gr_log _ _ Hg) in He. rewrite <- Hmid. by apply list_elem_of_fmap_2.
  - eapply Hlog; [done..|]. by eapply acceptable_grows.
Qed.

(** The same, up to the buffers. *)
Definition no_buffers w : World T := upd (set_pending_rotation_messages ∅) w.
Definition settles w w' : Prop := grows (no_buffers w) (no_buffers w').

#[global] Instance settles_preorder : PreOrder settles.
Proof using Type. split; [by intros w|]. intros w1 w2 w3. apply (transitivity (R := grows)). Qed.

Lemma grows_settles w w' : grows w w' → settles w w'.
Proof using Type.
  intros [Hf Hl]. split; [|exact Hl]. intros A proj Hs Hm.
  apply (Hf A (λ a, proj (set_pending_rotation_messages ∅ a))); intros v a.
  - exact (Hs v (set_pending_rotation_messages ∅ a)).
  - exact (Hm v (set_pending_rotation_messages ∅ a)).
Qed.
Lemma settles_refl w w' : w_app (no_buffers w) = w_app (no_buffers w') → settles w w'.
Proof using Type. intros Heq. split; [intros A proj _ _|intros c e]; by rewrite Heq. Qed.
Lemma stuck_settles w w' id td : settles w w' → stuck id w td ↔ stuck id w' td.
Proof using Type.
  intros Hs. unfold stuck. split; intros (raw & Hd & Hu); exists raw; (split; [done|]);
    by apply (unreadable_grows (no_buffers w) (no_buffers w') id raw Hs).
Qed.

Definition stuck_in (rotated : list string) w : Prop :=
  ∃ id buf, id ∈ rotated ∧ app_pending_rotation_messages (w_app w) !! id = Some buf ∧ Exists (stuck id w) buf.

(** What a drain that returns leaves: the buffers of the rotated channels are gone, and every
    message in them that is acceptable is in the log. *)
Definition drained (rotated : list string) w w' : Prop :=
  settles w w' ∧
  app_pending_rotation_messages (w_app w') = deletes rotated (app_pending_rotation_messages (w_app w)) ∧
  ∀ id buf td raw c m p, id ∈ rotated → app_pending_rotation_messages (w_app w) !! id = Some buf → td ∈ buf →
    from_bytes td.2 = Some (NewMessage raw) → acceptable raw c m p w →
    is_Some (get_entry id (ulid_to_string (rm_id raw)) (app_message_log (w_app w'))).

Lemma get_entry_settles w w' c mid :
  settles w w' → is_Some (get_entry c mid (app_message_log (w_app w))) →
  is_Some (get_entry c mid (app_message_log (w_app w'))).
Proof using Type.
  intros [_ Hl] [e He]. apply get_entry_Some in He as [Hin <-]. apply Hl in Hin. cbn in Hin.
  destruct (get_entry c (le_message_id e) (app_message_log (w_app w'))) eqn:Hg; [done|].
  apply get_entry_None in Hg. exfalso. by apply Hg, list_elem_of_fmap_2.
Qed.

Lemma stuck_exists_settles w w' id buf : settles w w' → Exists (stuck id w) buf ↔ Exists (stuck id w') buf.
Proof using Type. intros Hs. rewrite !Exists_exists. by setoid_rewrite (stuck_settles w w' id _ Hs). Qed.
Lemma stuck_in_cons buf i rotated w w1 :
  settles w w1 → app_pending_rotation_messages (w_app w) !! i = Some buf →
  app_pending_rotation_messages (w_app w1) = delete i (app_pending_rotation_messages (w_app w)) →
  ¬ Exists (stuck i w) buf → stuck_in (i :: rotated) w ↔ stuck_in rotated w1.
Proof using Type.
  intros Hs Hb Hp Hst. unfold stuck_in. rewrite Hp. split.
  - intros (id & b & Hin & Hib & He). destruct (decide (id = i)) as [->|Hne]; [congruence|].
    apply elem_of_cons in Hin as [|Hin]; [done|]. exists id, b.
    split_and!; [done|by rewrite lookup_delete_ne|by apply (stuck_exists_settles w w1)].
  - intros (id & b & Hin & Hib & He). rewrite lookup_delete_Some in Hib. destruct Hib as [_ Hib].
    exists id, b. split_and!; [by right|done|by apply (stuck_exists_settles w w1)].
Qed.

Lemma drain_spec rotated w :
  (∀ id buf, app_pending_rotation_messages (w_app w) !! id = Some buf → buffer_of id buf) →
  (stuck_in rotated w ∧ drain rotated w = Blocked) ∨
  (¬ stuck_in rotated w ∧ ∃ w', drain rotated w = Done w' ∧ drained rotated w w').
Proof using Type.
  revert w; induction rotated as [|i rotated IH]; intros w Hbuf; cbn [drain].
  { right. split; [by intros (? & ? & ?%elem_of_nil & _)|]. exists w. split; [done|]. unfold drained.
    split_and!; [by apply settles_refl|done|]. by intros ??????? ?%elem_of_nil. }
  destruct (app_pending_rotation_messages (w_app w) !! i) as [buf|] eqn:Hb.
  - set (w0 := upd _ w). assert (settles w w0) as Hs0 by by apply settles_refl.
    assert (Exists (stuck i w0) buf ↔ Exists (stuck i w) buf) as Hex0 by by apply (stuck_exists_settles w0 w).
    destruct (replay_spec i buf w0 (Hbuf _ _ Hb)) as [[Hst ->]|(Hst & w1 & -> & Hg1 & Hlog1)].
    { left. split; [|done]. exists i, buf. split_and!; [by left|done|by apply Hex0]. }
    cbn [and_then].
    assert (app_pending_rotation_messages (w_app w1) = delete i (app_pending_rotation_messages (w_app w))) as Hp1.
    { by rewrite (gr_frame _ _ Hg1 _ app_pending_rotation_messages). }
    assert (settles w w1) as Hs1 by (etrans; [exact Hs0|by apply grows_settles]).
    assert (∀ id b, app_pending_rotation_messages (w_app w1) !! id = Some b → buffer_of id b) as Hbuf1.
    { intros id b. rewrite Hp1, lookup_delete_Some. intros [_ ?]. by apply Hbuf. }
    assert (stuck_in (i :: rotated) w ↔ stuck_in rotated w1) as Hstuck.
    { apply (stuck_in_cons buf); [done..|]. by rewrite <- Hex0. }
    destruct (IH w1 Hbuf1) as [[Hst1 ->]|(Hst1 & w' & -> & Hs' & Hp' & Hlog')].
    { left. split; [by apply Hstuck|done]. }
    right. split; [by rewrite Hstuck|]. exists w'. split; [done|]. unfold drained. split_and!; [by etrans|by rewrite Hp', Hp1|].
    intros id b td raw c m p Hin Hib Htd Hd Hacc. destruct (decide (id = i)) as [->|Hne].
    + rewrite Hb in Hib. injection Hib as <-. apply (get_entry_settles w1); [done|]. by eapply (Hlog1 td raw c m p).
    + apply elem_of_cons in Hin as [|Hin]; [done|]. eapply (Hlog' id b td raw c m p); [done| |done|done|].
      * by rewrite Hp1, lookup_delete_ne.
      * exact (acceptable_grows (no_buffers w) (no_buffers w1) raw c m p Hs1 Hacc).
  - assert (stuck_in (i :: rotated) w ↔ stuck_in rotated w) as Hstuck.
    { unfold stuck_in. setoid_rewrite elem_of_cons. naive_solver. }
    assert (deletes (i :: rotated) (app_pending_rotation_messages (w_app w)) =
            deletes rotated (app_pending_rotation_messages (w_app w))) as Hdel.
    { unfold deletes. cbn [foldl]. by rewrite delete_id. }
    destruct (IH w Hbuf) as [[Hst ->]|(Hst & w' & -> & Hs' & Hp' & Hlog')].
    { left. split; [by apply Hstuck|done]. }
    right. split; [by rewrite Hstuck|]. exists w'. split; [done|]. unfold drained. split_and!; [done|by rewrite Hp', Hdel|].
    intros id b td raw c m p [->|Hin]%elem_of_cons Hib; [congruence|]. by apply (Hlog' id b).
Qed.

(** ** After the replay *)

Lemma member_joined_frame {A} (proj : AppState T → A) r w :
  (∀ s a, proj (set_node_store s a) = proj a) → (∀ v a, proj (set_members v a) = proj a) →
  (∀ v a, proj (set_dm_peers v a) = proj a) → (∀ v a, proj (set_channels v a) = proj a) →
  proj (w_app (handle_member_joined r w)) = proj (w_app w).
Proof using Type.
  intros Hs Hm Hp Hc. unfold handle_member_joined. destruct (negb _); [done|]. destruct (is_banned _ _ _); [done|].
  unfold broadcast. cbn [emit w_app]. rewrite (admin_wrap_frame proj), (sync_member_frame proj) by done.
  unfold cache_dm_peer, save_dm_peers, insert_member, save_members. rewrite save_table_app. cbn.
  rewrite Hp, save_table_app. apply Hm.
Qed.
Lemma wrap_absent_frame {A} (proj : AppState T → A) id pk ids w :
  (∀ v a, proj (set_channels v a) = proj a) → proj (w_app (wrap_for_absent_members id pk ids w)) = proj (w_app w).
Proof using Type.
  intros Hc. unfold wrap_for_absent_members. case_bool_decide; [|done].
  set (ms := (hash_order _).*2). set (keys := app_channel_keys (w_app w)). set (topic := community_topic id).
  assert (∀ acc, proj (w_app (foldl (wrap_channel_for_members topic keys ms) acc ids).1) = proj (w_app acc.1)) as Hf.
  { induction ids as [|i ids IH]; intros acc; [done|]. cbn [foldl]. rewrite IH. destruct acc as [w0 any].
    unfold wrap_channel_for_members. destruct (keys !! i) as [key|]; [|done].
    destruct (app_channels (w_app w0) !! i) as [ch|]; [|done].
    pose proof (wrap_for_member_fold key ms w0 ch false) as Hw.
    destruct (foldl _ _ ms) as [[w1 ch1] up]. destruct Hw as (Happ & _).
    destruct up; cbn [fst]; rewrite ?publish_event_app; cbn; by rewrite Hc, Happ. }
  specialize (Hf (w, false)). destruct (foldl _ _ ids) as [w' any]. cbn in Hf.
  destruct any; [|done]. unfold save_channels. by rewrite save_table_app.
Qed.
Lemma finish_frame {A} (proj : AppState T → A) now from s chs rotated ms refetch w :
  (∀ s a, proj (set_node_store s a) = proj a) → (∀ v a, proj (set_members v a) = proj a) →
  (∀ v a, proj (set_dm_peers v a) = proj a) → (∀ v a, proj (set_channels v a) = proj a) →
  proj (w_app (finish_manifest now from s chs rotated ms refetch w)) = proj (w_app w).
Proof using Type.
  intros Hs Hm Hp Hc. unfold finish_manifest. set (id := ulid_to_string (cm_id (sm_manifest s))).
  set (w1 := retry_rotation _ _ _ _ _ w). assert (w_app w1 = w_app w) as Hw1.
  { subst w1. unfold retry_rotation. destruct (retain _ _); [done|]. by destruct (find_by _ _). }
  set (w3 := announce_self _ _ _ _). assert (proj (w_app w3) = proj (w_app w)) as Hw3.
  { subst w3. unfold announce_self. cbn zeta.
    set (w2 := command _ (foldl _ _ _)). assert (proj (w_app w2) = proj (w_app w)) as Hw2.
    { subst w2. unfold command. cbn [emit w_app]. rewrite fold_app by done. rewrite wrap_absent_frame by done.
      rewrite <- Hw1. etrans; [|apply (on_store_frame proj); exact Hs]. unfold upsert_members.
      destruct ms; [done|]. unfold save_dm_peers, save_members. rewrite save_table_app. cbn.
      rewrite Hp, save_table_app. apply Hm. }
    destruct (member_of _ _ w2); [|done]. by rewrite publish_event_app, member_joined_frame. }
  destruct refetch; [done|]. rewrite fold_app by done. exact Hw3.
Qed.
Lemma install_frame {A} (proj : AppState T → A) from s chs plain w :
  (∀ v a, proj (set_communities v a) = proj a) → (∀ v a, proj (set_connected_peers v a) = proj a) →
  (∀ v a, proj (set_channels v a) = proj a) → (∀ v a, proj (set_channel_keys v a) = proj a) →
  (∀ v a, proj (set_previous_channel_keys v a) = proj a) →
  proj (w_app (install_manifest from s chs plain w).1) = proj (w_app w).
Proof using Type.
  intros Hcom Hpeers Hch Hk Hpk. unfold install_manifest. cbv zeta.
  match goal with |- context [receive_keys ?pk ?chs ?plain ?w1] =>
    destruct (receive_keys_app pk chs plain w1) as (keys & prev & ->) end.
  rewrite Hpk, Hk. unfold save_channels. rewrite save_table_app. cbn. rewrite Hch. unfold register_peer. cbn.
  rewrite Hpeers. unfold save_communities. rewrite save_table_app. apply Hcom.
Qed.

(** How the handler ends, depending on what is buffered. *)
Lemma manifest_replay_spec now from s chs plain ms w :
  inv w → manifest_verify s = Some true → cm_deleted (sm_manifest s) = false →
  let w0 := manifest_pending_done (ulid_to_string (cm_id (sm_manifest s))) (cm_version (sm_manifest s)) w in
  let (w1, rotated) := install_manifest from s chs plain w0 in
  app_pending_rotation_messages (w_app w1) = app_pending_rotation_messages (w_app w) ∧
  (stuck_in rotated w1 → handle_manifest_received now from s chs plain ms w = Blocked) ∧
  (¬ stuck_in rotated w1 → ∃ w', handle_manifest_received now from s chs plain ms w = Done w' ∧
     (∀ id, app_pending_rotation_messages (w_app w') !! id =
            if bool_decide (id ∈ rotated) then None else app_pending_rotation_messages (w_app w) !! id) ∧
     ∀ id buf td raw c m p, id ∈ rotated → app_pending_rotation_messages (w_app w) !! id = Some buf → td ∈ buf →
       from_bytes td.2 = Some (NewMessage raw) → acceptable raw c m p w1 →
       is_Some (get_entry id (ulid_to_string (rm_id raw)) (app_message_log (w_app w')))).
Proof using Type.
  intros Hw Hv Hdel w0. unfold handle_manifest_received. rewrite Hv, Hdel. fold w0.
  pose proof (install_frame app_pending_rotation_messages from s chs plain w0) as Hpend.
  destruct (install_manifest from s chs plain w0) as [w1 rotated]. cbn [fst] in Hpend.
  assert (app_pending_rotation_messages (w_app w1) = app_pending_rotation_messages (w_app w)) as Hp.
  { rewrite Hpend by done. subst w0. unfold manifest_pending_done. by destruct (0 <? _). }
  split; [done|].
  assert (∀ id buf, app_pending_rotation_messages (w_app w1) !! id = Some buf → buffer_of id buf) as Hbuf.
  { intros id buf Hb td Htd. rewrite Hp in Hb. exact (ai_buffers _ Hw _ _ Hb _ Htd). }
  destruct (drain_spec rotated w1 Hbuf) as [[Hst ->]|(Hst & w2 & -> & Hs & Hp2 & Hlog)]; [done|].
  split; [done|]. intros _. cbn [and_then]. eexists. split; [done|]. split.
  - intros id. rewrite (finish_frame app_pending_rotation_messages) by done. by rewrite Hp2, lookup_deletes, Hp.
  - intros id buf td raw c m p Hin Hb Htd Hd Hacc. rewrite (finish_frame app_message_log) by done.
    eapply Hlog; [done|by rewrite Hp|done..].
Qed.

(** C2: a received manifest ends a key rotation. Of a verified, live manifest, let [rotated]
    be the channels whose key it changed. If every message buffered for them is opened by
    the new or the previous key of its channel, or belongs to a channel that is gone, the
    handler returns: the buffers of those channels are gone and each buffered message that
    a member signed is in the log. If one is not, the handler never returns: it waits for
    the lock on the buffers, which it holds itself. *)
Theorem manifest_replay_correct now from s chs plain ms w :
  inv w → manifest_verify s = Some true → cm_deleted (sm_manifest s) = false →
  let w0 := manifest_pending_done (ulid_to_string (cm_id (sm_manifest s))) (cm_version (sm_manifest s)) w in
  let (w1, rotated) := install_manifest from s chs plain w0 in
  app_pending_rotation_messages (w_app w1) = app_pending_rotation_messages (w_app w) ∧
  (stuck_in rotated w1 → handle_manifest_received now from s chs plain ms w = Blocked) ∧
  (¬ stuck_in rotated w1 → ∃ w', handle_manifest_received now from s chs plain ms w = Done w' ∧
     (∀ id, app_pending_rotation_messages (w_app w') !! id =
            if bool_decide (id ∈ rotated) then None else app_pending_rotation_messages (w_app w) !! id) ∧
     ∀ id buf td raw c m p, id ∈ rotated → app_pending_rotation_messages (w_app w) !! id = Some buf → td ∈ buf →
       from_bytes td.2 = Some (NewMessage raw) → acceptable raw c m p w1 →
       is_Some (get_entry id (ulid_to_string (rm_id raw)) (app_message_log (w_app w')))).
Proof using Type. exact (manifest_replay_spec now from s chs plain ms w). Qed.
End replay.

