(* ===== verification/Locks.v ===== *)
(** * The locks of the client, and the two queues between it and the network task

    The client's tables are behind asynchronous locks ([core/api/mod.rs]). Its methods and its
    event loop run at the same time; most of them take one lock at a time, and those that take
    one while they hold another are listed here with what they take. Commands go to the network
    task through a queue of 256 places, events come back through one of 512
    ([core/node/init.rs], [core/network/network_handle/mod.rs]); a sender waits while its queue
    is full. How Tokio hands over a lock is an interface, [LockPolicy]; [fifo] is the policy of
    its documentation. *)

From stdpp Require Import relations.
From S2P Require Import Prelude.

(** ** The locks of [AppState] *)

Inductive Lock :=
  | lk_identity_state | lk_config | lk_message_log | lk_connected_peers | lk_communities | lk_channels | lk_channel_keys | lk_dms | lk_dm_peers
  | lk_members | lk_bans | lk_pending_manifest_syncs | lk_actual_listen_addrs | lk_public_addr | lk_presence | lk_read_state
  | lk_hosting_passwords | lk_seed_connected_communities | lk_previous_channel_keys | lk_seed_fingerprints | lk_pending_rotation_messages.
#[export] Instance lock_eq_dec : EqDecision Lock.
Proof. solve_decision. Defined.
Inductive Mode := Shared | Exclusive.
#[export] Instance mode_eq_dec : EqDecision Mode.
Proof. solve_decision. Defined.

(** What a task does that another one can wait for. *)
Inductive Action := Acquire (l : Lock) (m : Mode) | Release (l : Lock) | SendCommand.

(** The body of a block that a guard opens. *)
Definition guarded (l : Lock) (m : Mode) (body : list Action) : list Action := Acquire l m :: body ++ [Release l].
#[local] Notation read l := (guarded l Shared).
#[local] Notation write l := (guarded l Exclusive).

(** ** Where the code holds one lock and waits for something else *)

(** [channel_handler.rs]: the key of a message, and the previous one when it does not open it. *)
Definition lookup_keys : list Action := read lk_channel_keys (read lk_previous_channel_keys []).
(** [channel_rotate_key], and the handlers of a new channel key. *)
Definition replace_keys : list Action := write lk_channel_keys (write lk_previous_channel_keys []).
(** [handle_community_joined]. *)
Definition joined_placeholder : list Action := write lk_communities (write lk_pending_manifest_syncs []).
(** [handle_member_joined], for a channel, and [handle_manifest_received], for all of them: a
    channel with a new wrapped key is broadcast while the table is locked. *)
Definition wrap_and_send (sends : nat) : list Action := write lk_channels (replicate sends SendCommand).
(** [NewListenAddr]: once per address that is publicly routable. *)
Definition record_listen_addr (routable : nat) : list Action :=
  write lk_actual_listen_addrs (mjoin (replicate routable (write lk_public_addr []))).
(** [we_are_seed], and the checks and listings that ask it while they hold the communities. *)
Definition we_are_seed_locks (listening : bool) : list Action :=
  read lk_public_addr [] ++ (if listening then read lk_actual_listen_addrs [] else []).
Definition require_seed_locks (listening asked : bool) : list Action :=
  read lk_communities (we_are_seed_locks listening ++ (if asked then read lk_seed_connected_communities [] else [])).
Definition community_list_locks : list Action :=
  read lk_communities (read lk_seed_connected_communities (read lk_public_addr [] ++ read lk_actual_listen_addrs [])).
Definition community_get_locks (listening : bool) : list Action :=
  read lk_communities (read lk_seed_connected_communities (we_are_seed_locks listening)).
Definition channel_list_locks : list Action := read lk_channels (read lk_communities []).
Definition identity_get_locks : list Action := read lk_identity_state (read lk_public_addr []).
Definition may_announce : list Action := read lk_channels (read lk_members []).
Definition member_list_locks : list Action := read lk_members (read lk_presence []).
Definition may_change_role : list Action := read lk_members (read lk_communities []).

(** [handle_channel_message] when no key opens the message: the buffers are locked to keep it. *)
Definition buffer_again : list Action := write lk_pending_rotation_messages [].
(** [handle_manifest_received] replays the buffered messages of a channel, each a call of
    [handle_channel_message], while it holds the lock on the buffers; then it may ask another
    peer. *)
Definition replayed (pieces : list (list Action)) (retry : bool) : list Action :=
  write lk_pending_rotation_messages (mjoin pieces ++ if retry then read lk_connected_peers [] ++ [SendCommand] else []).

(** [bootstrap_network]: for each community the commands it sends, and then one per channel. *)
Definition bootstrap_community (fetches dials : nat) : list Action :=
  read lk_connected_peers [] ++ replicate fetches SendCommand ++ [SendCommand] ++
  read lk_actual_listen_addrs [] ++ read lk_public_addr [] ++ replicate dials SendCommand.
Definition bootstrap_network_locks (per_community : list (nat * nat)) (n_channels : nat) : list Action :=
  read lk_config (read lk_communities (read lk_channels (read lk_hosting_passwords (read lk_seed_fingerprints
    (write lk_pending_manifest_syncs
       (mjoin ((λ c, bootstrap_community c.1 c.2) <$> per_community) ++ replicate n_channels SendCommand)))))).

(** [handle_peer_connected]: of a community that is [known] a fresh manifest is asked for, then the
    mailbox, then what the client administers is published again, one command each. *)
Definition peer_connected_reads (known dht : bool) : list Action :=
  read lk_communities [] ++ write lk_connected_peers [] ++ read lk_communities [] ++
  (if known then write lk_pending_manifest_syncs [] ++ [SendCommand] else []) ++ [SendCommand] ++
  (if dht then read lk_communities [] else []) ++
  read lk_communities [] ++ read lk_channels [] ++ read lk_members [].
Definition peer_connected_locks (known dht : bool) (publishes : nat) : list Action :=
  peer_connected_reads known dht ++ replicate publishes SendCommand.

(** What the methods and handlers are made of, besides: a table locked alone, a command sent. *)
Inductive basic : list Action → Prop :=
  | basic_lock l m : l ≠ lk_pending_rotation_messages → basic (guarded l m [])
  | basic_send : basic [SendCommand]
  | basic_lookup_keys : basic lookup_keys
  | basic_replace_keys : basic replace_keys.
Inductive replay_piece : list Action → Prop :=
  | replay_basic p : basic p → replay_piece p
  | replay_buffer_again : replay_piece buffer_again.
Inductive event_piece : list Action → Prop :=
  | event_basic p : basic p → event_piece p
  | event_pending : event_piece (write lk_pending_rotation_messages [])
  | event_joined_placeholder : event_piece joined_placeholder
  | event_wrap_and_send n : event_piece (wrap_and_send n)
  | event_record_listen_addr n : event_piece (record_listen_addr n)
  | event_replayed ps retry : Forall replay_piece ps → event_piece (replayed ps retry).
Inductive method_piece : list Action → Prop :=
  | method_basic p : basic p → method_piece p
  | method_require_seed a b : method_piece (require_seed_locks a b)
  | method_we_are_seed a : method_piece (we_are_seed_locks a)
  | method_community_list : method_piece community_list_locks
  | method_community_get a : method_piece (community_get_locks a)
  | method_channel_list : method_piece channel_list_locks
  | method_identity_get : method_piece identity_get_locks
  | method_may_announce : method_piece may_announce
  | method_member_list : method_piece member_list_locks
  | method_may_change_role : method_piece may_change_role.
Definition made_of (piece : list Action → Prop) (p : list Action) : Prop := ∃ ps, Forall piece ps ∧ p = mjoin ps.

(** ** Tasks, locks and queues *)

Definition CMD_CAPACITY : nat := 256.
Definition EVT_CAPACITY : nat := 512.

(** What a task has left to do, and the locks it holds. *)
Record Thread := mkThread { prog : list Action; held : list (Lock * Mode) }.
(** The tasks, the first of them the event loop; who waits for which lock, in the order of asking;
    the commands and the events under way; the events that the network task has to deliver
    before it takes the next command. *)
Record Machine := mkMachine {
  threads : list Thread; waiting : list (Lock * (nat * Mode)); cmds : nat; evts : nat; owed : nat }.
Definition holds (l : Lock) (t : Thread) : option Mode := snd <$> find_by (λ h, bool_decide (h.1 = l)) (held t).
Definition holders (l : Lock) (s : Machine) : list Mode := omap (holds l) (threads s).
Definition leave (l : Lock) (hs : list (Lock * Mode)) : list (Lock * Mode) := filter (λ h, h.1 ≠ l) hs.
Definition queue (l : Lock) (s : Machine) : list (nat * Mode) := snd <$> filter (λ x, x.1 = l) (waiting s).
Lemma elem_of_queue l s w : w ∈ queue l s ↔ (l, w) ∈ waiting s.
Proof.
  unfold queue. rewrite list_elem_of_fmap. split.
  - intros ([l' w'] & -> & [Hl Hin]%list_elem_of_filter). cbn in *. by subst.
  - intros Hin. exists (l, w). split; [done|]. by apply list_elem_of_filter.
Qed.

(** Which waiting task a lock may be given to. *)
Class LockPolicy (may_grant : list Mode → list (nat * Mode) → nat * Mode → bool) : Prop := {
  policy_exclusive hs q i m : may_grant hs q (i, m) = true →
    (m = Exclusive → hs = []) ∧ (m = Shared → Exclusive ∉ hs);
  policy_progress q : q ≠ [] → ∃ w, w ∈ q ∧ may_grant [] q w = true }.

(** Whoever has waited longest, if those who hold the lock allow it. *)
Definition compatible (hs : list Mode) (m : Mode) : bool :=
  match m with Exclusive => bool_decide (hs = []) | Shared => bool_decide (Exclusive ∉ hs) end.
Definition fifo (hs : list Mode) (q : list (nat * Mode)) (w : nat * Mode) : bool :=
  bool_decide (head q = Some w) && compatible hs w.2.
#[export] Instance fifo_policy : LockPolicy fifo.
Proof.
  split.
  - intros hs q i m [_ Hc]%andb_true_iff. destruct m; cbn in Hc; apply bool_decide_eq_true in Hc; naive_solver.
  - intros [|[i m] q] Hq; [done|]. exists (i, m). split; [by left|]. unfold fifo. rewrite bool_decide_true by done. by destruct m.
Qed.

Section machine.
Context (may_grant : list Mode → list (nat * Mode) → nat * Mode → bool).
Context (handlers calls : list Action → Prop).

Inductive machine_step (s : Machine) : Machine → Prop :=
  | step_ask i t l m p :
      threads s !! i = Some t → prog t = Acquire l m :: p → (i, m) ∉ queue l s →
      machine_step s (mkMachine (threads s) (waiting s ++ [(l, (i, m))]) (cmds s) (evts s) (owed s))
  | step_grant i t l m p :
      threads s !! i = Some t → prog t = Acquire l m :: p → (i, m) ∈ queue l s →
      may_grant (holders l s) (queue l s) (i, m) = true →
      machine_step s (mkMachine (<[i := mkThread p ((l, m) :: held t)]> (threads s))
                (filter (λ x, x.2.1 ≠ i) (waiting s)) (cmds s) (evts s) (owed s))
  | step_release i t l p :
      threads s !! i = Some t → prog t = Release l :: p →
      machine_step s (mkMachine (<[i := mkThread p (leave l (held t))]> (threads s)) (waiting s) (cmds s) (evts s) (owed s))
  | step_send i t p :
      threads s !! i = Some t → prog t = SendCommand :: p → (cmds s < CMD_CAPACITY)%nat →
      machine_step s (mkMachine (<[i := mkThread p (held t)]> (threads s)) (waiting s) (S (cmds s)) (evts s) (owed s))
  | step_event t p :
      threads s !! 0%nat = Some t → prog t = [] → (0 < evts s)%nat → handlers p →
      machine_step s (mkMachine (<[0%nat := mkThread p (held t)]> (threads s)) (waiting s) (cmds s) (pred (evts s)) (owed s))
  | step_command k :
      owed s = 0%nat → (0 < cmds s)%nat → machine_step s (mkMachine (threads s) (waiting s) (pred (cmds s)) (evts s) k)
  | step_deliver :
      (0 < owed s)%nat → (evts s < EVT_CAPACITY)%nat →
      machine_step s (mkMachine (threads s) (waiting s) (cmds s) (S (evts s)) (pred (owed s))).

(** What comes from outside: a call, a push or a registration for the network task, an event that
    one of its spawned tasks delivers. *)
Inductive arrival (s : Machine) : Machine → Prop :=
  | arrive_call i t p :
      threads s !! S i = Some t → prog t = [] → calls p →
      arrival s (mkMachine (<[S i := mkThread p (held t)]> (threads s)) (waiting s) (cmds s) (evts s) (owed s))
  | arrive_task : arrival s (mkMachine (threads s ++ [mkThread [] []]) (waiting s) (cmds s) (evts s) (owed s))
  | arrive_push k : owed s = 0%nat → arrival s (mkMachine (threads s) (waiting s) (cmds s) (evts s) k)
  | arrive_event :
      (evts s < EVT_CAPACITY)%nat → arrival s (mkMachine (threads s) (waiting s) (cmds s) (S (evts s)) (owed s)).
Definition moves (s s' : Machine) : Prop := machine_step s s' ∨ arrival s s'.
End machine.

(** At the start the network task announces its listen addresses. *)
Definition machine_start (addrs : nat) : Machine := mkMachine [mkThread [] []] [] 0 0 addrs.
Definition idle (s : Machine) : Prop :=
  (∀ i t, threads s !! i = Some t → prog t = []) ∧ cmds s = 0%nat ∧ evts s = 0%nat ∧ owed s = 0%nat.
Definition full (s : Machine) : Prop :=
  cmds s = CMD_CAPACITY ∧ evts s = EVT_CAPACITY ∧ (0 < owed s)%nat ∧ ∃ t, threads s !! 0%nat = Some t ∧ prog t ≠ [].
(** The event loop is to lock the buffers, which it holds locked. *)
Definition self_blocked (s : Machine) : Prop :=
  ∃ t p, threads s !! 0%nat = Some t ∧ prog t = Acquire lk_pending_rotation_messages Exclusive :: p ∧
    lk_pending_rotation_messages ∈ (held t).*1.

(** ** Programs that take their locks in an order *)

(** A lock of [rl] may also be taken by who holds it; what comes after that is never reached. *)
Section ranked.
Context (rank : Lock → nat) (rl : list Lock).

Fixpoint ordered (hs : list Lock) (p : list Action) : bool :=
  match p with
  | [] => bool_decide (hs = [])
  | Acquire l m :: p =>
      bool_decide (m = Exclusive ∧ l ∈ rl ∧ l ∈ hs) ||
      bool_decide (Forall (λ h, rank h < rank l)%nat hs) && ordered (l :: hs) p
  | Release l :: p => bool_decide (l ∈ hs) && ordered (filter (.≠ l) hs) p
  | SendCommand :: p => ordered hs p
  end.
(** A piece that can be run while [hs] are held and leaves them so. *)
Definition neutral (hs : list Lock) (p : list Action) : Prop := ∀ p', ordered hs p' = true → ordered hs (p ++ p') = true.

Lemma neutral_nil hs : neutral hs [].
Proof. by intros p. Qed.
Lemma neutral_app hs p q : neutral hs p → neutral hs q → neutral hs (p ++ q).
Proof. intros Hp Hq r Hr. rewrite <- app_assoc. by apply Hp, Hq. Qed.
Lemma neutral_send hs : neutral hs [SendCommand].
Proof. by intros p. Qed.
Lemma neutral_sends hs n : neutral hs (replicate n SendCommand).
Proof. induction n; [apply neutral_nil|apply (neutral_app _ [SendCommand]); [apply neutral_send|done]]. Qed.
Lemma neutral_mjoin hs ps : Forall (neutral hs) ps → neutral hs (mjoin ps).
Proof. induction 1; [apply neutral_nil|]. by apply (neutral_app hs x (mjoin l)). Qed.
Lemma neutral_guarded hs l m body :
  Forall (λ h, rank h < rank l)%nat hs → neutral (l :: hs) body → neutral hs (guarded l m body).
Proof.
  intros Hhs Hb p Hp. unfold guarded. cbn [app ordered].
  rewrite (bool_decide_true (Forall _ _)) by done. cbn [andb]. apply orb_true_iff. right.
  rewrite <- app_assoc. apply Hb. cbn [app ordered]. rewrite (bool_decide_true (l ∈ l :: hs)) by (by left).
  assert (filter (.≠ l) (l :: hs) = hs) as ->; [|done].
  rewrite filter_cons_False by naive_solver. clear -Hhs. induction Hhs as [|h hs Hlt _ IH]; [done|].
  rewrite filter_cons_True, IH; [done|]. intros ->. lia.
Qed.
Lemma neutral_again l hs body : l ∈ rl → l ∈ hs → neutral hs (guarded l Exclusive body).
Proof. intros Hl Hh p _. unfold guarded. cbn [app ordered]. by rewrite bool_decide_true. Qed.
Lemma ordered_neutral p : neutral [] p → ordered [] p = true.
Proof. intros Hp. specialize (Hp [] eq_refl). by rewrite app_nil_r in Hp. Qed.
Lemma made_of_ordered piece p : (∀ q, piece q → neutral [] q) → made_of piece p → ordered [] p = true.
Proof.
  intros Hpiece (ps & Hps & ->). apply ordered_neutral, neutral_mjoin. eapply Forall_impl; [exact Hps|done].
Qed.
End ranked.

(** ** The orders of the client *)

(** While methods are served. *)
Definition served_rank (l : Lock) : nat :=
  match l with
  | lk_pending_rotation_messages => 0
  | lk_identity_state | lk_config | lk_channels => 1
  | lk_members => 2
  | lk_communities => 3
  | lk_seed_connected_communities => 4
  | lk_actual_listen_addrs => 5
  | lk_channel_keys => 6
  | _ => 7
  end.
(** While the client starts: [bootstrap_network] takes the communities before the channels. *)
Definition start_rank (l : Lock) : nat :=
  match l with
  | lk_pending_rotation_messages => 0
  | lk_config => 1
  | lk_communities => 2
  | lk_channels => 3
  | lk_hosting_passwords => 4
  | lk_seed_fingerprints => 5
  | lk_pending_manifest_syncs => 6
  | lk_actual_listen_addrs | lk_channel_keys => 7
  | _ => 8
  end.
Definition is_bootstrap (p : list Action) : Prop := ∃ per_community n, p = bootstrap_network_locks per_community n.

#[local] Hint Resolve neutral_nil neutral_app neutral_send neutral_sends neutral_mjoin : neutral.
Ltac neutral := repeat (apply neutral_guarded; [repeat constructor; cbn; lia|]); auto 6 with neutral.

Section pieces.
Context (rank : Lock → nat) (rl : list Lock).
Hypothesis rank_keys : (rank lk_channel_keys < rank lk_previous_channel_keys)%nat.
Hypothesis rank_buffers : ∀ l, l ≠ lk_pending_rotation_messages → (rank lk_pending_rotation_messages < rank l)%nat.

Lemma neutral_basic hs p : Forall (λ h, h = lk_pending_rotation_messages) hs → basic p → neutral rank rl hs p.
Proof using Type*.
  intros Hhs Hp.
  assert (∀ l m body, l ≠ lk_pending_rotation_messages → neutral rank rl (l :: hs) body → neutral rank rl hs (guarded l m body)) as Hg.
  { intros l m body Hl. apply neutral_guarded. eapply Forall_impl; [exact Hhs|]. cbn. intros h ->. by apply rank_buffers. }
  destruct Hp as [l m Hl| | |]; [by apply Hg; [|apply neutral_nil] | apply neutral_send | |];
    (apply Hg; [done|]; apply neutral_guarded; [|apply neutral_nil]; constructor; [exact rank_keys|];
     eapply Forall_impl; [exact Hhs|]; cbn; intros h ->; by apply rank_buffers).
Qed.

Lemma neutral_event p :
  lk_pending_rotation_messages ∈ rl →
  (rank lk_communities < rank lk_pending_manifest_syncs)%nat → (rank lk_actual_listen_addrs < rank lk_public_addr)%nat →
  event_piece p → neutral rank rl [] p.
Proof using Type*.
  intros Hrl Hc Hl [q Hq| | |n|n|ps retry Hps].
  - by apply neutral_basic.
  - neutral.
  - neutral.
  - neutral.
  - apply neutral_guarded; [done|]. apply neutral_mjoin, Forall_replicate. neutral.
  - apply neutral_guarded; [done|]. apply neutral_app.
    + apply neutral_mjoin. eapply Forall_impl; [exact Hps|]. intros q [r Hr|]; [apply neutral_basic; [by constructor|done]|].
      apply neutral_again; [done|by left].
    + destruct retry; [|apply neutral_nil]. apply (neutral_app _ _ _ (read lk_connected_peers [])); [|apply neutral_send].
      apply neutral_guarded; [|apply neutral_nil]. repeat constructor. by apply rank_buffers.
Qed.
End pieces.

Lemma neutral_we_are_seed hs listening :
  Forall (λ h, served_rank h < 5)%nat hs → neutral served_rank [] hs (we_are_seed_locks listening).
Proof.
  intros Hhs. apply neutral_app; [|destruct listening; [|apply neutral_nil]];
    (apply neutral_guarded; [|apply neutral_nil]; eapply Forall_impl; [exact Hhs|]; cbn; lia).
Qed.
Lemma served_events p : made_of event_piece p → ordered served_rank [lk_pending_rotation_messages] [] p = true.
Proof.
  apply made_of_ordered. intros q. apply neutral_event; [cbn; lia|intros []; cbn; first [lia|congruence]|by left|cbn; lia|cbn; lia].
Qed.
Lemma served_methods p : made_of method_piece p → ordered served_rank [] [] p = true.
Proof.
  apply made_of_ordered. intros q [r Hr|a b|a| |a| | | | |]; try (by neutral).
  - apply neutral_basic; [cbn; lia|intros []; cbn; first [lia|congruence]|done|done].
  - apply neutral_guarded; [done|]. apply neutral_app; [apply neutral_we_are_seed; repeat constructor; cbn; lia|].
    destruct b; neutral.
  - by apply neutral_we_are_seed.
  - apply neutral_guarded; [done|]. apply neutral_guarded; [repeat constructor; cbn; lia|].
    apply neutral_we_are_seed. repeat constructor; cbn; lia.
Qed.
Lemma start_events p : made_of event_piece p → ordered start_rank [lk_pending_rotation_messages] [] p = true.
Proof.
  apply made_of_ordered. intros q. apply neutral_event; [cbn; lia|intros []; cbn; first [lia|congruence]|by left|cbn; lia|cbn; lia].
Qed.
Lemma start_basic p : made_of basic p → ordered start_rank [] [] p = true.
Proof.
  apply made_of_ordered. intros q Hq. apply neutral_basic; [cbn; lia|intros []; cbn; first [lia|congruence]|done|done].
Qed.
Lemma start_bootstrap p : is_bootstrap p → ordered start_rank [] [] p = true.
Proof.
  intros (per & n & ->). apply ordered_neutral. neutral. apply neutral_app; [|apply neutral_sends].
  apply neutral_mjoin, Forall_fmap, Forall_true. intros [f d]. unfold bootstrap_community. cbn [compose fst snd].
  repeat (apply neutral_app; [neutral|]). neutral.
Qed.

Lemma peer_connected_made known dht n : made_of event_piece (peer_connected_locks known dht n).
Proof.
  exists ([read lk_communities []; write lk_connected_peers []; read lk_communities []] ++
    (if known then [write lk_pending_manifest_syncs []; [SendCommand]] else []) ++ [[SendCommand]] ++
    (if dht then [read lk_communities []] else []) ++
    [read lk_communities []; read lk_channels []; read lk_members []] ++ replicate n [SendCommand]).
  split.
  - destruct known, dht; cbn [app]; repeat (constructor; [constructor; by constructor|]);
      apply Forall_replicate; constructor; constructor.
  - assert (mjoin (replicate n [SendCommand]) = replicate n SendCommand) as Hn by (induction n as [|n IH]; [done|cbn; by f_equal]).
    unfold peer_connected_locks, peer_connected_reads. rewrite <- Hn. by destruct known, dht.
Qed.

(** ** Progress *)

Section progress.
Context (may_grant : list Mode → list (nat * Mode) → nat * Mode → bool) `{!LockPolicy may_grant}.
Context (handlers calls : list Action → Prop) (rank : Lock → nat).
Hypothesis handlers_ordered : ∀ p, handlers p → ordered rank [lk_pending_rotation_messages] [] p = true.
Hypothesis calls_ordered : ∀ p, calls p → ordered rank [] [] p = true.
Hypothesis rank_bound : ∀ l, (rank l ≤ 8)%nat.
Notation machine_step := (machine_step may_grant handlers).
Notation moves := (moves may_grant handlers calls).
Implicit Types s : Machine.

(** Only the event loop may take a lock that it holds. *)
Definition relocks (i : nat) : list Lock := match i with 0%nat => [lk_pending_rotation_messages] | S _ => [] end.
(** Every task has its locks in order and gives them back; whoever waits in a queue is about to
    take that lock; the queues are within their capacity. *)
Record machine_inv s : Prop := {
  inv_ordered i t : threads s !! i = Some t → ordered rank (relocks i) (held t).*1 (prog t) = true;
  inv_waiting l i m : (l, (i, m)) ∈ waiting s → ∃ t p, threads s !! i = Some t ∧ prog t = Acquire l m :: p;
  inv_loop : is_Some (threads s !! 0%nat);
  inv_cmds : (cmds s ≤ CMD_CAPACITY)%nat;
  inv_evts : (evts s ≤ EVT_CAPACITY)%nat }.

Lemma leave_fst l hs : (leave l hs).*1 = filter (.≠ l) hs.*1.
Proof using Type.
  induction hs as [|[h m] hs IH]; [done|]. unfold leave in *. cbn [fmap list_fmap fst].
  destruct (decide (h = l)) as [->|Hne].
  - rewrite !filter_cons_False by naive_solver. exact IH.
  - rewrite !filter_cons_True by done. cbn. by f_equal.
Qed.
(** A lock that a task holds has a holder, so that nobody is given it for writing. *)
Lemma held_holders l s i t : threads s !! i = Some t → l ∈ (held t).*1 → holders l s ≠ [].
Proof using Type.
  intros Hi Hl Hh. apply list_elem_of_fmap in Hl as ([l' m] & -> & Hin). cbn [fst] in Hh.
  assert (∃ m', holds l' t = Some m') as [m' Hm'].
  { unfold holds. destruct (find_by _ (held t)) as [[l0 m0]|] eqn:Hf; [by eexists|].
    rewrite find_by_None in Hf. specialize (Hf _ Hin). cbn in Hf. by rewrite bool_decide_true in Hf. }
  assert (m' ∈ holders l' s) as Hx by (apply list_elem_of_omap; exists t; split; [by eapply list_elem_of_lookup_2|done]).
  rewrite Hh in Hx. by apply not_elem_of_nil in Hx.
Qed.
Lemma not_granted l s i t q j : threads s !! i = Some t → l ∈ (held t).*1 → may_grant (holders l s) q (j, Exclusive) = false.
Proof using All.
  intros Hi Hl. destruct (may_grant _ _ _) eqn:Hg; [|done]. apply policy_exclusive in Hg as [Hno _].
  by apply (held_holders l s i t Hi) in Hl; rewrite Hno in Hl.
Qed.
(** A task that is not the one that moves keeps its place in the queues. *)
Lemma inv_update s i t t' (ws : list (Lock * (nat * Mode))) :
  machine_inv s → threads s !! i = Some t → ordered rank (relocks i) (held t').*1 (prog t') = true →
  (∀ l j m, (l, (j, m)) ∈ ws → (l, (j, m)) ∈ waiting s ∧ (j = i → prog t' = prog t)) →
  (∀ k t0, <[i := t']> (threads s) !! k = Some t0 → ordered rank (relocks k) (held t0).*1 (prog t0) = true) ∧
  (∀ l j m, (l, (j, m)) ∈ ws → ∃ t0 p, <[i := t']> (threads s) !! j = Some t0 ∧ prog t0 = Acquire l m :: p) ∧
  is_Some (<[i := t']> (threads s) !! 0%nat).
Proof using Type.
  intros Hs Hi Ho Hq. assert (i < length (threads s))%nat as Hlt by by eapply lookup_lt_Some. split_and!.
  - intros k t0. destruct (decide (k = i)) as [->|Hne].
    + rewrite list_lookup_insert_eq by done. by intros [= <-].
    + rewrite list_lookup_insert_ne by done. apply inv_ordered, Hs.
  - intros l j m Hin. destruct (Hq l j m Hin) as [Hin' Hp]. destruct (inv_waiting s Hs l j m Hin') as (t0 & p & Ht0 & Hp0).
    destruct (decide (j = i)) as [->|Hne].
    + rewrite list_lookup_insert_eq by done. exists t', p. split; [done|]. rewrite Hp by done. congruence.
    + rewrite list_lookup_insert_ne by done. by exists t0, p.
  - apply lookup_lt_is_Some. rewrite length_insert. apply lookup_lt_is_Some, (inv_loop s Hs).
Qed.
(** Whoever waits in a queue and moves on without the lock had something else to do. *)
Lemma not_queued s i t a p l m :
  machine_inv s → threads s !! i = Some t → prog t = a :: p → (∀ l m, a ≠ Acquire l m) → (l, (i, m)) ∉ waiting s.
Proof using Type.
  intros Hs Hi Hp Ha Hin. destruct (inv_waiting s Hs l i m Hin) as (t0 & q & Ht0 & Hq).
  rewrite Hi in Ht0. injection Ht0 as <-. rewrite Hp in Hq. injection Hq as -> _. by eapply Ha.
Qed.
Lemma idle_not_queued s i t l m : machine_inv s → threads s !! i = Some t → prog t = [] → (l, (i, m)) ∉ waiting s.
Proof using Type.
  intros Hs Hi Hp Hin. destruct (inv_waiting s Hs l i m Hin) as (t0 & q & Ht0 & Hq). congruence.
Qed.
Lemma idle_holds_nothing s i t : machine_inv s → threads s !! i = Some t → prog t = [] → (held t).*1 = [].
Proof using Type.
  intros Hs Hi Hp. pose proof (inv_ordered s Hs i t Hi) as Ho. rewrite Hp in Ho. by apply bool_decide_eq_true in Ho.
Qed.

Lemma machine_inv_step s s' : machine_inv s → machine_step s s' → machine_inv s'.
Proof using All.
  intros Hs Hstep. pose proof (inv_cmds s Hs) as Hc. pose proof (inv_evts s Hs) as He.
  destruct Hstep as [i t l m p Hi Hp Hni|i t l m p Hi Hp Hin Hg|i t l p Hi Hp|i t p Hi Hp Hlt|t p Hi Hp Hlt Hh|k Ho Hlt|Ho Hlt].
  - split; cbn; [by apply inv_ordered| |by apply inv_loop|done|done]. intros l' j m' [Hin|Hin]%elem_of_app; [by apply inv_waiting|].
    apply list_elem_of_singleton in Hin as [= -> -> ->]. by exists t, p.
  - pose proof (inv_ordered s Hs i t Hi) as Ho. rewrite Hp in Ho. cbn in Ho. apply orb_true_iff in Ho as [Ho|[_ Ho]%andb_true_iff].
    { apply bool_decide_eq_true in Ho as (-> & _ & Hl). by rewrite (not_granted l s i t _ _ Hi Hl) in Hg. }
    destruct (inv_update s i t (mkThread p ((l, m) :: held t)) (filter (λ x, x.2.1 ≠ i) (waiting s))) as (H1 & H2 & H3);
      [done..| |by split].
    by intros l' j m' [Hj Hq]%list_elem_of_filter.
  - pose proof (inv_ordered s Hs i t Hi) as Ho. rewrite Hp in Ho. cbn in Ho. apply andb_true_iff in Ho as [_ Ho]. rewrite <- leave_fst in Ho.
    destruct (inv_update s i t (mkThread p (leave l (held t))) (waiting s)) as (H1 & H2 & H3); [done..| |by split].
    intros l' j m' Hq. split; [done|]. intros ->. exfalso. by eapply not_queued.
  - pose proof (inv_ordered s Hs i t Hi) as Ho. rewrite Hp in Ho. cbn in Ho.
    destruct (inv_update s i t (mkThread p (held t)) (waiting s)) as (H1 & H2 & H3); [done..| |split; cbn; [done..|lia|done]].
    intros l' j m' Hq. split; [done|]. intros ->. exfalso. by eapply not_queued.
  - destruct (inv_update s 0 t (mkThread p (held t)) (waiting s)) as (H1 & H2 & H3);
      [done..| | |split; cbn; [done..|lia]].
    + cbn [held prog relocks]. rewrite (idle_holds_nothing s 0 t) by done. by apply handlers_ordered.
    + intros l' j m' Hq. split; [done|]. intros ->. exfalso. by eapply idle_not_queued.
  - split; cbn; [by apply inv_ordered|by apply inv_waiting|by apply inv_loop|lia|done].
  - split; cbn; [by apply inv_ordered|by apply inv_waiting|by apply inv_loop|done|lia].
Qed.
Lemma inv_arrival s s' : machine_inv s → arrival calls s s' → machine_inv s'.
Proof using All.
  intros Hs Harr. pose proof (inv_cmds s Hs) as Hc. pose proof (inv_evts s Hs) as He.
  destruct Harr as [i t p Hi Hp Hcall| |k Ho|Hlt].
  - destruct (inv_update s (S i) t (mkThread p (held t)) (waiting s)) as (H1 & H2 & H3); [done..| | |by split].
    + cbn [held prog relocks]. rewrite (idle_holds_nothing s (S i) t) by done. by apply calls_ordered.
    + intros l' j m' Hq. split; [done|]. intros ->. exfalso. by eapply idle_not_queued.
  - split; cbn; [| | |done..].
    + intros i t [Hi|[_ Hi]]%lookup_app_Some; [by eapply inv_ordered|]. by apply list_lookup_singleton_Some in Hi as [_ <-].
    + intros l i m Hin. destruct (inv_waiting s Hs l i m Hin) as (t & p & Hi & Hp). exists t, p. split; [by apply lookup_app_l_Some|done].
    + destruct (inv_loop s Hs) as [t Ht]. exists t. by apply lookup_app_l_Some.
  - split; cbn; [by apply inv_ordered|by apply inv_waiting|by apply inv_loop|done..].
  - split; cbn; [by apply inv_ordered|by apply inv_waiting|by apply inv_loop|done|lia].
Qed.
Lemma inv_reachable addrs s : rtc moves (machine_start addrs) s → machine_inv s.
Proof using All.
  assert (machine_inv (machine_start addrs)) as H0.
  { split; cbn; [|by intros l i m ?%not_elem_of_nil|by eexists|lia|lia].
    intros i t Hi. by apply list_lookup_singleton_Some in Hi as [_ <-]. }
  intros Hr. induction Hr as [|s1 s2 s3 [Hm|Hm] _ IH]; [done| |]; apply IH; [by eapply machine_inv_step|by eapply inv_arrival].
Qed.

(** As long as commands can be sent, a task that has something to do can move, or another can. *)
Lemma holds_elem l t m : holds l t = Some m → l ∈ (held t).*1.
Proof using Type.
  unfold holds. destruct (find_by _ _) as [[l' m']|] eqn:Hf; [|done]. intros _.
  apply find_by_Some in Hf as [Hin Hl]. apply bool_decide_eq_true in Hl. cbn in Hl. subst l'. by apply (list_elem_of_fmap_2 fst) in Hin.
Qed.
Lemma task_progress s n : machine_inv s → (cmds s < CMD_CAPACITY)%nat → ∀ i t l m p,
  threads s !! i = Some t → prog t = Acquire l m :: p → (8 - rank l ≤ n)%nat → (∃ s', machine_step s s') ∨ self_blocked s.
Proof using All.
  intros Hs Hc. induction n as [|n IH]; intros i t l m p Hi Hp Hn;
    (destruct (decide ((i, m) ∈ queue l s)) as [Hq|Hq]; [|by left; eexists; eapply step_ask]).
  all: destruct (holders l s) as [|m0 ms] eqn:Hh.
  1, 3: destruct (policy_progress (queue l s)) as ([j mj] & Hin & Hg); [by intros Hn0; rewrite Hn0 in Hq; apply not_elem_of_nil in Hq|];
    destruct (inv_waiting s Hs l j mj) as (tj & pj & Hj & Hpj); [by apply elem_of_queue|]; left; eexists; eapply step_grant; [exact Hj|exact Hpj|done|by rewrite Hh].
  all: assert (m0 ∈ holders l s) as Hm0 by (rewrite Hh; by left); apply list_elem_of_omap in Hm0 as (tj & Htj & Hheld).
  all: apply list_elem_of_lookup in Htj as [j Hj]; apply holds_elem in Hheld; pose proof (inv_ordered s Hs j tj Hj) as Ho.
  all: destruct (prog tj) as [|[l' m'|l'|] pj] eqn:Hpj; cbn [ordered] in Ho.
  1, 5: apply bool_decide_eq_true in Ho; rewrite Ho in Hheld; by apply not_elem_of_nil in Hheld.
  2, 5: by left; eexists; eapply step_release.
  2, 4: by left; eexists; eapply step_send.
  all: apply orb_true_iff in Ho as [Hrl|[Hlt _]%andb_true_iff];
    [right; apply bool_decide_eq_true in Hrl as (-> & Hrl & Hl'); destruct j as [|j]; [|by apply not_elem_of_nil in Hrl];
     apply list_elem_of_singleton in Hrl as ->; by exists tj, pj|].
  all: apply bool_decide_eq_true in Hlt; rewrite Forall_forall in Hlt; specialize (Hlt l Hheld).
  - pose proof (rank_bound l'). lia.
  - apply (IH j tj l' m' pj); [done|done|]. lia.
Qed.

Theorem machine_progress addrs s :
  handlers [] → rtc moves (machine_start addrs) s → (∃ s', machine_step s s') ∨ idle s ∨ full s ∨ self_blocked s.
Proof using All.
  intros H0 Hr. apply inv_reachable in Hr as Hs. pose proof (inv_cmds s Hs) as Hc. pose proof (inv_evts s Hs) as He.
  destruct (inv_loop s Hs) as [t0 Ht0].
  assert (∀ i t l m p, (cmds s < CMD_CAPACITY)%nat → threads s !! i = Some t → prog t = Acquire l m :: p →
    (∃ s', machine_step s s') ∨ idle s ∨ full s ∨ self_blocked s) as Hask.
  { intros i t l m p Hlt Hi Hp. destruct (task_progress s _ Hs Hlt i t l m p Hi Hp (Nat.le_refl _)); auto. }
  destruct (decide (owed s = 0%nat)) as [Ho|Ho].
  { destruct (decide (cmds s = 0%nat)) as [Hc0|Hc0]; [|left; eexists; eapply (step_command _ _ _ 0); lia].
    destruct (decide (Forall (λ t, prog t = []) (threads s))) as [Hall|Hex].
    - rewrite Forall_lookup in Hall. destruct (decide (evts s = 0%nat)) as [He0|He0]; [by right; left|].
      left. eexists. eapply step_event; [exact Ht0|by eapply Hall|lia|done].
    - apply not_Forall_Exists in Hex; [|by intros ?; apply _]. apply Exists_exists in Hex as (t & Hin & Hp).
      apply list_elem_of_lookup in Hin as [i Hi]. destruct (prog t) as [|[l m|l|] p] eqn:Hpt; [done| | |].
      + eapply Hask; [unfold CMD_CAPACITY; lia|exact Hi|exact Hpt].
      + by left; eexists; eapply step_release.
      + left; eexists; eapply step_send; [exact Hi|exact Hpt|unfold CMD_CAPACITY; lia]. }
  destruct (decide (evts s = EVT_CAPACITY)) as [Hfull|Hlt]; [|left; eexists; eapply step_deliver; lia].
  destruct (prog t0) as [|a p0] eqn:Hp0.
  { left. eexists. eapply step_event; [exact Ht0|done|unfold EVT_CAPACITY in *; lia|done]. }
  destruct (decide (cmds s = CMD_CAPACITY)) as [Hcf|Hcl]; [right; right; left; unfold full; split_and!; [done..|lia|exists t0; by rewrite Hp0]|].
  destruct a as [l m|l|].
  - eapply Hask; [lia|exact Ht0|exact Hp0].
  - by left; eexists; eapply step_release.
  - left; eexists; eapply step_send; [exact Ht0|exact Hp0|lia].
Qed.

(** It stays so. *)
Lemma self_blocked_step s s' : moves s s' → self_blocked s → self_blocked s'.
Proof using All.
  intros Hm (t0 & p0 & Ht0 & Hp0 & Hl).
  assert (∀ ts, ts !! 0%nat = Some t0 → ∀ q c e o, self_blocked (mkMachine ts q c e o)) as Hsame by (intros; by exists t0, p0).
  assert (∀ i t t', threads s !! i = Some t → prog t ≠ prog t0 → <[i := t']> (threads s) !! 0%nat = Some t0) as Hins.
  { intros [|i] t t' Hi Hp; [congruence|]. by rewrite list_lookup_insert_ne. }
  destruct Hm as [[i t l m q Hi Hp _|i t l m q Hi Hp Hq Hg|i t l q Hi Hp|i t q Hi Hp Hlt|t q Hi Hp Hlt _|k Hz Hlt|Hz Hlt]|[i t q Hi Hp _| |k Hz|Hlt]];
    apply Hsame; cbn [threads].
  - done.
  - destruct i as [|i]; [|by rewrite list_lookup_insert_ne]. exfalso. rewrite Ht0 in Hi. injection Hi as <-.
    rewrite Hp0 in Hp. injection Hp as <- <- <-. by rewrite (not_granted _ s 0 t0 _ _ Ht0 Hl) in Hg.
  - eapply Hins; [exact Hi|]. by rewrite Hp, Hp0.
  - eapply Hins; [exact Hi|]. by rewrite Hp, Hp0.
  - eapply Hins; [exact Hi|]. by rewrite Hp, Hp0.
  - done.
  - done.
  - by rewrite list_lookup_insert_ne.
  - by apply lookup_app_l_Some.
  - done.
  - done.
Qed.
Lemma self_blocked_forever s s' : rtc moves s s' → self_blocked s → self_blocked s'.
Proof using All. induction 1 as [|s1 s2 s3 Hm _ IH]; [done|]. intros Hb. by eapply IH, self_blocked_step. Qed.
End progress.

Lemma served_bound l : (served_rank l ≤ 8)%nat.
Proof. destruct l; cbn; lia. Qed.
Lemma start_bound l : (start_rank l ≤ 8)%nat.
Proof. destruct l; cbn; lia. Qed.

(** What runs beside the event loop: once the client is up, methods; while it starts, the subscription
    of its communities and channels and tasks that take one lock at a time. *)
Definition serving (p : list Action) : Prop := made_of method_piece p.
Definition starting (p : list Action) : Prop := is_bootstrap p ∨ made_of basic p.

Lemma start_calls p : starting p → ordered start_rank [] [] p = true.
Proof. intros [Hp|Hp]; [by apply start_bootstrap|by apply start_basic]. Qed.
Definition client_moves may_grant calls := moves may_grant (made_of event_piece) calls.

(** C6: whatever methods are called and whatever events arrive, and while the client starts, two
    things only can hold everything up: both queues are full while the network task has an event
    to deliver and the event loop is not done; or the event loop is about to lock the buffered
    messages while it has them locked, having met among those it replays one that no key opens.
    Otherwise something can move, or there is nothing to do: no other waiting for locks ever
    closes into a circle. The second does happen, and then it is for good. *)
Theorem client_progress may_grant `{!LockPolicy may_grant} calls :
  calls = serving ∨ calls = starting →
  (∀ addrs s, rtc (client_moves may_grant calls) (machine_start addrs) s →
     (∃ s', machine_step may_grant (made_of event_piece) s s') ∨ idle s ∨ full s ∨
     (self_blocked s ∧ ∀ s', rtc (client_moves may_grant calls) s s' → self_blocked s')) ∧
  (∃ s, rtc (client_moves may_grant calls) (machine_start 0) s ∧ self_blocked s).
Proof.
  intros Hcalls. split.
  - intros addrs s Hr.
    assert ((∃ s', machine_step may_grant (made_of event_piece) s s') ∨ idle s ∨ full s ∨ self_blocked s) as Hp.
    { destruct Hcalls as [-> | ->].
      - by apply (machine_progress may_grant _ serving served_rank served_events served_methods served_bound addrs); [exists []|].
      - by apply (machine_progress may_grant _ starting start_rank start_events start_calls start_bound addrs); [exists []|]. }
    destruct Hp as [Hp|[Hp|[Hp|Hp]]]; [by left|by right; left|by right; right; left|]. right; right; right. split; [done|].
    intros s' Hr'. destruct Hcalls as [-> | ->].
    + by apply (self_blocked_forever may_grant _ serving served_rank served_events served_methods served_bound s).
    + by apply (self_blocked_forever may_grant _ starting start_rank start_events start_calls start_bound s).
  - set (body := buffer_again ++ [Release lk_pending_rotation_messages]).
    set (t := mkThread body [(lk_pending_rotation_messages, Exclusive)]).
    exists (mkMachine [t] [] 0 0 0). split; [|by exists t, (Release lk_pending_rotation_messages :: [Release lk_pending_rotation_messages]); split_and!; [|done|left]].
    set (p0 := replayed [buffer_again] false). set (s0 := mkMachine [mkThread [] []] [] 0 1 0).
    set (s1 := mkMachine [mkThread p0 []] [] 0 0 0).
    set (s2 := mkMachine [mkThread p0 []] [(lk_pending_rotation_messages, (0%nat, Exclusive))] 0 0 0).
    assert (queue lk_pending_rotation_messages s2 = [(0%nat, Exclusive)]) as Hq by (unfold queue, s2; cbn [waiting]; by rewrite filter_cons_True by done).
    apply (rtc_l _ _ s0); [right; apply arrive_event; cbn; unfold EVT_CAPACITY; lia|].
    apply (rtc_l _ _ s1); [left; eapply (step_event _ _ s0 (mkThread [] []) p0); [done|done|cbn; lia|]|].
    { exists [p0]. split; [|reflexivity]. apply Forall_singleton, event_replayed, Forall_singleton, replay_buffer_again. }
    apply (rtc_l _ _ s2); [left; eapply (step_ask _ _ s1 0); [done|done|apply not_elem_of_nil]|].
    apply rtc_once. left.
    pose proof (step_grant may_grant (made_of event_piece) s2 0 (mkThread p0 []) lk_pending_rotation_messages Exclusive
      (body ++ [])) as Hst.
    assert (filter (λ x : Lock * (nat * Mode), x.2.1 ≠ 0%nat) (waiting s2) = []) as Hw
      by (unfold s2; cbn [waiting]; by rewrite filter_cons_False by naive_solver).
    rewrite Hw in Hst. apply Hst; [done|done|rewrite Hq; by left|]. clear Hst.
    rewrite Hq. destruct (policy_progress [(0%nat, Exclusive)]) as (x & Hx & Hg); [done|]. by apply list_elem_of_singleton in Hx as ->.
Qed.

(** ** The queues can *)

Section jam.
Context (may_grant : list Mode → list (nat * Mode) → nat * Mode → bool) (handlers calls : list Action → Prop).
Notation moves := (moves may_grant handlers calls).

Lemma run_sends p hs ts qs e o n : ∀ c, (n + c ≤ CMD_CAPACITY)%nat →
  rtc moves (mkMachine (mkThread (replicate n SendCommand ++ p) hs :: ts) qs c e o) (mkMachine (mkThread p hs :: ts) qs (n + c) e o).
Proof using Type.
  induction n as [|n IH]; intros c Hc; [done|]. eapply rtc_l.
  - left. by eapply (step_send _ _ _ 0); [reflexivity|reflexivity|cbn; lia].
  - replace (S n + c)%nat with (n + S c)%nat by lia. apply IH. lia.
Qed.
Lemma run_events ts qs c o n : ∀ e, (n + e ≤ EVT_CAPACITY)%nat →
  rtc moves (mkMachine ts qs c e o) (mkMachine ts qs c (n + e) o).
Proof using Type.
  induction n as [|n IH]; intros e He; [done|]. eapply rtc_l.
  - right. apply arrive_event. cbn. lia.
  - replace (S n + e)%nat with (n + S e)%nat by lia. apply IH. lia.
Qed.

Definition jammed (p : list Action) (s : Machine) : Prop :=
  cmds s = CMD_CAPACITY ∧ evts s = EVT_CAPACITY ∧ (0 < owed s)%nat ∧
  ∃ t, threads s !! 0%nat = Some t ∧ prog t = SendCommand :: p.
Lemma jammed_forever p s s' : moves s s' → jammed p s → jammed p s'.
Proof using Type.
  intros Hm (Hc & He & Ho & t0 & Ht0 & Hp0).
  assert (∀ i t t', threads s !! i = Some t → prog t ≠ SendCommand :: p → <[i := t']> (threads s) !! 0%nat = Some t0) as Hins.
  { intros [|i] t t' Hi Hp; [congruence|]. by rewrite list_lookup_insert_ne. }
  destruct Hm as [[i t l m q Hi Hp _|i t l m q Hi Hp _ _|i t l q Hi Hp|i t q Hi Hp Hlt|t q Hi Hp Hlt _|k Hz _|_ Hlt]|[i t q Hi Hp _| |k Hz|Hlt]];
    try lia; try congruence; unfold jammed; cbn; (split_and!; [done|done|done|]); eexists; (split; [|exact Hp0]);
    first [exact Ht0|by apply lookup_app_l_Some|by eapply Hins; [exact Hi|congruence]].
Qed.

(** Alone, the event loop takes and gives back the locks it needs, and its commands are handled. *)
Inductive alone : list Action → Prop :=
  | alone_nil : alone []
  | alone_lock l m p : alone p → alone (guarded l m [] ++ p)
  | alone_send p : alone p → alone (SendCommand :: p).
Lemma run_alone `{!LockPolicy may_grant} pre p e : alone pre →
  rtc moves (mkMachine [mkThread (pre ++ p) []] [] 0 e 0) (mkMachine [mkThread p []] [] 0 e 0).
Proof using Type.
  intros Hpre. induction Hpre as [|l m pre _ IH|pre _ IH]; [done| |].
  - rewrite <- app_assoc.
    eapply rtc_l; [left; eapply (step_ask _ _ _ 0); [reflexivity|reflexivity|apply not_elem_of_nil]|].
    cbn [waiting threads cmds evts owed app]. set (s1 := mkMachine _ [(l, (0%nat, m))] _ _ _).
    assert (queue l s1 = [(0%nat, m)]) as Hq by (unfold queue, s1; cbn [waiting]; by rewrite filter_cons_True by done).
    eapply rtc_l; [left; eapply (step_grant _ _ s1 0); [reflexivity|reflexivity|rewrite Hq; by left|]|].
    { rewrite Hq. destruct (policy_progress [(0%nat, m)]) as (w & Hw & Hg); [done|]. by apply list_elem_of_singleton in Hw as ->. }
    assert (leave l [(l, m)] = []) as Hlv by (unfold leave; by rewrite filter_cons_False by naive_solver).
    eapply rtc_l; [left; by eapply (step_release _ _ _ 0)|].
    cbn [threads waiting cmds evts owed held insert list_insert s1]. rewrite Hlv. exact IH.
  - eapply rtc_l; [left; eapply (step_send _ _ _ 0); [reflexivity|reflexivity|cbn; unfold CMD_CAPACITY; lia]|].
    eapply rtc_l; [left; by apply (step_command _ _ _ 0); cbn; lia|]. exact IH.
Qed.

Lemma alone_peer_connected known dht : alone (peer_connected_reads known dht).
Proof using Type. destruct known, dht; repeat constructor. Qed.

Theorem queues_can_jam `{!LockPolicy may_grant} pre p :
  alone pre → handlers (pre ++ replicate (S CMD_CAPACITY) SendCommand ++ p) →
  ∃ s, rtc moves (machine_start 0) s ∧ full s ∧ ∀ s', rtc moves s s' → jammed p s'.
Proof using Type.
  intros Hpre Hh.
  pose proof (run_alone pre (replicate (S CMD_CAPACITY) SendCommand ++ p) 0 Hpre) as Hr.
  set (s := mkMachine [mkThread (SendCommand :: p) []] [] CMD_CAPACITY EVT_CAPACITY 1).
  assert (jammed p s) as Hj by (unfold jammed; split_and!; [done..|cbn; lia|by eexists]).
  exists s. split_and!.
  - unfold machine_start. eapply rtc_l; [right; by apply arrive_event; cbn; unfold EVT_CAPACITY; lia|]. cbn.
    eapply rtc_l; [left; eapply step_event; [reflexivity|reflexivity|cbn; lia|exact Hh]|]. cbn [cmds evts owed waiting threads pred].
    etrans; [exact Hr|]. etrans; [apply (run_events _ _ _ _ EVT_CAPACITY); lia|].
    eapply rtc_l; [right; by apply (arrive_push _ _ 1)|]. cbn [cmds evts owed waiting threads].
    rewrite Nat.add_0_r. replace (S CMD_CAPACITY) with (CMD_CAPACITY + 1)%nat by lia. rewrite replicate_add, <- app_assoc.
    apply (run_sends (SendCommand :: p) [] [] _ EVT_CAPACITY 1 CMD_CAPACITY 0). lia.
  - destruct Hj as (? & ? & ? & t & Ht & Hp). unfold full. split_and!; [done..|]. exists t. by rewrite Hp.
  - intros s' Hs'. induction Hs' as [|s1 s2 s3 Hm _ IH]; [done|]. apply IH. by eapply jammed_forever.
Qed.
End jam.

(** ** Why the client is started before its methods are served

    [bootstrap_network] and [channel_list] take the communities and the channels in opposite
    orders: with a writer waiting for each table, each of the four waits for another. *)
(** The next step of a task, under [fifo]. *)
Definition exec (s : Machine) (i : nat) : option Machine :=
  t ← threads s !! i;
  match prog t with
  | [] => None
  | Acquire l m :: p =>
      if decide ((i, m) ∈ queue l s) then
        if fifo (holders l s) (queue l s) (i, m)
        then Some (mkMachine (<[i := mkThread p ((l, m) :: held t)]> (threads s))
                     (filter (λ x, x.2.1 ≠ i) (waiting s)) (cmds s) (evts s) (owed s))
        else None
      else Some (mkMachine (threads s) (waiting s ++ [(l, (i, m))]) (cmds s) (evts s) (owed s))
  | Release l :: p =>
      Some (mkMachine (<[i := mkThread p (leave l (held t))]> (threads s)) (waiting s) (cmds s) (evts s) (owed s))
  | SendCommand :: p =>
      if (cmds s <? CMD_CAPACITY)%nat
      then Some (mkMachine (<[i := mkThread p (held t)]> (threads s)) (waiting s) (S (cmds s)) (evts s) (owed s))
      else None
  end.
Lemma exec_step handlers s i s' : exec s i = Some s' → machine_step fifo handlers s s'.
Proof.
  unfold exec. destruct (threads s !! i) as [t|] eqn:Hi; [|done]. cbn [mbind option_bind]. destruct (prog t) as [|[l m|l|] p] eqn:Hp; [done| | |].
  - destruct (decide _) as [Hq|Hq].
    + destruct (fifo _ _ _) eqn:Hg; [|done]. intros [= <-]. by eapply step_grant.
    + intros [= <-]. by eapply step_ask.
  - intros [= <-]. by eapply step_release.
  - destruct (Nat.ltb_spec (cmds s) CMD_CAPACITY); [|done]. intros [= <-]. by eapply step_send.
Qed.
(** Where no task can go on and no command or event is under way, nothing can. *)
Lemma exec_stuck handlers s :
  (∀ i, exec s i = None) → cmds s = 0%nat → evts s = 0%nat → owed s = 0%nat → ∀ s', ¬ machine_step fifo handlers s s'.
Proof.
  intros Hex Hc He Ho s' Hstep.
  destruct Hstep as [i t l m p Hi Hp Hq|i t l m p Hi Hp Hq Hg|i t l p Hi Hp|i t p Hi Hp Hlt|t p Hi Hp Hlt|k _ Hlt|Hlt _]; try lia;
    specialize (Hex i); unfold exec in Hex; rewrite Hi in Hex; cbn [mbind option_bind] in Hex; rewrite Hp in Hex.
  - rewrite decide_False in Hex by done. done.
  - rewrite decide_True, Hg in Hex by done. done.
  - done.
  - by destruct (Nat.ltb_spec (cmds s) CMD_CAPACITY); [|lia].
Qed.

Definition conflict : Machine :=
  let task p := mkThread p [] in
  mkMachine [task []; task (bootstrap_network_locks [] 0); task channel_list_locks; task (write lk_communities []); task (write lk_channels [])]
    [] 0 0 0.
Definition run_schedule (sch : list nat) (s : Machine) : option Machine := foldl (λ s i, s ← s; exec s i) (Some s) sch.
Lemma run_schedule_moves handlers calls sch : ∀ s s',
  run_schedule sch s = Some s' → rtc (moves fifo handlers calls) s s'.
Proof.
  unfold run_schedule. induction sch as [|i sch IH]; intros s s'; cbn [foldl]; [by intros [= <-]|]. cbn [mbind option_bind].
  destruct (exec s i) as [s1|] eqn:He.
  - intros Hf. eapply rtc_l; [left; by eapply exec_step|]. by apply IH.
  - intros Hf. exfalso. clear -Hf. induction sch; cbn in Hf; [done|auto].
Qed.
Lemma conflict_run : ∃ s, run_schedule [1; 1; 1; 1; 2; 2; 3; 4; 1; 2]%nat conflict = Some s ∧
  prog <$> threads s !! 1%nat = Some (drop 2 (bootstrap_network_locks [] 0)) ∧ forallb (λ i, match exec s i with None => true | Some _ => false end) (seq 0 5) = true ∧
  length (threads s) = 5%nat ∧ cmds s = 0%nat ∧ evts s = 0%nat ∧ owed s = 0%nat.
Proof. eexists. split; [vm_compute; reflexivity|]. split_and!; vm_compute; reflexivity. Qed.

Theorem bootstrap_before_methods handlers :
  let calls p := p ∈ [bootstrap_network_locks [] 0; channel_list_locks; write lk_communities []; write lk_channels []] in
  ∃ s, rtc (moves fifo handlers calls) (machine_start 0) s ∧ ¬ idle s ∧ ¬ full s ∧ ∀ s', ¬ machine_step fifo handlers s s'.
Proof.
  intros calls. destruct conflict_run as (s & Hrun & Hp & Hnone & Hlen & Hc & He & Ho). exists s. split_and!.
  - etrans; [|by eapply run_schedule_moves].
    do 4 (eapply rtc_l; [right; apply arrive_task|]).
    eapply rtc_l; [right; eapply (arrive_call _ _ 0 (mkThread [] []) (bootstrap_network_locks [] 0)); [done|done|by left]|].
    eapply rtc_l; [right; eapply (arrive_call _ _ 1 (mkThread [] []) channel_list_locks); [done|done|by right; left]|].
    eapply rtc_l; [right; eapply (arrive_call _ _ 2 (mkThread [] []) (write lk_communities [])); [done|done|by right; right; left]|].
    eapply rtc_l; [right; eapply (arrive_call _ _ 3 (mkThread [] []) (write lk_channels [])); [done|done|by right; right; right; left]|].
    apply rtc_refl.
  - intros [Hall _]. destruct (threads s !! 1%nat) as [t|] eqn:Ht; [|done]. injection Hp as Hp. by rewrite (Hall _ _ Ht) in Hp.
  - intros [Hcf _]. by rewrite Hc in Hcf.
  - apply exec_stuck; [|done..]. intros i. destruct (decide (i < 5)%nat) as [Hi|Hi].
    + rewrite forallb_forall in Hnone. specialize (Hnone i). rewrite in_seq in Hnone. destruct (exec s i); [|done].
      exfalso. assert (false = true) by (apply Hnone; lia). done.
    + unfold exec. by rewrite lookup_ge_None_2 by lia.
Qed.
