(* ===== verification/ClientEvents.v ===== *)
(** * The client's event loop: [bitcord-core/src/api/event_processor/mod.rs], [peer.rs],
    [dm_handler.rs] and [addr.rs]

    [handle_swarm_event] is the body of the loop of [process_swarm_events]: it takes one
    event of the network task to the handler for it. Events are handled one at a time. The
    commands of a handler go through the bounded queue to the network task
    ([Locks.CMD_CAPACITY]); in [process_swarm_event] a handler that sends more than the network
    task makes room for does not return. *)

From S2P Require Import Locks.
From S2P Require Import Prelude Bytes Config Redb Routing Crypto Utf8 Codec Model ClientState Store DhtNode.
From S2P Require Import Handler AppState ChannelEvents CommunityEvents ManifestEvents.

(** ** [network_handle/types.rs]: the events of the network task *)

Inductive SwarmEvent :=
  | PeerConnected (peer_id community_id : string)
  | LanPeerConnected (peer_id : string)
  | PeerDisconnected (peer_id : string)
  | MessageReceived (topic : string) (source : option string) (data : bytes)
  | NewListenAddr (addr : string)
  | DmReceived (entry : LogEntry) (recipient_pk : bytes)
  | ManifestReceived (from community_id : string) (manifest : SignedManifest)
      (chs : list ChannelManifest) (channel_keys : gmap string bytes) (members : list MembershipRecord)
  | ChannelHistoryReceived (community_id channel_id : string) (entries : list LogEntry)
  | CommunityJoined (community_pk : bytes) (community_id : string)
  | CommunityJoinFailed (community_id reason : string)
  | ManifestNotFound (community_id peer_id : string)
  | SeedPeerConnected (community_id peer_id : string)
  | SeedPeerDisconnected (community_id : string)
  | DmSendFailed (peer_id message_id : string)
  | PeerAddrKnown (node_pk : bytes) (addr : NodeAddr)
  | NetworkError (message : string).

(** ** [addr.rs] *)

(** The network interfaces as the operating system lists them: address text, whether it is
    a loopback, whether it is IPv4. [None]: the enumeration failed. *)
Record Interface := mkIface { if_text : string; if_loopback : bool; if_v4 : bool }.

Fixpoint strip_prefix (p s : string) : option string :=
  match p, s with
  | EmptyString, _ => Some s
  | String a p, String b s => if Ascii.eqb a b then strip_prefix p s else None
  | String _ _, EmptyString => None
  end.

Definition expand_wildcard_addr (ifaces : option (list Interface)) (addr : string) : list string :=
  match strip_prefix "0.0.0.0:" addr with
  | Some port =>
      match ifaces with
      | Some l =>
          ((λ i, (if_text i ++ ":" ++ port)%string) <$> retain (λ i, if_v4 i && negb (if_loopback i)) l)
          ++ [("127.0.0.1:" ++ port)%string]
      | None => [addr]
      end
  | None =>
      match strip_prefix "[::]:" addr with
      | Some port =>
          match ifaces with
          | Some l =>
              let expanded :=
                (λ i, ("[" ++ if_text i ++ "]:" ++ port)%string) <$>
                  retain (λ i, negb (if_v4 i) && negb (if_loopback i)) l in
              match expanded with [] => [addr] | _ => expanded end
          | None => [addr]
          end
      | None => [addr]
      end
  end.

Section client_events.
Context {T : Type} `{Crypto} `{Table T} `{NodeCodecs} `{HashOrder} `{UlidText} `{UlidParse} `{AddrText}.
Context `{Entropy} `{AppCodecs}.
Implicit Types w : World T.

(** IPv4 loopback, private, link-local and unspecified addresses are not routable; IPv6 is
    out of scope. *)
Definition is_publicly_routable (addr : string) : bool :=
  match parse_node_addr addr with
  | Some a =>
      match ip a with
      | V4 [a; b; c; d] =>
          negb (a =? 127) &&
          negb ((a =? 10) || ((a =? 172) && (16 <=? b) && (b <=? 31)) || ((a =? 192) && (b =? 168))) &&
          negb ((a =? 169) && (b =? 254)) &&
          negb ((a =? 0) && (b =? 0) && (c =? 0) && (d =? 0))
      | _ => false
      end
  | None => false
  end.

(** ** [dm_handler.rs] *)

(** [DateTime::from_timestamp_millis]: [None] outside of the years [chrono] represents. *)
Definition from_timestamp_millis (ms : Z) : option DateTime :=
  if (-8334601228800000 <=? ms) && (ms <=? 8210266876799999) then Some (ms * 1000000) else None.

(** Body, reply reference and id of the payload; older clients sealed the bare text. *)
Definition read_dm (plaintext : bytes) : option (string * option string * option string) :=
  match from_bytes (A := DmPayload) plaintext with
  | Some p =>
      Some (dpl_body p, dpl_reply_to p, if bool_decide (dpl_id p = ""%string) then None else Some (dpl_id p))
  | None => s ← from_utf8 plaintext; Some (s, None, None)
  end.

Definition handle_dm_received (now : DateTime) (entry : LogEntry) (recipient_pk : bytes) w : World T :=
  if negb (bool_decide (recipient_pk = x_public (own_x25519_sk w))) then w
  else
    match from_bytes (A := DmEnvelope) (le_ciphertext entry) with
    | None => w
    | Some envelope =>
        match open envelope (own_x25519_sk w) with
        | Err _ => w
        | Ok plaintext =>
            match read_dm plaintext with
            | None => w
            | Some (body, reply_to, payload_id) =>
                let author := le_author_id entry in
                let msg := mkDmInfo (default (le_message_id entry) payload_id) author author
                             (default now (from_timestamp_millis (le_timestamp_ms entry))) body reply_to None in
                let conversation := default [] (app_dms (w_app w) !! author) in
                if any (λ m, bool_decide (di_id m = di_id msg)) conversation
                then upd (λ a, set_dms (<[author := conversation]> (app_dms a)) a) w
                else
                  let w := save_dms
                    (upd (λ a, set_dms (<[author := conversation ++ [msg]]> (app_dms a)) a) w) in
                  broadcast (PushDmNew msg) w
            end
        end
    end.

(** ** [peer.rs] *)

Definition count_peers (m : gmap string (list PeerSummary)) : Z :=
  foldr (λ kv n, Z.of_nat (length kv.2) + n) 0 (map_to_list m).
Definition update_peer_count w : World T :=
  upd (λ a, set_metrics_connected_peers (count_peers (app_connected_peers a)) a) w.

Definition publish_community (w0 w : World T) (cs : string * SignedManifest) : World T :=
  let '(community_id, signed) := cs in
  if negb (bool_decide (cm_public_key (sm_manifest signed) = own_pk w0)) then w
  else
    let topic := community_topic community_id in
    let w := publish_event topic (ManifestUpdate signed) w in
    let w := foldl (λ w id,
               match app_channels (w_app w0) !! ulid_to_string id with
               | Some ch => publish_event topic (ChannelManifestBroadcast (mkBroadcast ch)) w
               | None => w
               end) w (cm_channel_ids (sm_manifest signed)) in
    match app_members (w_app w0) !! community_id with
    | Some list => foldl (λ w m, publish_event topic (MemberJoined m) w) w (hash_order list).*2
    | None => w
    end.

Definition handle_peer_connected (peer_id community_id : string) w : World T :=
  let is_admin :=
    match known_community_pk community_id w with
    | Some pk => bool_decide (hex pk = peer_id)
    | None => false
    end in
  let list := peers_of community_id w in
  let list' :=
    if any (λ p, bool_decide (ps_peer_id p = peer_id)) list then list
    else list ++ [mkPeerSummary peer_id [] None false 0 is_admin community_id] in
  let w := update_peer_count
    (upd (λ a, set_connected_peers (<[community_id := list']> (app_connected_peers a)) a) w) in
  let w := match known_community_pk community_id w with
           | Some cpk => command (CmdFetchManifest peer_id community_id cpk) w
           | None => w
           end in
  let w := command (CmdFetchMailbox peer_id) w in
  let comms := hash_order (app_communities (w_app w)) in
  let w := match app_dht (w_app w) with
           | Some _ =>
               foldl (λ w cs,
                 let cpk := cm_public_key (sm_manifest cs.2) in
                 emit (SpawnRegisterCommunityPeer cpk) (emit (SpawnDiscover cpk cs.1) w)) w comms
           | None => w
           end in
  foldl (publish_community w) w comms.

Definition handle_peer_disconnected (peer_id : string) w : World T :=
  update_peer_count
    (upd (λ a, set_connected_peers
            ((λ l, retain (λ p, negb (bool_decide (ps_peer_id p = peer_id))) l) <$> app_connected_peers a) a) w).

(** ** The other events *)

Definition seed_status (community_id : string) (connected : bool) w : World T :=
  broadcast (PushSeedStatusChanged (mkSeedStatus community_id connected)) w.

Definition handle_seed_connected (community_id peer_id : string) w : World T :=
  let w := seed_status community_id true
    (upd (λ a, set_seed_connected_communities ({[community_id]} ∪ app_seed_connected_communities a) a) w) in
  if bool_decide (peer_id = ""%string) then w
  else
    let w := match known_community_pk community_id w with
             | Some cpk => command (CmdFetchManifest peer_id community_id cpk) w
             | None => w
             end in
    command (CmdFetchMailbox peer_id) w.

Definition handle_seed_disconnected (community_id : string) w : World T :=
  seed_status community_id false
    (upd (λ a, set_seed_connected_communities (app_seed_connected_communities a ∖ {[community_id]}) a) w).

Definition handle_lan_peer (peer_id : string) w : World T :=
  foldl (λ w cs, command (CmdFetchManifest peer_id cs.1 (cm_public_key (sm_manifest cs.2))) w) w
    (hash_order (app_communities (w_app w))).

Definition handle_manifest_not_found (community_id : string) w : World T :=
  match known_community_pk community_id w, app_dht (w_app w) with
  | Some cpk, Some _ => emit (SpawnDiscover cpk community_id) w
  | _, _ => w
  end.

Definition spawn_own_info w : World T :=
  emit (SpawnRegisterPeerInfo (from_verifying_key (own_pk w)) (x_public (own_x25519_sk w))
          (default ""%string (cfg_display_name (app_config (w_app w))))) w.

Definition record_listen_addr (acc : World T * bool) (a : string) : World T * bool :=
  let '(w, newly_public) := acc in
  let w := if bool_decide (a ∈ app_actual_listen_addrs (w_app w)) then w
           else upd (λ s, set_actual_listen_addrs (app_actual_listen_addrs s ++ [a]) s) w in
  if is_publicly_routable a then
    match app_public_addr (w_app w) with
    | None => (upd (set_public_addr (Some a)) w, true)
    | Some _ => (w, newly_public)
    end
  else (w, newly_public).

Definition handle_new_listen_addr (ifaces : option (list Interface)) (addr : string) w : World T :=
  let '(w, newly_public) := foldl record_listen_addr (w, false) (expand_wildcard_addr ifaces addr) in
  if newly_public then
    match app_dht (w_app w) with
    | Some _ =>
        let w := foldl (λ w cs, emit (SpawnRegisterCommunityPeer (cm_public_key (sm_manifest cs.2))) w) w
                   (hash_order (app_communities (w_app w))) in
        spawn_own_info w
    | None => w
    end
  else w.

Definition handle_peer_addr_known (node_pk : bytes) (addr : NodeAddr) w : World T :=
  match app_dht (w_app w) with
  | Some d => spawn_own_info (upd (set_dht (Some (add_known_peer node_pk addr d))) w)
  | None => w
  end.

Definition handle_message_received (topic : string) (source : option string) (data : bytes) w : Handled T :=
  if String.prefix "/bitcord/channel/" topic then handle_channel_message false topic data w
  else if String.prefix "/bitcord/community/" topic then handle_community_message data source w
  else Done w.

(** What the environment provides while an event is handled. *)
(** [cx_taken]: how many of the commands given so far, and while this event is handled, the
    network task has taken from the queue when it takes no more. *)
Record EventEnv := mkEventEnv {
  cx_now : DateTime; cx_fresh : Ulid; cx_ifaces : option (list Interface); cx_taken : nat }.

Definition handle_swarm_event (cx : EventEnv) (event : SwarmEvent) w : Handled T :=
  match event with
  | PeerConnected peer_id community_id => Done (handle_peer_connected peer_id community_id w)
  | LanPeerConnected peer_id => Done (handle_lan_peer peer_id w)
  | PeerDisconnected peer_id => Done (handle_peer_disconnected peer_id w)
  | SeedPeerConnected community_id peer_id => Done (handle_seed_connected community_id peer_id w)
  | SeedPeerDisconnected community_id => Done (handle_seed_disconnected community_id w)
  | DmReceived entry recipient_pk => Done (handle_dm_received (cx_now cx) entry recipient_pk w)
  | MessageReceived topic source data => handle_message_received topic source data w
  | ManifestReceived from _ manifest chs channel_keys members =>
      handle_manifest_received (cx_now cx) from manifest chs channel_keys members w
  | ChannelHistoryReceived community_id channel_id entries =>
      Done (handle_channel_history_received community_id channel_id entries w)
  | ManifestNotFound community_id _ => Done (handle_manifest_not_found community_id w)
  | CommunityJoined community_pk id => Done (handle_community_joined (cx_now cx) (cx_fresh cx) community_pk id w)
  | CommunityJoinFailed community_id reason => Done (delete_community community_id 0 reason w)
  | NewListenAddr addr => Done (handle_new_listen_addr (cx_ifaces cx) addr w)
  | DmSendFailed peer_id message_id =>
      Done (broadcast (PushDmSendFailed (mkDmSendFailed peer_id message_id)) w)
  | PeerAddrKnown node_pk addr => Done (handle_peer_addr_known node_pk addr w)
  | NetworkError _ => Done w
  end.

(** [swarm_cmd_tx.send(..).await]: what has been sent and not taken has a place in the queue, or
    the handler waits. *)
Definition has_room (taken : nat) w w' : bool :=
  (commands w' =? commands w)%nat || (commands w' <=? taken + CMD_CAPACITY)%nat.
Definition process_swarm_event (cx : EventEnv) (event : SwarmEvent) w : Handled T :=
  match handle_swarm_event cx event w with
  | Done w' => if has_room (cx_taken cx) w w' then Done w' else Stalled
  | h => h
  end.
Lemma process_done cx event w w' : process_swarm_event cx event w = Done w' → handle_swarm_event cx event w = Done w'.
Proof using Type. unfold process_swarm_event. destruct (handle_swarm_event cx event w); try done. by destruct (has_room _ _ _). Qed.

Lemma process_fits cx event w w' :
  handle_swarm_event cx event w = Done w' → has_room (cx_taken cx) w w' = true → process_swarm_event cx event w = Done w'.
Proof using Type. intros Hd Hr. unfold process_swarm_event. by rewrite Hd, Hr. Qed.

(** The loop: events in the order they arrive, until one does not return. *)
Fixpoint process_swarm_events (events : list (EventEnv * SwarmEvent)) w : Handled T :=
  match events with
  | [] => Done w
  | (cx, event) :: events => and_then (process_swarm_event cx event w) (process_swarm_events events)
  end.
End client_events.

(** ** The invariant of the client *)

Section client_invariant.
Context {T : Type} `{CryptoLaws} `{TableLaws T} `{NodeCodecsLaws} `{HashOrder} `{UlidText} `{UlidParse} `{AddrText}.
Context `{EntropyLaws} `{AppCodecs}.
Implicit Types w : World T.

Lemma inv_peer_connected peer id w : inv w → inv (handle_peer_connected peer id w).
Proof using Type.
  intros Hw. unfold handle_peer_connected. set (w1 := update_peer_count _). assert (inv w1) as Hw1.
  { apply inv_set_metrics, inv_set_peers_of; [done|]. set (p := mkPeerSummary _ _ _ _ _ _ _).
    change peer with (ps_peer_id p). by apply add_peer_NoDup, peers_of_NoDup. }
  set (w2 := match known_community_pk id w1 with Some _ => _ | None => w1 end). assert (inv w2) as Hw2.
  { subst w2. destruct (known_community_pk id w1); [by apply inv_emit|done]. }
  set (w3 := match app_dht _ with Some _ => _ | None => _ end). assert (inv w3) as Hw3.
  { subst w3. destruct (app_dht _); [|by apply inv_emit]. apply fold_inv; [by apply inv_emit|].
    intros. by apply inv_emit, inv_emit. }
  apply fold_inv; [done|]. intros w4 [cid s] _ Hw4. unfold publish_community. destruct (negb _); [done|].
  set (w5 := foldl _ _ (cm_channel_ids _)). assert (inv w5) as Hw5.
  { apply fold_inv; [by apply inv_publish|]. intros w6 x _ Hw6. destruct (_ !! _); [by apply inv_publish|done]. }
  destruct (_ !! _); [|done]. apply fold_inv; [done|]. intros. by apply inv_publish.
Qed.
Lemma inv_peer_disconnected peer w : inv w → inv (handle_peer_disconnected peer w).
Proof using Type.
  intros Hw. apply inv_set_metrics, inv_set_peers; [done|]. intros k l.
  rewrite lookup_fmap. destruct (app_connected_peers (w_app w) !! k) as [l0|] eqn:Hl; [|done].
  intros [= <-]. apply retain_NoDup_fmap, (ai_peers _ Hw _ _ Hl).
Qed.
Lemma inv_dm_received now e pk w : inv w → inv (handle_dm_received now e pk w).
Proof using Type.
  intros Hw. unfold handle_dm_received. destruct (negb _); [done|].
  destruct (from_bytes (le_ciphertext e)) as [env|]; [|done]. destruct (open env _); [|done].
  destruct (read_dm _) as [[[body reply] pid]|]; [|done]. set (msg := mkDmInfo _ _ _ _ _ _ _).
  set (conv := default [] _). assert (NoDup (di_id <$> conv)) as Hconv.
  { subst conv. destruct (app_dms (w_app w) !! _) as [l|] eqn:Hl; cbn; [by apply (ai_dms _ Hw _ _ Hl)|constructor]. }
  destruct (any _ conv) eqn:Hany.
  - apply inv_set_dms; [done|]. apply (keyed_insert (λ _ l, NoDup (di_id <$> l))); [done|apply (ai_dms _ Hw)].
  - apply inv_emit, inv_save_table, inv_set_dms; [done|].
    apply (keyed_insert (λ _ l, NoDup (di_id <$> l))); [|apply (ai_dms _ Hw)].
    rewrite fmap_app. apply NoDup_app. split_and!; [done| |apply NoDup_singleton].
    intros x Hx ->%list_elem_of_singleton. apply list_elem_of_fmap in Hx as (m & Hm & Hin).
    apply (proj1 (any_false _ _) Hany) in Hin. by rewrite bool_decide_eq_false in Hin.
Qed.
Lemma inv_listen_addr ifaces addr w : inv w → inv (handle_new_listen_addr ifaces addr w).
Proof using Type.
  intros Hw. unfold handle_new_listen_addr. generalize (expand_wildcard_addr ifaces addr) as l. intros l.
  assert (inv (foldl record_listen_addr (w, false) l).1) as Hf.
  { assert (inv (w, false).1) as Hstart by done. revert Hstart. generalize (w, false). clear Hw.
    induction l as [|a l IH]; intros acc Hacc; [done|]. cbn [foldl]. apply IH. destruct acc as [w0 b].
    unfold record_listen_addr. cbn [fst] in *.
    set (w1 := if bool_decide _ then w0 else _). assert (inv w1) as Hw1.
    { subst w1. case_bool_decide; [done|]. by apply inv_set_listen. }
    destruct (is_publicly_routable a); [|done]. destruct (app_public_addr (w_app w1)); [done|].
    by apply (inv_set_public (λ _, Some a)). }
  destruct (foldl _ _ l) as [w1 public]. cbn in Hf. destruct public; [|done]. destruct (app_dht (w_app w1)); [|done].
  apply inv_emit, fold_inv; [done|]. intros. by apply inv_emit.
Qed.

(** What the types of the events guarantee: keys are 32-byte arrays, in the event and in the
    metadata a [CommunityJoined] event makes the client read. *)
Definition event_wf w (ev : SwarmEvent) : Prop :=
  match ev with
  | ManifestReceived _ _ s _ _ _ => wf_key (cm_public_key (sm_manifest s))
  | MessageReceived _ _ data =>
      ∀ s, from_bytes data = Some (ManifestUpdate s) → wf_key (cm_public_key (sm_manifest s))
  | CommunityJoined pk _ =>
      wf_key pk ∧ ∀ meta s, stored_meta pk w = Some meta → meta_manifest meta = Some s →
                            wf_key (cm_public_key (sm_manifest s))
  | PeerAddrKnown pk _ => wf_key pk
  | _ => True
  end.

Lemma inv_event cx ev w w' : inv w → event_wf w ev → process_swarm_event cx ev w = Done w' → inv w'.
Proof using Type*.
  intros Hw Hev Hp%process_done. revert Hp. destruct ev; cbn [handle_swarm_event event_wf] in *; try (intros [= <-]).
  - by apply inv_peer_connected.
  - unfold handle_lan_peer. by apply (inv_commands (λ cs : string * SignedManifest, Cmd (CmdFetchManifest _ cs.1 _))).
  - by apply inv_peer_disconnected.
  - unfold handle_message_received. destruct (String.prefix "/bitcord/channel/" topic).
    { by apply inv_channel_message. }
    destruct (String.prefix _ topic); [by apply inv_community_message|by intros [= <-]].
  - by apply inv_listen_addr.
  - by apply inv_dm_received.
  - by apply inv_manifest_received.
  - by apply inv_history.
  - by apply inv_community_joined; [|apply Hev..].
  - by apply inv_emit, inv_remove_community_local.
  - unfold handle_manifest_not_found. destruct (known_community_pk _ w); [|done].
    destruct (app_dht (w_app w)); [by apply inv_emit|done].
  - unfold handle_seed_connected. set (w1 := seed_status _ _ _). assert (inv w1) as Hw1 by by apply inv_emit, inv_set_seeds.
    case_bool_decide; [done|]. apply inv_emit. destruct (known_community_pk _ w1); [by apply inv_emit|done].
  - by apply inv_emit, inv_set_seeds.
  - by apply inv_emit.
  - unfold handle_peer_addr_known. destruct (app_dht (w_app w)) as [d|] eqn:Hd; [|done].
    apply inv_emit, (inv_set_dht (add_known_peer node_pk addr d)); [done|].
    by apply rt_inv_add_peer; [apply (ai_dht _ Hw)|].
  - done.
Qed.

(** The events a client handles, one after the other. *)
Definition client_step w w' : Prop :=
  ∃ cx ev, event_wf w ev ∧ process_swarm_event cx ev w = Done w'.

(** The client's invariant. Whatever events the network task delivers, in whatever order,
    the channel and member tables stay keyed by the identifiers of their values, no message
    is twice in a channel, no direct message twice in a conversation, no peer twice in a
    community, what is buffered for a channel are messages of that channel, and the node
    store and the DHT routing table stay well-formed. *)
Theorem client_invariant w w' : rtc client_step w w' → inv w → inv w'.
Proof using Type*.
  induction 1 as [w|w w1 w' (cx & ev & Hev & Hstep) _ IH]; [done|]. intros Hw. by eapply IH, inv_event.
Qed.

(** With events the client can serialise, an event is handled to the end or its handler waits for
    the lock it holds. *)
Lemma handle_swarm_event_spec cx ev w :
  inv w → (∀ m : CommunityManifest, is_Some (to_allocvec m)) →
  (∃ w', handle_swarm_event cx ev w = Done w') ∨
  (handle_swarm_event cx ev w = Blocked ∧
   ∃ from id s chs plain ms, ev = ManifestReceived from id s chs plain ms ∧
     let out := install_manifest from s chs plain
       (manifest_pending_done (ulid_to_string (cm_id (sm_manifest s))) (cm_version (sm_manifest s)) w) in
     stuck_in out.2 out.1).
Proof using Type.
  intros Hw Htot.
  assert (∀ s : SignedManifest, is_Some (manifest_verify s)) as Hver.
  { intros s. unfold manifest_verify. destruct (ed_valid_key _); [|done]. destruct (_ =? _)%nat; [|done].
    destruct (Htot (sm_manifest s)) as [b Hb]. unfold canonical_bytes. by rewrite Hb. }
  destruct ev; cbn [handle_swarm_event]; try (left; by eexists).
  - left. unfold handle_message_received. destruct (String.prefix "/bitcord/channel/" topic).
    { unfold handle_channel_message. destruct (from_bytes data) as [[]|]; try (by eexists).
      - unfold handle_new_message, buffer_rotation. repeat (case_match; try by eexists).
      - unfold handle_channel_key_rotation. repeat (case_match; try by eexists). }
    destruct (String.prefix _ topic); [|by eexists]. unfold handle_community_message.
    destruct (from_bytes data) as [[]|]; try (by eexists). unfold handle_manifest_update.
    destruct (Hver s) as [b ->]. destruct b; [|by eexists]. repeat (case_match; try by eexists).
  - unfold handle_manifest_received. destruct (Hver manifest) as [b Hb]. destruct b; rewrite Hb; [|left; by eexists].
    destruct (cm_deleted _) eqn:Hdel; [left; by eexists|].
    pose proof (manifest_replay_spec (cx_now cx) from manifest chs channel_keys members w Hw Hb Hdel) as Hspec.
    unfold handle_manifest_received in Hspec. rewrite Hb, Hdel in Hspec. cbv zeta in Hspec.
    set (w0 := manifest_pending_done _ _ w) in *.
    destruct (install_manifest from manifest chs channel_keys w0) as [w1 rotated] eqn:Hin.
    destruct Hspec as (Hp & Hblk & Hdone).
    destruct (drain_spec rotated w1) as [[Hst Heq]|(Hst & w2 & Heq & _)].
    + intros id buf Hbuf td Htd. rewrite Hp in Hbuf. exact (ai_buffers _ Hw _ _ Hbuf _ Htd).
    + right. split; [by apply Hblk|]. exists from, community_id, manifest, chs, channel_keys, members.
      split; [done|]. fold w0. by rewrite Hin.
    + left. destruct (Hdone Hst) as (w' & Hw' & _). by exists w'.
Qed.

(** C4: the event loop comes back. With events the client can serialise, the handler of an event
    does one thing, however fast the network task is: it returns, and it returns as soon as
    the network task has taken all but 256 of the commands given (at once, if it gives none),
    and not before. The one exception is a manifest that changes the key of a channel for which
    a message is buffered that neither the new nor the old key opens: its handler never
    returns. *)
Theorem event_loop_progress now fresh ifaces ev w :
  inv w → (∀ m : CommunityManifest, is_Some (to_allocvec m)) →
  (∃ w', ∀ taken, process_swarm_event (mkEventEnv now fresh ifaces taken) ev w =
     if decide (commands w' = commands w ∨ (commands w' ≤ taken + CMD_CAPACITY)%nat) then Done w' else Stalled) ∨
  ((∀ taken, process_swarm_event (mkEventEnv now fresh ifaces taken) ev w = Blocked) ∧
   ∃ from id s chs plain ms, ev = ManifestReceived from id s chs plain ms ∧
     let out := install_manifest from s chs plain
       (manifest_pending_done (ulid_to_string (cm_id (sm_manifest s))) (cm_version (sm_manifest s)) w) in
     stuck_in out.2 out.1).
Proof using Type.
  intros Hw Htot. assert (∀ taken, handle_swarm_event (mkEventEnv now fresh ifaces taken) ev w =
    handle_swarm_event (mkEventEnv now fresh ifaces 0) ev w) as Heq by by destruct ev.
  destruct (handle_swarm_event_spec (mkEventEnv now fresh ifaces 0) ev w Hw Htot) as [[w' Hd]|[Hb Hstuck]].
  - left. exists w'. intros taken. unfold process_swarm_event. rewrite Heq, Hd. unfold has_room. cbn [cx_taken].
    destruct (Nat.eqb_spec (commands w') (commands w)), (Nat.leb_spec (commands w') (taken + CMD_CAPACITY));
      case_decide as Hc; try done; exfalso; [apply Hc; by left|apply Hc; by left|apply Hc; by right|].
    destruct Hc; [done|lia].
  - right. split; [|done]. intros taken. unfold process_swarm_event. by rewrite Heq, Hb.
Qed.
End client_invariant.
