(* ===== verification/AppStart.v ===== *)
(** * Start-up of the client: [AppState::new] and [bootstrap_network] in
    [bitcord-core/src/api/mod.rs]

    [AppState::new] reads the tables from the data directory, exchanges what it knows with
    the embedded node store, and rebuilds the message log and its reactions from the stored
    messages. [persisted] says that the files hold the tables of the running state; the
    handlers keep it so, and a client started from such files has the same tables. *)

From S2P Require Import Prelude Bytes Config Redb Routing Crypto Codec Model ClientState Store DhtNode.
From S2P Require Import Handler AppState ChannelEvents CommunityEvents ManifestEvents ClientEvents.

Section start.
Context {T : Type} `{Crypto} `{Table T} `{NodeCodecs} `{HashOrder} `{UlidText} `{UlidParse} `{AddrText}.
Context `{Entropy} `{AppCodecs}.
Implicit Types w : World T.
Implicit Types a : AppState T.

(** What the process passes to [AppState::new] besides the files. *)
Record StartConfig := mkStart {
  sc_peer_id : string; sc_public_key_hex : string; sc_node_address : string; sc_signing_key : bytes;
  sc_encryption_key : option bytes; sc_tls_fingerprint : option string; sc_config : NodeConfig;
  sc_node_store : option (NodeStore T); sc_dht : option (DhtHandle T) }.

(** The tables, as the files have them. *)
Definition load_state (sc : StartConfig) (disk : gmap string bytes) : AppState T :=
  let key := sc_encryption_key sc in
  mkApp (sc_peer_id sc) (sc_public_key_hex sc) (sc_node_address sc) (sc_signing_key sc) key
    (sc_tls_fingerprint sc) (mkIdentity (cfg_display_name (sc_config sc)) Online) (sc_config sc) log_new ∅
    (load_table "communities.json" key disk) (load_table "channels.json" key disk)
    (load_table "channel_keys.json" key disk) (load_table "previous_channel_keys.json" key disk)
    (load_table "dms.json" key disk) (load_table "dm_peers.json" key disk)
    (load_table "members.json" key disk) (load_table "bans.json" key disk)
    (load_table "read_state.json" key disk) (load_table "hosting_passwords.json" key disk)
    (load_table "seed_fingerprints.json" key disk) ∅ [] ∅ [] None ∅ 0 (sc_node_store sc) (sc_dht sc).

(** Members the store does not know are added to its metadata. *)
Definition merge_members (list : gmap string MembershipRecord) (meta : CommunityMeta) : CommunityMeta * bool :=
  let '(ms, changed) :=
    foldl (λ '(ms, changed) m,
      match ms !! hex (mr_user_id m) with
      | Some _ => (ms, changed)
      | None => (<[hex (mr_user_id m) := m]> ms, true)
      end) (meta_members meta, false) (hash_order list).*2 in
  (mkMeta (meta_cert meta) (meta_manifest meta) (meta_channels meta) (meta_channel_keys meta) ms, changed).
Definition sync_members w (cl : string * gmap string MembershipRecord) : World T :=
  match app_communities (w_app w) !! cl.1 with
  | Some comm =>
      let pk := cm_public_key (sm_manifest comm) in
      match stored_meta pk w with
      | Some meta =>
          let '(meta, changed) := merge_members cl.2 meta in
          if changed then write_meta pk meta w else w
      | None => w
      end
  | None => w
  end.

(** [entry(k).or_insert(v)]. *)
Definition or_insert {A} (k : string) (v : A) (m : gmap string A) : gmap string A :=
  match m !! k with Some _ => m | None => <[k := v]> m end.

(** What the store knows of a community is added to the tables. *)
Definition backfill w (cpk : bytes) : World T :=
  match stored_meta cpk w with
  | Some meta =>
      match meta_manifest meta with
      | Some signed =>
          let id := ulid_to_string (cm_id (sm_manifest signed)) in
          upd (λ a,
            let a := set_communities (or_insert id signed (app_communities a)) a in
            let a := set_channels
              (foldl (λ m ch, or_insert (ulid_to_string (ch_id ch)) ch m) (app_channels a) (meta_channels meta)) a in
            let a := set_channel_keys
              (app_channel_keys a ∪ filter (λ kv : string * bytes, length kv.2 = 32%nat) (meta_channel_keys meta)) a in
            set_members (<[id := default ∅ (app_members a !! id) ∪ meta_members meta]> (app_members a)) a) w
      | None => w
      end
  | None => w
  end.

(** Stored reactions are opened with the current key, then with the previous one. *)
Definition stored_reaction (key previous : option bytes) (entry : LogEntry) : option MessageContent :=
  let try_key (k : option bytes) :=
    key ← k; result_ok (decrypt_message key (le_nonce entry) (le_ciphertext entry)) in
  match try_key key with
  | Some plain => content_decode plain
  | None => plain ← try_key previous; content_decode plain
  end.
Definition load_entry (channel_id : string) (key previous : option bytes) (log : MessageLog) (entry : LogEntry)
    : MessageLog :=
  append_entry channel_id entry (apply_reaction (stored_reaction key previous entry) (le_author_id entry) log).
Definition load_channel (st : NodeStore T) a (log : MessageLog) (kc : string * ChannelManifest) : MessageLog :=
  match parse_ulid kc.1, app_communities a !! ulid_to_string (ch_community_id kc.2) with
  | Some ulid, Some comm =>
      match get_messages (cm_public_key (sm_manifest comm)) ulid 0 st with
      | Ok entries =>
          foldl (load_entry kc.1 (app_channel_keys a !! kc.1) (app_previous_channel_keys a !! kc.1)) log entries
      | Err _ => log
      end
  | _, _ => log
  end.
Definition load_history w : World T :=
  match app_node_store (w_app w) with
  | Some st =>
      upd (λ a, set_message_log (foldl (load_channel st a) (app_message_log a) (hash_order (app_channels a))) a) w
  | None => w
  end.

Definition seed_dm_peers a : gmap string DmPeerInfo :=
  foldl (λ m r, or_insert (hex (mr_user_id r)) (mkDmPeer (mr_display_name r) (mr_x25519_public_key r)) m)
    (app_dm_peers a)
    (concat ((λ cl : string * gmap string MembershipRecord, (hash_order cl.2).*2) <$> hash_order (app_members a))).

Definition app_new (sc : StartConfig) (disk : gmap string bytes) (disk_ok : bool) (draws : nat) : World T :=
  let w := mkWorld (load_state sc disk) disk disk_ok [] draws in
  let w :=
    match app_node_store (w_app w) with
    | Some _ =>
        let w := foldl sync_members w (hash_order (app_members (w_app w))) in
        let w :=
          match app_node_store (w_app w) with
          | Some st => match all_communities st with Ok pks => foldl backfill w pks | Err _ => w end
          | None => w
          end in
        load_history w
    | None => w
    end in
  upd (λ a, set_dm_peers (seed_dm_peers a) a) w.

(** ** [bootstrap_network] *)

(** An address that points back at this node: one of the machine's or a loopback IP with the QUIC port, a
    known listen address, or the public address. *)
Definition is_self_addr (own_ips : list IpAddr) (addr_str : string) (addr : NodeAddr) a : bool :=
  (any (λ i, bool_decide (i = ip addr)) (V4 [127; 0; 0; 1] :: V6 (replicate 15 0 ++ [1]) :: own_ips)
     && (port addr =? cfg_quic_port (app_config a)))
  || any (λ s, match parse_node_addr s with Some x => bool_decide (x = addr) | None => false end)
       (app_actual_listen_addrs a)
  || bool_decide (app_public_addr a = Some addr_str).

Definition bootstrap_community (own_ips : list IpAddr) w (cs : string * SignedManifest) : World T :=
  let '(id, signed) := cs in
  let pk := cm_public_key (sm_manifest signed) in
  let w := queue_manifest_sync id w in
  let w := foldl (λ w p, command (CmdFetchManifest (ps_peer_id p) id pk) w) w (peers_of id w) in
  let w := command (CmdSubscribe (community_topic id)) w in
  foldl (λ w addr_str,
    match parse_node_addr addr_str with
    | Some addr =>
        if is_self_addr own_ips addr_str addr (w_app w) then w
        else command (CmdDial addr true (Some (pk, id)) (app_hosting_passwords (w_app w) !! id)
               (default (replicate 32 0) (app_seed_fingerprints (w_app w) !! addr_str))) w
    | None => w
    end) w (cm_seed_nodes (sm_manifest signed)).

Definition bootstrap_network (own_ips : list IpAddr) w : World T :=
  let w := match app_dht (w_app w) with Some _ => emit SpawnDhtBootstrap w | None => w end in
  let w := foldl (bootstrap_community own_ips) w (hash_order (app_communities (w_app w))) in
  foldl (λ w kc, command (CmdSubscribe (channel_topic kc.1)) w) w (hash_order (app_channels (w_app w))).
End start.

(** ** What a start restores *)

Section restored.
Context {T : Type} `{Crypto} `{Table T} `{NodeCodecs} `{HashOrderLaws} `{UlidText} `{UlidParse} `{AddrText}.
Context `{Entropy} `{AppCodecs}.
Implicit Types w : World T.
Implicit Types a : AppState T.

(** What the store holds of the channel [k]. *)
Definition stored_entries (st : NodeStore T) a (k : string) : list LogEntry :=
  match app_channels a !! k with
  | Some ch =>
      match parse_ulid k, app_communities a !! ulid_to_string (ch_community_id ch) with
      | Some ulid, Some comm => default [] (result_ok (get_messages (cm_public_key (sm_manifest comm)) ulid 0 st))
      | _, _ => []
      end
  | None => []
  end.

Lemma load_entries_log c k key previous es log :
  entries_of c (foldl (load_entry k key previous) log es) =
  entries_of c log ++ if bool_decide (k = c) then es else [].
Proof using Type.
  revert log; induction es as [|e es IH]; intros log; cbn; [by case_bool_decide; rewrite app_nil_r|].
  rewrite IH. unfold load_entry, append_entry. rewrite entries_of_set, !entries_of_reaction.
  case_bool_decide; [subst|done]. by rewrite <- app_assoc.
Qed.
Lemma load_channel_log c st a log k ch :
  app_channels a !! k = Some ch →
  entries_of c (load_channel st a log (k, ch)) =
  entries_of c log ++ if bool_decide (k = c) then stored_entries st a k else [].
Proof using Type.
  intros Hk. unfold load_channel, stored_entries. rewrite Hk. cbn [fst snd].
  destruct (parse_ulid k); [|by case_bool_decide; rewrite app_nil_r].
  destruct (app_communities a !! _); [|by case_bool_decide; rewrite app_nil_r].
  destruct (get_messages _ _ _ _); cbn; [apply load_entries_log|by case_bool_decide; rewrite app_nil_r].
Qed.
Lemma load_channels_log c st a log l :
  NoDup l.*1 → (∀ k ch, (k, ch) ∈ l → app_channels a !! k = Some ch) →
  entries_of c (foldl (load_channel st a) log l) =
  entries_of c log ++ if bool_decide (c ∈ l.*1) then stored_entries st a c else [].
Proof using Type.
  revert log; induction l as [|[k ch] l IH]; intros log Hn Hl; cbn [foldl fmap list_fmap fst].
  { rewrite bool_decide_eq_false_2 by apply not_elem_of_nil. by rewrite app_nil_r. }
  apply NoDup_cons in Hn as [Hk Hn]. rewrite IH; [|done|intros; apply Hl; by right].
  rewrite load_channel_log by (apply Hl; by left). rewrite <- app_assoc. f_equal.
  destruct (decide (k = c)) as [->|Hd].
  - rewrite bool_decide_eq_true_2, (bool_decide_eq_false_2 (c ∈ l.*1)), bool_decide_eq_true_2 by (done || by left).
    by rewrite app_nil_r.
  - rewrite bool_decide_eq_false_2 by done. cbn. assert (bool_decide (c ∈ k :: l.*1) = bool_decide (c ∈ l.*1)) as ->; [|done].
    apply bool_decide_ext. rewrite elem_of_cons. naive_solver.
Qed.

Lemma load_history_log st w c :
  app_node_store (w_app w) = Some st → app_message_log (w_app w) = log_new →
  entries_of c (app_message_log (w_app (load_history w))) = stored_entries st (w_app w) c.
Proof using Type*.
  intros Hst Hlog. unfold load_history. rewrite Hst. cbn. rewrite Hlog.
  pose proof (hash_order_perm (app_channels (w_app w))) as Hp.
  rewrite load_channels_log.
  - cbn. case_bool_decide as Hc; [done|]. unfold stored_entries. destruct (_ !! c) as [ch|] eqn:Hch; [|done].
    exfalso. apply Hc. rewrite Hp. apply elem_of_map_to_list in Hch. by apply (list_elem_of_fmap_2 fst) in Hch.
  - rewrite Hp. apply NoDup_fst_map_to_list.
  - intros k ch. rewrite Hp. apply elem_of_map_to_list.
Qed.

(** The history is restored. Whatever order the channel table is walked in, after a start
    the log of every known channel holds exactly what the store has for it, in the order of
    the store, and channels that are not known have no entries; the tables and the store are
    as they were. *)
Theorem history_restored st w c :
  app_node_store (w_app w) = Some st → app_message_log (w_app w) = log_new →
  entries_of c (app_message_log (w_app (load_history w))) = stored_entries st (w_app w) c ∧
  app_channels (w_app (load_history w)) = app_channels (w_app w) ∧ app_node_store (w_app (load_history w)) = Some st.
Proof using Type*.
  intros Hst Hlog. split; [by apply load_history_log|]. unfold load_history. by rewrite Hst.
Qed.

(** The client started again: the tables and the store as they are, no messages in memory. *)
Definition restarted w : World T := load_history (upd (set_message_log log_new) w).

Lemma handle_delete_frame {A} (proj : AppState T → A) p w :
  (∀ l a, proj (set_message_log l a) = proj a) → proj (w_app (handle_delete_message p w)) = proj (w_app w).
Proof using Type.
  intros Hp. unfold handle_delete_message. destruct (get_entry _ _ _); [|done]. destruct (negb _); [done|].
  destruct (tombstone _ _ _) as [log []]; [|done]. cbn [negb]. destruct (community_of_channel _ _); cbn; apply Hp.
Qed.

(** A deletion lasts until the next start. It marks the message in memory, also for a
    node with a store, and the store keeps it as it was: after a restart the message is
    back in the log of the channel, undeleted, as the author posted it. *)
Theorem deletion_undone_by_restart st p e e' w :
  let c := ulid_to_string (dm_channel_id p) in
  let mid := ulid_to_string (dm_message_id p) in
  app_node_store (w_app w) = Some st → e ∈ stored_entries st (w_app w) c → le_message_id e = mid →
  le_deleted e = false → get_entry c mid (app_message_log (w_app w)) = Some e' → le_author_id e' = hex (dm_author_id p) →
  let w1 := handle_delete_message p w in
  (le_deleted <$> get_entry c mid (app_message_log (w_app w1)) = Some true) ∧
  e ∈ entries_of c (app_message_log (w_app (restarted w1))).
Proof using Type*.
  intros c mid Hst He Hm Hdel Hget Ha w1. split.
  - subst w1. unfold handle_delete_message. fold c mid. rewrite Hget, bool_decide_eq_true_2 by done. cbn [negb].
    rewrite (tombstone_applied _ _ _ _ Hget). cbn [negb].
    assert (le_deleted <$> get_entry c mid (tombstone c mid (app_message_log (w_app w))).1 = Some true) as Ht.
    { rewrite tombstone_get_entry, bool_decide_eq_true_2, Hget by done. done. }
    by destruct (community_of_channel _ _).
  - unfold restarted. rewrite (load_history_log st); [|by cbn; subst w1; rewrite handle_delete_frame|done].
    assert (stored_entries st (w_app (upd (set_message_log log_new) w1)) c = stored_entries st (w_app w) c) as ->; [|done].
    unfold stored_entries. cbn. subst w1. by rewrite (handle_delete_frame app_channels), (handle_delete_frame app_communities).
Qed.
End restored.
