(* ===== verification/Durability.v ===== *)
(** * What is on disk: the files of the data directory and the tables in memory

    [save_table] is called by each handler for the tables it changes. [sv S w]: writes
    succeed and every table outside of [S] is, in its file, what it is in memory; [persisted]
    is [sv []]. Every event handler keeps the client [persisted], except that
    [handle_community_joined] leaves the placeholder it inserts out of the file; a client
    that is started again from the files has the same tables. *)

From S2P Require Import Prelude Bytes Config Redb Routing Crypto Codec Model ClientState Store DhtNode.
From S2P Require Import Handler AppState ChannelEvents CommunityEvents ManifestEvents ClientEvents AppStart.

Inductive Tab := TCommunities | TChannels | TKeys | TPrevious | TMembers | TPasswords | TDms | TDmPeers
  | TBans | TRead | TFingerprints.
#[export] Instance Tab_eq_dec : EqDecision Tab.
Proof. solve_decision. Defined.

Definition file_of (t : Tab) : string :=
  match t with
  | TCommunities => "communities.json" | TChannels => "channels.json" | TKeys => "channel_keys.json"
  | TPrevious => "previous_channel_keys.json" | TMembers => "members.json"
  | TPasswords => "hosting_passwords.json" | TDms => "dms.json" | TDmPeers => "dm_peers.json"
  | TBans => "bans.json" | TRead => "read_state.json" | TFingerprints => "seed_fingerprints.json"
  end.

Section durability.
Context {T : Type} `{CryptoLaws} `{Table T} `{NodeCodecs} `{HashOrder} `{UlidText} `{UlidParse} `{AddrText}.
Context `{EntropyLaws} `{AppCodecsLaws}.
Implicit Types w : World T.
Implicit Types a : AppState T.

(** The table [t] of [a] is what its file holds. *)
Definition on_disk (t : Tab) (disk : gmap string bytes) a : Prop :=
  let key := app_encryption_key a in
  match t with
  | TCommunities => load_table (file_of t) key disk = app_communities a
  | TChannels => load_table (file_of t) key disk = app_channels a
  | TKeys => load_table (file_of t) key disk = app_channel_keys a
  | TPrevious => load_table (file_of t) key disk = app_previous_channel_keys a
  | TMembers => load_table (file_of t) key disk = app_members a
  | TPasswords => load_table (file_of t) key disk = app_hosting_passwords a
  | TDms => load_table (file_of t) key disk = app_dms a
  | TDmPeers => load_table (file_of t) key disk = app_dm_peers a
  | TBans => load_table (file_of t) key disk = app_bans a
  | TRead => load_table (file_of t) key disk = app_read_state a
  | TFingerprints => load_table (file_of t) key disk = app_seed_fingerprints a
  end.
Definition same_table (t : Tab) a a' : Prop :=
  match t with
  | TCommunities => app_communities a = app_communities a'
  | TChannels => app_channels a = app_channels a'
  | TKeys => app_channel_keys a = app_channel_keys a'
  | TPrevious => app_previous_channel_keys a = app_previous_channel_keys a'
  | TMembers => app_members a = app_members a'
  | TPasswords => app_hosting_passwords a = app_hosting_passwords a'
  | TDms => app_dms a = app_dms a'
  | TDmPeers => app_dm_peers a = app_dm_peers a'
  | TBans => app_bans a = app_bans a'
  | TRead => app_read_state a = app_read_state a'
  | TFingerprints => app_seed_fingerprints a = app_seed_fingerprints a'
  end.

Definition sv (S : list Tab) w : Prop := w_disk_ok w = true ∧ ∀ t, t ∉ S → on_disk t (w_disk w) (w_app w).
Definition persisted w : Prop := sv [] w.

(** ** Writing a table *)

Lemma load_other {A} `{Json (gmap string A)} name key (disk disk' : gmap string bytes) :
  disk !! name = disk' !! name → load_table name key disk = load_table name key disk'.
Proof using Type. unfold load_table. by intros ->. Qed.
Lemma on_disk_ext t disk disk' a a' :
  disk !! file_of t = disk' !! file_of t → app_encryption_key a = app_encryption_key a' → same_table t a a' →
  on_disk t disk a → on_disk t disk' a'.
Proof using Type.
  intros Hd Hk Hs. destruct t; cbn in *; rewrite <- Hs, Hk; intros <-; by apply load_other.
Qed.
Lemma file_of_inj t t' : file_of t = file_of t' → t = t'.
Proof using Type. by destruct t, t'. Qed.

Section encrypting.
Context (Haead : ∀ k n m, is_Some (aead_encrypt k n m)).

(** A saved table is the table that a load returns. *)
Lemma save_then_load {A} `{JsonLaws (gmap string A)} name (data : gmap string A) w :
  w_disk_ok w = true →
  let w' := save_table name data w in
  w_disk_ok w' = true ∧ load_table name (app_encryption_key (w_app w)) (w_disk w') = data ∧
  ∀ n, n ≠ name → w_disk w' !! n = w_disk w !! n.
Proof using All.
  intros Hok w'. subst w'. unfold save_table. destruct (json_total data) as [js Hjs]. rewrite Hjs.
  destruct (app_encryption_key (w_app w)) as [key|].
  - unfold encrypt_bytes. destruct (Haead key (rng24 (w_draws w)) js) as [c Hc]. rewrite Hc. cbn. rewrite Hok.
    split_and!; [done| |intros n Hn; by rewrite lookup_insert_ne]. unfold load_table. rewrite lookup_insert_eq.
    assert (encrypt_bytes (rng24 (w_draws w)) js key = Ok (rng24 (w_draws w) ++ c)) as He
      by (unfold encrypt_bytes; by rewrite Hc).
    apply encrypt_bytes_roundtrip in He as [-> _]; [|apply rng24_length]. by rewrite (json_roundtrip _ _ Hjs).
  - cbn. rewrite Hok. split_and!; [done| |intros n Hn; by rewrite lookup_insert_ne]. unfold load_table.
    by rewrite lookup_insert_eq, (json_roundtrip _ _ Hjs).
Qed.

(** Writing the table [t] repairs it and touches no other. *)
Lemma sv_save {A} `{JsonLaws (gmap string A)} t (data : gmap string A) S w :
  (load_table (file_of t) (app_encryption_key (w_app w)) (w_disk (save_table (file_of t) data w)) = data →
   on_disk t (w_disk (save_table (file_of t) data w)) (w_app w)) →
  sv (t :: S) w → sv S (save_table (file_of t) data w).
Proof using All.
  intros Ht [Hok Hs]. destruct (save_then_load (file_of t) data w Hok) as (Hok' & Hl & Hne).
  split; [done|]. rewrite save_table_app. intros t' Ht'. destruct (decide (t' = t)) as [->|Hd]; [by apply Ht|].
  apply (on_disk_ext t' (w_disk w) _ (w_app w)); [| |by destruct t'|].
  - symmetry. apply Hne. by intros ?%file_of_inj.
  - done.
  - apply Hs. by intros [?|?]%elem_of_cons.
Qed.
Lemma sv_save_communities S w : sv (TCommunities :: S) w → sv S (save_communities w).
Proof using All. by apply (sv_save TCommunities). Qed.
Lemma sv_save_channels S w : sv (TChannels :: S) w → sv S (save_channels w).
Proof using All. by apply (sv_save TChannels). Qed.
Lemma sv_save_channel_keys S w : sv (TKeys :: S) w → sv S (save_channel_keys w).
Proof using All. by apply (sv_save TKeys). Qed.
Lemma sv_save_previous S w : sv (TPrevious :: S) w → sv S (save_previous_keys w).
Proof using All. by apply (sv_save TPrevious). Qed.
Lemma sv_save_members S w : sv (TMembers :: S) w → sv S (save_members w).
Proof using All. by apply (sv_save TMembers). Qed.
Lemma sv_save_passwords S w : sv (TPasswords :: S) w → sv S (save_passwords w).
Proof using All. by apply (sv_save TPasswords). Qed.
Lemma sv_save_dms S w : sv (TDms :: S) w → sv S (save_dms w).
Proof using All. by apply (sv_save TDms). Qed.
Lemma sv_save_dm_peers S w : sv (TDmPeers :: S) w → sv S (save_dm_peers w).
Proof using All. by apply (sv_save TDmPeers). Qed.
Lemma sv_save_bans S w : sv (TBans :: S) w → sv S (save_bans w).
Proof using All. by apply (sv_save TBans). Qed.
Lemma sv_save_read S w : sv (TRead :: S) w → sv S (save_read_state w).
Proof using All. by apply (sv_save TRead). Qed.
Lemma sv_save_fingerprints S w : sv (TFingerprints :: S) w → sv S (save_fingerprints w).
Proof using All. by apply (sv_save TFingerprints). Qed.
End encrypting.

(** ** The steps between two writes *)

Lemma sv_step S w w' :
  w_disk w' = w_disk w → w_disk_ok w' = w_disk_ok w →
  app_encryption_key (w_app w) = app_encryption_key (w_app w') →
  (∀ t, t ∉ S → same_table t (w_app w) (w_app w')) → sv S w → sv S w'.
Proof using Type.
  intros Hd Hok Hk Hs [Hw Ht]. split; [by rewrite Hok|]. intros t Hn. rewrite Hd.
  by apply (on_disk_ext t (w_disk w) _ (w_app w)); [done|done|apply Hs|apply Ht].
Qed.
Lemma sv_open t S w : sv S w → sv (t :: S) w.
Proof using Type. intros [? Hs]. split; [done|]. intros t' Hn. apply Hs. intros ?. apply Hn. by right. Qed.
Lemma sv_weaken S S' w : S ⊆ S' → sv S w → sv S' w.
Proof using Type. intros Hsub [? Hs]. split; [done|]. intros t Hn. apply Hs. intros ?. by apply Hn, Hsub. Qed.
(** [t] is being changed. *)
Lemma sv_touch t S f w :
  (∀ a t', t' ≠ t → same_table t' a (f a)) → (∀ a, app_encryption_key a = app_encryption_key (f a)) →
  sv (t :: S) w → sv (t :: S) (upd f w).
Proof using Type.
  intros Hf Hk. apply sv_step; [done|done|apply Hk|]. intros t' Hn. apply Hf. intros ->. apply Hn. by left.
Qed.
Lemma sv_upd S f w :
  (∀ a t, same_table t a (f a)) → (∀ a, app_encryption_key a = app_encryption_key (f a)) → sv S w → sv S (upd f w).
Proof using Type. intros Hf Hk. apply sv_step; [done|done|apply Hk|]. intros t' _. apply Hf. Qed.
Lemma sv_emit o S w : sv S w → sv S (emit o w).
Proof using Type. by apply sv_step; [..|by destruct t]. Qed.
Lemma sv_draw S w : sv S w → sv S (draw w).
Proof using Type. by apply sv_step; [..|by destruct t]. Qed.
Lemma sv_on_store f S w : sv S w → sv S (on_store f w).
Proof using Type.
  unfold on_store. destruct (app_node_store (w_app w)); [|done].
  destruct (f _ _); by apply sv_step; [..|by destruct t].
Qed.
Lemma sv_update_meta pk f S w : sv S w → sv S (update_meta pk f w).
Proof using Type. unfold update_meta. destruct (stored_meta pk w); [|done]. apply sv_on_store. Qed.
Lemma sv_fold {A} (f : World T → A → World T) l S w :
  sv S w → (∀ w x, x ∈ l → sv S w → sv S (f w x)) → sv S (foldl f w l).
Proof using Type. apply (fold_inv (sv S)). Qed.
End durability.

(** One step of a proof of [sv]: the outermost operation is undone. *)
Ltac sv_side := solve [by intros ? []|by intros [] []|done].
Ltac sv_go1 Haead :=
  match goal with
  | H : sv ?S ?w |- sv ?S ?w => exact H
  | |- sv _ (save_communities _) => apply (sv_save_communities Haead)
  | |- sv _ (save_channels _) => apply (sv_save_channels Haead)
  | |- sv _ (save_channel_keys _) => apply (sv_save_channel_keys Haead)
  | |- sv _ (save_previous_keys _) => apply (sv_save_previous Haead)
  | |- sv _ (save_members _) => apply (sv_save_members Haead)
  | |- sv _ (save_passwords _) => apply (sv_save_passwords Haead)
  | |- sv _ (save_dms _) => apply (sv_save_dms Haead)
  | |- sv _ (save_dm_peers _) => apply (sv_save_dm_peers Haead)
  | |- sv _ (save_bans _) => apply (sv_save_bans Haead)
  | |- sv _ (save_read_state _) => apply (sv_save_read Haead)
  | |- sv _ (save_fingerprints _) => apply (sv_save_fingerprints Haead)
  | |- sv _ (emit _ _) => apply sv_emit
  | |- sv _ (command _ _) => apply sv_emit
  | |- sv _ (broadcast _ _) => apply sv_emit
  | |- sv _ (draw _) => apply sv_draw
  | |- sv _ (on_store _ _) => apply sv_on_store
  | |- sv _ (write_meta _ _ _) => apply sv_on_store
  | |- sv _ (persist_message _ _ _ _ _ _ _ _) => apply sv_on_store
  | |- sv _ (update_meta _ _ _) => apply sv_update_meta
  | |- sv _ (foldl _ _ _) => apply sv_fold; [|intros ? ? _ ?]
  | |- sv _ (upd _ _) => apply sv_upd; [sv_side|sv_side|]
  | |- sv (_ :: _) (upd _ _) => apply sv_touch; [sv_side|sv_side|]
  | |- sv _ (match ?x with _ => _ end) => destruct x eqn:?
  | H : sv ?S ?w |- sv _ ?w => refine (sv_weaken S _ _ _ H); set_solver
  | |- sv (_ :: _) (save_communities _) => apply sv_open
  end.
Ltac sv_go Haead := repeat sv_go1 Haead.
