(* ===== verification/DurableEvents.v ===== *)
(** * The handlers keep the files up to date

    Each event handler of the client, the placeholder of [handle_community_joined] apart,
    leaves the files of the data directory equal to the tables in memory ([persisted]), and
    so a client started again has the same tables. *)

From S2P Require Import Prelude Bytes Config Redb Routing Crypto Codec Model ClientState Store DhtNode.
From S2P Require Import Handler AppState ChannelEvents CommunityEvents ManifestEvents ClientEvents AppStart.
From S2P Require Import Durability.

Section durable_events.
Context {T : Type} `{CryptoLaws} `{Table T} `{NodeCodecs} `{HashOrder} `{UlidText} `{UlidParse} `{AddrText}.
Context `{EntropyLaws} `{AppCodecsLaws}.
Context (Haead : ∀ k n m, is_Some (aead_encrypt k n m)).
Implicit Types w : World T.

(** ** Channel topics *)

Lemma sv_store_new_message c content raw S w : sv S w → sv S (store_new_message c content raw w).
Proof using All. intros Hw. unfold store_new_message. cbv zeta. sv_go Haead. Qed.
Lemma sv_buffer locked ch topic data S w w' :
  sv S w → buffer_rotation locked ch topic data w = Done w' → sv S w'.
Proof using All.
  intros Hw. unfold buffer_rotation. destruct locked; [done|]. destruct (_ !! ch); intros [= <-]; sv_go Haead.
Qed.
Lemma sv_new_message locked topic data raw S w w' :
  sv S w → handle_new_message locked topic data raw w = Done w' → sv S w'.
Proof using All.
  intros Hw. unfold handle_new_message.
  destruct (community_of_channel _ w); [|by intros [= <-]]. destruct (_ !! _); [|by intros [= <-]].
  destruct (decrypt_with_previous _ _ _ _); [|by apply sv_buffer].
  destruct (member_of _ _ w); [|by intros [= <-]]. destruct (_ && _); intros [= <-]; [|done].
  by apply sv_store_new_message.
Qed.
Lemma sv_edit p S w : sv S w → sv S (handle_edit_message p w).
Proof using All.
  intros Hw. unfold handle_edit_message. destruct (get_entry _ _ _); [|done]. destruct (negb _); [done|].
  destruct (edit _ _ _ _ _) as [log []]; [|done]. cbn [negb]. cbv zeta. sv_go Haead.
Qed.
Lemma sv_delete p S w : sv S w → sv S (handle_delete_message p w).
Proof using All.
  intros Hw. unfold handle_delete_message. destruct (get_entry _ _ _); [|done]. destruct (negb _); [done|].
  destruct (tombstone _ _ _) as [log []]; [|done]. cbn [negb]. cbv zeta. sv_go Haead.
Qed.
Lemma sv_rotation locked p w w' :
  persisted w → handle_channel_key_rotation locked p w = Done w' → persisted w'.
Proof using All.
  intros Hw. unfold handle_channel_key_rotation, persisted in *. cbv zeta.
  destruct (known_community_pk _ w); [|by intros [= <-]]. assert (sv [] (draw w)) as Hd by sv_go Haead.
  destruct (negb _); [by intros [= <-]|].
  destruct (negb _); [by intros [= <-]|]. destruct locked; [done|]. intros [= <-]. sv_go Haead.
Qed.
Lemma sv_channel_message locked topic data w w' :
  persisted w → handle_channel_message locked topic data w = Done w' → persisted w'.
Proof using All.
  intros Hw. unfold handle_channel_message, persisted in *. destruct (from_bytes data) as [[]|]; try by intros [= <-].
  - by apply sv_new_message.
  - intros [= <-]. by apply sv_edit.
  - intros [= <-]. by apply sv_delete.
  - by apply sv_rotation.
Qed.
Lemma sv_history c ch es S w : sv S w → sv S (handle_channel_history_received c ch es w).
Proof using All.
  intros Hw. unfold handle_channel_history_received, sync_complete, add_history_entry. cbv zeta. sv_go Haead.
Qed.

(** ** Community topics *)

(** Forgetting a community writes the five tables, whatever their files held. *)
Lemma sv_remove_local_any c w :
  sv [TCommunities; TMembers; TChannels; TKeys; TPasswords] w → persisted (remove_community_local c w).
Proof using All. intros Hw. unfold remove_community_local, persisted in *. cbv zeta. sv_go Haead. Qed.
Lemma sv_remove_local c w : persisted w → persisted (remove_community_local c w).
Proof using All. intros Hw. apply sv_remove_local_any. revert Hw. apply sv_weaken. set_solver. Qed.
Lemma sv_fetch_history peer c pk ch S w : sv S w → sv S (fetch_history peer c pk ch w).
Proof using All. intros Hw. unfold fetch_history. cbv zeta. sv_go Haead. Qed.
Lemma sv_publish topic ev S w : sv S w → sv S (publish_event topic ev w).
Proof using All. intros Hw. unfold publish_event. sv_go Haead. Qed.
Lemma sv_channel_manifest p w : persisted w → persisted (handle_channel_manifest p w).
Proof using All.
  intros Hw. unfold handle_channel_manifest, unwrap_own_key, install_channel_key, retain_previous_key, fetch_history,
    persisted in *. cbv zeta. sv_go Haead.
Qed.
Lemma sv_queue c S w : sv S w → sv S (queue_manifest_sync c w).
Proof using All. intros Hw. unfold queue_manifest_sync. sv_go Haead. Qed.
Lemma sv_manifest_update source s w w' :
  persisted w → handle_manifest_update source s w = Done w' → persisted w'.
Proof using All.
  intros Hw. unfold handle_manifest_update. destruct (manifest_verify s) as [[]|]; [|by intros [= <-]|done].
  cbv zeta. destruct (_ !! _) as [old|]; [|by intros [= <-]]. destruct (negb _); [by intros [= <-]|].
  destruct (cm_deleted _); intros [= <-].
  - by apply sv_emit, sv_remove_local.
  - unfold apply_manifest_update, remove_dropped_channels, dial_new_seed, queue_manifest_sync, persisted in *.
    cbv zeta. sv_go Haead.
Qed.
Lemma sv_wrap_new topic keys r ch w : persisted w → persisted (wrap_for_new_member topic keys r ch w).
Proof using All.
  intros Hw. unfold wrap_for_new_member, publish_event, persisted in *. cbv zeta. sv_go Haead.
Qed.
Lemma sv_insert_member c r w : persisted w → persisted (insert_member c r w).
Proof using All. intros Hw. unfold insert_member, persisted in *. sv_go Haead. Qed.
Lemma sv_cache_dm_peer r w : persisted w → persisted (cache_dm_peer r w).
Proof using All. intros Hw. unfold cache_dm_peer, persisted in *. sv_go Haead. Qed.
Lemma sv_sync_member c r w : persisted w → persisted (sync_member_to_store c r w).
Proof using All. intros Hw. unfold sync_member_to_store, persisted in *. cbv zeta. sv_go Haead. Qed.
Lemma sv_wrap_keys c r w : persisted w → persisted (wrap_keys_as_admin c r w).
Proof using All.
  intros Hw. unfold wrap_keys_as_admin. destruct (_ !! _); [|done]. case_bool_decide; [|done].
  apply sv_fold; [done|]. intros. by apply sv_wrap_new.
Qed.
Lemma sv_member_joined r w : persisted w → persisted (handle_member_joined r w).
Proof using All.
  intros Hw. unfold handle_member_joined. destruct (negb _); [done|]. cbv zeta. destruct (is_banned _ _ w); [done|].
  by apply sv_emit, sv_wrap_keys, sv_sync_member, sv_cache_dm_peer, sv_insert_member.
Qed.
Lemma sv_member_left p w : persisted w → persisted (handle_member_left p w).
Proof using All. intros Hw. unfold handle_member_left, persisted in *. cbv zeta. sv_go Haead. Qed.
Lemma sv_role_updated p w : persisted w → persisted (handle_member_role_updated p w).
Proof using All. intros Hw. unfold handle_member_role_updated, persisted in *. cbv zeta. sv_go Haead. Qed.
Lemma sv_presence hb w : persisted w → persisted (handle_presence_heartbeat hb w).
Proof using All. intros Hw. unfold handle_presence_heartbeat, persisted in *. cbv zeta. sv_go Haead. Qed.
Lemma sv_community_message data source w w' :
  persisted w → handle_community_message data source w = Done w' → persisted w'.
Proof using All.
  intros Hw. unfold handle_community_message. destruct (from_bytes data) as [[]|]; try (by intros [= <-]).
  - intros [= <-]. by apply sv_member_joined.
  - intros [= <-]. by apply sv_member_left.
  - by apply sv_manifest_update.
  - intros [= <-]. by apply sv_presence.
  - intros [= <-]. by apply sv_channel_manifest.
  - intros [= <-]. by apply sv_role_updated.
Qed.

(** ** Manifests *)

(** A key that is replaced is kept and its channel listed, so an empty list means that the
    previous keys are as they were. *)
Lemma unwrap_rotated uid sk acc ch :
  acc.2 = [] → (unwrap_one uid sk acc ch).2 = [] → (unwrap_one uid sk acc ch).1.2 = acc.1.2.
Proof using Type.
  destruct acc as [[keys prev] rotated]. cbn. intros ->. destruct (_ !! uid); [|done].
  destruct (decrypt_for_self _ _); [|done]. destruct (keys !! _); [|done]. by case_bool_decide.
Qed.
Lemma unwrap_fold_rotated uid sk chs acc :
  (foldl (unwrap_one uid sk) acc chs).2 = [] →
  acc.2 = [] ∧ (foldl (unwrap_one uid sk) acc chs).1.2 = acc.1.2.
Proof using Type.
  revert acc; induction chs as [|ch chs IH]; intros acc Hr; [done|]. cbn [foldl] in *.
  destruct (IH _ Hr) as [Hu Hp]. rewrite Hp. assert (acc.2 = []) as Ha.
  { destruct acc as [[keys prev] rotated]. revert Hu. cbn. destruct (_ !! uid); [|done].
    destruct (decrypt_for_self _ _); [|done]. destruct (keys !! _); [|done]. case_bool_decide; [done|].
    cbn. by intros [_ [=]]%app_eq_nil. }
  split; [done|]. by apply unwrap_rotated.
Qed.
Lemma sv_receive_keys pk chs plain w : persisted w → persisted (receive_keys pk chs plain w).1.
Proof using All.
  intros Hw. unfold receive_keys. cbv zeta. set (start := (_, _, [])).
  assert ((if bool_decide (pk = own_pk w) then start
           else foldl (unwrap_one (own_user_id w) (own_x25519_sk w)) start chs).2 = [] →
          (if bool_decide (pk = own_pk w) then start
           else foldl (unwrap_one (own_user_id w) (own_x25519_sk w)) start chs).1.2 =
          app_previous_channel_keys (w_app w)) as Hprev.
  { case_bool_decide; [done|]. intros Hr. by apply unwrap_fold_rotated. }
  destruct (if bool_decide _ then _ else _) as [[keys prev] rotated]. cbn [fst snd] in *.
  destruct rotated as [|id rotated].
  - rewrite Hprev by done. apply (sv_save_channel_keys Haead).
    apply (sv_step _ w); [done..| |by apply sv_open]. intros [] Hn; try done.
    exfalso. apply Hn. by left.
  - apply (sv_save_previous Haead), (sv_save_channel_keys Haead).
    apply (sv_step _ w); [done..| |by do 2 apply sv_open]. intros [] Hn; try done.
    + exfalso. apply Hn. by left.
    + exfalso. apply Hn. right. by left.
Qed.
Lemma sv_install from s chs plain w : persisted w → persisted (install_manifest from s chs plain w).1.
Proof using All.
  intros Hw. unfold install_manifest. cbv zeta. apply sv_receive_keys. unfold register_peer, persisted in *. cbv zeta.
  sv_go Haead.
Qed.
Lemma sv_and_then (h : Handled T) f w' :
  (∀ w, h = Done w → persisted w) → (∀ w, persisted w → f w = Done w' → persisted w') →
  and_then h f = Done w' → persisted w'.
Proof using Type. destruct h; cbn; eauto; done. Qed.
Lemma sv_replay buffered w w' : persisted w → replay buffered w = Done w' → persisted w'.
Proof using All.
  revert w; induction buffered as [|[topic data] l IH]; intros w Hw; cbn; [by intros [= <-]|].
  apply sv_and_then; [|done]. intros w1. by apply sv_channel_message.
Qed.
Lemma sv_drain rotated w w' : persisted w → drain rotated w = Done w' → persisted w'.
Proof using All.
  revert w; induction rotated as [|id rotated IH]; intros w Hw; cbn; [by intros [= <-]|].
  destruct (_ !! id); [|by apply IH]. apply sv_and_then; [|done]. intros w1. apply sv_replay.
  unfold persisted in *. sv_go Haead.
Qed.
Lemma sv_upsert c ms w : persisted w → persisted (upsert_members c ms w).
Proof using All.
  intros Hw. unfold upsert_members. destruct ms as [|m ms]; [done|]. cbv zeta. unfold persisted in *. sv_go Haead.
Qed.

(** Until some channel gets a key, the channels are as they were. *)
Lemma sv_wrap_channel topic keys ms (acc : World T * bool) id :
  (if acc.2 then sv [TChannels] acc.1 else persisted acc.1) →
  let acc' := wrap_channel_for_members topic keys ms acc id in
  if acc'.2 then sv [TChannels] acc'.1 else persisted acc'.1.
Proof using All.
  destruct acc as [w any]. unfold wrap_channel_for_members. cbn [fst snd]. intros Hw.
  destruct (keys !! id) as [key|]; [|done]. destruct (app_channels (w_app w) !! id) as [ch|] eqn:Hch; [|done].
  pose proof (wrap_for_member_fold key ms w ch false) as Hf.
  destruct (foldl _ _ ms) as [[w' ch'] up']. destruct Hf as (Happ & Hd & Hok & _ & Hup).
  assert (∀ S, sv S w → sv S w') as Hww.
  { intros S. apply sv_step; [done|done|by rewrite Happ|]. intros t _. rewrite Happ. by destruct t. }
  destruct up'; cbn [fst snd].
  - apply sv_publish, sv_touch; [by intros ? []|done|]. destruct any; [by apply Hww|by apply sv_open, Hww].
  - destruct Hup as [-> _]; [done|].
    assert (∀ S, sv S w' → sv S (upd (λ a, set_channels (<[id := ch]> (app_channels a)) a) w')) as Hsame.
    { intros S. apply sv_step; [done..|]. intros [] _; try done. cbn. rewrite Happ. by rewrite insert_id. }
    destruct any; by apply Hsame, Hww.
Qed.
Lemma sv_wrap_absent c pk ids w : persisted w → persisted (wrap_for_absent_members c pk ids w).
Proof using All.
  intros Hw. unfold wrap_for_absent_members. case_bool_decide; [|done]. cbv zeta.
  set (ms := (hash_order _).*2). set (keys := app_channel_keys (w_app w)). set (topic := community_topic c).
  assert (let acc := foldl (wrap_channel_for_members topic keys ms) (w, false) ids in
          if acc.2 then sv [TChannels] acc.1 else persisted acc.1) as Hf.
  { assert (let acc := (w, false) in if acc.2 then sv [TChannels] acc.1 else persisted acc.1) as Hstart by done.
    revert Hstart. generalize (w, false). induction ids as [|i ids IH]; intros acc Hacc; [done|]. cbn [foldl].
    by apply IH, sv_wrap_channel. }
  cbv zeta in Hf. destruct (foldl _ _ ids) as [w' []]; cbn [fst snd] in Hf; [|done].
  by apply (sv_save_channels Haead).
Qed.
Lemma sv_announce now c m w : persisted w → persisted (announce_self now c m w).
Proof using All.
  intros Hw. unfold announce_self. destruct (member_of _ _ w); [|done]. by apply sv_publish, sv_member_joined.
Qed.
Lemma sv_finish now from s chs rotated ms refetch w :
  persisted w → persisted (finish_manifest now from s chs rotated ms refetch w).
Proof using All.
  intros Hw. unfold finish_manifest. cbv zeta. set (wr := retry_rotation _ _ _ _ _ w).
  assert (persisted wr) as Hr by (subst wr; unfold retry_rotation, persisted in *; cbv zeta; sv_go Haead).
  set (wa := announce_self _ _ _ _). assert (persisted wa) as Ha.
  { apply sv_announce, sv_emit, sv_fold; [|intros; by apply sv_emit]. by apply sv_wrap_absent, sv_upsert, sv_on_store. }
  destruct refetch; [by apply sv_emit|]. apply sv_fold; [by apply sv_emit|].
  intros. unfold sync_history. cbv zeta. by apply sv_fetch_history.
Qed.
Lemma sv_manifest_received now from s chs plain ms w w' :
  persisted w → handle_manifest_received now from s chs plain ms w = Done w' → persisted w'.
Proof using All.
  intros Hw. unfold handle_manifest_received. destruct (manifest_verify s) as [[]|]; [|by intros [= <-]|done].
  cbv zeta. set (w0 := manifest_pending_done _ _ w).
  assert (persisted w0) as Hw0 by (subst w0; unfold manifest_pending_done, persisted in *; sv_go Haead).
  destruct (cm_deleted _). { intros [= <-]. by apply sv_emit, sv_remove_local. }
  pose proof (sv_install from s chs plain w0 Hw0) as Hi.
  destruct (install_manifest _ _ _ _ _) as [w2 rotated]. cbn [fst] in Hi.
  apply sv_and_then; [intros w3; by apply sv_drain|]. intros w3 Hw3 [= <-]. by apply sv_finish.
Qed.

(** ** The loop *)

Lemma sv_peer_connected peer c S w : sv S w → sv S (handle_peer_connected peer c w).
Proof using All.
  intros Hw. unfold handle_peer_connected, update_peer_count. cbv zeta. apply sv_fold.
  - sv_go Haead.
  - intros w1 [c1 s] _ Hw1. unfold publish_community. destruct (negb _); [done|]. cbv zeta.
    set (w2 := foldl _ _ (cm_channel_ids _)). assert (sv S w2) as Hw2.
    { apply sv_fold; [by apply sv_publish|]. intros w3 x _ Hw3. destruct (_ !! _); [by apply sv_publish|done]. }
    destruct (_ !! _); [|done]. apply sv_fold; [done|]. intros. by apply sv_publish.
Qed.
Lemma sv_dm_received now e pk w : persisted w → persisted (handle_dm_received now e pk w).
Proof using All.
  intros Hw. unfold handle_dm_received. destruct (negb _); [done|].
  destruct (from_bytes (le_ciphertext e)) as [env|]; [|done]. destruct (open env _); [|done].
  destruct (read_dm _) as [[[body reply] pid]|]; [|done]. set (msg := mkDmInfo _ _ _ _ _ _ _). cbv zeta.
  destruct (any _ _) eqn:Hany; [|unfold persisted in *; sv_go Haead].
  revert Hw. apply sv_step; [done..|]. intros [] _; try done. cbn.
  destruct (app_dms (w_app w) !! le_author_id e) as [l|] eqn:Hl; cbn; [by rewrite insert_id|done].
Qed.
Lemma sv_listen_addr ifaces addr S w : sv S w → sv S (handle_new_listen_addr ifaces addr w).
Proof using All.
  intros Hw. unfold handle_new_listen_addr.
  assert (∀ l (acc : World T * bool), sv S acc.1 → sv S (foldl record_listen_addr acc l).1) as Hf.
  { induction l as [|a l IH]; intros [w0 b] Hacc; [done|]. cbn [foldl fst] in *. apply IH.
    unfold record_listen_addr. cbv zeta. set (w1 := if bool_decide _ then w0 else _).
    assert (sv S w1) as Hw1 by (subst w1; sv_go Haead). destruct (is_publicly_routable a); [|done].
    destruct (app_public_addr (w_app w1)); [done|]. cbn [fst]. sv_go Haead. }
  specialize (Hf (expand_wildcard_addr ifaces addr) (w, false) Hw).
  destruct (foldl _ _ _) as [w1 public]. cbn [fst] in Hf. destruct public; [|done]. cbv zeta.
  unfold spawn_own_info. sv_go Haead.
Qed.

(** Every event but the placeholder of a community that is being joined. *)
Definition saved_event (ev : SwarmEvent) : bool := match ev with CommunityJoined _ _ => false | _ => true end.

Lemma sv_event cx ev w w' :
  persisted w → saved_event ev = true → process_swarm_event cx ev w = Done w' → persisted w'.
Proof using All.
  intros Hw Hev Hp%process_done. revert Hp. destruct ev; cbn [handle_swarm_event saved_event] in *; try (intros [= <-]).
  - by apply sv_peer_connected.
  - unfold handle_lan_peer, persisted in *. sv_go Haead.
  - unfold handle_peer_disconnected, update_peer_count, persisted in *. sv_go Haead.
  - unfold handle_message_received. destruct (String.prefix "/bitcord/channel/" topic).
    { by apply sv_channel_message. }
    destruct (String.prefix _ topic); [by apply sv_community_message|by intros [= <-]].
  - by apply sv_listen_addr.
  - by apply sv_dm_received.
  - by apply sv_manifest_received.
  - by apply sv_history.
  - done.
  - by apply sv_emit, sv_remove_local.
  - unfold handle_manifest_not_found, persisted in *. sv_go Haead.
  - unfold handle_seed_connected, seed_status, persisted in *. cbv zeta. sv_go Haead.
  - unfold handle_seed_disconnected, seed_status, persisted in *. sv_go Haead.
  - by apply sv_emit.
  - unfold handle_peer_addr_known, spawn_own_info, persisted in *. sv_go Haead.
  - done.
Qed.
Lemma sv_events evs w w' :
  persisted w → (∀ cx ev, (cx, ev) ∈ evs → saved_event ev = true) → process_swarm_events evs w = Done w' → persisted w'.
Proof using All.
  revert w; induction evs as [|[cx ev] evs IH]; intros w Hw Hs; cbn; [by intros [= <-]|].
  destruct (process_swarm_event cx ev w) as [w1| | |] eqn:Hev; cbn; [|done..]. apply IH.
  - eapply sv_event; [done|by eapply Hs; left|done].
  - intros cx' ev' Hin. apply (Hs cx' ev'). by right.
Qed.

(** The tables that [AppState::new] reads back. *)
Definition same_tables (a a' : AppState T) : Prop := ∀ t, same_table t a a'.
Lemma load_same sc w : persisted w → sc_encryption_key sc = app_encryption_key (w_app w) →
  same_tables (load_state sc (w_disk w)) (w_app w).
Proof using Type.
  intros [_ Ht] Hk t. specialize (Ht t (not_elem_of_nil t)). unfold on_disk in Ht.
  rewrite <- Hk in Ht. by destruct t.
Qed.

(** C23: nothing is lost by a restart. Whatever events are handled (a community that is being
    joined apart, whose placeholder is not written), the client started again from its data
    directory has the communities, channels, keys, members, direct messages, bans and read
    positions it had when it stopped. *)
Theorem tables_survive_restart sc evs w w' :
  persisted w → (∀ cx ev, (cx, ev) ∈ evs → saved_event ev = true) →
  process_swarm_events evs w = Done w' → sc_encryption_key sc = app_encryption_key (w_app w') →
  same_tables (load_state sc (w_disk w')) (w_app w').
Proof using All. intros Hw Hs He Hk. apply load_same; [|done]. by eapply sv_events. Qed.
End durable_events.
