(* ===== verification/Rpc.v ===== *)
(** * The JSON-RPC server: [bitcord-core/src/api/rpc_server/mod.rs] and [api/types.rs]

    A method takes its parsed parameters and runs on the state of the client: it replies,
    fails with an error code, or panics, and the state it has changed by then stays changed.
    [Rpc] is that monad. What a method reads from the environment is a [RpcEnv]: the clock,
    once for every reading, fresh identifiers and the machine's own addresses. The texts that libraries add to error
    messages are left out. *)

From S2P Require Import Prelude Bytes Config Redb Routing Crypto Codec Model ClientState Store DhtNode Handler.
From S2P Require Import AppState ChannelEvents CommunityEvents.

(** ** Methods *)

Inductive RpcResult (A : Type) :=
  | Reply (a : A)
  | Fail (code : Z) (message : string)
  | Crash.
Arguments Reply {A} a.
Arguments Fail {A} code message.
Arguments Crash {A}.

Definition Rpc (T A : Type) : Type := World T → RpcResult A * World T.
#[export] Instance rpc_ret {T} : MRet (Rpc T) := λ A a w, (Reply a, w).
#[export] Instance rpc_bind {T} : MBind (Rpc T) := λ A B k m w,
  match m w with
  | (Reply a, w') => k a w'
  | (Fail code msg, w') => (Fail code msg, w')
  | (Crash, w') => (Crash, w')
  end.

Section errors.
Context {T A : Type}.
Definition rpc_error (code : Z) (msg : string) : Rpc T A := λ w, (Fail code msg, w).
Definition internal_err : string → Rpc T A := rpc_error (-32603).
Definition not_found : string → Rpc T A := rpc_error (-32001).
Definition invalid_params : string → Rpc T A := rpc_error (-32602).
Definition forbidden : string → Rpc T A := rpc_error (-32003).
Definition seed_unavailable : Rpc T A :=
  rpc_error (-32004) "seed peer is not connected — this community is currently unreachable".
Definition panic : Rpc T A := λ w, (Crash, w).
End errors.

Definition gets {T A} (f : World T → A) : Rpc T A := λ w, (Reply (f w), w).
Definition step {T} (f : World T → World T) : Rpc T unit := λ w, (Reply tt, f w).
(** [ok_or_else(..)?], and an early return unless [b]. *)
Definition need {T A} (o : option A) (e : Rpc T A) : Rpc T A :=
  match o with Some a => mret a | None => e end.
Definition check {T} (b : bool) (e : Rpc T unit) : Rpc T unit := if b then mret tt else e.

Record RpcEnv := mkRpcEnv { rx_now : nat → DateTime; rx_fresh : Ulid; rx_own_ips : list IpAddr }.

(** ** [api/types.rs]: parameters and results *)

Inductive ChannelKindDto := TextDto | AnnouncementDto | VoiceDto.
Inductive RoleDto := AdminDto | ModeratorDto | MemberDto.

Record ChannelInfo := mkChannelInfo {
  ci_id : string; ci_community_id : string; ci_name : string; ci_kind : ChannelKindDto;
  ci_version : Z; ci_created_at : DateTime }.
Record CreateChannelParams := mkCreateChannel {
  ccp_community_id : string; ccp_name : string; ccp_kind : ChannelKindDto }.
Record DeleteChannelParams := mkDeleteChannel { dcp_community_id : string; dcp_channel_id : string }.
Record RotateKeyParams := mkRotateKey { rkp_community_id : string; rkp_channel_id : string }.
Record ReorderChannelsParams := mkReorder { rop_community_id : string; rop_channel_ids : list string }.

Record MessageInfo := mkMessageInfo {
  mi_id : string; mi_channel_id : string; mi_community_id : string; mi_author_id : string;
  mi_timestamp : DateTime; mi_body : string; mi_reply_to : option string;
  mi_edited_at : option DateTime; mi_deleted : bool; mi_reactions : list ReactionInfo }.
Record SendMessageParams := mkSendMessage {
  smp_community_id : string; smp_channel_id : string; smp_body : string; smp_reply_to : option string }.
Record EditMessageParams := mkEditMessage {
  emp_community_id : string; emp_channel_id : string; emp_message_id : string; emp_body : string }.
Record DeleteMessageParams := mkDeleteMessage {
  dmp_community_id : string; dmp_channel_id : string; dmp_message_id : string }.
Record GetHistoryParams := mkGetHistory {
  ghp_community_id : string; ghp_channel_id : string; ghp_before : option string; ghp_limit : option Z }.
Record ReactionParams := mkReactionParams {
  rp_community_id : string; rp_channel_id : string; rp_message_id : string; rp_emoji : string }.
Record MarkReadParams := mkMarkRead {
  mrp_community_id : string; mrp_channel_id : string; mrp_message_id : string }.
Record SetStatusParams := mkSetStatus { ssp_status : UserStatus }.

Record MemberInfo := mkMemberInfo {
  mbi_user_id : string; mbi_display_name : string; mbi_avatar_cid : option string;
  mbi_roles : list RoleDto; mbi_joined_at : DateTime; mbi_public_key_hex : string;
  mbi_status : UserStatus }.
Record KickBanParams := mkKickBan { kbp_community_id : string; kbp_user_id : string; kbp_reason : option string }.
Record UpdateRoleParams := mkUpdateRole { urp_community_id : string; urp_user_id : string; urp_role : RoleDto }.

Record SendDmParams := mkSendDm { sdp_peer_id : string; sdp_body : string; sdp_reply_to : option string }.
Record GetDmHistoryParams := mkGetDmHistory {
  gdp_peer_id : string; gdp_before : option string; gdp_limit : option Z }.
Record DiscardDmParams := mkDiscardDm { ddp_peer_id : string; ddp_message_id : string }.

Record CommunityInfo := mkCommunityInfo {
  coi_id : string; coi_name : string; coi_description : string; coi_public_key_hex : string;
  coi_admin_ids : list string; coi_channel_ids : list string; coi_seed_nodes : list string;
  coi_version : Z; coi_created_at : DateTime; coi_reachable : bool; coi_seeded : bool }.
Record CreateCommunityParams := mkCreateCommunity {
  cop_name : string; cop_description : string; cop_seed_nodes : list string;
  cop_hosting_password : option string; cop_seed_fingerprint_hex : option string }.
Record JoinCommunityParams := mkJoinCommunity { jcp_invite : string; jcp_hosting_password : option string }.
Record UpdateManifestParams := mkUpdateManifest {
  ump_community_id : string; ump_name : option string; ump_description : option string;
  ump_seed_nodes : option (list string); ump_seed_fingerprint_hex : option string }.

(** ** Helpers *)

(** Whether the byte at which a slice ends is inside of a character. *)
Definition inside_char (s : string) : bool :=
  match s with
  | String c _ => let b := Z.of_nat (Ascii.nat_of_ascii c) in (128 <=? b) && (b <=? 191)
  | EmptyString => false
  end.
(** [(0..n).step_by(2).map(|i| u8::from_str_radix(&s[i..i + 2], 16)).collect::<Result<_, _>>()]:
    [None] when a slice panics. *)
Fixpoint hex_slices (s : string) : option (option bytes) :=
  match s with
  | EmptyString => Some (Some [])
  | String c1 (String c2 s') =>
      if inside_char s' then None
      else
        match parse_hex_pair c1 c2 with
        | Some b => match hex_slices s' with Some r => Some (cons b <$> r) | None => None end
        | None => Some None
        end
  | String _ EmptyString => None
  end.
Definition parse_fingerprint_hex (h : string) : option (option bytes) :=
  if negb (String.length h =? 64)%nat then Some None else hex_slices h.

Section helpers.
Context {T : Type} `{Crypto} `{Table T} `{NodeCodecs} `{HashOrder} `{UlidText} `{UlidParse}.
Context `{Entropy} `{AppCodecs}.
Implicit Types w : World T.

Definition we_are_seed (seed_nodes : list string) w : bool :=
  match seed_nodes with
  | [] => false
  | _ =>
      match app_public_addr (w_app w) with
      | Some pub_addr => bool_decide (pub_addr ∈ seed_nodes)
      | None => false
      end
      || any (λ s, bool_decide (s ∈ app_actual_listen_addrs (w_app w))) seed_nodes
  end.

Definition require_seed_connected (community_id : string) : Rpc T unit :=
  signed ← gets (λ w, app_communities (w_app w) !! community_id);
  signed ← need signed (not_found "community not found");
  let seed_nodes := cm_seed_nodes (sm_manifest signed) in
  match seed_nodes with
  | [] => mret tt
  | _ =>
      own ← gets (we_are_seed seed_nodes);
      if own : bool then mret tt
      else
        connected ← gets (λ w, bool_decide (community_id ∈ app_seed_connected_communities (w_app w)));
        check connected seed_unavailable
  end.

Definition channel_manifest_to_info (m : ChannelManifest) : ChannelInfo :=
  mkChannelInfo (ulid_to_string (ch_id m)) (ulid_to_string (ch_community_id m)) (ch_name m)
    match ch_kind m with Text => TextDto | Announcement => AnnouncementDto | Voice => VoiceDto end
    (ch_version m) (ch_created_at m).

(** The steps that several methods share. *)
Definition publish (topic : string) (event : NetworkEvent) : Rpc T unit := step (publish_event topic event).
Definition notify (e : PushEvent) : Rpc T unit := step (broadcast e).

(** A nonce is drawn, then the plaintext is encrypted with the channel key. *)
Definition encrypt_content (what : string) (key : bytes) (content : MessageContent) : Rpc T (bytes * bytes) :=
  plaintext ← need (to_allocvec content) (internal_err ("serialize " ++ what));
  nonce ← gets (λ w, rng24 (w_draws w));
  step draw;;
  need (result_ok (encrypt_message key nonce plaintext)) (internal_err ("encrypt " ++ what)).

(** The key of every member of the community that it can be wrapped for. *)
Definition wrap_for_members (community_id : string) (key : bytes) : Rpc T (gmap bytes bytes) := λ w,
  let list := (hash_order (default ∅ (app_members (w_app w) !! community_id))).*2 in
  let '(w, m) := foldl (λ '(w, m) r,
      match encrypt_for_member key (rng32 (w_draws w)) (rng24 (w_draws w)) (mr_x25519_public_key r) with
      | Ok wrapped => (draw w, <[mr_user_id r := wrapped]> m)
      | Err _ => (draw w, m)
      end) (w, ∅) list in
  (Reply m, w).
End helpers.

(** ** Running a method *)

Section running.
Context {T : Type}.

Lemma rpc_bind_reply {A B} (m : Rpc T A) (k : A → Rpc T B) w b w' :
  (m ≫= k) w = (Reply b, w') ↔ ∃ a w1, m w = (Reply a, w1) ∧ k a w1 = (Reply b, w').
Proof.
  unfold mbind, rpc_bind. destruct (m w) as [[a|c s|] w1].
  all: split; [intros Hk; try discriminate Hk; by eexists _, _|by intros (? & ? & [=] & Hk); subst].
Qed.
Lemma rpc_bind_fail {A B} (m : Rpc T A) (k : A → Rpc T B) w c s w' :
  (m ≫= k) w = (Fail c s, w') ↔
  m w = (Fail c s, w') ∨ ∃ a w1, m w = (Reply a, w1) ∧ k a w1 = (Fail c s, w').
Proof.
  unfold mbind, rpc_bind. destruct (m w) as [[a|c' s'|] w1].
  all: split; [intros Hk; try discriminate Hk|by intros [[=]|(? & ? & [=] & Hk)]; subst].
  - right. by eexists _, _.
  - left. by injection Hk as <- <- <-.
Qed.
Lemma gets_reply {A} (f : World T → A) w a w' : gets f w = (Reply a, w') ↔ a = f w ∧ w' = w.
Proof. unfold gets. split; [by intros [= <- <-]|by intros [-> ->]]. Qed.
Lemma step_reply f (w : World T) a w' : step f w = (Reply a, w') ↔ w' = f w.
Proof. unfold step. destruct a. split; [by intros [= <-]|by intros ->]. Qed.
Lemma ret_reply {A} (a : A) (w : World T) b w' : mret (M := Rpc T) a w = (Reply b, w') ↔ b = a ∧ w' = w.
Proof. unfold mret, rpc_ret. split; [by intros [= <- <-]|by intros [-> ->]]. Qed.
Lemma need_reply {A} (o : option A) c s (w : World T) a w' :
  need o (rpc_error c s) w = (Reply a, w') ↔ o = Some a ∧ w' = w.
Proof. destruct o; cbn; [rewrite ret_reply|]; split; try done; naive_solver. Qed.
Lemma check_reply b c s (w : World T) a w' : check b (rpc_error c s) w = (Reply a, w') ↔ b = true ∧ w' = w.
Proof. destruct a, b; cbn; [rewrite ret_reply|]; split; try done; naive_solver. Qed.
Lemma need_fail {A} (o : option A) c s (w : World T) c' s' w' :
  need o (rpc_error c s) w = (Fail c' s', w') ↔ o = None ∧ c' = c ∧ s' = s ∧ w' = w.
Proof. unfold rpc_error. destruct o; cbn; (split; [intros [=]|intros (? & ? & ? & ?)]); by subst. Qed.
Lemma check_fail b c s (w : World T) c' s' w' :
  check b (rpc_error c s) w = (Fail c' s', w') ↔ b = false ∧ c' = c ∧ s' = s ∧ w' = w.
Proof. unfold rpc_error. destruct b; cbn; (split; [intros [=]|intros (? & ? & ? & ?)]); by subst. Qed.
End running.

(** ** Refusals *)

Section refusals.
Context {T : Type} `{Crypto} `{Table T} `{NodeCodecs} `{HashOrder} `{UlidText} `{UlidParse}.
Context `{Entropy} `{AppCodecs}.
Implicit Types w : World T.

(** A refusal: the error code and text of a method that changes nothing. *)
Definition refusal : Type := option (Z * string).
Definition refuse (r : refusal) : RpcResult unit :=
  match r with Some (code, msg) => Fail code msg | None => Reply tt end.
Lemma rpc_bind_refuse {B} (m : Rpc T unit) (k : unit → Rpc T B) w r :
  m w = (refuse r, w) →
  (m ≫= k) w = match r with Some (code, msg) => (Fail code msg, w) | None => k tt w end.
Proof using Type. unfold mbind, rpc_bind. intros ->. by destruct r as [[]|]. Qed.
Lemma rpc_bind_ok {A B} (m : Rpc T A) (k : A → Rpc T B) w a w' :
  m w = (Reply a, w') → (m ≫= k) w = k a w'.
Proof using Type. unfold mbind, rpc_bind. by intros ->. Qed.
Lemma rpc_bind_err {A B} (m : Rpc T A) (k : A → Rpc T B) w c s w' :
  m w = (Fail c s, w') → (m ≫= k) w = (Fail c s, w').
Proof using Type. unfold mbind, rpc_bind. by intros ->. Qed.
Lemma rpc_bind_crash {A B} (m : Rpc T A) (k : A → Rpc T B) w w' :
  m w = (Crash, w') → (m ≫= k) w = (Crash, w').
Proof using Type. unfold mbind, rpc_bind. by intros ->. Qed.
Definition or_else (r r' : refusal) : refusal := match r with Some _ => r | None => r' end.
Definition unless (b : bool) (code : Z) (msg : string) : refusal := if b then None else Some (code, msg).

Definition if_none {A} (o : option A) (code : Z) (msg : string) : refusal :=
  match o with Some _ => None | None => Some (code, msg) end.
Definition seed_refusal (community_id : string) w : refusal :=
  match app_communities (w_app w) !! community_id with
  | None => Some (-32001, "community not found"%string)
  | Some signed =>
      let seeds := cm_seed_nodes (sm_manifest signed) in
      unless (bool_decide (seeds = []) || we_are_seed seeds w
              || bool_decide (community_id ∈ app_seed_connected_communities (w_app w)))
        (-32004) "seed peer is not connected — this community is currently unreachable"
  end.
Lemma check_spec b c s w : check b (rpc_error c s) w = (refuse (unless b c s), w).
Proof using Type. by destruct b. Qed.
Lemma require_seed_spec c w : require_seed_connected c w = (refuse (seed_refusal c w), w).
Proof using Type.
  unfold require_seed_connected, seed_refusal, mbind, rpc_bind, gets.
  destruct (app_communities (w_app w) !! c) as [s|]; [|done]. cbn.
  destruct (cm_seed_nodes (sm_manifest s)) as [|x l]; [done|]. rewrite (bool_decide_eq_false_2 (_ = [])) by done.
  destruct (we_are_seed _ w); [done|]. by case_bool_decide.
Qed.
End refusals.

(** Steps that always succeed. *)
Section steps.
Context {T : Type} `{AppCodecsLaws}.
Implicit Types w : World T.

Lemma step_run (f : World T → World T) w : step f w = (Reply tt, f w).
Proof using Type. done. Qed.
Lemma gets_run {A} (f : World T → A) w : gets f w = (Reply (f w), w).
Proof using Type. done. Qed.
Lemma publish_run (Hevent : ∀ e : NetworkEvent, is_Some (to_allocvec e)) topic e w :
  ∃ data, publish topic e w = (Reply tt, command (CmdPublish topic data) w) ∧ from_bytes data = Some e.
Proof using Type*.
  unfold publish, step, publish_event. destruct (Hevent e) as [data Hd]. rewrite Hd. exists data.
  split; [done|]. by apply postcard_roundtrip.
Qed.
End steps.

(** One step of a method that replied. *)
Ltac rpc_inv1 H :=
  first
    [ apply rpc_bind_reply in H; let a := fresh "a" in let w1 := fresh "w" in let H1 := fresh "H" in
      destruct H as (a & w1 & H1 & H); rpc_inv1 H1
    | apply gets_reply in H; destruct H as [-> ->]
    | apply step_reply in H; subst
    | apply ret_reply in H; destruct H as [-> ->]
    | apply need_reply in H; destruct H as [H ->]
    | apply check_reply in H; destruct H as [H ->]
    | idtac ].
