(* ===== verification/Passphrase.v ===== *)
(** * Changing the passphrase: [identity_change_passphrase] of
    [bitcord-core/src/api/rpc_server/identity.rs]

    The keystore file lies in the data directory, under the path that the configuration
    names. *)

From S2P Require Import Prelude Bytes Config Redb Routing Crypto Utf8 Codec Model Store DhtNode Handler AppState Identity Rpc.

Record ChangePassphraseParams := mkChangePassphrase { old_passphrase : string; new_passphrase : string }.

Section passphrase.
Context {T : Type} `{Crypto} `{Argon2} `{Entropy}.
Implicit Types w : World T.

Definition disk_of w : Disk := mkDisk (w_disk w) (w_disk_ok w).
Definition with_disk (d : Disk) w : World T := mkWorld (w_app w) (disk_files d) (disk_ok d) (w_out w) (w_draws w).
Definition identity_path w : string := cfg_identity_path (app_config (w_app w)).

(** [KeyStore::save] draws its salt, then its nonce. *)
Definition rpc_keystore_save (id : NodeIdentity) (passphrase : string) : Rpc T unit := λ w,
  let drawn := draw (draw w) in
  match keystore_save (identity_path w) id passphrase (rng32 (w_draws w)) (rng24 (S (w_draws w))) (disk_of w) with
  | Ok d => (Reply tt, with_disk d drawn)
  | Err e => internal_err ("failed to save keystore: " ++ e)%string drawn
  end.

Definition identity_change_passphrase (p : ChangePassphraseParams) : Rpc T bool :=
  check (8 <=? String.length (new_passphrase p))%nat (invalid_params "new passphrase must be at least 8 characters");;
  loaded ← gets (λ w, keystore_load (identity_path w) (old_passphrase p) (disk_of w));
  need (result_ok loaded) (invalid_params "incorrect current passphrase");;
  sk ← gets (λ w, app_signing_key (w_app w));
  rpc_keystore_save (from_signing_key_bytes sk) (new_passphrase p);;
  mret true.
End passphrase.

Section passphrase_props.
Context {T : Type} `{CryptoLaws} `{Argon2} `{EntropyLaws}.
Implicit Types w : World T.

(** The outcome: refused without change unless the new passphrase has eight bytes and the
    old one opens the keystore; then only the keystore file changes, and the new passphrase
    opens it to the key of the running node. *)
Lemma change_passphrase_spec p w w' b :
  length (app_signing_key (w_app w)) = 32%nat → w_disk_ok w = true →
  (∀ n, is_Some (aead_encrypt (derive_key (new_passphrase p) (rng32 (w_draws w))) n (app_signing_key (w_app w)))) →
  identity_change_passphrase p w = (b, w') →
  if (8 <=? String.length (new_passphrase p))%nat && is_ok (keystore_load (identity_path w) (old_passphrase p) (disk_of w))
  then b = Reply true ∧ w_app w' = w_app w ∧ w_out w' = w_out w ∧
    keystore_load (identity_path w) (new_passphrase p) (disk_of w') = Ok (from_signing_key_bytes (app_signing_key (w_app w))) ∧
    (∀ f, f ≠ identity_path w → w_disk w' !! f = w_disk w !! f) ∧
    w_disk w' !! identity_path w =
      result_ok (seal_key "Encryption failed" (from_signing_key_bytes (app_signing_key (w_app w))) (new_passphrase p)
                   (rng32 (w_draws w)) (rng24 (S (w_draws w))))
  else w' = w ∧ ∃ msg, b = Fail (-32602) msg.
Proof.
  intros Hsk Hok Henc. unfold identity_change_passphrase. unfold check, need, gets, mbind, rpc_bind.
  destruct (8 <=? String.length (new_passphrase p))%nat; cbn; [|intros [= <- <-]; split; [done|by eexists]].
  destruct (keystore_load (identity_path w) (old_passphrase p) (disk_of w)) as [id|e]; cbn; [|intros [= <- <-]; split; [done|by eexists]].
  unfold rpc_keystore_save, keystore_save. set (salt := rng32 (w_draws w)). set (nonce := rng24 (S (w_draws w))).
  destruct (Henc nonce) as [c Hc].
  destruct (seal_key "Encryption failed" (from_signing_key_bytes (app_signing_key (w_app w))) (new_passphrase p) salt nonce) as [blob|] eqn:Hb.
  2:{ unfold seal_key in Hb. cbn in Hb. fold salt in Hc. by rewrite Hc in Hb. }
  cbn. unfold disk_write. cbn. rewrite Hok. intros [= <- <-]. cbn. split; [done|]. split; [done|]. split; [done|]. split.
  - unfold keystore_load. cbn. rewrite lookup_insert_eq.
    by apply (sealed_key_opens "Encryption failed" _ (new_passphrase p) salt nonce); [apply rng32_length|apply rng24_length|..].
  - split; [intros f Hf; by rewrite lookup_insert_ne|]. by rewrite lookup_insert_eq.
Qed.
End passphrase_props.
