(* ===== verification/RpcMessage.v ===== *)
(** * Messages over JSON-RPC: [bitcord-core/src/api/rpc_server/message.rs], first part

    Sending, editing, deleting and reading messages, reactions, read markers and the
    presence heartbeat. The members' methods are in [RpcMember]. *)

From S2P Require Import Prelude Bytes Config Redb Routing Crypto Codec Model ClientState Store DhtNode Handler.
From S2P Require Import AppState ChannelEvents CommunityEvents ClientEvents Rpc.

Section rpc_message.
Context {T : Type} `{Crypto} `{Table T} `{NodeCodecs} `{HashOrder} `{UlidText} `{UlidParse} `{AddrText}.
Context `{Entropy} `{AppCodecs}.
Implicit Types w : World T.

Definition channel_key_of (channel_id : string) : Rpc T bytes :=
  key ← gets (λ w, app_channel_keys (w_app w) !! channel_id);
  need key (not_found "channel not found").

(** The caller's membership record. *)
Definition caller_record (community_id : string) : Rpc T MembershipRecord :=
  list ← gets (λ w, app_members (w_app w) !! community_id);
  list ← need list (not_found "community not found");
  caller ← gets (λ w, list !! app_peer_id (w_app w));
  need caller (forbidden "not a member of this community").

(** Announcement channels: only administrators and moderators may post. *)
Definition check_announcement (community_id channel_id : string) : Rpc T unit :=
  ch ← gets (λ w, app_channels (w_app w) !! channel_id);
  match ch with
  | Some (mkChannel _ _ _ Announcement _ _ _) =>
      caller ← caller_record community_id;
      check (is_privileged caller) (forbidden "only admins and moderators can post in announcement channels")
  | _ => mret tt
  end.

(** [log.append] and [store.append_message] of a message of one's own, as the methods do it:
    the log is the one of the channel's text, the store's the one of the parsed identifier. *)
Definition append_own (channel_id : string) (raw : RawMessage) (then_log : MessageLog → MessageLog) w : World T :=
  upd (λ a, set_message_log
         (then_log (append channel_id (ulid_to_string (rm_id raw)) (hex (rm_author_id raw))
                      (timestamp_millis (rm_timestamp raw)) (rm_nonce raw) (rm_ciphertext raw)
                      (app_message_log a)).1) a) w.
Definition persist_own (community_id : string) (raw : RawMessage) w : World T :=
  match known_community_pk community_id w with
  | Some pk => persist_message pk (rm_channel_id raw) (rm_nonce raw) (rm_ciphertext raw)
                 (ulid_to_string (rm_id raw)) (hex (rm_author_id raw)) (timestamp_millis (rm_timestamp raw)) w
  | None => w
  end.

(** [RawMessage::create] for the channel named, after the content is encrypted. *)
Definition create_own (ev : RpcEnv) (what channel_id : string) (key : bytes) (content : MessageContent)
    : Rpc T RawMessage :=
  '(nonce, ciphertext) ← encrypt_content what key content;
  ulid ← need (parse_ulid channel_id) (invalid_params "invalid channel_id");
  sk ← gets (λ w, app_signing_key (w_app w));
  mret (raw_create (rx_fresh ev) ulid sk (rx_now ev 0) ciphertext nonce).

Definition message_send (ev : RpcEnv) (p : SendMessageParams) : Rpc T MessageInfo :=
  let community_id := smp_community_id p in
  let channel_id := smp_channel_id p in
  check (negb (bool_decide (smp_body p = ""%string))) (invalid_params "body must not be empty");;
  require_seed_connected community_id;;
  check_announcement community_id channel_id;;
  key ← channel_key_of channel_id;
  let reply_to := smp_reply_to p ≫= parse_ulid in
  raw ← create_own ev "message" channel_id key (TextContent (smp_body p) [] reply_to None);
  step (append_own channel_id raw id);;
  step (persist_own community_id raw);;
  publish (channel_topic channel_id) (NewMessage raw);;
  let author_id := hex (rm_author_id raw) in
  author_name ← gets (λ w, mr_display_name <$> member_of community_id author_id w);
  notify (PushMessageNew (mkMessageEvent (ulid_to_string (rm_id raw)) channel_id community_id author_id
            author_name (rm_timestamp raw) None));;
  mret (mkMessageInfo (ulid_to_string (rm_id raw)) channel_id community_id author_id (rm_timestamp raw)
          (smp_body p) (ulid_to_string <$> reply_to) None false []).

(** The reply reference and the attachments of the message that is edited. *)
Definition kept_parts (key : bytes) (e : LogEntry) : option MessageId * list AttachmentRef :=
  match decrypt_message key (le_nonce e) (le_ciphertext e) with
  | Ok plain =>
      match content_decode plain with
      | Some (TextContent _ attachments reply_to _) => (reply_to, attachments)
      | _ => (None, [])
      end
  | Err _ => (None, [])
  end.

(** The entry, which its author alone may change. *)
Definition own_entry (channel_id message_id denied : string) : Rpc T LogEntry :=
  entry ← gets (λ w, get_entry channel_id message_id (app_message_log (w_app w)));
  entry ← need entry (not_found "message not found");
  own ← gets (λ w, bool_decide (le_author_id entry = app_peer_id (w_app w)));
  check own (forbidden denied);;
  mret entry.

(** A change of the log that reports whether the message was there. *)
Definition change_log (f : MessageLog → MessageLog * bool) : Rpc T unit :=
  found ← gets (λ w, (f (app_message_log (w_app w))).2);
  step (λ w, upd (λ a, set_message_log (f (app_message_log a)).1 a) w);;
  check found (not_found "message not found").

Definition message_edit (ev : RpcEnv) (p : EditMessageParams) : Rpc T bool :=
  let community_id := emp_community_id p in
  let channel_id := emp_channel_id p in
  let edited_at := rx_now ev 0 in
  check (negb (bool_decide (emp_body p = ""%string))) (invalid_params "body must not be empty");;
  require_seed_connected community_id;;
  key ← channel_key_of channel_id;
  entry ← own_entry channel_id (emp_message_id p) "only the author can edit a message";
  let '(reply_to, attachments) := kept_parts key entry in
  '(nonce, ciphertext) ← encrypt_content "message" key (TextContent (emp_body p) attachments reply_to (Some edited_at));
  change_log (edit channel_id (emp_message_id p) nonce ciphertext);;
  mid ← need (parse_ulid (emp_message_id p)) (invalid_params "invalid message_id");
  cid ← need (parse_ulid channel_id) (invalid_params "invalid channel_id");
  author ← gets own_user_id;
  sk ← gets (λ w, app_signing_key (w_app w));
  let signature := ed_sign sk (ulid_bytes mid ++ ulid_bytes cid ++ ciphertext) in
  publish (channel_topic channel_id) (EditMessage (mkEdit mid cid author ciphertext nonce signature edited_at));;
  me ← gets (λ w, app_peer_id (w_app w));
  author_name ← gets (λ w, mr_display_name <$> member_of community_id me w);
  notify (PushMessageEdited (mkMessageEvent (emp_message_id p) channel_id community_id me author_name edited_at
            (Some (emp_body p))));;
  mret true.

Definition message_delete (ev : RpcEnv) (p : DeleteMessageParams) : Rpc T bool :=
  let community_id := dmp_community_id p in
  let channel_id := dmp_channel_id p in
  require_seed_connected community_id;;
  own_entry channel_id (dmp_message_id p) "only the author can delete a message";;
  change_log (tombstone channel_id (dmp_message_id p));;
  mid ← need (parse_ulid (dmp_message_id p)) (invalid_params "invalid message_id");
  cid ← need (parse_ulid channel_id) (invalid_params "invalid channel_id");
  author ← gets own_user_id;
  sk ← gets (λ w, app_signing_key (w_app w));
  let signature := ed_sign sk (ulid_bytes mid ++ ulid_bytes cid ++ bytes_of_string "delete") in
  publish (channel_topic channel_id) (DeleteMessage (mkDelete mid cid author signature (rx_now ev 0)));;
  notify (PushMessageDeleted (mkMessageDeleted (dmp_message_id p) channel_id community_id));;
  mret true.

(** ** History *)

(** With the current key, or else the previous one. *)
Definition try_decrypt (key previous : option bytes) (e : LogEntry) : option bytes :=
  let with_key (k : option bytes) := key ← k; result_ok (decrypt_message key (le_nonce e) (le_ciphertext e)) in
  match with_key key with Some plain => Some plain | None => with_key previous end.

Definition entry_content (key previous : option bytes) (e : LogEntry) : option MessageContent :=
  if le_deleted e then None else try_decrypt key previous e ≫= content_decode.

Definition entry_to_info (community_id channel_id : string) (key previous : option bytes) (log : MessageLog)
    (e : LogEntry) : option MessageInfo :=
  let info body edited_at reply_to :=
    Some (mkMessageInfo (le_message_id e) channel_id community_id (le_author_id e)
            (default 0 (from_timestamp_millis (le_timestamp_ms e))) body reply_to edited_at (le_deleted e)
            ((λ ru, mkReactionInfo ru.1 ru.2) <$> get_reactions (le_message_id e) log)) in
  match entry_content key previous e with
  | Some (Reaction _ _ _) => None
  | Some (TextContent body _ reply_to edited_at) => info body edited_at (ulid_to_string <$> reply_to)
  | None => info ""%string None None
  end.

Definition message_get_history (p : GetHistoryParams) : Rpc T (list MessageInfo) :=
  let limit := Z.min (default 50 (ghp_limit p)) 200 in
  let channel_id := ghp_channel_id p in
  key ← gets (λ w, app_channel_keys (w_app w) !! channel_id);
  previous ← gets (λ w, app_previous_channel_keys (w_app w) !! channel_id);
  known ← gets (λ w, bool_decide (is_Some (app_channels (w_app w) !! channel_id)));
  check known (not_found "channel not found");;
  log ← gets (λ w, app_message_log (w_app w));
  let since := sat_sub (log_len channel_id log) limit in
  mret (omap (entry_to_info (ghp_community_id p) channel_id key previous log) (get_since channel_id since log)).

(** ** Reactions, read markers, presence *)

Definition reaction_change (is_add : bool) (ev : RpcEnv) (p : ReactionParams) : Rpc T bool :=
  let community_id := rp_community_id p in
  let channel_id := rp_channel_id p in
  let message_id := rp_message_id p in
  require_seed_connected community_id;;
  key ← channel_key_of channel_id;
  target ← gets (λ w, get_entry channel_id message_id (app_message_log (w_app w)));
  need target (not_found "message not found");;
  raw ← create_own ev "reaction" channel_id key (Reaction message_id (rp_emoji p) is_add);
  me ← gets (λ w, app_peer_id (w_app w));
  step (append_own channel_id raw (λ log,
          (if is_add then react message_id (rp_emoji p) me log else unreact message_id (rp_emoji p) me log).1));;
  reactions ← gets (λ w, get_reactions message_id (app_message_log (w_app w)));
  step (persist_own community_id raw);;
  publish (channel_topic channel_id) (NewMessage raw);;
  notify (PushReactionUpdated (mkReactionUpdated message_id channel_id community_id
            ((λ ru, mkReactionInfo ru.1 ru.2) <$> reactions)));;
  mret true.
Definition reaction_add : RpcEnv → ReactionParams → Rpc T bool := reaction_change true.
Definition reaction_remove : RpcEnv → ReactionParams → Rpc T bool := reaction_change false.

Definition rpc_mark_read (p : MarkReadParams) : Rpc T bool :=
  entry ← gets (λ w, get_entry (mrp_channel_id p) (mrp_message_id p) (app_message_log (w_app w)));
  match entry with
  | Some e =>
      current ← gets (λ w, default 0 (app_read_state (w_app w) !! mrp_channel_id p));
      if current <? le_seq e then
        step (λ w, save_read_state
          (upd (λ a, set_read_state (<[mrp_channel_id p := le_seq e]> (app_read_state a)) a) w))
      else mret tt
  | None => mret tt
  end;;
  mret true.

Definition status_text (s : UserStatus) : string :=
  match s with
  | Online => "online" | Idle => "idle" | DoNotDisturb => "do_not_disturb"
  | Invisible => "invisible" | Offline => "offline"
  end.

Definition presence_heartbeat (ev : RpcEnv) (p : SetStatusParams) : Rpc T bool :=
  let status := status_text (ssp_status p) in
  me ← gets (λ w, app_peer_id (w_app w));
  step (upd (λ a, set_presence (<[me := ssp_status p]> (app_presence a)) a));;
  notify (PushPresenceChanged (mkPresenceChanged me status (rx_now ev 0)));;
  community_ids ← gets (λ w, (hash_order (app_communities (w_app w))).*1);
  user ← gets own_user_id;
  sk ← gets (λ w, app_signing_key (w_app w));
  let unsigned := mkHeartbeat user status (rx_now ev 1) [] in
  let hb := mkHeartbeat user status (rx_now ev 1) (ed_sign sk (heartbeat_message unsigned)) in
  step (λ w, foldl (λ w id, publish_event (community_topic id) (PresenceHeartbeat hb) w) w community_ids);;
  mret true.
End rpc_message.

(** ** Who may post *)

Section posting.
Context {T : Type} `{CryptoLaws} `{TableLaws T} `{NodeCodecsLaws} `{HashOrder} `{UlidText} `{UlidParse} `{AddrText}.
Context `{EntropyLaws} `{AppCodecsLaws} `{!PostcardLaws MessageContent}.
Implicit Types w : World T.

Definition role_refusal (may : MembershipRecord → bool) (denied community_id : string) w : refusal :=
  match app_members (w_app w) !! community_id with
  | None => Some (-32001, "community not found"%string)
  | Some list =>
      match list !! app_peer_id (w_app w) with
      | None => Some (-32003, "not a member of this community"%string)
      | Some caller => unless (may caller) (-32003) denied
      end
  end.
Definition announcement_refusal (community_id channel_id : string) w : refusal :=
  match ch_kind <$> app_channels (w_app w) !! channel_id with
  | Some Announcement =>
      role_refusal is_privileged "only admins and moderators can post in announcement channels" community_id w
  | _ => None
  end.
Definition key_refusal (channel_id : string) w : refusal :=
  if_none (app_channel_keys (w_app w) !! channel_id) (-32001) "channel not found".
Definition id_refusal (id msg : string) : refusal :=
  if_none (parse_ulid id) (-32602) msg.

Definition send_refusal (p : SendMessageParams) w : refusal :=
  or_else (unless (negb (bool_decide (smp_body p = ""%string))) (-32602) "body must not be empty")
    (or_else (seed_refusal (smp_community_id p) w)
      (or_else (announcement_refusal (smp_community_id p) (smp_channel_id p) w)
        (or_else (key_refusal (smp_channel_id p) w) (id_refusal (smp_channel_id p) "invalid channel_id")))).

Lemma channel_key_spec ch w :
  channel_key_of ch w =
  (match app_channel_keys (w_app w) !! ch with Some key => Reply key | None => Fail (-32001) "channel not found" end, w).
Proof using Type. unfold channel_key_of, mbind, rpc_bind, gets. by destruct (_ !! ch). Qed.
Lemma caller_record_check c may denied w :
  (caller ← caller_record c; check (may caller) (forbidden denied)) w = (refuse (role_refusal may denied c w), w).
Proof using Type.
  unfold caller_record, role_refusal, mbind, rpc_bind, gets.
  destruct (app_members (w_app w) !! c) as [l|]; [|done]. cbn.
  destruct (l !! app_peer_id (w_app w)) as [r|]; cbn; [|done]. by destruct (may r).
Qed.
Lemma caller_check_spec {B} may denied c (k : Rpc T B) w :
  (caller ← caller_record c; (check (may caller) (forbidden denied);; k)) w =
  match role_refusal may denied c w with Some (code, msg) => (Fail code msg, w) | None => k w end.
Proof using Type.
  unfold caller_record, role_refusal, mbind, rpc_bind, gets.
  destruct (app_members (w_app w) !! c) as [l|]; [|done]. cbn.
  destruct (l !! app_peer_id (w_app w)) as [r|]; cbn; [|done]. by destruct (may r).
Qed.
Lemma announcement_spec c ch w : check_announcement c ch w = (refuse (announcement_refusal c ch w), w).
Proof using Type.
  unfold check_announcement, announcement_refusal. unfold mbind at 1, rpc_bind at 1, gets.
  destruct (app_channels (w_app w) !! ch) as [[? ? ? [] ? ? ?]|]; cbn; try done. apply caller_record_check.
Qed.

(** ** Sending *)

Context (Haead : ∀ k n m, is_Some (aead_encrypt k n m)).
Context (Hcontent : ∀ c : MessageContent, is_Some (to_allocvec c)).
Context (Hevent : ∀ e : NetworkEvent, is_Some (to_allocvec e)).

(** A message of one's own that opens under [key] to [content]. *)
Definition authored (ev : RpcEnv) (channel_id : string) (key : bytes) (content : MessageContent) w
    (raw : RawMessage) : Prop :=
  parse_ulid channel_id = Some (rm_channel_id raw) ∧ rm_id raw = rx_fresh ev ∧ rm_timestamp raw = rx_now ev 0 ∧
  rm_author_id raw = from_verifying_key (own_pk w) ∧ raw_verify raw (own_pk w) = true ∧
  ∃ plain, decrypt_message key (rm_nonce raw) (rm_ciphertext raw) = Ok plain ∧ content_decode plain = Some content.

Lemma create_own_spec ev what ch key content w :
  match parse_ulid ch with
  | Some _ => ∃ raw, create_own ev what ch key content w = (Reply raw, draw w) ∧ authored ev ch key content w raw
  | None => create_own ev what ch key content w = (Fail (-32602) "invalid channel_id", draw w)
  end.
Proof using All.
  unfold create_own, encrypt_content, mbind, rpc_bind, gets, step. destruct (Hcontent content) as [pl Hpl].
  rewrite Hpl. cbn. unfold encrypt_message. destruct (Haead key (rng24 (w_draws w)) pl) as [ct Hct]. rewrite Hct. cbn.
  destruct (parse_ulid ch) as [u|] eqn:Hu; [|done]. cbn. eexists. split; [done|]. split_and!; try done.
  - apply raw_create_verify.
  - exists pl. cbn. unfold decrypt_message. rewrite (aead_roundtrip _ _ _ _ Hct). split; [done|].
    unfold content_decode. by rewrite (postcard_roundtrip _ _ Hpl).
Qed.

Definition sent_info (p : SendMessageParams) (raw : RawMessage) : MessageInfo :=
  mkMessageInfo (ulid_to_string (rm_id raw)) (smp_channel_id p) (smp_community_id p) (hex (rm_author_id raw))
    (rm_timestamp raw) (smp_body p) (ulid_to_string <$> (smp_reply_to p ≫= parse_ulid)) None false [].
(** What a method leaves that stores and publishes a message of one's own. *)
Definition sent (community_id channel_id : string) (raw : RawMessage) (then_log : MessageLog → MessageLog) w
    : World T :=
  publish_event (channel_topic channel_id) (NewMessage raw)
    (persist_own community_id raw (append_own channel_id raw then_log (draw w))).

Lemma message_send_spec ev p w :
  match send_refusal p w with
  | Some (code, msg) => ∃ w', message_send ev p w = (Fail code msg, w') ∧ w_app w' = w_app w ∧ w_out w' = w_out w
  | None =>
      ∃ key raw name, app_channel_keys (w_app w) !! smp_channel_id p = Some key ∧
        authored ev (smp_channel_id p) key (TextContent (smp_body p) [] (smp_reply_to p ≫= parse_ulid) None) w raw ∧
        message_send ev p w =
          (Reply (sent_info p raw),
           broadcast (PushMessageNew (mkMessageEvent (ulid_to_string (rm_id raw)) (smp_channel_id p)
                        (smp_community_id p) (hex (rm_author_id raw)) name (rm_timestamp raw) None))
             (sent (smp_community_id p) (smp_channel_id p) raw id w))
  end.
Proof using All.
  unfold message_send, send_refusal, invalid_params.
  rewrite (rpc_bind_refuse _ _ _ _ (check_spec _ _ _ w)). destruct (unless _ _ _) as [[]|]; [by eexists|]. cbn [or_else].
  rewrite (rpc_bind_refuse _ _ _ _ (require_seed_spec _ w)). destruct (seed_refusal _ _) as [[]|]; [by eexists|].
  cbn [or_else]. rewrite (rpc_bind_refuse _ _ _ _ (announcement_spec _ _ w)).
  destruct (announcement_refusal _ _ _) as [[]|]; [by eexists|]. cbn [or_else].
  unfold key_refusal, id_refusal, if_none. pose proof (channel_key_spec (smp_channel_id p) w) as Hkey.
  destruct (app_channel_keys (w_app w) !! smp_channel_id p) as [key|].
  2:{ rewrite (rpc_bind_err _ _ _ _ _ _ Hkey). by eexists. }
  rewrite (rpc_bind_ok _ _ _ _ _ Hkey). cbn [or_else].
  set (content := TextContent _ _ _ _).
  pose proof (create_own_spec ev "message" (smp_channel_id p) key content w) as Hc.
  destruct (parse_ulid (smp_channel_id p)) as [u|].
  - destruct Hc as (raw & Hc & Ha). rewrite (rpc_bind_ok _ _ _ _ _ Hc). by eexists key, raw, _.
  - rewrite (rpc_bind_err _ _ _ _ _ _ Hc). by eexists.
Qed.

Lemma persist_own_app c raw w : ∃ s, w_app (persist_own c raw w) = set_node_store s (w_app w).
Proof using Type.
  unfold persist_own. destruct (known_community_pk c w); [apply on_store_app|].
  exists (app_node_store (w_app w)). symmetry. by apply set_store_id.
Qed.
Lemma persist_own_out c raw w : w_out (persist_own c raw w) = w_out w.
Proof using Type. unfold persist_own. destruct (known_community_pk c w); [apply on_store_out|done]. Qed.

Lemma sent_frame {A} (proj : AppState T → A) c ch raw f w :
  (∀ s a, proj (set_node_store s a) = proj a) → (∀ l a, proj (set_message_log l a) = proj a) →
  proj (w_app (sent c ch raw f w)) = proj (w_app w).
Proof using Type.
  intros Hs Hl. unfold sent. rewrite publish_event_app. destruct (persist_own_app c raw (append_own ch raw f (draw w))) as [s ->].
  by rewrite Hs; cbn; rewrite Hl.
Qed.
Lemma sent_log c ch raw f w :
  app_message_log (w_app (sent c ch raw f w)) =
  f (append ch (ulid_to_string (rm_id raw)) (hex (rm_author_id raw)) (timestamp_millis (rm_timestamp raw))
       (rm_nonce raw) (rm_ciphertext raw) (app_message_log (w_app w))).1.
Proof using Type.
  unfold sent. rewrite publish_event_app. by destruct (persist_own_app c raw (append_own ch raw f (draw w))) as [s ->].
Qed.
Lemma sent_out c ch raw f w :
  ∃ data, from_bytes data = Some (NewMessage raw) ∧
    w_out (sent c ch raw f w) = w_out w ++ [Cmd (CmdPublish (channel_topic ch) data)].
Proof using All.
  destruct (Hevent (NewMessage raw)) as [data Hd]. exists data. split; [by apply postcard_roundtrip|].
  unfold sent, publish_event. rewrite Hd. cbn. by rewrite persist_own_out.
Qed.

(** The entry of [raw] in the log of the channel [ch]. *)
Definition own_log_entry (ch : string) (raw : RawMessage) (log : MessageLog) : LogEntry :=
  mkLogEntry (Z.of_nat (length (entries_of ch log))) (rm_nonce raw) (rm_ciphertext raw) (ulid_to_string (rm_id raw))
    (hex (rm_author_id raw)) (timestamp_millis (rm_timestamp raw)) false.

(** C15: who may post, and what posting does. [message_send] refuses, with the code of the
    first check that fails and without changing anything, an empty text, a community that is
    unknown or whose seed is out of reach, an announcement channel unless the caller is an
    administrator or moderator, a channel without a key and an identifier that is none.
    Otherwise it replies; the log of that channel, and no other, has one more entry, which
    opens under the channel's key to the text, is signed with the caller's key, and is the
    message that is published on the channel's topic. *)
Theorem message_send_correct ev p w :
  let log := app_message_log (w_app w) in
  let ch := smp_channel_id p in
  match send_refusal p w with
  | Some (code, msg) => ∃ w', message_send ev p w = (Fail code msg, w') ∧ w_app w' = w_app w ∧ w_out w' = w_out w
  | None =>
      ∃ key raw w' data, message_send ev p w = (Reply (sent_info p raw), w') ∧
        app_channel_keys (w_app w) !! ch = Some key ∧
        authored ev ch key (TextContent (smp_body p) [] (smp_reply_to p ≫= parse_ulid) None) w raw ∧
        (∀ c, entries_of c (app_message_log (w_app w')) =
              entries_of c log ++ if bool_decide (ch = c) then [own_log_entry ch raw log] else []) ∧
        Cmd (CmdPublish (channel_topic ch) data) ∈ w_out w' ∧ from_bytes data = Some (NewMessage raw)
  end.
Proof using All.
  intros log ch. subst log ch. set (ch := smp_channel_id p). pose proof (message_send_spec ev p w) as Hs. destruct (send_refusal p w) as [[]|]; [done|].
  destruct Hs as (key & raw & name & Hk & Ha & Hs). destruct (sent_out (smp_community_id p) ch raw id w) as (data & Hd & Ho).
  eexists key, raw, _, data. split_and!; [exact Hs|done|done| | |done].
  - intros c. cbn. fold ch. rewrite sent_log. cbn. rewrite entries_of_set.
    case_bool_decide as Hc; [by rewrite Hc|by rewrite app_nil_r].
  - cbn. fold ch. rewrite Ho. apply elem_of_app. left. apply elem_of_app. right. by left.
Qed.

(** ** Reading back *)

Lemma history_last p w l e i :
  let log := app_message_log (w_app w) in
  let ch := ghp_channel_id p in
  entries_of ch log = l ++ [e] → is_Some (app_channels (w_app w) !! ch) → 0 < default 50 (ghp_limit p) →
  entry_to_info (ghp_community_id p) ch (app_channel_keys (w_app w) !! ch)
    (app_previous_channel_keys (w_app w) !! ch) log e = Some i →
  ∃ msgs, message_get_history p w = (Reply msgs, w) ∧ last msgs = Some i.
Proof using Type.
  intros log ch Hl Hc Hlim Hi. unfold message_get_history, mbind, rpc_bind, gets.
  rewrite bool_decide_eq_true_2 by done. cbn. eexists. split; [done|]. fold ch log.
  set (lim := Z.min (default 50 (ghp_limit p)) 200). set (since := sat_sub (log_len ch log) lim).
  assert (get_since ch since log = drop (Z.to_nat since) l ++ [e]) as ->.
  { subst since. unfold get_since, log_len, entries_of in *. destruct (channels log !! ch) as [es|]; cbn in Hl; [|by destruct l].
    subst es. rewrite length_app. cbn [length]. unfold sat_sub. set (n := Z.to_nat _).
    assert (n ≤ length l)%nat by (subst n lim; lia). destruct (Nat.leb_spec (length l + 1) n); [lia|].
    by rewrite drop_app_le. }
  rewrite omap_app. cbn. rewrite Hi. by rewrite last_snoc.
Qed.

(** What a reader of the log sees of a message that was sent: its time in milliseconds, no
    reactions yet. *)
Definition read_at (community_id channel_id : string) (info : MessageInfo) : MessageInfo :=
  mkMessageInfo (mi_id info) channel_id community_id (mi_author_id info) (timestamp_millis (mi_timestamp info) * 1000000)
    (mi_body info) (mi_reply_to info) None false [].
Definition representable (t : DateTime) : Prop :=
  -8334601228800000 <= timestamp_millis t <= 8210266876799999.

Lemma read_own ev community ch key previous p w raw log e :
  authored ev (smp_channel_id p) key (TextContent (smp_body p) [] (smp_reply_to p ≫= parse_ulid) None) w raw →
  le_nonce e = rm_nonce raw → le_ciphertext e = rm_ciphertext raw → le_message_id e = ulid_to_string (rm_id raw) →
  le_author_id e = hex (rm_author_id raw) → le_timestamp_ms e = timestamp_millis (rm_timestamp raw) → le_deleted e = false →
  reactions log !! ulid_to_string (rm_id raw) = None → representable (rm_timestamp raw) →
  entry_to_info community ch (Some key) previous log e = Some (read_at community ch (sent_info p raw)).
Proof using Type.
  intros (_ & _ & _ & _ & _ & plain & Hdec & Hcon) Hn Hc Hm Ha Ht Hdel Hr Hrep.
  unfold entry_to_info, entry_content, try_decrypt. rewrite Hdel, Hn, Hc, Hm, Ha, Ht. cbn. rewrite Hdec. cbn.
  rewrite Hcon. unfold read_at, sent_info. cbn. unfold get_reactions. rewrite Hr. cbn.
  unfold from_timestamp_millis. destruct Hrep as [Hlo Hhi]. by rewrite (proj2 (Z.leb_le _ _) Hlo), (proj2 (Z.leb_le _ _) Hhi).
Qed.

(** One reads what one sent. After [message_send] has replied, the history of the
    channel, whatever page is asked for, ends with that message: same identifier, author
    and text, the time cut to milliseconds. *)
Theorem own_message_read_back ev p q w info w' :
  message_send ev p w = (Reply info, w') →
  ghp_channel_id q = smp_channel_id p → 0 < default 50 (ghp_limit q) →
  is_Some (app_channels (w_app w) !! smp_channel_id p) →
  reactions (app_message_log (w_app w)) !! mi_id info = None → representable (rx_now ev 0) →
  ∃ msgs, message_get_history q w' = (Reply msgs, w') ∧
    last msgs = Some (read_at (ghp_community_id q) (smp_channel_id p) info).
Proof using All.
  intros Hsend Hq Hlim Hch Hrx Hrep. pose proof (message_send_spec ev p w) as Hs.
  destruct (send_refusal p w) as [[]|]; [by destruct Hs as (? & Hs & _); rewrite Hs in Hsend|].
  destruct Hs as (key & raw & name & Hk & Ha & Hs). rewrite Hs in Hsend. injection Hsend as <- <-.
  assert (rm_timestamp raw = rx_now ev 0) as Hts by apply Ha. rewrite <- Hq. rewrite <- Hq in Hk, Hch.
  eapply (history_last q _ (entries_of (ghp_channel_id q) (app_message_log (w_app w))) (own_log_entry (ghp_channel_id q) raw (app_message_log (w_app w)))).
  - cbn. rewrite sent_log, Hq. cbn. by rewrite entries_of_set, bool_decide_eq_true_2.
  - cbn. by rewrite (sent_frame app_channels).
  - done.
  - cbn. rewrite (sent_frame app_channel_keys), Hk by done. eapply read_own; [done..| |by rewrite Hts].
    rewrite sent_log. exact Hrx.
Qed.

(** C7: what is sent arrives. The message that [message_send] publishes is accepted by every
    member [v] of the community that holds the channel's key and knows the sender, and is
    then the last message of the history that [v] reads, with the sender's identifier and
    the text that was sent. *)
Theorem message_delivered ev p w info w' v community m q u :
  message_send ev p w = (Reply info, w') →
  let author := from_verifying_key (own_pk w) in
  let ch := ghp_channel_id q in
  parse_ulid (smp_channel_id p) = Some u → ulid_to_string u = ch →
  community_of_channel ch v = Some community →
  app_channel_keys (w_app v) !! ch = app_channel_keys (w_app w) !! smp_channel_id p →
  member_of community (hex author) v = Some m → mr_public_key m = own_pk w →
  mi_id info ∉ le_message_id <$> entries_of ch (app_message_log (w_app v)) →
  reactions (app_message_log (w_app v)) !! mi_id info = None →
  0 < default 50 (ghp_limit q) → representable (rx_now ev 0) →
  ∃ data v' msgs, Cmd (CmdPublish (channel_topic (smp_channel_id p)) data) ∈ w_out w' ∧
    handle_channel_message false (channel_topic (smp_channel_id p)) data v = Done v' ∧
    message_get_history q v' = (Reply msgs, v') ∧
    last msgs = Some (read_at (ghp_community_id q) ch info) ∧ mi_author_id info = hex author ∧ mi_body info = smp_body p.
Proof using All.
  intros Hsend author ch Hid Htext Hcom Hkeys Hm Hmpk Hnew Hrx Hlim Hrep. pose proof (message_send_spec ev p w) as Hs.
  destruct (send_refusal p w) as [[]|]; [by destruct Hs as (? & Hs & _); rewrite Hs in Hsend|].
  destruct Hs as (key & raw & name & Hk & Ha & Hs). rewrite Hs in Hsend. injection Hsend as <- <-.
  pose proof Ha as (Hpu & _ & Hts & Hau & Hver & plain & Hdec & Hcon).
  assert (ulid_to_string (rm_channel_id raw) = ch) as Hchan by (rewrite <- Htext; congruence).
  destruct (sent_out (smp_community_id p) (smp_channel_id p) raw id w) as (data & Hd & Ho).
  assert (acceptable raw community m plain v) as Hacc.
  { unfold acceptable. rewrite Hchan, Hau, Hmpk. split_and!; [done| |done|apply ed_public_valid|done].
    exists key. split; [by rewrite Hkeys|]. unfold decrypt_with_previous. by rewrite Hdec. }
  set (v' := store_new_message community (content_decode plain) raw v).
  assert (app_message_log (w_app v') = set_entries ch (entries_of ch (app_message_log (w_app v)) ++
            [received_entry raw (app_message_log (w_app v))]) (app_message_log (w_app v))) as Hlog.
  { subst v'. rewrite store_new_message_log by (by rewrite Hchan). rewrite Hchan, Hcon. done. }
  edestruct (history_last q v') as (msgs & Hh & Hl).
  - rewrite Hlog. fold ch. by rewrite entries_of_set, bool_decide_eq_true_2.
  - subst v'. rewrite (store_new_message_frame app_channels) by done. fold ch.
    unfold community_of_channel in Hcom. by destruct (app_channels (w_app v) !! ch).
  - done.
  - assert (app_channel_keys (w_app v') !! ghp_channel_id q = Some key) as ->.
    { subst v'. rewrite (store_new_message_frame app_channel_keys) by done. fold ch. by rewrite Hkeys. }
    eapply read_own; [done..| |by rewrite Hts]. by rewrite Hlog.
  - exists data, v', msgs. split_and!; [|by unfold handle_channel_message; rewrite Hd; apply (new_message_accepted _ _ _ _ _ m plain)|done|done|by cbn; rewrite Hau|done].
    cbn. rewrite Ho. apply elem_of_app. left. apply elem_of_app. right. by left.
Qed.
End posting.
