(* ===== verification/RpcMember.v ===== *)
(** * Members over JSON-RPC: [bitcord-core/src/api/rpc_server/message.rs], second part

    Listing the members, kicking, banning and changing roles, with the roles they ask for,
    and what the events they publish do at the other members. *)

From S2P Require Import Prelude Bytes Config Redb Routing Crypto Codec Model ClientState Store DhtNode Handler.
From S2P Require Import AppState ChannelEvents CommunityEvents ClientEvents AppStart Rpc RpcMessage.

Section rpc_member.
Context {T : Type} `{Crypto} `{Table T} `{NodeCodecs} `{HashOrder} `{UlidText} `{UlidParse} `{AddrText}.
Context `{Entropy} `{AppCodecs}.
Implicit Types w : World T.

Definition role_to_dto (r : Role) : RoleDto :=
  match r with Admin => AdminDto | Moderator => ModeratorDto | Member => MemberDto end.
Definition role_of_dto (r : RoleDto) : Role :=
  match r with AdminDto => Admin | ModeratorDto => Moderator | MemberDto => Member end.

Definition member_list (community_id : string) : Rpc T (list MemberInfo) :=
  list ← gets (λ w, default ∅ (app_members (w_app w) !! community_id));
  presence ← gets (λ w, app_presence (w_app w));
  mret ((λ r,
      let uid := hex (mr_user_id r) in
      mkMemberInfo uid (mr_display_name r) (mr_avatar_cid r) (role_to_dto <$> mr_roles r) (mr_joined_at r)
        (hex (mr_public_key r)) (default Offline (presence !! uid)))
    <$> (hash_order list).*2).

(** The member is taken out of the table, which is saved. *)
Definition remove_member (community_id user_id : string) : Rpc T MembershipRecord :=
  list ← gets (λ w, default ∅ (app_members (w_app w) !! community_id));
  step (upd (λ a, set_members (<[community_id := delete user_id list]> (app_members a)) a));;
  removed ← need (list !! user_id) (not_found "member not found");
  step save_members;;
  mret removed.

(** The signed departure of somebody else. *)
Definition publish_left (now : DateTime) (community_id user_id : string) : Rpc T unit :=
  let uid := key_of_hex user_id in
  match parse_ulid community_id with
  | Some ulid =>
      sk ← gets (λ w, app_signing_key (w_app w));
      publish (community_topic community_id)
        (MemberLeft (mkLeft uid ulid now (ed_sign sk (leave_message uid ulid))))
  | None => mret tt
  end.

Definition member_gone (community_id user_id : string) (removed : MembershipRecord) : Rpc T unit :=
  notify (PushMemberLeft (mkMemberEvent user_id community_id (mr_display_name removed))).

Definition member_kick (ev : RpcEnv) (p : KickBanParams) : Rpc T bool :=
  caller ← caller_record (kbp_community_id p);
  check (is_privileged caller) (forbidden "insufficient permissions: moderator or admin required");;
  removed ← remove_member (kbp_community_id p) (kbp_user_id p);
  publish_left (rx_now ev 0) (kbp_community_id p) (kbp_user_id p);;
  member_gone (kbp_community_id p) (kbp_user_id p) removed;;
  mret true.

Definition member_ban (ev : RpcEnv) (p : KickBanParams) : Rpc T bool :=
  caller ← caller_record (kbp_community_id p);
  check (is_admin_member caller) (forbidden "insufficient permissions: admin required");;
  removed ← remove_member (kbp_community_id p) (kbp_user_id p);
  step (λ w, save_bans (upd (λ a, set_bans
          (<[kbp_community_id p := default [] (app_bans a !! kbp_community_id p) ++ [kbp_user_id p]]> (app_bans a)) a) w));;
  publish_left (rx_now ev 0) (kbp_community_id p) (kbp_user_id p);;
  member_gone (kbp_community_id p) (kbp_user_id p) removed;;
  mret true.

(** The creator, whose key is the community's, keeps its role. *)
Definition check_not_creator (community_id user_id : string) : Rpc T unit :=
  target ← gets (member_of community_id user_id);
  target ← need target (not_found "member not found");
  cpk ← gets (known_community_pk community_id);
  match cpk with
  | Some pk =>
      check (negb (bool_decide (mr_public_key target = pk)))
        (forbidden "cannot change the role of the community creator")
  | None => mret tt
  end.

Definition member_update_role (ev : RpcEnv) (p : UpdateRoleParams) : Rpc T bool :=
  let community_id := urp_community_id p in
  let user_id := urp_user_id p in
  caller ← caller_record community_id;
  check (is_admin_member caller) (forbidden "insufficient permissions: admin required");;
  check_not_creator community_id user_id;;
  let new_role := role_of_dto (urp_role p) in
  list ← gets (λ w, default ∅ (app_members (w_app w) !! community_id));
  found ← need (list !! user_id) (not_found "member not found");
  step (λ w, save_members
    (upd (λ a, set_members (<[community_id := <[user_id := with_roles [new_role] found]> list]> (app_members a)) a) w));;
  let uid := key_of_hex user_id in
  match parse_ulid community_id with
  | Some ulid =>
      sk ← gets (λ w, app_signing_key (w_app w));
      publish (community_topic community_id)
        (MemberRoleUpdated (mkRoleUpdate uid ulid new_role (rx_now ev 0) (ed_sign sk (role_message uid ulid new_role))))
  | None => mret tt
  end;;
  notify (PushMemberRoleUpdated (mkMemberRole user_id community_id (role_text new_role)));;
  mret true.
End rpc_member.

(** ** Kicking and banning *)

Section removal.
Context {T : Type} `{CryptoLaws} `{TableLaws T} `{NodeCodecsLaws} `{HashOrderLaws} `{UlidText} `{UlidParse} `{AddrText}.
Context `{EntropyLaws} `{AppCodecsLaws}.
Context (Hevent : ∀ e : NetworkEvent, is_Some (to_allocvec e)).
Implicit Types w v : World T.

(** A member may act if it has the role, and only on somebody who is there. *)
Definition removal_refusal (may : MembershipRecord → bool) (denied community_id user_id : string) w : refusal :=
  or_else (role_refusal may denied community_id w)
    (if_none (member_of community_id user_id w) (-32001) "member not found").
Definition kick_refusal (p : KickBanParams) w : refusal :=
  removal_refusal is_privileged "insufficient permissions: moderator or admin required" (kbp_community_id p)
    (kbp_user_id p) w.
Definition ban_refusal (p : KickBanParams) w : refusal :=
  removal_refusal is_admin_member "insufficient permissions: admin required" (kbp_community_id p) (kbp_user_id p) w.

Definition without_member (community_id user_id : string) w : World T :=
  save_members (upd (λ a, set_members
    (<[community_id := delete user_id (default ∅ (app_members a !! community_id))]> (app_members a)) a) w).

Lemma role_refusal_members may denied c w : role_refusal may denied c w = None → is_Some (app_members (w_app w) !! c).
Proof using Type. unfold role_refusal. by destruct (app_members (w_app w) !! c). Qed.
Lemma remove_member_run c uid w :
  let list := default ∅ (app_members (w_app w) !! c) in
  let w1 := upd (λ a, set_members (<[c := delete uid list]> (app_members a)) a) w in
  remove_member c uid w =
  match list !! uid with Some r => (Reply r, save_members w1) | None => (Fail (-32001) "member not found", w1) end.
Proof using Type.
  intros list w1. unfold remove_member, mbind, rpc_bind, gets, step. fold list. fold w1. by destruct (list !! uid).
Qed.
Lemma remove_member_spec c uid w :
  is_Some (app_members (w_app w) !! c) →
  match member_of c uid w with
  | Some r => remove_member c uid w = (Reply r, without_member c uid w)
  | None => ∃ w', remove_member c uid w = (Fail (-32001) "member not found", w') ∧
                  w_app w' = w_app w ∧ w_out w' = w_out w
  end.
Proof using Type.
  intros [l Hl]. assert (default ∅ (app_members (w_app w) !! c) = l) as Hdef by by rewrite Hl.
  rewrite remove_member_run. unfold member_of. rewrite Hdef, Hl. change (Some l ≫= lookup uid) with (l !! uid).
  cbn [mbind option_bind]. destruct (l !! uid) as [r|] eqn:Hr.
  - unfold without_member, save_members, upd. cbn. by rewrite Hdef.
  - eexists. split; [done|]. split; [|done]. cbn. rewrite delete_id, insert_id by done. by destruct (w_app w).
Qed.

Lemma without_member_of c uid w c' u :
  member_of c' u (without_member c uid w) = if decide (c' = c ∧ u = uid) then None else member_of c' u w.
Proof using Type.
  unfold without_member, member_of, save_members. rewrite save_table_app. cbn. rewrite lookup_insert.
  destruct (decide (c = c')) as [->|Hc]; [|by rewrite decide_False by naive_solver]. cbn.
  destruct (decide (u = uid)) as [->|Hu]; [by rewrite lookup_delete_eq, decide_True|].
  rewrite lookup_delete_ne, decide_False by naive_solver. by destruct (app_members (w_app w) !! c').
Qed.

(** The departure that is published, and who honours it. *)
Lemma publish_left_spec now c uid w :
  ∃ w', publish_left now c uid w = (Reply tt, w') ∧ w_app w' = w_app w ∧
    ∀ ulid, parse_ulid c = Some ulid →
      ∃ data, w_out w' = w_out w ++ [Cmd (CmdPublish (community_topic c) data)] ∧
        from_bytes data = Some (MemberLeft (mkLeft (key_of_hex uid) ulid now
          (ed_sign (app_signing_key (w_app w)) (leave_message (key_of_hex uid) ulid)))).
Proof using All.
  unfold publish_left. destruct (parse_ulid c) as [ulid|]; [|by exists w]. cbn. eexists. split; [done|].
  split; [apply publish_event_app|]. intros ? [= <-]. unfold publish_event. set (e := MemberLeft _).
  destruct (Hevent e) as [data Hd]. rewrite Hd. exists data. split; [done|]. by apply postcard_roundtrip.
Qed.

Definition honoured (c uid : string) (data : bytes) w : Prop :=
  ∀ v source me m, member_of c me v = Some m → is_privileged m = true → mr_public_key m = own_pk w →
    ∃ v', handle_community_message data source v = Done v' ∧ member_of c uid v' = None.
Lemma left_honoured now c uid ulid data w :
  from_bytes data = Some (MemberLeft (mkLeft (key_of_hex uid) ulid now
    (ed_sign (app_signing_key (w_app w)) (leave_message (key_of_hex uid) ulid)))) →
  ulid_to_string ulid = c → hex (key_of_hex uid) = uid → honoured c uid data w.
Proof using Type*.
  intros Hd Hc Hu v source me m Hm Hp Hpk. unfold handle_community_message. rewrite Hd. eexists. split; [done|].
  set (p := mkLeft _ _ _ _). destruct (member_left_spec p v) as [_ Hl]. cbn in Hl. rewrite Hc, Hu in Hl.
  apply Hl. split; [apply (proj1 (wf_ed_sign _ _))|]. apply signed_by_member_spec. exists me, m.
  split_and!; [done|by rewrite Hp, orb_true_r|rewrite Hpk; apply ed_public_valid|].
  rewrite Hpk. apply ed_sign_verify.
Qed.

Lemma member_kick_spec ev p w :
  let c := kbp_community_id p in
  let uid := kbp_user_id p in
  match kick_refusal p w with
  | Some (code, msg) => ∃ w', member_kick ev p w = (Fail code msg, w') ∧ w_app w' = w_app w ∧ w_out w' = w_out w
  | None =>
      ∃ w', member_kick ev p w = (Reply true, w') ∧
        (∀ c' u, member_of c' u w' = if decide (c' = c ∧ u = uid) then None else member_of c' u w) ∧
        app_node_store (w_app w') = app_node_store (w_app w) ∧
        ∀ ulid, parse_ulid c = Some ulid → ulid_to_string ulid = c → hex (key_of_hex uid) = uid →
          ∃ data, Cmd (CmdPublish (community_topic c) data) ∈ w_out w' ∧ honoured c uid data w
  end.
Proof using All.
  intros c uid. unfold member_kick, kick_refusal, removal_refusal. fold c uid. rewrite caller_check_spec.
  destruct (role_refusal _ _ _ _) as [[]|] eqn:Hr; [by eexists|]. cbn [or_else].
  apply role_refusal_members in Hr. pose proof (remove_member_spec c uid w Hr) as Hrm.
  destruct (member_of c uid w) as [r|]; cbn [if_none].
  2:{ destruct Hrm as (w' & Hrm & ? & ?). rewrite (rpc_bind_err _ _ _ _ _ _ Hrm). by exists w'. }
  rewrite (rpc_bind_ok _ _ _ _ _ Hrm).
  destruct (publish_left_spec (rx_now ev 0) c uid (without_member c uid w)) as (w1 & Hp & Ha & Ho).
  rewrite (rpc_bind_ok _ _ _ _ _ Hp). eexists. split; [done|]. split_and!.
  - intros c' u. rewrite <- without_member_of. unfold member_of. cbn. by rewrite Ha.
  - cbn. rewrite Ha. unfold without_member, save_members. by rewrite save_table_app.
  - intros ulid Hu Hc Hx. destruct (Ho _ Hu) as (data & Hout & Hd). exists data. split.
    + cbn. rewrite Hout. apply elem_of_app. left. apply elem_of_app. right. by left.
    + apply (left_honoured (rx_now ev 0) c uid ulid); [|done..]. rewrite Hd. unfold without_member, save_members.
      by rewrite save_table_app.
Qed.

(** Kicking. [member_kick] refuses, changing nothing, a caller that is not recorded as a
    moderator or administrator of the community, and a user who is no member. Otherwise
    exactly that membership is gone, and the departure it publishes is honoured by every
    member that records the caller as moderator or administrator. *)
Theorem member_kick_correct ev p w :
  let c := kbp_community_id p in
  let uid := kbp_user_id p in
  match kick_refusal p w with
  | Some (code, msg) => ∃ w', member_kick ev p w = (Fail code msg, w') ∧ w_app w' = w_app w ∧ w_out w' = w_out w
  | None =>
      ∃ w', member_kick ev p w = (Reply true, w') ∧
        (∀ c' u, member_of c' u w' = if decide (c' = c ∧ u = uid) then None else member_of c' u w) ∧
        app_node_store (w_app w') = app_node_store (w_app w) ∧
        ∀ ulid, parse_ulid c = Some ulid → ulid_to_string ulid = c → hex (key_of_hex uid) = uid →
          ∃ data, Cmd (CmdPublish (community_topic c) data) ∈ w_out w' ∧ honoured c uid data w
  end.
Proof using All. apply member_kick_spec. Qed.

(** ** A kick and the store *)

(** The store records [uid] as a member of the community [c]. *)
Definition store_knows (pk : bytes) (c uid : string) (st : NodeStore T) : Prop :=
  ∃ meta signed, get_community_meta pk st = Ok (Some meta) ∧ meta_manifest meta = Some signed ∧
    ulid_to_string (cm_id (sm_manifest signed)) = c ∧ is_Some (meta_members meta !! uid).

Lemma merge_members_keeps list meta uid :
  let '(meta', _) := merge_members list meta in
  meta_manifest meta' = meta_manifest meta ∧ (is_Some (meta_members meta !! uid) → is_Some (meta_members meta' !! uid)).
Proof using Type.
  unfold merge_members.
  assert (∀ l (acc : gmap string MembershipRecord * bool), is_Some (acc.1 !! uid) →
    is_Some ((foldl (λ '(ms, changed) m,
      match ms !! hex (mr_user_id m) with
      | Some _ => (ms, changed)
      | None => (<[hex (mr_user_id m) := m]> ms, true)
      end) acc l).1 !! uid)) as Hf.
  { induction l as [|m l IH]; intros [ms b] Hacc; [done|]. cbn [foldl]. apply IH. cbn.
    destruct (ms !! hex (mr_user_id m)) eqn:Hm; [done|]. cbn. rewrite lookup_insert. case_decide; [done|exact Hacc]. }
  specialize (Hf (hash_order list).*2 (meta_members meta, false)).
  destruct (foldl _ _ _) as [ms changed]. cbn in *. by split.
Qed.

Definition knows (pk : bytes) (c uid : string) w : Prop :=
  ∃ st, app_node_store (w_app w) = Some st ∧ store_inv st ∧ store_knows pk c uid st.
Lemma sync_members_knows pk c uid cl w :
  (∀ k s, app_communities (w_app w) !! k = Some s → wf_key (cm_public_key (sm_manifest s))) →
  knows pk c uid w →
  knows pk c uid (sync_members w cl) ∧ app_communities (w_app (sync_members w cl)) = app_communities (w_app w).
Proof using Type*.
  intros Hwf Hk0. pose proof Hk0 as (st & Hst & Hinv & meta & signed & Hm & Hman & Hid & Hu). unfold sync_members.
  destruct (app_communities (w_app w) !! cl.1) as [comm|] eqn:Hcomm; [|by split].
  destruct (stored_meta _ w) as [m0|] eqn:Hm0; [|by split].
  pose proof (merge_members_keeps cl.2 m0 uid) as Hk. destruct (merge_members cl.2 m0) as [m1 []];
    [|by split].
  unfold write_meta, on_store. rewrite Hst.
  destruct (set_community_meta _ (cm_public_key (sm_manifest comm)) m1 st) as [st'|] eqn:Hset; [|by split].
  split; [|done]. exists st'. destruct (set_community_meta_spec _ _ _ _ _ Hinv (Hwf _ _ Hcomm) (rng24_length _) Hset) as (Hinv' & Hget & _).
  split_and!; [done|done|]. unfold store_knows. rewrite Hget. destruct (decide (cm_public_key (sm_manifest comm) = pk)) as [Heq|Hne].
  - exists m1, signed. unfold stored_meta in Hm0. rewrite Hst in Hm0. cbn in Hm0. apply meta_or_none_some in Hm0.
    rewrite Heq, Hm in Hm0. injection Hm0 as <-. destruct Hk as [Hk1 Hk2]. rewrite Hk1.
    split_and!; [done|done|done|by apply Hk2].
  - by exists meta, signed.
Qed.

Lemma backfill_store w x : app_node_store (w_app (backfill w x)) = app_node_store (w_app w).
Proof using Type. unfold backfill. destruct (stored_meta x w); [|done]. by destruct (meta_manifest _). Qed.
Lemma backfill_member c uid w x : is_Some (member_of c uid w) → is_Some (member_of c uid (backfill w x)).
Proof using Type.
  unfold backfill. destruct (stored_meta x w) as [meta|]; [|done]. destruct (meta_manifest meta) as [signed|]; [|done].
  unfold member_of. cbn. rewrite lookup_insert. destruct (decide (_ = c)) as [->|]; [|done]. cbn.
  destruct (app_members (w_app w) !! c) as [l|]; cbn; [|by intros []]. intros [r Hr]. exists r. by apply lookup_union_Some_l.
Qed.
Lemma backfill_known pk c uid w : knows pk c uid w → is_Some (member_of c uid (backfill w pk)).
Proof using Type.
  intros (st & Hst & _ & meta & signed & Hm & Hman & Hid & r & Hr). unfold backfill, stored_meta. rewrite Hst. cbn.
  rewrite (proj2 (meta_or_none_some _ _ _) Hm), Hman. unfold member_of. cbn. rewrite Hid, lookup_insert_eq. cbn.
  destruct (default ∅ (app_members (w_app w) !! c) !! uid) as [r'|] eqn:Hr'.
  - exists r'. by apply lookup_union_Some_l.
  - exists r. by rewrite lookup_union_r.
Qed.
Lemma backfill_all pk c uid pks w : knows pk c uid w → pk ∈ pks → is_Some (member_of c uid (foldl backfill w pks)).
Proof using Type.
  assert (∀ l w, is_Some (member_of c uid w) → is_Some (member_of c uid (foldl backfill w l))) as Hk.
  { induction l as [|x l IH]; intros w0 Hw0; [done|]. cbn. by apply IH, backfill_member. }
  revert w. induction pks as [|x pks IH]; intros w Hw Hin; [by apply not_elem_of_nil in Hin|]. cbn [foldl].
  apply elem_of_cons in Hin as [<-|Hin]; [by apply Hk, backfill_known|]. apply IH; [|done].
  destruct Hw as (st & Hst & Hrest). exists st. by rewrite backfill_store.
Qed.

(** A kick lasts until the next start. [member_kick] takes the member out of the table but
    not out of the embedded store, and [AppState::new] merges the members of the store into
    the table: after a restart the kicked user is a member again. *)
Theorem kick_undone_by_restart ev p w w' sc disk ok draws st pk :
  member_kick ev p w = (Reply true, w') →
  app_node_store (w_app w) = Some st → store_inv st → store_knows pk (kbp_community_id p) (kbp_user_id p) st →
  sc_node_store sc = app_node_store (w_app w') →
  (∀ k s, app_communities (load_state sc disk) !! k = Some s → wf_key (cm_public_key (sm_manifest s))) →
  member_of (kbp_community_id p) (kbp_user_id p) w' = None ∧
  is_Some (member_of (kbp_community_id p) (kbp_user_id p) (app_new sc disk ok draws)).
Proof using All.
  intros Hkick Hst Hinv Hknow Hsc Hwf. pose proof (member_kick_spec ev p w) as Hs. cbv zeta in Hs.
  destruct (kick_refusal p w) as [[]|]; [by destruct Hs as (? & Hs & _); rewrite Hs in Hkick|].
  destruct Hs as (w1 & Hs & Hmem & Hstore & _). rewrite Hs in Hkick. injection Hkick as <-.
  split; [by rewrite Hmem, decide_True|]. rewrite Hstore, Hst in Hsc.
  unfold app_new. set (w0 := mkWorld _ _ _ _ _).
  assert (app_node_store (w_app w0) = Some st) as Hw0 by exact Hsc. rewrite Hw0.
  assert (∀ l w2, app_communities (w_app w2) = app_communities (w_app w0) → knows pk (kbp_community_id p) (kbp_user_id p) w2 →
    knows pk (kbp_community_id p) (kbp_user_id p) (foldl sync_members w2 l)) as Hf.
  { induction l as [|cl l IH]; intros w2 Hc Hk; [done|]. cbn [foldl].
    destruct (sync_members_knows pk (kbp_community_id p) (kbp_user_id p) cl w2) as [Hk' Hc']; [|done|].
    - intros k s. rewrite Hc. apply Hwf.
    - apply IH; [by rewrite Hc'|done]. }
  set (w2 := foldl sync_members w0 _). assert (knows pk (kbp_community_id p) (kbp_user_id p) w2) as Hw2.
  { apply Hf; [done|]. by exists st. }
  pose proof Hw2 as (st2 & Hst2 & Hinv2 & meta & signed & Hm & _). rewrite Hst2.
  assert (st_online st2 = true) as Hon.
  { unfold get_community_meta, transaction in Hm. by destruct (st_online st2). }
  destruct (all_communities st2) as [pks|] eqn:Hall.
  2:{ exfalso. unfold all_communities, transaction in Hall. by rewrite Hon in Hall. }
  assert (pk ∈ pks) as Hin.
  { apply (proj2 (all_communities_spec _ _ Hinv2 Hall)). by exists meta. }
  pose proof (backfill_all _ _ _ _ _ Hw2 Hin) as Hres. revert Hres. generalize (foldl backfill w2 pks) as w3. intros w3 Hres.
  unfold member_of in *. cbn. unfold load_history. by destruct (app_node_store (w_app w3)).
Qed.

(** ** Bans *)

Definition with_ban (c uid : string) w : World T :=
  save_bans (upd (λ a, set_bans (<[c := default [] (app_bans a !! c) ++ [uid]]> (app_bans a)) a) w).

(** Banning. [member_ban] refuses, changing nothing, a caller that is not recorded as an
    administrator, and a user who is no member. Otherwise exactly that membership is gone,
    its departure is published and honoured, and whatever membership record of that user
    arrives later is ignored by this node; earlier bans stay. *)
Theorem member_ban_correct ev p w :
  let c := kbp_community_id p in
  let uid := kbp_user_id p in
  match ban_refusal p w with
  | Some (code, msg) => ∃ w', member_ban ev p w = (Fail code msg, w') ∧ w_app w' = w_app w ∧ w_out w' = w_out w
  | None =>
      ∃ w', member_ban ev p w = (Reply true, w') ∧
        (∀ c' u, member_of c' u w' = if decide (c' = c ∧ u = uid) then None else member_of c' u w) ∧
        (∀ r, hex (mr_user_id r) = uid → ulid_to_string (mr_community_id r) = c → handle_member_joined r w' = w') ∧
        (∀ c' u, is_banned c' u w = true → is_banned c' u w' = true) ∧
        ∀ ulid, parse_ulid c = Some ulid → ulid_to_string ulid = c → hex (key_of_hex uid) = uid →
          ∃ data, Cmd (CmdPublish (community_topic c) data) ∈ w_out w' ∧ honoured c uid data w
  end.
Proof using All.
  intros c uid. unfold member_ban, ban_refusal, removal_refusal. fold c uid. rewrite caller_check_spec.
  destruct (role_refusal _ _ _ _) as [[]|] eqn:Hr; [by eexists|]. cbn [or_else].
  apply role_refusal_members in Hr. pose proof (remove_member_spec c uid w Hr) as Hrm.
  destruct (member_of c uid w) as [r|]; cbn [if_none].
  2:{ destruct Hrm as (w' & Hrm & ? & ?). rewrite (rpc_bind_err _ _ _ _ _ _ Hrm). by exists w'. }
  rewrite (rpc_bind_ok _ _ _ _ _ Hrm).
  assert (step (with_ban c uid) (without_member c uid w) = (Reply tt, with_ban c uid (without_member c uid w))) as Hb by done.
  rewrite (rpc_bind_ok _ _ _ _ _ Hb).
  set (w2 := with_ban c uid (without_member c uid w)).
  assert (app_members (w_app w2) = app_members (w_app (without_member c uid w)) ∧
          app_bans (w_app w2) = <[c := default [] (app_bans (w_app w) !! c) ++ [uid]]> (app_bans (w_app w)) ∧
          app_signing_key (w_app w2) = app_signing_key (w_app w)) as (Hm2 & Hb2 & Hk2).
  { subst w2. unfold with_ban, without_member, save_bans, save_members. cbn. rewrite !save_table_app. cbn.
    by rewrite !save_table_app. }
  destruct (publish_left_spec (rx_now ev 0) c uid w2) as (w1 & Hp & Ha & Ho).
  rewrite (rpc_bind_ok _ _ _ _ _ Hp). eexists. split; [done|]. split_and!.
  - intros c' u. rewrite <- without_member_of. unfold member_of. cbn. by rewrite Ha, Hm2.
  - intros r' Hu Hc. unfold handle_member_joined. destruct (member_verified r'); [|done]. cbn [negb].
    assert (is_banned (ulid_to_string (mr_community_id r')) (hex (mr_user_id r'))
              (broadcast (PushMemberLeft (mkMemberEvent uid c (mr_display_name r))) w1) = true) as ->; [|done].
    unfold is_banned. cbn. rewrite Ha, Hb2, Hu, Hc, lookup_insert_eq. apply bool_decide_eq_true, elem_of_app. right. by left.
  - intros c' u. unfold is_banned. cbn. rewrite Ha, Hb2, lookup_insert. case_decide as Hc; [subst c'|done].
    destruct (app_bans (w_app w) !! c) as [l|]; cbn; [|done]. rewrite !bool_decide_eq_true, elem_of_app. by left.
  - intros ulid Hu Hc Hx. destruct (Ho _ Hu) as (data & Hout & Hd). exists data. split.
    + cbn. rewrite Hout. apply elem_of_app. left. apply elem_of_app. right. by left.
    + apply (left_honoured (rx_now ev 0) c uid ulid); [|done..]. by rewrite Hd, Hk2.
Qed.

(** ** Roles *)

Definition role_change_refusal (p : UpdateRoleParams) w : refusal :=
  or_else (role_refusal is_admin_member "insufficient permissions: admin required" (urp_community_id p) w)
    (match member_of (urp_community_id p) (urp_user_id p) w with
     | None => Some (-32001, "member not found"%string)
     | Some target =>
         unless (negb (bool_decide (Some (mr_public_key target) = known_community_pk (urp_community_id p) w))) (-32003)
           "cannot change the role of the community creator"
     end).

Lemma not_creator_spec c uid w :
  check_not_creator c uid w =
  (refuse (match member_of c uid w with
     | None => Some (-32001, "member not found"%string)
     | Some target =>
         unless (negb (bool_decide (Some (mr_public_key target) = known_community_pk c w))) (-32003)
           "cannot change the role of the community creator"
     end), w).
Proof using Type.
  unfold check_not_creator. unfold mbind at 1, rpc_bind at 1, gets at 1. destruct (member_of c uid w) as [t|]; [|done].
  unfold mbind, rpc_bind, gets. cbn. destruct (known_community_pk c w) as [pk|].
  - destruct (decide (mr_public_key t = pk)) as [->|Hne]; [by rewrite !bool_decide_eq_true_2|].
    rewrite !bool_decide_eq_false_2; [done|congruence|done].
  - by rewrite bool_decide_eq_false_2.
Qed.

Definition with_role (c uid : string) (role : Role) (found : MembershipRecord) w : World T :=
  save_members (upd (λ a, set_members
    (<[c := <[uid := with_roles [role] found]> (default ∅ (app_members a !! c))]> (app_members a)) a) w).
Lemma with_role_of c uid role found w c' u :
  member_of c uid w = Some found →
  member_of c' u (with_role c uid role found w) =
  if decide (c' = c ∧ u = uid) then Some (with_roles [role] found) else member_of c' u w.
Proof using Type.
  intros Hf. unfold with_role. unfold member_of, save_members. rewrite save_table_app. cbn. rewrite lookup_insert.
  destruct (decide (c = c')) as [->|Hc]; [|by rewrite decide_False by naive_solver]. cbn.
  destruct (decide (u = uid)) as [->|Hu]; [by rewrite lookup_insert_eq, decide_True|].
  rewrite lookup_insert_ne, decide_False by naive_solver. by destruct (app_members (w_app w) !! c').
Qed.

(** The event that the method publishes, and the members that apply it. *)
Definition role_event (now : DateTime) (uid : string) (ulid : CommunityId) (role : Role) w : NetworkEvent :=
  let id := key_of_hex uid in
  MemberRoleUpdated (mkRoleUpdate id ulid role now (ed_sign (app_signing_key (w_app w)) (role_message id ulid role))).
Definition applied (c uid : string) (role : Role) (data : bytes) w : Prop :=
  ∀ v source me m, member_of c me v = Some m → is_admin_member m = true → mr_public_key m = own_pk w →
    ∃ v', handle_community_message data source v = Done v' ∧
      member_of c uid v' = with_roles [role] <$> member_of c uid v.
Lemma role_applied now c uid ulid role data w :
  from_bytes data = Some (role_event now uid ulid role w) → ulid_to_string ulid = c → hex (key_of_hex uid) = uid →
  applied c uid role data w.
Proof using Type*.
  intros Hd Hc Hu v source me m Hm Hp Hpk. unfold handle_community_message. rewrite Hd. cbn. eexists. split; [done|].
  set (p := mkRoleUpdate _ _ _ _ _). destruct (member_role_updated_spec p v) as [_ Hl]. cbn in Hl. rewrite Hc, Hu in Hl.
  apply Hl. split; [apply (proj1 (wf_ed_sign _ _))|]. apply signed_by_member_spec. exists me, m.
  split_and!; [done|done|rewrite Hpk; apply ed_public_valid|]. rewrite Hpk. apply ed_sign_verify.
Qed.

(** Changing roles. [member_update_role] refuses, changing nothing, a caller that is not
    recorded as an administrator, a user who is no member, and the creator, whose key is the
    community's. Otherwise that member has exactly the new role, every other membership is as
    it was, and the change it publishes is applied by every member that records the caller
    as administrator. *)
Theorem member_update_role_correct ev p w :
  let c := urp_community_id p in
  let uid := urp_user_id p in
  let role := role_of_dto (urp_role p) in
  match role_change_refusal p w with
  | Some (code, msg) => member_update_role ev p w = (Fail code msg, w)
  | None =>
      ∃ w', member_update_role ev p w = (Reply true, w') ∧
        (∀ c' u, member_of c' u w' =
           if decide (c' = c ∧ u = uid) then with_roles [role] <$> member_of c uid w else member_of c' u w) ∧
        ∀ ulid, parse_ulid c = Some ulid → ulid_to_string ulid = c → hex (key_of_hex uid) = uid →
          ∃ data, Cmd (CmdPublish (community_topic c) data) ∈ w_out w' ∧ applied c uid role data w
  end.
Proof using All.
  intros c uid role. unfold member_update_role, role_change_refusal. fold c uid role. rewrite caller_check_spec.
  destruct (role_refusal _ _ _ _) as [[]|] eqn:Hr; [done|]. cbn [or_else]. apply role_refusal_members in Hr as [l Hl].
  rewrite (rpc_bind_refuse _ _ _ _ (not_creator_spec c uid w)).
  destruct (member_of c uid w) as [found|] eqn:Hf; [|done]. destruct (unless _ _ _) as [[]|]; [done|].
  assert (default ∅ (app_members (w_app w) !! c) = l) as Hdef by by rewrite Hl.
  assert (l !! uid = Some found) as Hlu by (unfold member_of in Hf; by rewrite Hl in Hf).
  unfold mbind at 1 2 3, rpc_bind at 1 2 3, gets at 1, step at 1. rewrite Hdef, Hlu. cbn [need mret].
  unfold mret at 1, rpc_ret at 1.
  assert (save_members (upd (λ a, set_members (<[c := <[uid := with_roles [role] found]> l]> (app_members a)) a) w) =
          with_role c uid role found w) as -> by (unfold with_role, save_members, upd; cbn; by rewrite Hdef).
  assert (app_signing_key (w_app (with_role c uid role found w)) = app_signing_key (w_app w)) as Hk.
  { unfold with_role, save_members. by rewrite save_table_app. }
  assert (∀ w2, w_app w2 = w_app (with_role c uid role found w) → ∀ c' u, member_of c' u w2 =
           if decide (c' = c ∧ u = uid) then with_roles [role] <$> Some found else member_of c' u w) as Hmem.
  { intros w2 Hw2 c' u. cbn [fmap option_fmap option_map]. rewrite <- (with_role_of c uid role found w c' u Hf). unfold member_of. by rewrite Hw2. }
  destruct (parse_ulid c) as [ulid|] eqn:Hp.
  - cbn. eexists. split; [done|]. split; [apply Hmem; cbn; apply publish_event_app|].
    intros ? [= <-] Hc Hx. rewrite Hk. change (MemberRoleUpdated _) with (role_event (rx_now ev 0) uid ulid role w).
    unfold publish_event. destruct (Hevent (role_event (rx_now ev 0) uid ulid role w)) as [data Hd]. rewrite Hd.
    exists data. split; [|by eapply role_applied; [by apply postcard_roundtrip|..]].
    cbn. apply elem_of_app. left. apply elem_of_app. right. by left.
  - cbn. eexists. split; [done|]. split; [by apply Hmem|done].
Qed.
End removal.
