(* ===== verification/RpcChannel.v ===== *)
(** * Channels over JSON-RPC: [bitcord-core/src/api/rpc_server/channel.rs]

    Listing, creating, deleting and reordering the channels of a community and rotating
    their keys. The methods sign with the caller's key; the other members accept what is
    signed with the community's. *)

From S2P Require Import Prelude Bytes Config Redb Routing Crypto Codec Model ClientState Store DhtNode Handler.
From S2P Require Import AppState ChannelEvents CommunityEvents ClientEvents Rpc.

Section rpc_channel.
Context {T : Type} `{Crypto} `{Table T} `{NodeCodecs} `{HashOrder} `{UlidText} `{UlidParse} `{AddrText}.
Context `{Entropy} `{AppCodecs}.
Implicit Types w : World T.

(** The channels in the order of the manifest; what is left keeps the map's order. *)
Definition take_ordered (acc : gmap string ChannelInfo * list ChannelInfo) (id : string)
    : gmap string ChannelInfo * list ChannelInfo :=
  match acc.1 !! id with Some i => (delete id acc.1, acc.2 ++ [i]) | None => acc end.
Definition channel_list (community_id : string) : Rpc T (list ChannelInfo) :=
  chs ← gets (λ w, (hash_order (app_channels (w_app w))).*2);
  signed ← gets (λ w, app_communities (w_app w) !! community_id);
  let map := foldl (λ m c, <[ulid_to_string (ch_id c) := channel_manifest_to_info c]> m) ∅
               (retain (λ c, bool_decide (ulid_to_string (ch_community_id c) = community_id)) chs) in
  let ordered_ids :=
    match signed with Some s => ulid_to_string <$> cm_channel_ids (sm_manifest s) | None => [] end in
  let '(rest, list) := foldl take_ordered (map, []) ordered_ids in
  mret (list ++ (hash_order rest).*2).

Definition channel_get (channel_id : string) : Rpc T ChannelInfo :=
  ch ← gets (λ w, app_channels (w_app w) !! channel_id);
  need (channel_manifest_to_info <$> ch) (not_found "channel not found").

(** A changed manifest with the next version, signed with the caller's key and saved. *)
Definition with_channels (ids : list ChannelId) (m : CommunityManifest) : CommunityManifest :=
  mkManifest (cm_id m) (cm_name m) (cm_description m) (cm_public_key m) (cm_created_at m) (cm_admin_ids m) ids
    (cm_seed_nodes m) (wrap64 (cm_version m + 1)) (cm_deleted m).
Definition resign (community_id : string) (updated : CommunityManifest) : Rpc T SignedManifest :=
  sk ← gets (λ w, app_signing_key (w_app w));
  match manifest_sign updated sk with
  | None => panic
  | Some signed =>
      step (λ w, save_communities
        (upd (λ a, set_communities (<[community_id := signed]> (app_communities a)) a) w));;
      mret signed
  end.
Definition community_of (community_id : string) : Rpc T SignedManifest :=
  signed ← gets (λ w, app_communities (w_app w) !! community_id);
  need signed (not_found "community not found").

(** [ChannelKey::generate]. *)
Definition generate_key : Rpc T bytes :=
  key ← gets (λ w, rng32 (w_draws w));
  step draw;;
  mret key.

Definition put_channel (channel_id : string) (ch : ChannelManifest) w : World T :=
  save_channels (upd (λ a, set_channels (<[channel_id := ch]> (app_channels a)) a) w).
Definition put_key (channel_id : string) (key : bytes) w : World T :=
  save_channel_keys (upd (λ a, set_channel_keys (<[channel_id := key]> (app_channel_keys a)) a) w).

Definition kind_of_dto (k : ChannelKindDto) : ChannelKind :=
  match k with TextDto => Text | AnnouncementDto => Announcement | VoiceDto => Voice end.

Definition add_channel_to_meta (signed : SignedManifest) (ch : ChannelManifest) (channel_id : string) (key : bytes)
    (meta : CommunityMeta) : CommunityMeta :=
  mkMeta (meta_cert meta) (Some signed) (meta_channels meta ++ [ch])
    (<[channel_id := key]> (meta_channel_keys meta)) (meta_members meta).

Definition channel_create (ev : RpcEnv) (p : CreateChannelParams) : Rpc T ChannelInfo :=
  let community_id := ccp_community_id p in
  check (negb (bool_decide (ccp_name p = ""%string)) && (String.length (ccp_name p) <=? 100)%nat)
    (invalid_params "name must be 1–100 characters");;
  community_of community_id;;
  cid ← need (parse_ulid community_id) (invalid_params "invalid community_id");
  key ← generate_key;
  wrapped ← wrap_for_members community_id key;
  let ch := mkChannel (rx_fresh ev) cid (ccp_name p) (kind_of_dto (ccp_kind p)) wrapped (rx_now ev 0) 1 in
  let channel_id := ulid_to_string (ch_id ch) in
  step (put_channel channel_id ch);;
  step (put_key channel_id key);;
  signed ← community_of community_id;
  channel_ulid ← need (parse_ulid channel_id) (internal_err "invalid channel_id generated");
  let m := sm_manifest signed in
  signed ← resign community_id (with_channels (cm_channel_ids m ++ [channel_ulid]) m);
  step (update_meta (cm_public_key m) (add_channel_to_meta signed ch channel_id key));;
  publish (community_topic community_id) (ManifestUpdate signed);;
  publish (community_topic community_id) (ChannelManifestBroadcast (mkBroadcast ch));;
  notify (PushCommunityManifestUpdated (mkCommunityEvent community_id (cm_version (sm_manifest signed)) ""));;
  step (command (CmdSubscribe (channel_topic channel_id)));;
  notify (PushChannelCreated (mkChannelEvent channel_id community_id (ccp_name p)));;
  mret (channel_manifest_to_info ch).

Definition drop_channel_from_meta (channel_id : string) (meta : CommunityMeta) : CommunityMeta :=
  mkMeta (meta_cert meta) (meta_manifest meta)
    (retain (λ c, negb (bool_decide (ulid_to_string (ch_id c) = channel_id))) (meta_channels meta))
    (delete channel_id (meta_channel_keys meta)) (meta_members meta).

Definition channel_delete (p : DeleteChannelParams) : Rpc T bool :=
  let community_id := dcp_community_id p in
  let channel_id := dcp_channel_id p in
  require_seed_connected community_id;;
  ch ← gets (λ w, app_channels (w_app w) !! channel_id);
  ch ← need ch (not_found "channel not found");
  step (λ w, save_channels (upd (λ a, set_channels (delete channel_id (app_channels a)) a) w));;
  step (λ w, save_channel_keys (upd (λ a, set_channel_keys (delete channel_id (app_channel_keys a)) a) w));;
  signed ← community_of community_id;
  channel_ulid ← need (parse_ulid channel_id) (invalid_params "invalid channel_id");
  let m := sm_manifest signed in
  signed ← resign community_id
    (with_channels (retain (λ id, negb (bool_decide (id = channel_ulid))) (cm_channel_ids m)) m);
  step (update_meta (cm_public_key m) (drop_channel_from_meta channel_id));;
  step (command (CmdUnsubscribe (channel_topic channel_id)));;
  publish (community_topic community_id) (ManifestUpdate signed);;
  notify (PushChannelDeleted (mkChannelEvent channel_id community_id (ch_name ch)));;
  mret true.

(** The new key of a channel; the old one is kept to read older messages. *)
Definition replace_key (channel_id : string) (key : bytes) w : World T :=
  let w := match app_channel_keys (w_app w) !! channel_id with
           | Some old =>
               if bool_decide (old = key) then w
               else save_previous_keys
                      (upd (λ a, set_previous_channel_keys
                              (<[channel_id := old]> (app_previous_channel_keys a)) a) w)
           | None => w
           end in
  put_key channel_id key w.
Definition rotated_channel (wrapped : gmap bytes bytes) (ch : ChannelManifest) : ChannelManifest :=
  mkChannel (ch_id ch) (ch_community_id ch) (ch_name ch) (ch_kind ch) wrapped (ch_created_at ch)
    (wrap64 (ch_version ch + 1)).
Definition rotate_in_meta (channel_id : string) (key : bytes) (ch : ChannelManifest) (meta : CommunityMeta)
    : CommunityMeta :=
  mkMeta (meta_cert meta) (meta_manifest meta)
    (update_first (λ c, bool_decide (ulid_to_string (ch_id c) = channel_id)) (λ _, ch) (meta_channels meta))
    (<[channel_id := key]> (meta_channel_keys meta)) (meta_members meta).

Definition channel_rotate_key (p : RotateKeyParams) : Rpc T bool :=
  let community_id := rkp_community_id p in
  let channel_id := rkp_channel_id p in
  require_seed_connected community_id;;
  ch ← gets (λ w, app_channels (w_app w) !! channel_id);
  ch ← need ch (not_found "channel not found");
  key ← generate_key;
  step (replace_key channel_id key);;
  wrapped ← wrap_for_members community_id key;
  let ch := rotated_channel wrapped ch in
  step (put_channel channel_id ch);;
  cpk ← gets (known_community_pk community_id);
  step (λ w, match cpk with Some pk => update_meta pk (rotate_in_meta channel_id key ch) w | None => w end);;
  encoded ← need (to_allocvec ch) (internal_err "failed to encode manifest");
  sk ← gets (λ w, app_signing_key (w_app w));
  publish (channel_topic channel_id) (ChannelKeyRotation (mkRotation ch (ed_sign sk encoded)));;
  publish (community_topic community_id) (ChannelManifestBroadcast (mkBroadcast ch));;
  mret true.

(** Every channel named belongs to the community. *)
Fixpoint check_channels (community_id : string) (ids : list string) : Rpc T unit :=
  match ids with
  | [] => mret tt
  | id :: ids =>
      ch ← gets (λ w, app_channels (w_app w) !! id);
      match ch with
      | Some c =>
          check (bool_decide (ulid_to_string (ch_community_id c) = community_id))
            (invalid_params ("channel " ++ id ++ " does not belong to community"))
      | None => not_found ("channel " ++ id ++ " not found")
      end;;
      check_channels community_id ids
  end.
Fixpoint parse_ids (ids : list string) : Rpc T (list ChannelId) :=
  match ids with
  | [] => mret []
  | id :: ids =>
      u ← need (parse_ulid id) (invalid_params ("invalid channel_id: " ++ id));
      us ← parse_ids ids;
      mret (u :: us)
  end.

Definition channel_reorder (p : ReorderChannelsParams) : Rpc T bool :=
  let community_id := rop_community_id p in
  require_seed_connected community_id;;
  check_channels community_id (rop_channel_ids p);;
  new_order ← parse_ids (rop_channel_ids p);
  signed ← community_of community_id;
  let m := sm_manifest signed in
  let remaining := retain (λ id, negb (bool_decide (ulid_to_string id ∈ rop_channel_ids p))) (cm_channel_ids m) in
  signed ← resign community_id (with_channels (new_order ++ remaining) m);
  step (update_meta (cm_public_key m) (set_manifest signed));;
  publish (community_topic community_id) (ManifestUpdate signed);;
  notify (PushCommunityManifestUpdated (mkCommunityEvent community_id (cm_version (sm_manifest signed)) ""));;
  mret true.
End rpc_channel.

(** ** What the methods do *)

Section channel_theorems.
Context {T : Type} `{CryptoLaws} `{TableLaws T} `{NodeCodecsLaws} `{HashOrderLaws} `{UlidText} `{UlidParse} `{AddrText}.
Context `{EntropyLaws} `{AppCodecsLaws}.
Context (Haead : ∀ k n m, is_Some (aead_encrypt k n m)).
Context (Hevent : ∀ e : NetworkEvent, is_Some (to_allocvec e)).
Context (Hchannel : ∀ c : ChannelManifest, is_Some (to_allocvec c)).
Implicit Types w v : World T.

(** Every member has [key], wrapped for its X25519 key. *)
Definition wrapped_for (key : bytes) (m : gmap bytes bytes) (r : MembershipRecord) : Prop :=
  ∃ wrapped, m !! mr_user_id r = Some wrapped ∧
    ∀ x_sk, mr_x25519_public_key r = x_public x_sk → decrypt_for_self x_sk wrapped = Ok key.

Lemma wrap_fold key l w :
  length key = 32%nat →
  let '(w', m) := foldl (λ '(w, m) r,
      match encrypt_for_member key (rng32 (w_draws w)) (rng24 (w_draws w)) (mr_x25519_public_key r) with
      | Ok wrapped => (draw w, <[mr_user_id r := wrapped]> m)
      | Err _ => (draw w, m)
      end) (w, ∅) l in
  w_app w' = w_app w ∧ w_out w' = w_out w ∧
  ∀ r, r ∈ l → ∃ r', r' ∈ l ∧ mr_user_id r' = mr_user_id r ∧ wrapped_for key m r'.
Proof using All.
  intros Hk. induction l as [|r l IH] using rev_ind; [cbn; split_and!; [done..|]; by intros r ?%not_elem_of_nil|].
  rewrite foldl_app. destruct (foldl _ _ l) as [w1 m]. destruct IH as (Ha & Ho & IH). cbn.
  destruct (encrypt_for_member key _ _ _) as [wr|] eqn:He.
  2:{ unfold encrypt_for_member in He. set (k := wrapping_key _ _) in He.
      destruct (Haead k (rng24 (w_draws w1)) key) as [c Hc]. by rewrite Hc in He. }
  split_and!; [done|done|]. intros r0 Hr0. destruct (decide (mr_user_id r = mr_user_id r0)) as [Heq|Hne].
  - exists r. split_and!; [apply elem_of_app; right; by left|done|]. exists wr. rewrite lookup_insert_eq. split; [done|].
    intros x_sk Hx. rewrite Hx in He. by destruct (unwrap_wrapped _ _ _ _ _ Hk (rng24_length _) He).
  - apply elem_of_app in Hr0 as [Hr0|Hr0]; [|apply list_elem_of_singleton in Hr0; by subst].
    destruct (IH _ Hr0) as (r' & Hin & Hu & wr' & Hl & Hd). exists r'. split_and!; [apply elem_of_app; by left|done|].
    exists wr'. rewrite lookup_insert_ne by congruence. by split.
Qed.
Lemma wrap_for_members_spec c key w :
  length key = 32%nat → (∀ k l, app_members (w_app w) !! k = Some l → ∀ u m, l !! u = Some m → u = hex (mr_user_id m)) →
  ∃ m w', wrap_for_members c key w = (Reply m, w') ∧ w_app w' = w_app w ∧ w_out w' = w_out w ∧
    ∀ uid r, member_of c uid w = Some r → wrapped_for key m r.
Proof using All.
  intros Hk Hkeyed. unfold wrap_for_members.
  pose proof (wrap_fold key (hash_order (default ∅ (app_members (w_app w) !! c))).*2 w Hk) as Hf.
  destruct (foldl _ _ _) as [w' m]. destruct Hf as (Ha & Ho & Hr). exists m, w'. split_and!; [done..|].
  intros uid r Hm. unfold member_of in Hm. destruct (app_members (w_app w) !! c) as [l|] eqn:Hl; [|done]. cbn in Hm, Hr.
  assert (∀ x, x ∈ (hash_order l).*2 ↔ ∃ k, l !! k = Some x) as Hin.
  { intros x. rewrite hash_order_perm, list_elem_of_fmap. split.
    - intros ([k y] & -> & Hy). exists k. by apply elem_of_map_to_list in Hy.
    - intros (k & Hy). exists (k, x). split; [done|]. by apply elem_of_map_to_list. }
  destruct (Hr r) as (r' & Hr' & Hu & Hw); [apply Hin; by exists uid|]. apply Hin in Hr' as (k' & Hk').
  assert (k' = uid) as ->; [|congruence].
  rewrite (Hkeyed _ _ Hl _ _ Hk'), (Hkeyed _ _ Hl _ _ Hm). by rewrite Hu.
Qed.

(** The state after each step. *)
Lemma put_channel_app id ch w : w_app (put_channel id ch w) = set_channels (<[id := ch]> (app_channels (w_app w))) (w_app w).
Proof using Type. unfold put_channel, save_channels. by rewrite save_table_app. Qed.
Lemma put_key_app id key w :
  w_app (put_key id key w) = set_channel_keys (<[id := key]> (app_channel_keys (w_app w))) (w_app w).
Proof using Type. unfold put_key, save_channel_keys. by rewrite save_table_app. Qed.
Lemma update_meta_keeps pk f w :
  (∃ s, w_app (update_meta pk f w) = set_node_store s (w_app w)) ∧ w_out (update_meta pk f w) = w_out w.
Proof using Type.
  unfold update_meta. destruct (stored_meta pk w).
  - split; [apply on_store_app|]. unfold write_meta, on_store. destruct (app_node_store _); [|done]. by destruct (set_community_meta _ _ _ _).
  - split; [|done]. exists (app_node_store (w_app w)). symmetry. by apply set_store_id.
Qed.
Definition kept_keys (id : string) (key : bytes) (a : AppState T) : gmap string bytes :=
  match app_channel_keys a !! id with
  | Some old => if bool_decide (old = key) then app_previous_channel_keys a
                else <[id := old]> (app_previous_channel_keys a)
  | None => app_previous_channel_keys a
  end.
Lemma replace_key_app id key w :
  w_app (replace_key id key w) =
    set_channel_keys (<[id := key]> (app_channel_keys (w_app w))) (set_previous_channel_keys (kept_keys id key (w_app w)) (w_app w)) ∧
  w_out (replace_key id key w) = w_out w.
Proof using Type.
  unfold replace_key, kept_keys. destruct (app_channel_keys (w_app w) !! id) as [old|]; [case_bool_decide|].
  - rewrite put_key_app. unfold put_key, save_channel_keys. rewrite save_table_out. split; [|done]. by destruct (w_app w).
  - rewrite put_key_app. unfold put_key, save_channel_keys, save_previous_keys. rewrite !save_table_app, save_table_out.
    cbn. rewrite save_table_out. by split.
  - rewrite put_key_app. unfold put_key, save_channel_keys. rewrite save_table_out. split; [|done]. by destruct (w_app w).
Qed.

Definition rotate_refusal (p : RotateKeyParams) w : refusal :=
  or_else (seed_refusal (rkp_community_id p) w)
    (if_none (app_channels (w_app w) !! rkp_channel_id p) (-32001) "channel not found").

Lemma generate_key_run w : generate_key w = (Reply (rng32 (w_draws w)), draw w).
Proof using Type. done. Qed.
Lemma channel_rotate_key_spec p w :
  (∀ k l, app_members (w_app w) !! k = Some l → ∀ u m, l !! u = Some m → u = hex (mr_user_id m)) →
  let id := rkp_channel_id p in
  let key := rng32 (w_draws w) in
  match rotate_refusal p w with
  | Some (code, msg) => channel_rotate_key p w = (Fail code msg, w)
  | None =>
      ∃ old wrapped encoded data w', app_channels (w_app w) !! id = Some old ∧
        let new := rotated_channel wrapped old in
        channel_rotate_key p w = (Reply true, w') ∧
        app_channels (w_app w') = <[id := new]> (app_channels (w_app w)) ∧
        app_channel_keys (w_app w') = <[id := key]> (app_channel_keys (w_app w)) ∧
        app_previous_channel_keys (w_app w') = kept_keys id key (w_app w) ∧
        (∀ uid r, member_of (rkp_community_id p) uid w = Some r → wrapped_for key wrapped r) ∧
        to_allocvec new = Some encoded ∧
        Cmd (CmdPublish (channel_topic id) data) ∈ w_out w' ∧
        from_bytes data = Some (ChannelKeyRotation (mkRotation new (ed_sign (app_signing_key (w_app w)) encoded)))
  end.
Proof using All.
  intros Hkeyed id key. unfold channel_rotate_key, rotate_refusal. fold id.
  rewrite (rpc_bind_refuse _ _ _ _ (require_seed_spec _ w)). destruct (seed_refusal _ _) as [[]|]; [done|]. cbn [or_else].
  rewrite (rpc_bind_ok _ _ _ _ _ (gets_run _ w)). destruct (app_channels (w_app w) !! id) as [old|] eqn:Hold; [|done].
  cbn [need if_none]. rewrite (rpc_bind_ok (mret old) _ w old w eq_refl), (rpc_bind_ok _ _ _ _ _ (generate_key_run w)).
  fold key. rewrite (rpc_bind_ok _ _ _ _ _ (step_run _ _)).
  destruct (replace_key_app id key (draw w)) as [Ha1 Ho1]. set (w1 := replace_key id key (draw w)) in *.
  destruct (wrap_for_members_spec (rkp_community_id p) key w1) as (wrapped & w2 & Hrun & Ha2 & Ho2 & Hwr);
    [apply rng32_length|by rewrite Ha1|]. rewrite (rpc_bind_ok _ _ _ _ _ Hrun).
  set (new := rotated_channel wrapped old). rewrite (rpc_bind_ok _ _ _ _ _ (step_run _ _)).
  set (w3 := put_channel id new w2). rewrite (rpc_bind_ok _ _ _ _ _ (gets_run _ w3)).
  set (f := λ w, match known_community_pk (rkp_community_id p) w3 with Some pk => _ | None => w end).
  rewrite (rpc_bind_ok _ _ _ _ _ (step_run f w3)).
  assert ((∃ s, w_app (f w3) = set_node_store s (w_app w3)) ∧ w_out (f w3) = w_out w3) as [[s Ha4] Ho4].
  { subst f. cbv beta. destruct (known_community_pk (rkp_community_id p) w3); [apply update_meta_keeps|].
    split; [|done]. exists (app_node_store (w_app w3)). symmetry. by apply set_store_id. }
  destruct (Hchannel new) as [encoded He]. rewrite He. cbn [need].
  rewrite (rpc_bind_ok (mret encoded) _ _ encoded _ eq_refl), (rpc_bind_ok _ _ _ _ _ (gets_run _ _)).
  assert (app_signing_key (w_app (f w3)) = app_signing_key (w_app w)) as ->.
  { rewrite Ha4. cbn. unfold w3. rewrite put_channel_app. cbn. by rewrite Ha2, Ha1. }
  set (event := ChannelKeyRotation _). destruct (publish_run Hevent (channel_topic id) event (f w3)) as (data & Hp & Hd).
  rewrite (rpc_bind_ok _ _ _ _ _ Hp).
  destruct (publish_run Hevent (community_topic (rkp_community_id p)) (ChannelManifestBroadcast (mkBroadcast new))
    (command (CmdPublish (channel_topic id) data) (f w3))) as (data2 & Hp2 & _).
  rewrite (rpc_bind_ok _ _ _ _ _ Hp2). exists old, wrapped, encoded, data. eexists. split; [done|]. cbv zeta. fold new.
  split; [done|]. cbn [w_app w_out command emit]. rewrite Ha4. cbn.
  assert (w_app w3 = set_channels (<[id := new]> (app_channels (w_app w2))) (w_app w2)) as Ha3 by apply put_channel_app.
  rewrite Ha3. cbn. rewrite Ha2, Ha1. cbn. split_and!; try done.
  - intros uid r Hm. apply (Hwr uid). unfold member_of in *. by rewrite Ha1.
  - apply elem_of_app. left. apply elem_of_app. right. by left.
Qed.

(** C19: rotating a channel's key. Unless the community or the channel is unknown or the seed out of
    reach, the caller has a fresh key for the channel and keeps the one it replaces; every
    member can open the new key with its own secret; and the rotation is published. What a
    member does that has no newer version of the channel depends on how it encodes the new
    channel again, with the wrapped keys in the order of its own map: where that gives the bytes
    the caller has signed, as it does when there is at most one wrapped key, and it knows the
    caller as the community's creator, it takes the new channel over; where the signature does
    not verify over its own encoding, because of the order or because the caller is not the
    creator, it ignores the rotation, while the caller writes under the new key. *)
Theorem channel_rotate_key_correct p w :
  (∀ k l, app_members (w_app w) !! k = Some l → ∀ u m, l !! u = Some m → u = hex (mr_user_id m)) →
  let id := rkp_channel_id p in
  let key := rng32 (w_draws w) in
  match rotate_refusal p w with
  | Some (code, msg) => channel_rotate_key p w = (Fail code msg, w)
  | None =>
      ∃ old new encoded data w', channel_rotate_key p w = (Reply true, w') ∧
        app_channels (w_app w) !! id = Some old ∧ app_channels (w_app w') !! id = Some new ∧
        app_channel_keys (w_app w') !! id = Some key ∧
        (∀ k, app_channel_keys (w_app w) !! id = Some k → k ≠ key →
              app_previous_channel_keys (w_app w') !! id = Some k) ∧
        (∀ uid r, member_of (rkp_community_id p) uid w = Some r → wrapped_for key (ch_encrypted_channel_key new) r) ∧
        Cmd (CmdPublish (channel_topic id) data) ∈ w_out w' ∧ to_allocvec new = Some encoded ∧
        ∀ v topic pk cur, let cid := ulid_to_string (ch_id old) in
          known_community_pk (ulid_to_string (ch_community_id old)) v = Some pk → app_channels (w_app v) !! cid = Some cur →
          ((size (ch_encrypted_channel_key new) ≤ 1)%nat ∨ reencode_channel (w_draws v) new = Some encoded →
             pk = own_pk w → ch_version cur <= ch_version old → 0 <= ch_version old < U64_MAX →
             ∃ v', handle_channel_message false topic data v = Done v' ∧ app_channels (w_app v') !! cid = Some new) ∧
          ((∀ b, reencode_channel (w_draws v) new = Some b → ed_verify pk b (ed_sign (app_signing_key (w_app w)) encoded) = false) →
             handle_channel_message false topic data v = Done (draw v))
  end.
Proof using All.
  intros Hkeyed id key. pose proof (channel_rotate_key_spec p w Hkeyed) as Hs. cbv zeta in Hs. fold id key in Hs.
  destruct (rotate_refusal p w) as [[]|]; [done|].
  destruct Hs as (old & wrapped & encoded & data & w' & Hold & Hrun & Hch & Hkey & Hprev & Hwr & Henc & Hout & Hd).
  exists old, (rotated_channel wrapped old), encoded, data, w'. split_and!; [done|done| | | |done|done|done|].
  - by rewrite Hch, lookup_insert_eq.
  - by rewrite Hkey, lookup_insert_eq.
  - intros k Hk Hne. rewrite Hprev. unfold kept_keys. by rewrite Hk, bool_decide_eq_false_2, lookup_insert_eq.
  - intros v topic pk cur cid Hpk Hcur. unfold handle_channel_message. rewrite Hd.
    set (payload := mkRotation _ _). split.
    + intros Hsame -> Hver Hov. assert (reencode_channel (w_draws v) (rotated_channel wrapped old) = Some encoded) as Hre.
      { destruct Hsame as [Hsize|Hre]; [by rewrite reencode_short|done]. }
      destruct (rotation_accepted payload v (own_pk w)) as (v' & Hdone & Hchs & _).
      * exact Hpk.
      * unfold rotation_verified, payload. cbn [kr_new_manifest kr_signature].
        rewrite Hre. unfold own_pk. rewrite ed_public_valid, (proj1 (wf_ed_sign _ _)), ed_sign_verify. done.
      * unfold is_newer_channel. cbn. fold cid. rewrite Hcur. apply Z.ltb_lt.
        rewrite wrap64_small; [lia|]. unfold is_u64, U64_MAX in *. lia.
      * exists v'. split; [exact Hdone|]. rewrite Hchs. unfold payload; cbn. fold cid. by rewrite lookup_insert_eq.
    + intros Hno. unfold handle_channel_key_rotation, payload. cbn [kr_new_manifest]. cbn. rewrite Hpk.
      unfold rotation_verified. cbn [kr_new_manifest kr_signature]. destruct (reencode_channel _ _) as [b|]; [|by rewrite andb_false_r].
      by rewrite (Hno b eq_refl), andb_false_r.
Qed.
End channel_theorems.
