(* ===== verification/RpcCommunity.v ===== *)
(** * Communities over JSON-RPC: [bitcord-core/src/api/rpc_server/community.rs]

    Creating, joining, leaving, deleting and changing communities, and the invite links. A
    link is the base64 form of a JSON document that the community's administrator signed;
    [Invites] are the two encodings and [Certificates] the certificate generator behind the
    TLS fingerprint. *)

From S2P Require Import Prelude Bytes Config Redb Routing Crypto Codec Model ClientState Store DhtNode Handler.
From S2P Require Import AppState ChannelEvents CommunityEvents ManifestEvents ClientEvents AppStart Rpc RpcMessage RpcChannel.

(** ** Invites *)

Record InvitePayload := mkInvite {
  inv_community_id : string; inv_name : string; inv_description : string; inv_seed_nodes : list string;
  inv_public_key_hex : string; inv_sig_hex : string; inv_cert_fingerprint_hex : string }.
(** The fields that the signature covers: all but the signature and the fingerprint. *)
Record InviteSigningPayload := mkInviteSigning {
  isp_community_id : string; isp_name : string; isp_description : string; isp_public_key_hex : string;
  isp_seed_nodes : list string }.
Definition signed_part (i : InvitePayload) : InviteSigningPayload :=
  mkInviteSigning (inv_community_id i) (inv_name i) (inv_description i) (inv_public_key_hex i) (inv_seed_nodes i).

Class Invites := {
  json_invite :: Json InvitePayload;
  signing_json : InviteSigningPayload → option bytes;
  b64_encode : bytes → string;
  b64_decode : string → option bytes }.
Class InvitesLaws `{Invites} : Prop := {
  json_invite_laws :: JsonLaws InvitePayload;
  signing_json_total p : is_Some (signing_json p);
  b64_roundtrip b : b64_decode (b64_encode b) = Some b }.

(** [rcgen]'s self-signed certificate of a key, as DER. *)
Class Certificates := { self_signed_cert : bytes → option bytes }.

Definition zero32 : bytes := replicate 32 0.
Definition JOIN_PREFIX : string := "bitcord://join/".

Section rpc_community.
Context {T : Type} `{Crypto} `{Table T} `{NodeCodecs} `{HashOrder} `{UlidText} `{UlidParse} `{AddrText}.
Context `{Entropy} `{AppCodecs} `{Invites} `{Certificates}.
Implicit Types w : World T.

(** [NodeTlsCert::generate(key)?.fingerprint]. *)
Definition tls_fingerprint (signing_key : bytes) : option bytes := sha256 <$> self_signed_cert signing_key.

(** A hexadecimal text that is to give 32 bytes. The outer [None] is a panic. *)
Definition hex32 (s : string) : option (option bytes) :=
  match hex_slices s with
  | Some (Some b) => Some (if (length b =? 32)%nat then Some b else None)
  | r => r
  end.
Definition own_bytes (s what : string) : Rpc T bytes :=
  match hex32 s with
  | None => panic
  | Some None => internal_err ("invalid " ++ what ++ " in state")
  | Some (Some b) => mret b
  end.
(** [p.as_deref().and_then(parse_fingerprint_hex).unwrap_or([0u8; 32])]. *)
Definition fingerprint_or_zero (h : option string) : Rpc T bytes :=
  match h with
  | None => mret zero32
  | Some h => match parse_fingerprint_hex h with None => panic | Some o => mret (default zero32 o) end
  end.

Definition name_ok (name : string) : bool :=
  negb (bool_decide (name = ""%string)) && (String.length name <=? 100)%nat.

Definition put_community (community_id : string) (signed : SignedManifest) w : World T :=
  save_communities (upd (λ a, set_communities (<[community_id := signed]> (app_communities a)) a) w).
Definition put_password (community_id : string) (password : option string) w : World T :=
  match password with
  | Some pw =>
      save_passwords (upd (λ a, set_hosting_passwords (<[community_id := pw]> (app_hosting_passwords a)) a) w)
  | None => w
  end.
Definition put_fingerprints (addrs : list string) (fp : bytes) w : World T :=
  save_fingerprints (upd (λ a, set_seed_fingerprints
    (foldl (λ m addr, <[addr := fp]> m) (app_seed_fingerprints a) addrs) a) w).

(** The own membership record, signed. *)
Definition self_member (user_id public_key : bytes) (community_id : CommunityId) (id_text : string)
    (now : DateTime) (roles : list Role) w : MembershipRecord :=
  let name := default (String.substring 0 8 id_text) (is_display_name (app_identity_state (w_app w))) in
  mkMember user_id community_id name None now roles public_key (x_public (own_x25519_sk w))
    (ed_sign (app_signing_key (w_app w)) (membership_message user_id community_id name now roles)).

Definition dial_seed (password : option string) (pk : bytes) (community_id : string) (fp : bytes) (addr : NodeAddr)
    : World T → World T :=
  command (CmdDial addr true (Some (pk, community_id)) password fp).

Definition spawn_register (pk : bytes) w : World T :=
  match app_dht (w_app w) with Some _ => emit (SpawnRegisterCommunityPeer pk) w | None => w end.

(** ** [community_create] *)

(** The fingerprint of external seeds, which must be given, is stored for all of them. *)
Definition create_fingerprint (p : CreateCommunityParams) : Rpc T bytes :=
  match cop_seed_nodes p with
  | [] => mret zero32
  | seeds =>
      fp ← fingerprint_or_zero (cop_seed_fingerprint_hex p);
      check (negb (bool_decide (fp = zero32)))
        (invalid_params "seed_fingerprint_hex is required when seed_nodes is non-empty (64-char hex SHA-256 of the seed node's TLS certificate)");;
      step (put_fingerprints seeds fp);;
      mret fp
  end.

(** The metadata of a community that this node hosts from the start. *)
Definition host_community (signed : SignedManifest) (self : MembershipRecord) w : World T :=
  let cert := cert_new (app_signing_key (w_app w)) (key_of_hex (app_public_key_hex (w_app w))) U64_MAX in
  write_meta (cm_public_key (sm_manifest signed))
    (mkMeta cert (Some signed) [] ∅ {[ hex (mr_user_id self) := self ]}) w.

(** Every seed that is not this machine's own server. *)
Definition dial_other_seeds (own_ips : list IpAddr) (password : option string) (pk : bytes) (community_id : string)
    (fp : bytes) (seeds : list string) w : World T :=
  let own addr :=
    any (λ i, bool_decide (i = ip addr)) (V4 [127; 0; 0; 1] :: V6 (replicate 15 0 ++ [1]) :: own_ips)
      && (port addr =? cfg_quic_port (app_config (w_app w))) in
  foldl (λ w s,
    match parse_node_addr s with
    | Some addr => if own addr then w else dial_seed password pk community_id fp addr w
    | None => w
    end) w seeds.

(** The community with its founder, once the parameters have been checked. *)
Definition create_checked (ev : RpcEnv) (p : CreateCommunityParams) (pk_hex : string) (pk admin fp : bytes)
    : Rpc T CommunityInfo :=
  let m := mkManifest (rx_fresh ev) (cop_name p) (cop_description p) pk (rx_now ev 0) [admin] []
             (cop_seed_nodes p) 1 false in
  sk ← gets (λ w, app_signing_key (w_app w));
  signed ← match manifest_sign m sk with Some s => mret s | None => panic end;
  let community_id := ulid_to_string (cm_id m) in
  self ← gets (self_member admin pk (cm_id m) community_id (rx_now ev 1) [Admin]);
  step (put_community community_id signed);;
  step (put_password community_id (cop_hosting_password p));;
  step (host_community signed self);;
  step (command (CmdSubscribe (community_topic community_id)));;
  step (dial_other_seeds (rx_own_ips ev) (cop_hosting_password p) pk community_id fp (cm_seed_nodes m));;
  step (spawn_register pk);;
  step (insert_member community_id self);;
  publish (community_topic community_id) (MemberJoined self);;
  notify (PushCommunityManifestUpdated (mkCommunityEvent community_id (cm_version m) ""));;
  mret (mkCommunityInfo community_id (cm_name m) (cm_description m) pk_hex (hex <$> cm_admin_ids m) []
          (cm_seed_nodes m) (cm_version m) (cm_created_at m) true (negb (bool_decide (cm_seed_nodes m = [])))).

Definition community_create (ev : RpcEnv) (p : CreateCommunityParams) : Rpc T CommunityInfo :=
  mode ← gets (λ w, cfg_node_mode (app_config (w_app w)));
  check (negb (bool_decide (mode = GossipClient) && bool_decide (cop_seed_nodes p = [])))
    (forbidden "GossipClient mode — add at least one external seed node address");;
  check (name_ok (cop_name p)) (invalid_params "name must be 1–100 characters");;
  pk_hex ← gets (λ w, app_public_key_hex (w_app w));
  pk ← own_bytes pk_hex "public_key_hex";
  peer_id ← gets (λ w, app_peer_id (w_app w));
  admin ← own_bytes peer_id "peer_id";
  fp ← create_fingerprint p;
  create_checked ev p pk_hex pk admin fp.

(** ** [community_join] *)

(** The community's key; zero when the invite has none that can be read. [None]: a slice panics. *)
Definition invite_pk (i : InvitePayload) : option bytes :=
  if (String.length (inv_public_key_hex i) =? 64)%nat then default zero32 <$> hex_slices (inv_public_key_hex i)
  else Some zero32.
Definition invite_sig_valid (i : InvitePayload) (pk : bytes) : option bool :=
  let payload := default [] (signing_json (signed_part i)) in
  if negb (String.length (inv_sig_hex i) =? 128)%nat then Some false
  else
    match hex_slices (inv_sig_hex i) with
    | None => None
    | Some None => Some false
    | Some (Some sig) => Some (ed_valid_key pk && ed_verify pk payload sig)
    end.
(** The signature must be there; it is checked when the invite has a key. *)
Definition check_signature (i : InvitePayload) (pk : bytes) : Rpc T unit :=
  check (negb (bool_decide (inv_sig_hex i = ""%string)))
    (invalid_params "invalid invite: admin signature required; generate a new invite link from an admin account");;
  if bool_decide (pk = zero32) then mret tt
  else
    match invite_sig_valid i pk with
    | None => panic
    | Some valid => check valid (invalid_params "invalid invite: admin signature verification failed")
    end.

Definition read_invite (text : string) : Rpc T InvitePayload :=
  decoded ← need (b64_decode text) (invalid_params "invalid invite: bad base64url encoding");
  need (from_json decoded) (invalid_params "invalid invite: bad JSON payload").

(** The checks before anything is changed: the identifier and the key of the community. *)
Definition accept_invite (i : InvitePayload) : Rpc T (CommunityId * bytes) :=
  check (negb (bool_decide (inv_name i = ""%string))) (invalid_params "invalid invite: missing community name");;
  cid ← need (parse_ulid (inv_community_id i)) (invalid_params "invalid invite: bad community_id");
  let id := ulid_to_string cid in
  known ← gets (λ w, bool_decide (is_Some (app_communities (w_app w) !! id)));
  check (negb known) (invalid_params "already a member of this community");;
  banned ← gets (λ w, is_banned id (app_peer_id (w_app w)) w);
  check (negb banned) (forbidden "you have been banned from this community");;
  match invite_pk i with
  | None => panic
  | Some pk => check_signature i pk;; mret (cid, pk)
  end.

(** What stands for the community until its manifest arrives. *)
Definition join_manifest (now : DateTime) (cid : CommunityId) (pk : bytes) (i : InvitePayload) : CommunityManifest :=
  mkManifest cid (inv_name i) (inv_description i) pk now [] []
    (match inv_seed_nodes i with s :: _ => [s] | [] => [] end) 0 false.

Definition fetch_from_peers (community_id : string) (pk : bytes) w : World T :=
  foldl (λ w p, command (CmdFetchManifest (ps_peer_id p) community_id pk) w) w (peers_of community_id w).

(** A fingerprint, if there is one, must be well-formed. *)
Definition join_fingerprint (i : InvitePayload) : Rpc T bytes :=
  let h := inv_cert_fingerprint_hex i in
  if (String.length h =? 64)%nat then
    match parse_fingerprint_hex h with
    | None => panic
    | Some fp => need fp (invalid_params "invalid invite: cert_fingerprint_hex is present but malformed")
    end
  else
    check (bool_decide (h = ""%string))
      (invalid_params "invalid invite: cert_fingerprint_hex must be exactly 64 hex characters");;
    mret zero32.

(** The spawned task: every seed is dialled, then the DHT is asked. *)
Definition dial_invited (password : option string) (pk : bytes) (community_id : string) (fp : bytes)
    (seeds : list string) w : World T :=
  let w := foldl (λ w s,
      match parse_node_addr s with Some addr => dial_seed password pk community_id fp addr w | None => w end) w seeds in
  match app_dht (w_app w) with
  | Some _ => emit (SpawnDiscover pk community_id) (emit (SpawnRegisterCommunityPeer pk) w)
  | None => w
  end.

Definition community_join (ev : RpcEnv) (p : JoinCommunityParams) : Rpc T CommunityInfo :=
  i ← read_invite (jcp_invite p);
  '(cid, pk) ← accept_invite i;
  let m := join_manifest (rx_now ev 0) cid pk i in
  let community_id := ulid_to_string cid in
  step (put_community community_id (mkSigned m (replicate 64 0)));;
  step (put_password community_id (jcp_hosting_password p));;
  step (command (CmdSubscribe (community_topic community_id)));;
  self ← gets (λ w, self_member (own_user_id w) (key_of_hex (app_public_key_hex (w_app w)))
                      (default (rx_fresh ev) (parse_ulid community_id)) community_id (rx_now ev 1) [Member] w);
  step (insert_member community_id self);;
  notify (PushCommunityManifestUpdated (mkCommunityEvent community_id (cm_version m) ""));;
  publish (community_topic community_id) (MemberJoined self);;
  step (queue_manifest_sync community_id);;
  step (fetch_from_peers community_id pk);;
  fp ← join_fingerprint i;
  step (λ w, if bool_decide (fp = zero32) then w else put_fingerprints (inv_seed_nodes i) fp w);;
  step (dial_invited (jcp_hosting_password p) pk community_id fp (inv_seed_nodes i));;
  mret (mkCommunityInfo (ulid_to_string (cm_id m)) (cm_name m) (cm_description m) (inv_public_key_hex i) [] []
          (cm_seed_nodes m) (cm_version m) (cm_created_at m) (bool_decide (inv_seed_nodes i = []))
          (negb (bool_decide (inv_seed_nodes i = [])))).

(** ** [community_generate_invite] *)

Definition check_admin (signed : SignedManifest) (denied : string) : Rpc T unit :=
  me ← gets (λ w, app_peer_id (w_app w));
  check (any (λ u, bool_decide (hex u = me)) (cm_admin_ids (sm_manifest signed))) (forbidden denied).

(** The stored fingerprint of the first seed, or else that of the own certificate. *)
Definition invite_fingerprint (seeds : list string) : Rpc T bytes :=
  let first := default ""%string (head seeds) in
  stored ← gets (λ w, if bool_decide (first = ""%string) then None else app_seed_fingerprints (w_app w) !! first);
  match stored with
  | Some fp =>
      if bool_decide (fp = zero32) then
        sk ← gets (λ w, app_signing_key (w_app w));
        need (tls_fingerprint sk) (internal_err "failed to generate TLS cert for fingerprint")
      else mret fp
  | None =>
      sk ← gets (λ w, app_signing_key (w_app w));
      need (tls_fingerprint sk) (internal_err "failed to generate TLS cert for fingerprint")
  end.

Definition community_generate_invite (community_id : string) : Rpc T string :=
  signed ← community_of community_id;
  check_admin signed "only community admins can generate signed invite links";;
  let m := sm_manifest signed in
  let pk_hex := hex (cm_public_key m) in
  payload ← need (signing_json (mkInviteSigning community_id (cm_name m) (cm_description m) pk_hex (cm_seed_nodes m)))
              (internal_err "serialization error");
  sk ← gets (λ w, app_signing_key (w_app w));
  fp ← invite_fingerprint (cm_seed_nodes m);
  json ← need (to_json (mkInvite community_id (cm_name m) (cm_description m) (cm_seed_nodes m) pk_hex
                          (hex (ed_sign sk payload)) (hex fp)))
           (internal_err "serialization error");
  mret (JOIN_PREFIX ++ b64_encode json)%string.

(** ** Leaving and deleting *)

Definition publish_own_leave (now : DateTime) (community_id : string) : Rpc T unit :=
  user ← gets own_user_id;
  match parse_ulid community_id with
  | Some ulid =>
      sk ← gets (λ w, app_signing_key (w_app w));
      publish (community_topic community_id) (MemberLeft (mkLeft user ulid now (ed_sign sk (leave_message user ulid))))
  | None => mret tt
  end.
Definition community_leave (ev : RpcEnv) (community_id : string) : Rpc T bool :=
  community_of community_id;;
  publish_own_leave (rx_now ev 0) community_id;;
  step (remove_community_local community_id);;
  mret true.

(** The tombstone that replaces the manifest; it is not written to disk. *)
Definition tombstone_of (m : CommunityManifest) : CommunityManifest :=
  mkManifest (cm_id m) (cm_name m) (cm_description m) (cm_public_key m) (cm_created_at m) (cm_admin_ids m)
    (cm_channel_ids m) (cm_seed_nodes m) (wrap64 (cm_version m + 1)) true.
Definition replace_community (community_id : string) (signed : SignedManifest) w : World T :=
  upd (λ a, set_communities (<[community_id := signed]> (app_communities a)) a) w.
Definition community_delete (community_id : string) : Rpc T bool :=
  signed ← community_of community_id;
  check_admin signed "only admins can delete a community";;
  let m := tombstone_of (sm_manifest signed) in
  step (replace_community community_id (mkSigned m (sm_signature signed)));;
  sk ← gets (λ w, app_signing_key (w_app w));
  tombstone ← match manifest_sign m sk with Some s => mret s | None => panic end;
  step (replace_community community_id tombstone);;
  publish (community_topic community_id) (ManifestUpdate tombstone);;
  step (remove_community_local community_id);;
  mret true.

(** ** Reading *)

Definition community_info (id : string) (m : CommunityManifest) w : CommunityInfo :=
  let reachable :=
    bool_decide (cm_seed_nodes m = []) || we_are_seed (cm_seed_nodes m) w
    || bool_decide (id ∈ app_seed_connected_communities (w_app w)) in
  mkCommunityInfo (ulid_to_string (cm_id m)) (cm_name m) (cm_description m) (hex (cm_public_key m))
    (hex <$> cm_admin_ids m) (ulid_to_string <$> cm_channel_ids m) (cm_seed_nodes m) (cm_version m)
    (cm_created_at m) reachable (negb (bool_decide (cm_seed_nodes m = []))).
Definition community_list : Rpc T (list CommunityInfo) :=
  gets (λ w, (λ s, community_info (ulid_to_string (cm_id (sm_manifest s))) (sm_manifest s) w)
               <$> (hash_order (app_communities (w_app w))).*2).
Definition community_get (community_id : string) : Rpc T CommunityInfo :=
  signed ← community_of community_id;
  gets (community_info community_id (sm_manifest signed)).

(** ** [community_update_manifest] *)

Definition updated_manifest (p : UpdateManifestParams) (m : CommunityManifest) : CommunityManifest :=
  mkManifest (cm_id m) (default (cm_name m) (ump_name p)) (default (cm_description m) (ump_description p))
    (cm_public_key m) (cm_created_at m) (cm_admin_ids m) (cm_channel_ids m)
    (default (cm_seed_nodes m) (ump_seed_nodes p)) (wrap64 (cm_version m + 1)) (cm_deleted m).

(** When the first seed is a new one: its fingerprint must be given and is stored. *)
Definition pin_new_seed (p : UpdateManifestParams) (changed : bool) (seeds : list string) : Rpc T unit :=
  if changed then
    fp ← fingerprint_or_zero (ump_seed_fingerprint_hex p);
    check (negb (bool_decide (fp = zero32)))
      (invalid_params "seed_fingerprint_hex is required when changing seed_nodes (64-char hex SHA-256 of the new seed node's TLS certificate)");;
    step (put_fingerprints seeds fp)
  else mret tt.

Definition community_update_manifest (p : UpdateManifestParams) : Rpc T bool :=
  let community_id := ump_community_id p in
  require_seed_connected community_id;;
  check (match ump_name p with Some name => name_ok name | None => true end)
    (invalid_params "name must be 1–100 characters");;
  check (match ump_description p with Some d => (String.length d <=? 500)%nat | None => true end)
    (invalid_params "description must be ≤500 characters");;
  old_seeds ← gets (λ w, match app_communities (w_app w) !! community_id with
                         | Some s => cm_seed_nodes (sm_manifest s) | None => [] end);
  signed ← community_of community_id;
  check_admin signed "only admins may update the community manifest";;
  signed ← resign community_id (updated_manifest p (sm_manifest signed));
  let m := sm_manifest signed in
  publish (community_topic community_id) (ManifestUpdate signed);;
  notify (PushCommunityManifestUpdated (mkCommunityEvent community_id (cm_version m) ""));;
  let new_seed := default ""%string (head (cm_seed_nodes m)) in
  let changed := negb (bool_decide (new_seed = ""%string))
                   && negb (bool_decide (new_seed = default ""%string (head old_seeds))) in
  pin_new_seed p changed (cm_seed_nodes m);;
  creator ← gets (λ w, bool_decide (own_pk w = cm_public_key m));
  step (if changed && creator then emit (SpawnSeedSync community_id (cm_public_key m) signed new_seed) else id);;
  mret true.
End rpc_community.

(** ** Hexadecimal texts *)

Lemma hex_no_split l : Forall is_byte l → inside_char (hex l) = false.
Proof.
  intros Hl. destruct Hl as [|b l Hb _]; [done|]. cbn [hex inside_char]. unfold is_byte in Hb.
  assert (0 ≤ b / 16 < 16) as Hd by (split; [apply Z.div_pos; lia|apply Z.div_lt_upper_bound; lia]).
  assert (Forall (λ z, (128 <=? Z.of_nat (Ascii.nat_of_ascii (hex_digit z))) = false) (seqZ 0 16)) as Hall
    by (vm_compute; repeat constructor).
  rewrite Forall_forall in Hall. by rewrite Hall by (apply elem_of_seqZ; lia).
Qed.
Lemma hex_slices_hex l : Forall is_byte l → hex_slices (hex l) = Some (Some l).
Proof.
  induction 1 as [|b l Hb Hl IH]; cbn [hex hex_slices]; [done|]. rewrite hex_no_split by done.
  pose proof (parse_pairs_hex [b] ltac:(by constructor)) as Hp. cbn in Hp.
  destruct (parse_hex_pair _ _); [|done]. injection Hp as ->. by rewrite IH.
Qed.
Lemma hex_slices_pairs s l : hex_slices s = Some (Some l) → parse_pairs s = Some l.
Proof.
  revert l. induction s as [s IH] using (induction_ltof1 _ String.length). unfold ltof in IH.
  destruct s as [|c1 [|c2 s]]; cbn; intros l; [by intros [= <-]|done|]. destruct (inside_char s); [done|].
  destruct (parse_hex_pair c1 c2) as [b|]; [|done].
  destruct (hex_slices s) as [[r|]|] eqn:Hr; cbn; [intros [= <-]|done..]. by rewrite (IH s ltac:(cbn; lia) r Hr).
Qed.
Lemma hex_slices_wf n s l : String.length s = (2 * n)%nat → hex_slices s = Some (Some l) → wf_array n l.
Proof. intros Hs Hl. apply hex_slices_pairs, parse_pairs_length in Hl as [Hlen ?]. split; [lia|done]. Qed.
Lemma parse_fingerprint_wf s l : parse_fingerprint_hex s = Some (Some l) → wf_key l.
Proof.
  unfold parse_fingerprint_hex. destruct (Nat.eqb_spec (String.length s) 64) as [Hs|]; [|done].
  cbn [negb]. by apply (hex_slices_wf 32).
Qed.
Lemma parse_fingerprint_hex_hex l : wf_key l → parse_fingerprint_hex (hex l) = Some (Some l).
Proof.
  intros [Hl Hb]. unfold parse_fingerprint_hex. rewrite hex_length, Hl. cbn [Nat.mul Nat.add Nat.eqb negb].
  by apply hex_slices_hex.
Qed.

(** ** Joining *)

Section joining.
Context {T : Type} `{CryptoLaws} `{TableLaws T} `{NodeCodecsLaws} `{HashOrderLaws} `{UlidText} `{UlidParse} `{AddrText}.
Context `{EntropyLaws} `{AppCodecsLaws} `{InvitesLaws} `{Certificates}.
Context (Hevent : ∀ e : NetworkEvent, is_Some (to_allocvec e)).
Implicit Types w v : World T.

(** The state after each step, and that what was sent stays sent. *)
Lemma put_community_app id s w :
  w_app (put_community id s w) = set_communities (<[id := s]> (app_communities (w_app w))) (w_app w).
Proof using Type. unfold put_community, save_communities. by rewrite save_table_app. Qed.
Lemma put_password_app id pw w : ∃ m, w_app (put_password id pw w) = set_hosting_passwords m (w_app w).
Proof using Type.
  unfold put_password, save_passwords. destruct pw; [rewrite save_table_app; by eexists|].
  exists (app_hosting_passwords (w_app w)). by destruct (w_app w).
Qed.
Lemma insert_member_app id r w :
  w_app (insert_member id r w) =
  set_members (<[id := <[hex (mr_user_id r) := r]> (default ∅ (app_members (w_app w) !! id))]> (app_members (w_app w))) (w_app w).
Proof using Type. unfold insert_member, save_members. by rewrite save_table_app. Qed.
Lemma put_fingerprints_app addrs fp w :
  w_app (put_fingerprints addrs fp w) =
  set_seed_fingerprints (foldl (λ m a, <[a := fp]> m) (app_seed_fingerprints (w_app w)) addrs) (w_app w).
Proof using Type. unfold put_fingerprints, save_fingerprints. by rewrite save_table_app. Qed.

Lemma insert_member_out id r w : w_out (insert_member id r w) = w_out w.
Proof using Type. unfold insert_member, save_members. by rewrite save_table_out. Qed.
Lemma put_fingerprints_out addrs fp w : w_out (put_fingerprints addrs fp w) = w_out w.
Proof using Type. unfold put_fingerprints, save_fingerprints. by rewrite save_table_out. Qed.

(** The client once the invite is accepted, before the fingerprint is looked at. *)
Definition entered (ev : RpcEnv) (p : JoinCommunityParams) (i : InvitePayload) (cid : CommunityId) (pk : bytes) v
    : World T :=
  let id := ulid_to_string cid in
  let v1 := command (CmdSubscribe (community_topic id))
              (put_password id (jcp_hosting_password p)
                (put_community id (mkSigned (join_manifest (rx_now ev 0) cid pk i) (replicate 64 0)) v)) in
  let self := self_member (own_user_id v1) (key_of_hex (app_public_key_hex (w_app v1)))
                (default (rx_fresh ev) (parse_ulid id)) id (rx_now ev 1) [Member] v1 in
  fetch_from_peers id pk
    (queue_manifest_sync id
      (publish_event (community_topic id) (MemberJoined self)
        (broadcast (PushCommunityManifestUpdated (mkCommunityEvent id 0 "")) (insert_member id self v1)))).

Lemma self_member_ext u k u' k' cid id now roles w w' :
  app_signing_key (w_app w) = app_signing_key (w_app w') →
  app_identity_state (w_app w) = app_identity_state (w_app w') → u = u' → k = k' →
  self_member u k cid id now roles w = self_member u' k' cid id now roles w'.
Proof using Type. intros Hs Hi -> ->. unfold self_member, own_x25519_sk. by rewrite Hs, Hi. Qed.

Lemma entered_spec ev p i cid pk v :
  let id := ulid_to_string cid in
  let v' := entered ev p i cid pk v in
  let self := self_member (own_user_id v) (key_of_hex (app_public_key_hex (w_app v)))
                (default (rx_fresh ev) (parse_ulid id)) id (rx_now ev 1) [Member] v in
  app_communities (w_app v') =
    <[id := mkSigned (join_manifest (rx_now ev 0) cid pk i) (replicate 64 0)]> (app_communities (w_app v)) ∧
  member_of id (hex (own_user_id v)) v' = Some self ∧ id ∈ app_pending_manifest_syncs (w_app v') ∧
  (∃ data, Cmd (CmdPublish (community_topic id) data) ∈ w_out v' ∧ from_bytes data = Some (MemberJoined self)) ∧
  app_seed_fingerprints (w_app v') = app_seed_fingerprints (w_app v).
Proof using All.
  intros id v' self. subst v'. unfold entered. fold id.
  set (v1 := command _ (put_password _ _ (put_community _ _ v))).
  destruct (put_password_app id (jcp_hosting_password p)
              (put_community id (mkSigned (join_manifest (rx_now ev 0) cid pk i) (replicate 64 0)) v)) as [pws Hpw].
  assert (w_app v1 = set_hosting_passwords pws (set_communities
            (<[id := mkSigned (join_manifest (rx_now ev 0) cid pk i) (replicate 64 0)]> (app_communities (w_app v))) (w_app v)))
    as Hv1 by (subst v1; unfold command, emit; cbn [w_app]; rewrite Hpw, put_community_app; reflexivity).
  clearbody v1. clear Hpw.
  assert (self_member (own_user_id v1) (key_of_hex (app_public_key_hex (w_app v1)))
            (default (rx_fresh ev) (parse_ulid id)) id (rx_now ev 1) [Member] v1 = self) as ->.
  { apply self_member_ext; unfold own_user_id; by rewrite Hv1. }
  set (v2 := publish_event _ _ _).
  assert (w_app v2 = set_members (<[id := <[hex (mr_user_id self) := self]> (default ∅ (app_members (w_app v1) !! id))]>
            (app_members (w_app v1))) (w_app v1)) as Hv2.
  { subst v2. rewrite publish_event_app. cbn. apply insert_member_app. }
  set (v3 := fetch_from_peers _ _ _).
  assert (∀ B (proj : AppState T → B), (∀ l a, proj (set_pending_manifest_syncs l a) = proj a) →
            proj (w_app v3) = proj (w_app v2)) as Hv3.
  { intros B proj Hp. subst v3. unfold fetch_from_peers. rewrite fold_app by done.
    unfold queue_manifest_sync. case_bool_decide; [done|]. cbn. apply Hp. }
  split_and!.
  - rewrite (Hv3 _ app_communities) by done. rewrite Hv2. cbn. by rewrite Hv1.
  - unfold member_of. rewrite (Hv3 _ app_members) by done. rewrite Hv2. cbn. rewrite lookup_insert_eq. cbn.
    by rewrite lookup_insert_eq.
  - subst v3. unfold fetch_from_peers. rewrite fold_app by done. apply queue_sync_in.
  - destruct (Hevent (MemberJoined self)) as [data Hd]. exists data. split; [|by apply postcard_roundtrip].
    eapply (elem_of_prefix (w_out v2)).
    + subst v2. unfold publish_event. rewrite Hd. cbn. apply elem_of_app. right. by left.
    + subst v3. unfold fetch_from_peers. etrans; [|apply fold_out; intros; by apply prefix_app_r]. by rewrite queue_sync_out.
  - rewrite (Hv3 _ app_seed_fingerprints) by done. rewrite Hv2. cbn. by rewrite Hv1.
Qed.

Lemma community_join_enters ev p i cid pk v :
  read_invite (jcp_invite p) v = (Reply i, v) → accept_invite i v = (Reply (cid, pk), v) →
  let id := ulid_to_string cid in
  let v1 := entered ev p i cid pk v in
  match join_fingerprint (T := T) i v1 with
  | (Reply fp, _) =>
      ∃ info, coi_id info = id ∧ community_join ev p v =
        (Reply info, dial_invited (jcp_hosting_password p) pk id fp (inv_seed_nodes i)
                       (if bool_decide (fp = zero32) then v1 else put_fingerprints (inv_seed_nodes i) fp v1))
  | (Fail code msg, _) => community_join ev p v = (Fail code msg, v1)
  | (Crash, _) => community_join ev p v = (Crash, v1)
  end.
Proof using Type.
  intros Hr Ha id v1. unfold community_join. rewrite (rpc_bind_ok _ _ _ _ _ Hr), (rpc_bind_ok _ _ _ _ _ Ha).
  do 3 rewrite (rpc_bind_ok _ _ _ _ _ (step_run _ _)). rewrite (rpc_bind_ok _ _ _ _ _ (gets_run _ _)).
  unfold notify, publish. do 5 rewrite (rpc_bind_ok _ _ _ _ _ (step_run _ _)).
  match goal with |- context [(_ ≫= _) ?w] => change w with v1 end.
  assert ((join_fingerprint (T := T) i v1).2 = v1) as Hw.
  { unfold join_fingerprint, check, mbind, rpc_bind. destruct (_ =? _)%nat; [|by destruct (bool_decide _)].
    destruct (parse_fingerprint_hex _) as [[fp|]|]; done. }
  destruct (join_fingerprint i v1) as [[fp|code msg|] w1] eqn:Hf; cbn in Hw; subst w1.
  - rewrite (rpc_bind_ok _ _ _ _ _ Hf). do 2 rewrite (rpc_bind_ok _ _ _ _ _ (step_run _ _)).
    eexists. split; [|reflexivity]. done.
  - by rewrite (rpc_bind_err _ _ _ _ _ _ Hf).
  - by rewrite (rpc_bind_crash _ _ _ _ Hf).
Qed.

(** What the invite of an administrator says, and that it is accepted. The fingerprint is the one
    pinned for the first seed, and where none is (or the zero one, which stands for none) that
    of the administrator's own certificate. *)
Definition invited_fingerprint (seeds : list string) (fp : bytes) w : Prop :=
  let first := default ""%string (head seeds) in
  (first ≠ ""%string ∧ fp ≠ zero32 ∧ app_seed_fingerprints (w_app w) !! first = Some fp) ∨
  ((∀ f, first ≠ ""%string → app_seed_fingerprints (w_app w) !! first = Some f → f = zero32) ∧
   tls_fingerprint (app_signing_key (w_app w)) = Some fp).
Lemma fingerprint_run seeds w fp w' :
  invite_fingerprint seeds w = (Reply fp, w') → w' = w ∧ invited_fingerprint seeds fp w.
Proof using Type.
  unfold invite_fingerprint, invited_fingerprint, mbind, rpc_bind, gets, need. set (first := default ""%string (head seeds)).
  destruct (decide (first = ""%string)) as [Hf|Hf];
    [rewrite bool_decide_eq_true_2 by done|rewrite bool_decide_eq_false_2 by done; destruct (app_seed_fingerprints (w_app w) !! first) as [f|] eqn:Hs].
  - destruct (tls_fingerprint _); [|done]. intros [= <- <-]. split; [done|]. by right.
  - case_bool_decide as Hz.
    + destruct (tls_fingerprint _); [|done]. intros [= <- <-]. split; [done|]. right. split; [|done]. by intros ? _ [= <-].
    + intros [= <- <-]. split; [done|]. by left.
  - destruct (tls_fingerprint _); [|done]. intros [= <- <-]. split; [done|]. by right.
Qed.
Definition fingerprints_wf w : Prop := ∀ s f, app_seed_fingerprints (w_app w) !! s = Some f → wf_key f.

Lemma generate_invite_run c w text w' :
  community_generate_invite c w = (Reply text, w') → fingerprints_wf w →
  w' = w ∧ ∃ signed payload fp json, app_communities (w_app w) !! c = Some signed ∧ wf_key fp ∧
    invited_fingerprint (cm_seed_nodes (sm_manifest signed)) fp w ∧
    let m := sm_manifest signed in
    let invite := mkInvite c (cm_name m) (cm_description m) (cm_seed_nodes m) (hex (cm_public_key m))
                    (hex (ed_sign (app_signing_key (w_app w)) payload)) (hex fp) in
    signing_json (signed_part invite) = Some payload ∧ to_json invite = Some json ∧
    text = (JOIN_PREFIX ++ b64_encode json)%string.
Proof using Type*.
  intros Hgen Hwf. unfold community_generate_invite, community_of in Hgen.
  apply rpc_bind_reply in Hgen as (signed & w1 & Hs & Hgen). apply rpc_bind_reply in Hs as (o & w2 & Ho & Hs).
  apply gets_reply in Ho as [-> ->]. apply need_reply in Hs as [Hs ->].
  apply rpc_bind_reply in Hgen as ([] & w1 & Ha & Hgen). unfold check_admin in Ha.
  apply rpc_bind_reply in Ha as (me & w2 & Hme & Ha). apply gets_reply in Hme as [-> ->].
  apply check_reply in Ha as [Ha ->]. apply rpc_bind_reply in Hgen as (payload & w1 & Hp & Hgen).
  apply need_reply in Hp as [Hp ->]. apply rpc_bind_reply in Hgen as (sk & w1 & Hsk & Hgen).
  apply gets_reply in Hsk as [-> ->]. apply rpc_bind_reply in Hgen as (fp & w1 & Hf & Hgen).
  apply fingerprint_run in Hf as [-> Hf]. apply rpc_bind_reply in Hgen as (json & w1 & Hj & Hgen).
  apply need_reply in Hj as [Hj ->]. apply ret_reply in Hgen as [-> ->].
  split; [done|]. exists signed, payload, fp, json. split; [done|]. split; [|by split].
  destruct Hf as [(_ & _ & Hf)|[_ Hf]]; [by eapply Hwf|]. unfold tls_fingerprint in Hf.
  destruct (self_signed_cert _); [|done]. injection Hf as <-. apply wf_sha256.
Qed.

Lemma dial_invited_app pw pk id fp seeds w : w_app (dial_invited pw pk id fp seeds w) = w_app w.
Proof using Type.
  unfold dial_invited. set (w1 := foldl _ w seeds). assert (w_app w1 = w_app w) as <-.
  { subst w1. apply fold_app. intros w' s. by destruct (parse_node_addr s). }
  by destruct (app_dht (w_app w1)).
Qed.
Lemma dial_invited_out pw pk id fp seeds w :
  w_out w `prefix_of` w_out (dial_invited pw pk id fp seeds w) ∧
  ∀ s addr, s ∈ seeds → parse_node_addr s = Some addr →
    Cmd (CmdDial addr true (Some (pk, id)) pw fp) ∈ w_out (dial_invited pw pk id fp seeds w).
Proof using Type.
  set (f := λ w s, match parse_node_addr s with Some addr => dial_seed pw pk id fp addr w | None => w end : World T).
  assert (∀ w s, w_out w `prefix_of` w_out (f w s)) as Hf.
  { intros w' s. unfold f. destruct (parse_node_addr s); [by apply prefix_app_r|done]. }
  assert (w_out (foldl f w seeds) `prefix_of` w_out (dial_invited pw pk id fp seeds w)) as Hd.
  { unfold dial_invited. fold f. destruct (app_dht _); [|done]. cbn. by do 2 apply prefix_app_r. }
  split; [etrans; [exact (fold_out f seeds w Hf)|exact Hd]|]. intros s addr Hs Ha. eapply elem_of_prefix; [|exact Hd].
  clear Hd. revert w. induction seeds as [|x seeds IH]; intros w.
  { by apply not_elem_of_nil in Hs. }
  cbn [foldl]. apply elem_of_cons in Hs as [<-|Hs].
  - eapply elem_of_prefix; [|exact (fold_out f seeds _ Hf)]. unfold f. rewrite Ha. cbn. apply elem_of_app. right. by left.
  - by apply IH.
Qed.
Lemma fingerprints_stored addrs fp (m : gmap string bytes) s :
  s ∈ addrs → foldl (λ m a, <[a := fp]> m) m addrs !! s = Some fp.
Proof using Type.
  induction addrs as [|a addrs IH] using rev_ind; [by intros ?%not_elem_of_nil|].
  intros [Hs| ->%list_elem_of_singleton]%elem_of_app; rewrite foldl_app; cbn.
  - destruct (decide (a = s)) as [->|]; [by rewrite lookup_insert_eq|]. rewrite lookup_insert_ne by done. by apply IH.
  - by rewrite lookup_insert_eq.
Qed.

(** The identity strings of a client are those of its key. *)
Definition own_identity w : Prop :=
  app_peer_id (w_app w) = hex (from_verifying_key (own_pk w)) ∧ app_public_key_hex (w_app w) = hex (own_pk w).
Lemma key_of_hex_hex l : wf_key l → key_of_hex (hex l) = l.
Proof using Type.
  intros [Hl Hb]. unfold key_of_hex.
  assert (hex_pairs_or_zero (hex l) = l) as ->; [|by rewrite Hl].
  clear Hl. induction Hb as [|b l Hb Hl IH]; [done|]. cbn [hex hex_pairs_or_zero]. rewrite IH. f_equal.
  pose proof (parse_pairs_hex [b] ltac:(by constructor)) as Hp. cbn in Hp.
  destruct (parse_hex_pair _ _); [|done]. by injection Hp as ->.
Qed.
Lemma own_keys w : own_identity w → own_user_id w = from_verifying_key (own_pk w) ∧ key_of_hex (app_public_key_hex (w_app w)) = own_pk w.
Proof using Type*.
  intros [Hp Hk]. unfold own_user_id. rewrite Hp, Hk. split; apply key_of_hex_hex; [apply wf_sha256|apply wf_ed_public].
Qed.
Lemma self_member_verified cid id now roles w :
  member_verified (self_member (from_verifying_key (own_pk w)) (own_pk w) cid id now roles w) = true.
Proof using Type*.
  unfold member_verified, self_member. cbn. unfold own_pk. rewrite ed_public_valid, bool_decide_eq_true_2 by done.
  rewrite (proj1 (wf_ed_sign _ _)), ed_sign_verify. done.
Qed.

(** An invite that the key it names has signed passes the checks. *)
Lemma signed_invite_passes i sk payload c cid v :
  signing_json (signed_part i) = Some payload → inv_sig_hex i = hex (ed_sign sk payload) →
  inv_public_key_hex i = hex (ed_public sk) → ed_public sk ≠ zero32 → inv_name i ≠ ""%string →
  inv_community_id i = c → parse_ulid c = Some cid → ulid_to_string cid = c →
  app_communities (w_app v) !! c = None → is_banned c (app_peer_id (w_app v)) v = false →
  accept_invite i v = (Reply (cid, ed_public sk), v).
Proof using Type*.
  intros Hpl Hsg Hpkx Hnz Hname Hic Hcid Hc Hknown Hban.
  assert (wf_key (ed_public sk)) as Hpk by apply wf_ed_public.
  assert (invite_pk i = Some (ed_public sk)) as Hipk.
  { unfold invite_pk. rewrite Hpkx, hex_length, (proj1 Hpk). cbn. by rewrite hex_slices_hex by apply Hpk. }
  destruct (wf_ed_sign sk payload) as [Hlen Hb].
  assert (invite_sig_valid i (ed_public sk) = Some true) as Hsig.
  { unfold invite_sig_valid. rewrite Hpl, Hsg. cbn [default]. rewrite hex_length, Hlen. cbn [Nat.mul Nat.add Nat.eqb negb].
    rewrite hex_slices_hex by done. by rewrite ed_public_valid, ed_sign_verify. }
  unfold accept_invite. rewrite Hic, bool_decide_eq_false_2 by done. cbn [negb check].
  rewrite (rpc_bind_ok (mret tt) _ v tt v eq_refl), Hcid. cbn [need].
  rewrite (rpc_bind_ok (mret cid) _ v cid v eq_refl), (rpc_bind_ok _ _ _ _ _ (gets_run _ v)).
  rewrite Hc, bool_decide_eq_false_2 by (rewrite Hknown; by intros []). cbn [negb check].
  rewrite (rpc_bind_ok (mret tt) _ v tt v eq_refl), (rpc_bind_ok _ _ _ _ _ (gets_run _ v)), Hban. cbn [negb check].
  rewrite (rpc_bind_ok (mret tt) _ v tt v eq_refl), Hipk. unfold check_signature.
  assert (inv_sig_hex i ≠ ""%string) as Hne.
  { rewrite Hsg. intros He. apply (f_equal String.length) in He. by rewrite hex_length, Hlen in He. }
  rewrite (bool_decide_eq_false_2 (inv_sig_hex i = _)), (bool_decide_eq_false_2 (_ = zero32)) by done. by rewrite Hsig.
Qed.

(** C16: invites work. The link that the creator of a community generates is accepted by every
    client that does not know the community and is not banned from it: the client then
    holds the community under its creator's key, asks for the manifest, has dialled every
    seed with the fingerprint of the link, which is the one the creator has pinned for the first
    seed or else that of its own certificate, has pinned it for them (unless it is the zero one),
    and has announced itself with a membership record that its own key signs. *)
Theorem invite_accepted c w text w' v ev pw signed cid :
  community_generate_invite c w = (Reply text, w') → fingerprints_wf w →
  app_communities (w_app w) !! c = Some signed → let m := sm_manifest signed in
  own_pk w = cm_public_key m → cm_public_key m ≠ zero32 → cm_name m ≠ ""%string →
  parse_ulid c = Some cid → ulid_to_string cid = c →
  app_communities (w_app v) !! c = None → is_banned c (app_peer_id (w_app v)) v = false → own_identity v →
  ∃ json i info v' fp self data, text = (JOIN_PREFIX ++ b64_encode json)%string ∧ from_json json = Some i ∧
    inv_cert_fingerprint_hex i = hex fp ∧ wf_key fp ∧ invited_fingerprint (cm_seed_nodes m) fp w ∧
    community_join ev (mkJoinCommunity (b64_encode json) pw) v = (Reply info, v') ∧
    coi_id info = c ∧ known_community_pk c v' = Some (cm_public_key m) ∧ c ∈ app_pending_manifest_syncs (w_app v') ∧
    (∀ s addr, s ∈ cm_seed_nodes m → parse_node_addr s = Some addr →
       Cmd (CmdDial addr true (Some (cm_public_key m, c)) pw fp) ∈ w_out v') ∧
    (∀ s, s ∈ cm_seed_nodes m → fp ≠ zero32 → app_seed_fingerprints (w_app v') !! s = Some fp) ∧
    member_of c (hex (from_verifying_key (own_pk v))) v' = Some self ∧ member_verified self = true ∧ mr_roles self = [Member] ∧
    Cmd (CmdPublish (community_topic c) data) ∈ w_out v' ∧ from_bytes data = Some (MemberJoined self).
Proof using All.
  intros Hgen Hfps Hs m Hown Hnz Hname Hcid Hc Hknown Hban Hid.
  destruct (generate_invite_run _ _ _ _ Hgen Hfps) as (-> & signed' & payload & fp & json & Hs' & Hfp & Hof & Hpl & Hj & Ht).
  rewrite Hs in Hs'. injection Hs' as <-. fold m in Hof, Hpl, Hj. set (i := mkInvite _ _ _ _ _ _ _) in *.
  assert (read_invite (b64_encode json) v = (Reply i, v)) as Hread.
  { unfold read_invite. rewrite b64_roundtrip. cbn [need].
    rewrite (rpc_bind_ok (mret json) _ v json v eq_refl). by rewrite (json_roundtrip _ _ Hj). }
  assert (accept_invite i v = (Reply (cid, cm_public_key m), v)) as Hacc.
  { rewrite <- Hown in Hnz |- *. apply (signed_invite_passes i (app_signing_key (w_app w)) payload c); try done.
    exact (f_equal hex (eq_sym Hown)). }
  pose proof (community_join_enters ev (mkJoinCommunity (b64_encode json) pw) i cid (cm_public_key m) v Hread Hacc) as Hj1.
  destruct (entered_spec ev (mkJoinCommunity (b64_encode json) pw) i cid (cm_public_key m) v)
    as (Hcom & Hmem & Hpend & (data & Hout & Hdata) & _).
  cbv zeta in Hj1. set (v1 := entered _ _ _ _ _ v) in *. rewrite Hc in *.
  assert (join_fingerprint i v1 = (Reply fp, v1)) as Hjf.
  { unfold join_fingerprint. unfold i; cbn [inv_cert_fingerprint_hex]. rewrite hex_length, (proj1 Hfp). cbn [Nat.mul Nat.add Nat.eqb].
    by rewrite parse_fingerprint_hex_hex. }
  rewrite Hjf in Hj1. destruct Hj1 as (info & Hinfo & Hj1). destruct (own_keys v Hid) as [Huid Hpkv].
  rewrite Huid, Hpkv in Hmem, Hdata. set (v2 := if bool_decide _ then v1 else _) in *.
  assert (∀ B (proj : AppState T → B), (∀ x a, proj (set_seed_fingerprints x a) = proj a) → proj (w_app v2) = proj (w_app v1)) as Hv2.
  { intros B proj Hp. subst v2. case_bool_decide; [done|]. by rewrite put_fingerprints_app, Hp. }
  destruct (dial_invited_out pw (cm_public_key m) c fp (inv_seed_nodes i) v2) as [Hpre Hdial].
  eexists json, i, info, _, fp, _, data. split; [exact Ht|]. split; [exact (json_roundtrip _ _ Hj)|].
  split; [reflexivity|]. split; [exact Hfp|]. split; [exact Hof|]. split; [exact Hj1|].
  split; [exact Hinfo|]. rewrite !dial_invited_app. split_and!.
  - unfold known_community_pk. rewrite dial_invited_app, (Hv2 _ app_communities), Hcom, lookup_insert_eq by done. done.
  - by rewrite (Hv2 _ app_pending_manifest_syncs).
  - intros s addr Hin Ha. apply (Hdial s addr); [exact Hin|done].
  - intros s Hin Hz. subst v2. rewrite bool_decide_eq_false_2, put_fingerprints_app by done. cbn. by apply fingerprints_stored.
  - unfold member_of in *. rewrite dial_invited_app, (Hv2 _ app_members) by done. exact Hmem.
  - apply self_member_verified.
  - done.
  - eapply elem_of_prefix; [|exact Hpre]. subst v2. case_bool_decide; [done|]. by rewrite put_fingerprints_out.
  - exact Hdata.
Qed.

(** What makes an invite acceptable to the client [v]. *)
Definition invite_ok (i : InvitePayload) (cid : CommunityId) (pk : bytes) v : Prop :=
  inv_name i ≠ ""%string ∧ parse_ulid (inv_community_id i) = Some cid ∧
  app_communities (w_app v) !! ulid_to_string cid = None ∧ is_banned (ulid_to_string cid) (app_peer_id (w_app v)) v = false ∧
  invite_pk i = Some pk ∧ inv_sig_hex i ≠ ""%string ∧ (pk ≠ zero32 → invite_sig_valid i pk = Some true).
(** The fingerprint is absent or well-formed. *)
Definition fingerprint_ok (i : InvitePayload) : Prop :=
  inv_cert_fingerprint_hex i = ""%string ∨
  String.length (inv_cert_fingerprint_hex i) = 64%nat ∧ ∃ fp, parse_fingerprint_hex (inv_cert_fingerprint_hex i) = Some (Some fp).
Definition replied {A} (r : RpcResult A) : Prop := ∃ a, r = Reply a.

Lemma accept_invite_spec i v :
  (accept_invite i v).2 = v ∧
  ∀ cid pk, (accept_invite i v).1 = Reply (cid, pk) ↔ invite_ok i cid pk v.
Proof using Type.
  unfold accept_invite, invite_ok, check_signature, check, need, mbind, rpc_bind, gets.
  destruct (decide (inv_name i = ""%string)) as [Hn|Hn].
  { rewrite bool_decide_eq_true_2 by done. cbn. split; [done|]. intros. split; [done|]. by intros (? & _). }
  rewrite bool_decide_eq_false_2 by done. cbn. destruct (parse_ulid _) as [u|]; cbn.
  2:{ split; [done|]. intros. split; [done|]. by intros (_ & [=] & _). }
  destruct (app_communities (w_app v) !! ulid_to_string u) as [s|] eqn:Hk.
  { rewrite bool_decide_eq_true_2 by done. cbn. split; [done|]. intros. split; [done|].
    intros (_ & [= ->] & Hk' & _). congruence. }
  rewrite bool_decide_eq_false_2 by (by intros []). cbn.
  destruct (is_banned _ _ _) eqn:Hb; cbn.
  { split; [done|]. intros. split; [done|]. intros (_ & [= ->] & _ & Hb' & _). congruence. }
  destruct (invite_pk i) as [pk0|]; cbn.
  2:{ split; [done|]. intros. split; [done|]. by intros (_ & _ & _ & _ & [=] & _). }
  destruct (decide (inv_sig_hex i = ""%string)) as [Hs|Hs].
  { rewrite bool_decide_eq_true_2 by done. cbn. split; [done|]. intros. split; [done|].
    by intros (_ & _ & _ & _ & _ & ? & _). }
  rewrite bool_decide_eq_false_2 by done. cbn. destruct (decide (pk0 = zero32)) as [->|Hz].
  { rewrite bool_decide_eq_true_2 by done. cbn. split; [done|]. intros. split; [intros [= <- <-]; by split_and!|].
    by intros (_ & [= ->] & _ & _ & [= ->] & _). }
  rewrite bool_decide_eq_false_2 by done.
  destruct (invite_sig_valid i pk0) as [[]|] eqn:Hv; cbn; (split; [done|]); intros cid pk; split; try done.
  - intros [= <- <-]. by split_and!.
  - by intros (_ & [= ->] & _ & _ & [= ->] & _).
  - intros (_ & _ & _ & _ & [= ->] & _ & Hv'). specialize (Hv' Hz). congruence.
  - intros (_ & _ & _ & _ & [= ->] & _ & Hv'). specialize (Hv' Hz). congruence.
Qed.
Lemma join_fingerprint_spec i w : replied (join_fingerprint (T := T) i w).1 ↔ fingerprint_ok i.
Proof using Type.
  unfold join_fingerprint, fingerprint_ok, check, need, mbind, rpc_bind, replied.
  destruct (Nat.eqb_spec (String.length (inv_cert_fingerprint_hex i)) 64) as [Hl|Hl].
  - destruct (parse_fingerprint_hex _) as [[fp|]|]; cbn; (split; [|intros [He|(_ & fp' & Hfp)]]);
      try (by intros [? ?]); try (by rewrite He in Hl); try done.
    + intros _. right. split; [done|by eexists].
    + by eexists.
  - destruct (decide (inv_cert_fingerprint_hex i = ""%string)) as [He|He].
    + rewrite bool_decide_eq_true_2 by done. cbn. split; [by left|by eexists].
    + rewrite bool_decide_eq_false_2 by done. cbn. split; [by intros []|]. intros [?|[? _]]; done.
Qed.

(** C17: who is let in by an invite, and when. [community_join] leaves the client as it is
    unless the invite decodes, names a community that the client does not know and is not
    banned from, and carries a signature, which must be that of the key it names; but an
    invite that names no key passes with any signature. When the invite is accepted the
    community is there under that key and no other changes, even if the call then reports an
    error because of the fingerprint, which is the last thing looked at. *)
Theorem community_join_correct ev p v r v' :
  community_join ev p v = (r, v') →
  let decoded i := ∃ b, b64_decode (jcp_invite p) = Some b ∧ from_json b = Some i in
  ((∀ i cid pk, decoded i → ¬ invite_ok i cid pk v) → v' = v ∧ ¬ replied r) ∧
  (∀ i cid pk, decoded i → invite_ok i cid pk v →
     let id := ulid_to_string cid in
     known_community_pk id v' = Some pk ∧
     (∀ id', id' ≠ id → app_communities (w_app v') !! id' = app_communities (w_app v) !! id') ∧
     (replied r ↔ fingerprint_ok i)).
Proof using All.
  intros Hj decoded.
  assert (∀ i, decoded i ↔ read_invite (jcp_invite p) v = (Reply i, v)) as Hdec.
  { intros i. subst decoded. cbv beta. unfold read_invite. split.
    - intros (b & Hb & Hi). rewrite Hb. cbn [need]. rewrite (rpc_bind_ok (mret b) _ v b v eq_refl). by rewrite Hi.
    - intros Hr. apply rpc_bind_reply in Hr as (b & w1 & Hb & Hi). apply need_reply in Hb as [Hb ->].
      apply need_reply in Hi as [Hi _]. by exists b. }
  split.
  - intros Hno. unfold community_join in Hj.
    assert ((read_invite (T := T) (jcp_invite p) v).2 = v) as Hrv.
    { unfold read_invite. destruct (b64_decode _) as [b|]; [|done]. cbn [need].
      rewrite (rpc_bind_ok (mret b) _ v b v eq_refl). by destruct (from_json b). }
    destruct (read_invite (jcp_invite p) v) as [[i|c m|] v0] eqn:Hr; cbn in Hrv; subst v0.
    + rewrite (rpc_bind_ok _ _ _ _ _ Hr) in Hj. destruct (accept_invite_spec i v) as [Hv Hok].
      destruct (accept_invite i v) as [[[cid pk]|c m|] v0] eqn:Ha; cbn in Hv; subst v0.
      * exfalso. apply (Hno i cid pk); [by apply Hdec|by apply Hok].
      * rewrite (rpc_bind_err _ _ _ _ _ _ Ha) in Hj. injection Hj as <- <-. split; [done|by intros [? ?]].
      * rewrite (rpc_bind_crash _ _ _ _ Ha) in Hj. injection Hj as <- <-. split; [done|by intros [? ?]].
    + rewrite (rpc_bind_err _ _ _ _ _ _ Hr) in Hj. injection Hj as <- <-. split; [done|by intros [? ?]].
    + rewrite (rpc_bind_crash _ _ _ _ Hr) in Hj. injection Hj as <- <-. split; [done|by intros [? ?]].
  - intros i cid pk Hi Hok id. destruct (accept_invite_spec i v) as [Hv Ha]. apply Ha in Hok.
    destruct (accept_invite i v) as [ra v0] eqn:Hacc. cbn in Hv, Hok. subst v0 ra.
    pose proof (community_join_enters ev p i cid pk v (proj1 (Hdec i) Hi) Hacc) as Hen.
    destruct (entered_spec ev p i cid pk v) as (Hcom & _). cbv zeta in Hen. set (v1 := entered _ _ _ _ _ v) in *.
    pose proof (join_fingerprint_spec i v1) as Hfp. rewrite <- Hfp.
    assert (app_communities (w_app v') = app_communities (w_app v1) ∧ (replied r ↔ replied (join_fingerprint i v1).1)) as [Hcom' Hrep].
    { destruct (join_fingerprint i v1) as [[fp|c m|] v2].
      - destruct Hen as (info & _ & Hen). rewrite Hen in Hj. injection Hj as <- <-. rewrite dial_invited_app.
        split; [|split; intros _; by eexists]. case_bool_decide; [done|]. by rewrite put_fingerprints_app.
      - rewrite Hen in Hj. injection Hj as <- <-. split; [done|]. split; by intros [? ?].
      - rewrite Hen in Hj. injection Hj as <- <-. split; [done|]. split; by intros [? ?]. }
    unfold known_community_pk. rewrite Hcom', Hcom. split_and!; [by rewrite lookup_insert_eq| |exact Hrep].
    intros id' Hne. by rewrite lookup_insert_ne.
Qed.
End joining.
