(* ===== verification/CommunityLife.v ===== *)
(** * Creating, leaving, deleting and changing a community: what the methods of
    [RpcCommunity] do, here and at the other members *)

From S2P Require Import Prelude Bytes Config Redb Routing Crypto Codec Model ClientState Store DhtNode Handler.
From S2P Require Import AppState ChannelEvents CommunityEvents ManifestEvents ClientEvents AppStart Durability DurableEvents.
From S2P Require Import Rpc RpcMessage RpcMember RpcChannel RpcCommunity.

Section life.
Context {T : Type} `{CryptoLaws} `{TableLaws T} `{NodeCodecsLaws} `{HashOrderLaws} `{UlidText} `{UlidParse} `{AddrText}.
Context `{EntropyLaws} `{AppCodecsLaws} `{InvitesLaws} `{Certificates}.
Context (Hevent : ∀ e : NetworkEvent, is_Some (to_allocvec e)).
Context (Hmanifest : ∀ m : CommunityManifest, is_Some (to_allocvec m)).
Implicit Types w v : World T.

Definition admin_refusal (denied c : string) w : refusal :=
  match app_communities (w_app w) !! c with
  | None => Some (-32001, "community not found"%string)
  | Some s => unless (any (λ u, bool_decide (hex u = app_peer_id (w_app w))) (cm_admin_ids (sm_manifest s))) (-32003) denied
  end.
Lemma community_of_run c w s : app_communities (w_app w) !! c = Some s → community_of c w = (Reply s, w).
Proof using Type. intros Hs. unfold community_of, mbind, rpc_bind, gets. by rewrite Hs. Qed.
Lemma community_of_none c w :
  app_communities (w_app w) !! c = None → community_of c w = (Fail (-32001) "community not found", w).
Proof using Type. intros Hs. unfold community_of, mbind, rpc_bind, gets. by rewrite Hs. Qed.
Lemma admin_check_spec {B} denied c w (k : SignedManifest → Rpc T B) :
  (s ← community_of c; (check_admin s denied;; k s)) w =
  match admin_refusal denied c w with
  | Some (code, msg) => (Fail code msg, w)
  | None => match app_communities (w_app w) !! c with Some s => k s w | None => (Crash, w) end
  end.
Proof using Type.
  unfold admin_refusal. destruct (app_communities (w_app w) !! c) as [s|] eqn:Hs.
  - rewrite (rpc_bind_ok _ _ _ _ _ (community_of_run _ _ _ Hs)). unfold check_admin, forbidden.
    assert ((me ← gets (λ w, app_peer_id (w_app w));
             check (any (λ u, bool_decide (hex u = me)) (cm_admin_ids (sm_manifest s))) (rpc_error (-32003) denied)) w =
            (refuse (unless (any (λ u, bool_decide (hex u = app_peer_id (w_app w))) (cm_admin_ids (sm_manifest s)))
                       (-32003) denied), w)) as Hc.
    { rewrite (rpc_bind_ok _ _ _ _ _ (gets_run _ w)). apply check_spec. }
    rewrite (rpc_bind_refuse _ _ _ _ Hc). by destruct (unless _ _ _) as [[]|].
  - by rewrite (rpc_bind_err _ _ _ _ _ _ (community_of_none _ _ Hs)).
Qed.

(** ** A manifest that was signed with the caller's key, at the other members *)

Definition own_signed (m : CommunityManifest) (b : bytes) w : SignedManifest :=
  mkSigned m (ed_sign (app_signing_key (w_app w)) b).
Lemma sign_run m w : ∃ b, to_allocvec m = Some b ∧ manifest_sign m (app_signing_key (w_app w)) = Some (own_signed m b w).
Proof using Hmanifest. destruct (Hmanifest m) as [b Hb]. exists b. unfold manifest_sign, canonical_bytes. by rewrite Hb. Qed.

Lemma own_signed_verifies m b w :
  to_allocvec m = Some b → cm_public_key m = own_pk w → manifest_verify (own_signed m b w) = Some true.
Proof using Type*.
  intros Hb Hpk. unfold manifest_verify, own_signed, canonical_bytes. cbn [sm_manifest sm_signature]. rewrite Hpk. unfold own_pk.
  rewrite ed_public_valid, (proj1 (wf_ed_sign _ _)), Hb. cbn [Nat.eqb mbind option_bind]. by rewrite ed_sign_verify.
Qed.

(** [data] is an update to [m] that members who hold an older manifest apply when the caller
    is the creator, and ignore when it is not. *)
Definition taken_by (m : CommunityManifest) (data : bytes) w source v : Prop :=
  let id := ulid_to_string (cm_id m) in
  (cm_public_key m = own_pk w →
     ∃ v', handle_community_message data source v = Done v' ∧
       if cm_deleted m then forgotten id v v'
       else sm_manifest <$> app_communities (w_app v') !! id = Some m) ∧
  ((∀ msg, ed_verify (cm_public_key m) msg (ed_sign (app_signing_key (w_app w)) msg) = false) →
     handle_community_message data source v = Done v).
Definition update_taken (m : CommunityManifest) (data : bytes) w : Prop :=
  ∀ v source old, app_communities (w_app v) !! ulid_to_string (cm_id m) = Some old →
    cm_version (sm_manifest old) < cm_version m → taken_by m data w source v.
(** The same of the members who hold no newer manifest than the caller's [held]. *)
Definition successor_taken (held m : CommunityManifest) (data : bytes) w : Prop :=
  ∀ v source old, app_communities (w_app v) !! ulid_to_string (cm_id held) = Some old →
    0 <= cm_version held < U64_MAX → cm_version (sm_manifest old) <= cm_version held → taken_by m data w source v.
Lemma successor_taken_spec held m data w :
  cm_id m = cm_id held → cm_version m = wrap64 (cm_version held + 1) → update_taken m data w → successor_taken held m data w.
Proof using Type.
  intros Hid Hver Ht v source old Hold Hr Hle. apply (Ht v source old); [by rewrite Hid|]. rewrite Hver.
  rewrite wrap64_small; [lia|]. unfold is_u64, U64_MAX in *. lia.
Qed.
Lemma update_taken_spec m b data w :
  to_allocvec m = Some b → from_bytes data = Some (ManifestUpdate (own_signed m b w)) → update_taken m data w.
Proof using Type*.
  intros Hb Hd. unfold update_taken, taken_by. set (id := ulid_to_string (cm_id m)). intros v source old Hold Hv. unfold handle_community_message. rewrite Hd. unfold handle_manifest_update.
  unfold own_signed, manifest_verify, canonical_bytes. cbn [sm_manifest sm_signature].
  rewrite (proj1 (wf_ed_sign _ _)), Hb. cbn [Nat.eqb mbind option_bind]. split.
  - intros ->. unfold own_pk. rewrite ed_public_valid, ed_sign_verify. fold id. rewrite Hold, (proj2 (Z.ltb_lt _ _) Hv). cbn [negb].
    destruct (cm_deleted m) eqn:Hdel; eexists; (split; [reflexivity|]).
    + apply forgotten_emit, remove_local_forgets.
    + destruct (apply_manifest_update_spec source old (mkSigned m (ed_sign (app_signing_key (w_app w)) b)) v) as (Hc & _).
      rewrite Hc. cbn [sm_manifest]. fold id. by rewrite lookup_insert_eq.
  - intros Hno. rewrite Hno. by destruct (ed_valid_key _).
Qed.
Lemma publish_own_update c m b w w0 :
  to_allocvec m = Some b → ∃ data, publish (community_topic c) (ManifestUpdate (own_signed m b w)) w0 =
    (Reply tt, command (CmdPublish (community_topic c) data) w0) ∧ update_taken m data w.
Proof using All.
  intros Hb. destruct (publish_run Hevent (community_topic c) (ManifestUpdate (own_signed m b w)) w0) as (data & Hp & Hd).
  exists data. split; [done|]. by eapply update_taken_spec.
Qed.

Lemma remove_local_out c w : w_out w `prefix_of` w_out (remove_community_local c w).
Proof using Type.
  unfold remove_community_local. etrans; [|apply fold_out; intros; by apply prefix_app_r].
  cbn [command emit w_out]. apply prefix_app_r. destruct (known_community_pk c w); [rewrite on_store_out|].
  all: unfold save_passwords, save_channel_keys, save_channels, save_members, save_communities;
    repeat (rewrite save_table_out; cbn [upd w_out]); done.
Qed.

(** ** Deleting *)

(** What is forgotten does not depend on the manifest that is held when it is, as long as the key
    stays the same. *)
Lemma forgotten_replaced c signed w w1 w' :
  w_app w1 = set_communities (<[c := signed]> (app_communities (w_app w))) (w_app w) →
  known_community_pk c w = Some (cm_public_key (sm_manifest signed)) → forgotten c w1 w' → forgotten c w w'.
Proof using Type.
  intros Hw1 Hk ([st Ha] & Hst & Ho). split_and!.
  - exists st. rewrite Ha, Hw1. unfold without_community. cbn. by rewrite delete_insert_eq.
  - intros pk st0 Hpk Hwf Hs Hinv Hon. apply (Hst pk st0); try done; [|by rewrite Hw1].
    unfold known_community_pk. rewrite Hw1. cbn. rewrite lookup_insert_eq. cbn. by rewrite <- Hpk, Hk.
  - intros topic Ht. apply Ho. by rewrite Hw1.
Qed.

(** C22: deleting a community. [community_delete] refuses, changing nothing, who is not in the
    manifest's list of administrators. Otherwise the caller has forgotten the community: its
    manifest, members, hosting password, channels and channel keys are gone from the tables and
    from their files, its metadata and its messages from the embedded store, its topics are
    unsubscribed from; the message log, the previous keys and the read markers are as they
    were. The tombstone the caller has published makes the members with no newer manifest forget
    the community in the same way if the caller is its creator; coming from another
    administrator it is ignored, since manifests are checked against the creator's key. *)
Theorem community_delete_correct c w :
  match admin_refusal "only admins can delete a community" c w with
  | Some (code, msg) => community_delete c w = (Fail code msg, w)
  | None =>
      ∃ old data w', app_communities (w_app w) !! c = Some old ∧ community_delete c w = (Reply true, w') ∧
        forgotten c w w' ∧ ((∀ k n m, is_Some (aead_encrypt k n m)) → persisted w → persisted w') ∧
        Cmd (CmdPublish (community_topic c) data) ∈ w_out w' ∧
        successor_taken (sm_manifest old) (tombstone_of (sm_manifest old)) data w
  end.
Proof using All.
  unfold community_delete. rewrite admin_check_spec. destruct (admin_refusal _ _ _) as [[]|] eqn:Hr; [done|].
  unfold admin_refusal in Hr. destruct (app_communities (w_app w) !! c) as [old|] eqn:Hold; [|done].
  set (m := tombstone_of (sm_manifest old)). rewrite (rpc_bind_ok _ _ _ _ _ (step_run _ _)).
  rewrite (rpc_bind_ok _ _ _ _ _ (gets_run _ _)). set (w1 := replace_community c (mkSigned m (sm_signature old)) w).
  change (app_signing_key (w_app w1)) with (app_signing_key (w_app w)).
  destruct (sign_run m w) as (b & Hb & Hsign). rewrite Hsign.
  rewrite (rpc_bind_ok (mret (own_signed m b w)) _ w1 (own_signed m b w) w1 eq_refl), (rpc_bind_ok _ _ _ _ _ (step_run _ _)).
  set (w2 := replace_community c (own_signed m b w) w1). destruct (publish_own_update c m b w w2 Hb) as (data & Hp & Ht0).
  pose proof (successor_taken_spec (sm_manifest old) m data w eq_refl eq_refl Ht0) as Ht.
  rewrite (rpc_bind_ok _ _ _ _ _ Hp), (rpc_bind_ok _ _ _ _ _ (step_run _ _)).
  exists old, data. eexists. split; [done|]. split; [reflexivity|].
  set (w3 := command _ w2). assert (w_app w3 = set_communities (<[c := own_signed m b w]> (app_communities (w_app w))) (w_app w)) as Hw3.
  { subst w3 w2 w1. cbn. by rewrite insert_insert_eq. }
  split_and!; [| | |done].
  - apply (forgotten_replaced c (own_signed m b w) w w3); [done| |apply remove_local_forgets].
    unfold known_community_pk. by rewrite Hold.
  - intros Haead Hp0. apply (sv_remove_local_any Haead), sv_emit. revert Hp0. unfold w2, w1, replace_community, persisted. intros Hp0.
    do 2 (apply sv_touch; [by intros ? []|done|]). revert Hp0. apply sv_weaken. set_solver.
  - eapply elem_of_prefix; [|apply remove_local_out]. cbn. apply elem_of_app. right. by left.
Qed.

(** ** Leaving *)

(** Leaving. [community_leave] fails only for a community that the client does not know.
    Otherwise everything the client holds of it is gone, and the departure it has published,
    signed with its own key, removes it at every member that records it with that key. *)
Theorem community_leave_correct ev c w :
  match app_communities (w_app w) !! c with
  | None => community_leave ev c w = (Fail (-32001) "community not found", w)
  | Some _ =>
      ∃ w', community_leave ev c w = (Reply true, w') ∧ forgotten c w w' ∧
        ∀ ulid, parse_ulid c = Some ulid → ulid_to_string ulid = c →
          ∃ data, Cmd (CmdPublish (community_topic c) data) ∈ w_out w' ∧
            ∀ v source m, let me := hex (own_user_id w) in
              member_of c me v = Some m → mr_user_id m = own_user_id w → mr_public_key m = own_pk w →
              ∃ v', handle_community_message data source v = Done v' ∧ member_of c me v' = None
  end.
Proof using All.
  unfold community_leave. destruct (app_communities (w_app w) !! c) as [s|] eqn:Hs.
  2:{ by rewrite (rpc_bind_err _ _ _ _ _ _ (community_of_none _ _ Hs)). }
  rewrite (rpc_bind_ok _ _ _ _ _ (community_of_run _ _ _ Hs)). unfold publish_own_leave.
  destruct (parse_ulid c) as [ulid|] eqn:Hu.
  - set (event := MemberLeft (mkLeft (own_user_id w) ulid (rx_now ev 0)
      (ed_sign (app_signing_key (w_app w)) (leave_message (own_user_id w) ulid)))).
    destruct (publish_run Hevent (community_topic c) event w) as (data & Hp & Hd).
    assert ((user ← gets own_user_id;
      sk ← gets (λ w, app_signing_key (w_app w));
      publish (community_topic c) (MemberLeft (mkLeft user ulid (rx_now ev 0) (ed_sign sk (leave_message user ulid))))) w =
      (Reply tt, command (CmdPublish (community_topic c) data) w)) as Hl by exact Hp.
    rewrite (rpc_bind_ok _ _ _ _ _ Hl), (rpc_bind_ok _ _ _ _ _ (step_run _ _)).
    eexists. split; [reflexivity|]. split; [exact (remove_local_forgets c (command (CmdPublish (community_topic c) data) w))|].
    intros ? [= <-] Hc. exists data. split.
    { eapply elem_of_prefix; [|apply remove_local_out]. cbn. apply elem_of_app. right. by left. }
    intros v source m. set (me := hex (own_user_id w)). intros Hm Huid Hpk. unfold handle_community_message. rewrite Hd. subst event. eexists. split; [done|].
    set (p := mkLeft _ _ _ _). destruct (member_left_spec p v) as [_ Hleft]. cbn in Hleft. rewrite Hc in Hleft. fold me in Hleft.
    apply Hleft. split; [apply (proj1 (wf_ed_sign _ _))|]. apply signed_by_member_spec. exists me, m.
    split_and!; [done|by rewrite bool_decide_eq_true_2|rewrite Hpk; apply ed_public_valid|]. rewrite Hpk. apply ed_sign_verify.
  - assert ((user ← gets own_user_id; mret tt) w = (Reply tt, w)) as Hl by done.
    rewrite (rpc_bind_ok (user ← gets own_user_id; mret tt) _ w tt w Hl), (rpc_bind_ok _ _ _ _ _ (step_run _ _)).
    eexists. split; [reflexivity|]. split; [apply remove_local_forgets|done].
Qed.

(** ** Changing *)

Definition update_refusal (p : UpdateManifestParams) w : refusal :=
  or_else (seed_refusal (ump_community_id p) w)
    (or_else (unless (match ump_name p with Some name => name_ok name | None => true end) (-32602)
                "name must be 1–100 characters")
      (or_else (unless (match ump_description p with Some d => (String.length d <=? 500)%nat | None => true end) (-32602)
                  "description must be ≤500 characters")
        (admin_refusal "only admins may update the community manifest" (ump_community_id p) w))).

(** The first seed changes to another one. *)
Definition new_first_seed (old new : CommunityManifest) : bool :=
  let first m := default ""%string (head (cm_seed_nodes m)) in
  negb (bool_decide (first new = ""%string)) && negb (bool_decide (first new = first old)).
Definition fingerprint_given (h : option string) : Prop :=
  ∃ t fp, h = Some t ∧ parse_fingerprint_hex t = Some (Some fp) ∧ fp ≠ zero32.

Lemma fingerprint_or_zero_spec (h : option string) w :
  match fingerprint_or_zero (T := T) h w with
  | (Reply fp, w') => w' = w ∧ (fp ≠ zero32 ↔ fingerprint_given h)
  | (Crash, w') => w' = w ∧ ¬ fingerprint_given h
  | _ => False
  end.
Proof using Type.
  unfold fingerprint_given. destruct h as [t|]; cbn; [|split; [done|]; split; [done|by intros (? & ? & ? & _)]].
  destruct (parse_fingerprint_hex t) as [[fp|]|] eqn:Hp; cbn.
  - split; [done|]. split; [intros Hz; by exists t, fp|]. intros (t' & fp' & [= <-] & Hp' & Hz). congruence.
  - split; [done|]. split; [done|]. intros (t' & fp' & [= <-] & Hp' & _). congruence.
  - split; [done|]. intros (t' & fp' & [= <-] & Hp' & _). congruence.
Qed.
Lemma pin_new_seed_spec p changed seeds w :
  let '(r, w') := pin_new_seed p changed seeds w in
  app_communities (w_app w') = app_communities (w_app w) ∧ w_out w' = w_out w ∧
  (replied r ↔ changed = false ∨ fingerprint_given (ump_seed_fingerprint_hex p)).
Proof using Type.
  unfold pin_new_seed. destruct changed; cbn; [|split_and!; [done|done|]; split; [by left|by eexists]].
  unfold mbind at 1, rpc_bind at 1. pose proof (fingerprint_or_zero_spec (ump_seed_fingerprint_hex p) w) as Hf.
  destruct (fingerprint_or_zero _ w) as [[fp|c m|] w']; [|done|].
  - destruct Hf as [-> Hf]. unfold invalid_params. rewrite (rpc_bind_refuse _ _ _ _ (check_spec _ _ _ w)). unfold unless.
    destruct (decide (fp = zero32)) as [Hz|Hz].
    + rewrite bool_decide_eq_true_2 by done. cbn. split_and!; [done|done|]. split; [by intros []|].
      intros [?|Hg]; [done|]. by apply Hf in Hg.
    + rewrite bool_decide_eq_false_2 by done. cbn. rewrite put_fingerprints_app, put_fingerprints_out.
      split_and!; [done|done|]. split; [|by eexists]. intros _. right. by apply Hf.
  - destruct Hf as [-> Hf]. split_and!; [done|done|]. split; [by intros []|]. by intros [?|?].
Qed.
(** What follows the announcement of a new manifest. *)
Lemma pin_and_sync_spec p changed seeds c signed w :
  let new_seed := default ""%string (head (cm_seed_nodes (sm_manifest signed))) in
  let '(r, w') := (pin_new_seed p changed seeds ≫= λ _,
    creator ← gets (λ w, bool_decide (own_pk w = cm_public_key (sm_manifest signed)));
    step (if changed && creator then emit (SpawnSeedSync c (cm_public_key (sm_manifest signed)) signed new_seed) else id);;
    mret true) w in
  app_communities (w_app w') = app_communities (w_app w) ∧ w_out w `prefix_of` w_out w' ∧
  (replied (A := bool) r ↔ changed = false ∨ fingerprint_given (ump_seed_fingerprint_hex p)).
Proof using Type.
  cbv zeta. pose proof (pin_new_seed_spec p changed seeds w) as Hpin. unfold mbind at 1, rpc_bind at 1.
  destruct (pin_new_seed p changed seeds w) as [[[]|code msg|] w1]; destruct Hpin as (Hc & Ho & Hrep).
  - rewrite (rpc_bind_ok _ _ _ _ _ (gets_run _ _)), (rpc_bind_ok _ _ _ _ _ (step_run _ _)). rewrite <- Hc, <- Ho.
    split_and!; [by destruct (changed && _)|destruct (changed && _); [by apply prefix_app_r|done]|].
    rewrite <- Hrep. by split; intros _; eexists.
  - rewrite <- Ho. split_and!; [done|done|]. rewrite <- Hrep. by split; intros [].
  - rewrite <- Ho. split_and!; [done|done|]. rewrite <- Hrep. by split; intros [].
Qed.

(** C21: changing a community. [community_update_manifest] refuses, changing nothing, a community
    that is unknown or out of reach, a name or description of the wrong length and a caller
    who is not an administrator. Otherwise the new manifest, with the next version, is held
    and published; members with no newer one take it over from the creator and from nobody
    else. If the first seed has changed and no usable fingerprint is given, the call reports
    an error after all of this has happened. *)
Theorem community_update_manifest_correct p w :
  let c := ump_community_id p in
  match update_refusal p w with
  | Some (code, msg) => community_update_manifest p w = (Fail code msg, w)
  | None =>
      ∃ old new data r w', community_update_manifest p w = (r, w') ∧
        app_communities (w_app w) !! c = Some old ∧ app_communities (w_app w') = <[c := new]> (app_communities (w_app w)) ∧
        sm_manifest new = updated_manifest p (sm_manifest old) ∧
        (own_pk w = cm_public_key (sm_manifest old) → manifest_verify new = Some true) ∧
        Cmd (CmdPublish (community_topic c) data) ∈ w_out w' ∧
        successor_taken (sm_manifest old) (sm_manifest new) data w ∧
        (replied r ↔ new_first_seed (sm_manifest old) (sm_manifest new) = false ∨
                     fingerprint_given (ump_seed_fingerprint_hex p))
  end.
Proof using All.
  intros c. unfold community_update_manifest, update_refusal. fold c. unfold invalid_params.
  rewrite (rpc_bind_refuse _ _ _ _ (require_seed_spec _ w)). destruct (seed_refusal _ _) as [[]|]; [done|]. cbn [or_else].
  rewrite (rpc_bind_refuse _ _ _ _ (check_spec _ _ _ w)). destruct (unless _ _ _) as [[]|]; [done|]. cbn [or_else].
  rewrite (rpc_bind_refuse _ _ _ _ (check_spec _ _ _ w)). destruct (unless _ _ _) as [[]|]; [done|]. cbn [or_else].
  rewrite (rpc_bind_ok _ _ _ _ _ (gets_run _ w)), admin_check_spec.
  destruct (admin_refusal _ _ _) as [[]|] eqn:Hr; [done|]. unfold admin_refusal in Hr.
  destruct (app_communities (w_app w) !! c) as [old|] eqn:Hold; [|done].
  set (m := updated_manifest p (sm_manifest old)). destruct (sign_run m w) as (b & Hb & Hsign).
  set (w1 := put_community c (own_signed m b w) w).
  assert (resign c m w = (Reply (own_signed m b w), w1)) as Hres.
  { unfold resign. rewrite (rpc_bind_ok _ _ _ _ _ (gets_run _ w)), Hsign. by rewrite (rpc_bind_ok _ _ _ _ _ (step_run _ _)). }
  rewrite (rpc_bind_ok _ _ _ _ _ Hres). destruct (publish_own_update c m b w w1 Hb) as (data & Hp & Ht0).
  pose proof (successor_taken_spec (sm_manifest old) m data w eq_refl eq_refl Ht0) as Ht.
  rewrite (rpc_bind_ok _ _ _ _ _ Hp). unfold notify. rewrite (rpc_bind_ok _ _ _ _ _ (step_run _ _)). cbn [sm_manifest own_signed].
  match goal with |- context [pin_new_seed p ?b ?l] => set (changed := b); set (seeds := l) end.
  match goal with |- context [(pin_new_seed p changed seeds ≫= _) ?x] => set (w2 := x) end.
  assert (app_communities (w_app w2) = <[c := own_signed m b w]> (app_communities (w_app w))) as Hc2.
  { subst w2. cbn. subst w1. by rewrite put_community_app. }
  assert (Cmd (CmdPublish (community_topic c) data) ∈ w_out w2) as Ho2.
  { subst w2. cbn. apply elem_of_app. left. apply elem_of_app. right. by left. }
  pose proof (pin_and_sync_spec p changed seeds c (own_signed m b w) w2) as Hend. cbv zeta in Hend. cbn [sm_manifest own_signed] in Hend.
  destruct ((pin_new_seed p changed seeds ≫= _) w2) as [r w3]. destruct Hend as (Hc3 & Ho3 & Hrep).
  exists old, (own_signed m b w), data, r, w3. split_and!; [done|done|by rewrite Hc3|done| | |exact Ht|exact Hrep].
  - intros Ho. apply own_signed_verifies; [done|exact (eq_sym Ho)].
  - by eapply elem_of_prefix.
Qed.

(** ** Creating *)









End life.
