(* ===== verification/RpcNode.v ===== *)
(** * Direct messages, identity and configuration over JSON-RPC:
    [bitcord-core/src/api/rpc_server/dm.rs], [identity.rs] and [node.rs]

    What a method reads from the DHT is a [DhtNet], the network that the lookups of
    [DhtNode] ask. The configuration is written to the file [config_path]. Changing the
    passphrase rewrites the key file only; [Observe] has the counters that
    [node_get_metrics] reads. *)

From S2P Require Import Prelude Bytes Config Redb Routing Kademlia Crypto Codec Model ClientState Store DhtNode Handler.
From S2P Require Import AppState ChannelEvents CommunityEvents ManifestEvents ClientEvents AppStart Rpc RpcMessage RpcChannel.

(** ** [api/types.rs] *)

Record IdentityInfo := mkIdentityInfo {
  ii_peer_id : string; ii_display_name : option string; ii_status : UserStatus; ii_public_key_hex : string;
  ii_public_addr : option string; ii_tls_fingerprint_hex : option string }.
Record SetDisplayNameParams := mkSetDisplayName { sdn_display_name : string }.
Record NodeLocalInfo := mkLocalInfo { nl_node_address : string; nl_listen_addrs : list string }.
Record NodeConfigDto := mkConfigDto {
  cd_listen_addrs : list string; cd_max_connections : Z; cd_storage_limit_mb : Z;
  cd_bandwidth_limit_kbps : option Z; cd_node_mode : NodeMode; cd_seed_priority : Z; cd_log_level : string;
  cd_preferred_mailbox_node : option string }.
Record SetConfigParams := mkSetConfig {
  sc_listen_addrs : option (list string); sc_max_connections : option Z; sc_storage_limit_mb : option Z;
  sc_bandwidth_limit_kbps : option (option Z); sc_node_mode : option NodeMode; sc_seed_priority : option Z;
  sc_log_level : option string; sc_preferred_mailbox_node : option (option string) }.
Record SetPreferredMailboxCommunityParams := mkSetMailbox { spm_community_id : string }.

(** The DHT as a lookup finds it: the peers' answers, the order in which they come, whether
    the lookup runs out of time, and the clocks. *)
Record DhtNet := mkNet {
  net_find_node : bytes * NodeAddr → option (list (bytes * NodeAddr) * option NodeAddr);
  net_find_info : bytes * NodeAddr → option PeerInfoRecord;
  net_completion : list (bytes * NodeAddr) → list (bytes * NodeAddr);
  net_timed_out : option DhtState;
  net_now : Z }.

Section rpc_node.
Context {T : Type} `{Crypto} `{Table T} `{NodeCodecs} `{HashOrder} `{UlidText} `{UlidParse} `{AddrText}.
Context `{Entropy} `{AppCodecs} `{Toml}.
Implicit Types w : World T.

(** ** [dm.rs] *)

(** The X25519 key of a member of any community. *)
Definition member_x25519 (peer_id : string) w : option bytes :=
  let records := concat ((λ kl : string * gmap string MembershipRecord, (hash_order kl.2).*2)
                           <$> hash_order (app_members (w_app w))) in
  mr_x25519_public_key <$> find_by (λ m, bool_decide (hex (mr_user_id m) = peer_id)) records.
Definition known_x25519 (peer_id : string) w : option bytes :=
  match member_x25519 peer_id w with
  | Some pk => Some pk
  | None => dp_x25519_public_key <$> app_dm_peers (w_app w) !! peer_id
  end.

(** [dht.find_peer_info(peer_id).await]. *)
Definition ask_peer_info (net : DhtNet) (peer_id : bytes) : Rpc T (option PeerInfoRecord) := λ w,
  match app_dht (w_app w) with
  | Some h =>
      let '(res, h') := find_peer_info (net_find_node net) (net_find_info net) (net_completion net)
                          (net_timed_out net) (net_now net) peer_id h in
      (Reply res, upd (set_dht (Some h')) w)
  | None => (Reply None, w)
  end.
(** [dht.find_mailbox_peers(pk).await], its first address. *)
Definition ask_mailbox (net : DhtNet) (pk : bytes) : Rpc T (option NodeAddr) := λ w,
  match app_dht (w_app w) with
  | Some h =>
      let '(addrs, h') := find_mailbox_peers (net_find_node net) (net_timed_out net) (net_now net) pk h in
      (Reply (head addrs), upd (set_dht (Some h')) w)
  | None => (Reply None, w)
  end.

(** The recipient in the DHT: its address, and its key when it is not known yet. *)
Definition resolve_peer (net : DhtNet) (peer_id : string) : Rpc T (option bytes * option NodeAddr) :=
  known ← gets (known_x25519 peer_id);
  online ← gets (λ w, bool_decide (is_Some (app_dht (w_app w))));
  if negb online then mret (known, None)
  else
    match parse_fingerprint_hex peer_id with
    | None => panic
    | Some None => mret (known, None)
    | Some (Some pid) =>
        info ← ask_peer_info net pid;
        match info with
        | None => mret (known, None)
        | Some info =>
            match known with
            | Some pk => mret (Some pk, Some (pi_addr info))
            | None =>
                let name := if bool_decide (pi_display_name info = ""%string)
                            then (String.substring 0 12 peer_id ++ "…")%string else pi_display_name info in
                step (upd (λ a, set_dm_peers
                  (or_insert peer_id (mkDmPeer name (pi_x25519_pk info)) (app_dm_peers a)) a));;
                mret (Some (pi_x25519_pk info), Some (pi_addr info))
            end
        end
    end.

(** Sealed for the recipient and handed to the network task, as far as that is possible. *)
Definition deliver_dm (net : DhtNet) (p : SendDmParams) (msg : DmMessageInfo) (recipient : bytes)
    (peer_addr : option NodeAddr) : Rpc T unit :=
  let payload := mkDmPayload (sdp_body p) (sdp_reply_to p) (di_id msg) in
  let payload_bytes := default (bytes_of_string (sdp_body p)) (to_allocvec payload) in
  sealed ← gets (λ w, seal (own_x25519_sk w) (rng32 (w_draws w)) (rng24 (w_draws w)) recipient payload_bytes);
  step draw;;
  match sealed with
  | Ok envelope =>
      mailbox ← ask_mailbox net recipient;
      step (command (CmdSendDm (sdp_peer_id p) (di_id msg) recipient envelope mailbox peer_addr))
  | Err _ => mret tt
  end.

Definition dm_send (net : DhtNet) (ev : RpcEnv) (p : SendDmParams) : Rpc T DmMessageInfo :=
  let peer_id := sdp_peer_id p in
  check (negb (bool_decide (sdp_body p = ""%string))) (invalid_params "body must not be empty");;
  me ← gets (λ w, app_peer_id (w_app w));
  let msg := mkDmInfo (ulid_to_string (rx_fresh ev)) peer_id me (rx_now ev 0) (sdp_body p) (sdp_reply_to p) None in
  step (λ w, save_dms (upd (λ a, set_dms
          (<[peer_id := default [] (app_dms a !! peer_id) ++ [msg]]> (app_dms a)) a) w));;
  '(recipient, addr) ← resolve_peer net peer_id;
  match recipient with Some pk => deliver_dm net p msg pk addr | None => mret tt end;;
  notify (PushDmNew msg);;
  mret msg.

(** The page before the message named, or the last one. *)
Definition dm_page (before : option string) (limit : nat) (all : list DmMessageInfo) : list DmMessageInfo :=
  let stop :=
    match before with
    | Some id => match list_find (λ m, di_id m = id) all with Some (i, _) => i | None => length all end
    | None => length all
    end in
  drop (stop - limit) (take stop all).
Definition dm_get_history (p : GetDmHistoryParams) : Rpc T (list DmMessageInfo) :=
  all ← gets (λ w, default [] (app_dms (w_app w) !! gdp_peer_id p));
  mret (dm_page (gdp_before p) (Z.to_nat (Z.min (default 50 (gdp_limit p)) 200)) all).

(** [cfg.save(&ctx.config_path)], whose failure is ignored. *)
Definition save_config (config_path : string) w : World T :=
  match to_toml (app_config (w_app w)) with
  | Some data => write_file config_path data w
  | None => w
  end.
Definition change_config (config_path : string) (f : NodeConfig → NodeConfig) : Rpc T unit :=
  step (λ w, save_config config_path (upd (λ a, set_config (f (app_config a)) a) w)).

Definition dm_clear_preferred_mailbox (config_path : string) : Rpc T bool :=
  change_config config_path (set_cfg_mailbox None);;
  mret true.

Definition dm_set_preferred_mailbox_community (config_path : string) (p : SetPreferredMailboxCommunityParams)
    : Rpc T string :=
  signed ← community_of (spm_community_id p);
  addr_str ← need (head (cm_seed_nodes (sm_manifest signed))) (internal_err "community has no seed nodes configured");
  addr ← need (parse_node_addr addr_str) (invalid_params "");
  change_config config_path (set_cfg_mailbox (Some addr_str));;
  step (λ w, match app_dht (w_app w) with
             | Some h => emit (SpawnMailbox (x_public (own_x25519_sk w))) (upd (set_dht (Some (update_self_addr addr h))) w)
             | None => w
             end);;
  mret addr_str.

Definition dm_discard (p : DiscardDmParams) : Rpc T bool :=
  step (λ w, match app_dms (w_app w) !! ddp_peer_id p with
             | Some msgs =>
                 save_dms (upd (λ a, set_dms
                   (<[ddp_peer_id p := retain (λ m, negb (bool_decide (di_id m = ddp_message_id p))) msgs]>
                      (app_dms a)) a) w)
             | None => w
             end);;
  mret true.

Definition dm_peer_name (peer_id : string) : Rpc T (option string) :=
  gets (λ w, dp_display_name <$> app_dm_peers (w_app w) !! peer_id).

(** ** [identity.rs] *)

Definition identity_get : Rpc T IdentityInfo :=
  gets (λ w, let a := w_app w in
    mkIdentityInfo (app_peer_id a) (is_display_name (app_identity_state a)) (is_status (app_identity_state a))
      (app_public_key_hex a) (app_public_addr a) (app_local_tls_fingerprint_hex a)).

(** The record under the new name; the signature stays the old one. *)
Definition renamed (name : string) (r : MembershipRecord) : MembershipRecord :=
  mkMember (mr_user_id r) (mr_community_id r) name (mr_avatar_cid r) (mr_joined_at r) (mr_roles r)
    (mr_public_key r) (mr_x25519_public_key r) (mr_signature r).
Definition announce_rename (me : string) w (cr : string * MembershipRecord) : World T :=
  publish_event (community_topic cr.1) (MemberJoined cr.2)
    (broadcast (PushMemberJoined (mkMemberEvent me cr.1 (mr_display_name cr.2))) w).
Definition rename_everywhere (name : string) w : World T :=
  let me := app_peer_id (w_app w) in
  let updated :=
    omap (λ cl : string * gmap string MembershipRecord, r ← cl.2 !! me; Some (cl.1, renamed name r))
      (hash_order (app_members (w_app w))) in
  let w := save_members (upd (λ a, set_members (alter (renamed name) me <$> app_members a) a) w) in
  foldl (announce_rename me) w updated.

Definition identity_set_display_name (config_path : string) (p : SetDisplayNameParams) : Rpc T bool :=
  let name := sdn_display_name p in
  check (negb (bool_decide (name = ""%string)) && (String.length name <=? 64)%nat)
    (invalid_params "display_name must be 1–64 characters");;
  step (upd (λ a, set_identity_state (mkIdentity (Some name) (is_status (app_identity_state a))) a));;
  change_config config_path (set_cfg_display_name (Some name));;
  step (rename_everywhere name);;
  mret true.

(** [format!("{status:?}").to_lowercase()]. *)
Definition debug_status (s : UserStatus) : string :=
  match s with
  | Online => "online" | Idle => "idle" | DoNotDisturb => "donotdisturb"
  | Invisible => "invisible" | Offline => "offline"
  end.
Definition identity_set_status (ev : RpcEnv) (p : SetStatusParams) : Rpc T bool :=
  step (upd (λ a, set_identity_state (mkIdentity (is_display_name (app_identity_state a)) (ssp_status p)) a));;
  me ← gets (λ w, app_peer_id (w_app w));
  notify (PushPresenceChanged (mkPresenceChanged me (debug_status (ssp_status p)) (rx_now ev 0)));;
  mret true.

(** ** [node.rs] *)

Definition node_get_config : Rpc T NodeConfigDto :=
  gets (λ w, let c := app_config (w_app w) in
    mkConfigDto (cfg_listen_addrs c) (cfg_max_connections c) (cfg_storage_limit_mb c) (cfg_bandwidth_limit_kbps c)
      (cfg_node_mode c) (cfg_seed_priority c) (cfg_log_level c) (cfg_preferred_mailbox_node c)).
Definition apply_config (p : SetConfigParams) (c : NodeConfig) : NodeConfig :=
  mkConfig (cfg_identity_path c) (cfg_data_dir c) (default (cfg_listen_addrs c) (sc_listen_addrs p))
    (default (cfg_max_connections c) (sc_max_connections p)) (default (cfg_storage_limit_mb c) (sc_storage_limit_mb p))
    (default (cfg_bandwidth_limit_kbps c) (sc_bandwidth_limit_kbps p)) (default (cfg_node_mode c) (sc_node_mode p))
    (default (cfg_seed_priority c) (sc_seed_priority p)) (default (cfg_log_level c) (sc_log_level p))
    (cfg_quic_port c) (cfg_display_name c) (cfg_join_password c) (cfg_save_passphrase c)
    (default (cfg_preferred_mailbox_node c) (sc_preferred_mailbox_node p)).
Definition node_set_config (config_path : string) (p : SetConfigParams) : Rpc T bool :=
  change_config config_path (apply_config p);;
  mret true.
Definition node_get_peers : Rpc T (list PeerSummary) :=
  gets (λ w, concat (hash_order (app_connected_peers (w_app w))).*2).
Definition node_get_local_addrs : Rpc T NodeLocalInfo :=
  gets (λ w, mkLocalInfo (app_node_address (w_app w)) (app_actual_listen_addrs (w_app w))).
End rpc_node.
