(* ===== verification/RpcServer.v ===== *)
(** * The JSON-RPC server: every method, on the client's invariant

    [RpcCall] lists the methods that [build_rpc_module] registers, with their parameters and
    what each reads of its environment; [serve] runs one. Every method keeps the invariant of
    the client, whether it replies, fails halfway or panics. *)

From S2P Require Import Prelude Bytes Config Redb Routing Kademlia Crypto Codec Model ClientState Store DhtNode Handler.
From S2P Require Import AppState ChannelEvents CommunityEvents ManifestEvents ClientEvents AppStart.
From S2P Require Import Identity Rpc Passphrase RpcMessage RpcMember RpcChannel RpcCommunity RpcNode.

(** ** Triples

    [triple P m Q E]: from a state in [P], [m] either replies with a result and a state in
    [Q], or ends in a state in [E]. *)

Section triples.
Context {T : Type}.
Implicit Types P E : World T → Prop.

Definition triple {A} P (m : Rpc T A) (Q : A → World T → Prop) E : Prop :=
  ∀ w, P w → match m w with (Reply a, w') => Q a w' | (_, w') => E w' end.

Lemma triple_ret {A} P (a : A) Q E : (∀ w, P w → Q a w) → triple P (mret a) Q E.
Proof. intros Hq w Hw. by apply Hq. Qed.
Lemma triple_bind {A B} P (m : Rpc T A) (k : A → Rpc T B) Q R E :
  triple P m Q E → (∀ a, triple (Q a) (k a) R E) → triple P (m ≫= k) R E.
Proof.
  intros Hm Hk w Hw. specialize (Hm w Hw). unfold mbind, rpc_bind. destruct (m w) as [[a|c s|] w1]; [|done..].
  exact (Hk a w1 Hm).
Qed.
Lemma triple_gets {A} P (f : World T → A) Q E : (∀ w, P w → Q (f w) w) → triple P (gets f) Q E.
Proof. intros Hq w Hw. by apply Hq. Qed.
Lemma triple_step P f (Q : unit → World T → Prop) E : (∀ w, P w → Q tt (f w)) → triple P (step f) Q E.
Proof. intros Hq w Hw. by apply Hq. Qed.
Lemma triple_need {A} P (o : option A) c s Q E :
  (∀ w, P w → E w) → (∀ a w, o = Some a → P w → Q a w) → triple P (need o (rpc_error c s)) Q E.
Proof. intros He Hq w Hw. destruct o; cbn; [by apply Hq|by apply He]. Qed.
Lemma triple_check P b c s (Q : unit → World T → Prop) E :
  (∀ w, P w → E w) → (∀ w, b = true → P w → Q tt w) → triple P (check b (rpc_error c s)) Q E.
Proof. intros He Hq w Hw. destruct b; cbn; [by apply Hq|by apply He]. Qed.
Lemma triple_error {A} P c s (Q : A → World T → Prop) E : (∀ w, P w → E w) → triple P (rpc_error c s) Q E.
Proof. intros He w Hw. by apply He. Qed.
Lemma triple_panic {A} P (Q : A → World T → Prop) E : (∀ w, P w → E w) → triple P panic Q E.
Proof. intros He w Hw. by apply He. Qed.
Lemma triple_pure {A} (φ : Prop) P (m : Rpc T A) Q E : (φ → triple P m Q E) → triple (λ w, φ ∧ P w) m Q E.
Proof. intros Hm w [Hp Hw]. by apply Hm. Qed.
Lemma triple_conseq {A} P P' (m : Rpc T A) (Q Q' : A → World T → Prop) E :
  triple P' m Q' E → (∀ w, P w → P' w) → (∀ a w, Q' a w → Q a w) → triple P m Q E.
Proof. intros Hm Hp Hq w Hw. specialize (Hm w (Hp w Hw)). destruct (m w) as [[a|c s|] w']; [by apply Hq|done..]. Qed.

(** A method that keeps [P] whatever happens. *)
Definition keeps {A} P (m : Rpc T A) : Prop := triple P m (λ _, P) P.
Lemma keeps_bind {A B} P (m : Rpc T A) (k : A → Rpc T B) : keeps P m → (∀ a, keeps P (k a)) → keeps P (m ≫= k).
Proof. apply triple_bind. Qed.
Lemma keeps_ret {A} P (a : A) : keeps P (mret a).
Proof. by apply triple_ret. Qed.
Lemma keeps_value {A B} P (a : A) (k : A → Rpc T B) : keeps P (k a) → keeps P (mret a ≫= k).
Proof. by intros Hk w Hw; apply Hk. Qed.
Lemma keeps_gets {A} P (f : World T → A) : keeps P (gets f).
Proof. by apply triple_gets. Qed.
Lemma keeps_step P f : (∀ w, P w → P (f w)) → keeps P (step f).
Proof. intros Hf. by apply triple_step. Qed.
Lemma keeps_need {A} P (o : option A) c s : keeps P (need o (rpc_error c s)).
Proof. by apply triple_need. Qed.
Lemma keeps_check P b c s : keeps P (check b (rpc_error c s)).
Proof. by apply triple_check. Qed.
Lemma keeps_error {A} P c s : keeps P (rpc_error (A := A) c s).
Proof. by apply triple_error. Qed.
Lemma keeps_panic {A} P : keeps P (panic (A := A)).
Proof. by apply triple_panic. Qed.
(** Binding something read of the state, of which [P] says something. *)
Lemma keeps_read {A B} P (f : World T → A) (φ : A → Prop) (k : A → Rpc T B) :
  (∀ w, P w → φ (f w)) → (∀ a, φ a → keeps P (k a)) → keeps P (gets f ≫= k).
Proof.
  intros Hf Hk. eapply (triple_bind _ _ _ (λ a w, φ a ∧ P w)); [apply triple_gets; auto|].
  intros a. apply triple_pure, Hk.
Qed.
Lemma keeps_some {A B} P (o : option A) c s (k : A → Rpc T B) :
  (∀ a, o = Some a → keeps P (k a)) → keeps P (need o (rpc_error c s) ≫= k).
Proof.
  intros Hk. eapply (triple_bind _ _ _ (λ a w, o = Some a ∧ P w)); [apply triple_need; auto|].
  intros a. apply triple_pure, Hk.
Qed.
End triples.

(** ** The invariant of the client *)

Section server_invariant.
Context {T : Type} `{CryptoLaws} `{TableLaws T} `{NodeCodecsLaws} `{HashOrderLaws} `{UlidText} `{UlidParse} `{AddrText}.
Context `{EntropyLaws} `{AppCodecs} `{Invites} `{Certificates} `{Toml}.
Implicit Types w : World T.

Notation ikeeps := (keeps (T := T) inv).
Ltac keep :=
  repeat first
    [ apply keeps_ret | apply keeps_gets | apply keeps_need | apply keeps_check | apply keeps_error | apply keeps_panic
    | apply keeps_step; intros ?w ?Hw; solve [eauto 8 with client_db]
    | apply keeps_bind; [|intros ?] ].

Lemma inv_put_channel id ch w : inv w → id = ulid_to_string (ch_id ch) → inv (put_channel id ch w).
Proof using Type. intros Hw Hid. by apply inv_save_channels_insert. Qed.
Lemma inv_put_key id key w : inv w → inv (put_key id key w).
Proof using Type. intros Hw. by apply inv_save_table, inv_set_channel_keys. Qed.
Lemma inv_put_community id s w : inv w → wf_key (cm_public_key (sm_manifest s)) → inv (put_community id s w).
Proof using Type. intros Hw Hs. by apply inv_save_table, inv_set_communities_insert. Qed.
Lemma inv_put_password id pw w : inv w → inv (put_password id pw w).
Proof using Type. intros Hw. unfold put_password. destruct pw; [|done]. by apply inv_save_table, inv_set_passwords. Qed.
Lemma inv_set_fingerprints g w : inv w → inv (upd (λ a, set_seed_fingerprints (g a) a) w).
Proof using Type. intros [? ? ? ? ? ? ? ? ? ?]. by split. Qed.
Lemma inv_set_config f w : inv w → inv (upd (λ a, set_config (f (app_config a)) a) w).
Proof using Type. intros [? ? ? ? ? ? ? ? ? ?]. by split. Qed.
Lemma inv_set_identity f w : inv w → inv (upd (λ a, set_identity_state (f a) a) w).
Proof using Type. intros [? ? ? ? ? ? ? ? ? ?]. by split. Qed.
Lemma inv_set_bans g w : inv w → inv (upd (λ a, set_bans (g a) a) w).
Proof using Type. intros [? ? ? ? ? ? ? ? ? ?]. by split. Qed.
Lemma inv_set_read g w : inv w → inv (upd (λ a, set_read_state (g a) a) w).
Proof using Type. intros [? ? ? ? ? ? ? ? ? ?]. by split. Qed.
Lemma inv_insert_member id r w : inv w → inv (insert_member id r w).
Proof using Type.
  intros Hw. apply (inv_update_member id (<[_ := r]> (default ∅ (app_members (w_app w) !! id)))); [done|].
  intros u m. rewrite lookup_insert_Some. intros [[<- <-]|[_ Hm]]; [done|]. by eapply members_default_wf.
Qed.
Lemma inv_persist_own c raw w : inv w → inv (persist_own c raw w).
Proof using All.
  intros Hw. unfold persist_own. destruct (known_community_pk c w) eqn:Hpk; [|done].
  apply inv_persist_message; [done|]. by eapply known_community_pk_wf.
Qed.
Lemma inv_write_file name data w : inv w → inv (write_file name data w).
Proof using Type. by apply inv_ext. Qed.
Lemma inv_dials {A} (f : World T → A → World T) l w : (∀ w x, inv w → inv (f w x)) → inv w → inv (foldl f w l).
Proof using Type. intros Hf Hw. apply fold_inv; auto. Qed.

Hint Resolve inv_put_key inv_put_password inv_insert_member inv_persist_own inv_publish inv_set_fingerprints inv_set_config
  inv_set_identity inv_set_bans inv_set_read inv_write_file inv_queue_manifest_sync : client_db.

Lemma keeps_seed c : ikeeps (require_seed_connected c).
Proof using Type.
  unfold require_seed_connected. apply keeps_bind; [keep|]. intros o. apply keeps_bind; [keep|]. intros s.
  destruct (cm_seed_nodes _); [keep|]. apply keeps_bind; [keep|]. intros []; keep.
Qed.
Lemma keeps_caller c : ikeeps (caller_record c).
Proof using Type. unfold caller_record. keep. Qed.
Lemma keeps_announcement c ch : ikeeps (check_announcement c ch).
Proof using Type.
  unfold check_announcement. apply keeps_bind; [keep|]. intros [[? ? ? [] ? ? ?]|]; keep.
Qed.
Lemma keeps_channel_key ch : ikeeps (channel_key_of ch).
Proof using Type. unfold channel_key_of. keep. Qed.
Lemma keeps_community c : ikeeps (community_of c).
Proof using Type. unfold community_of. keep. Qed.
Lemma keeps_publish topic e : ikeeps (publish topic e).
Proof using Type. apply keeps_step. intros w Hw. by apply inv_publish. Qed.
Lemma keeps_notify e : ikeeps (notify e).
Proof using Type. apply keeps_step. intros w Hw. by apply inv_emit. Qed.
Lemma keeps_encrypt what key c : ikeeps (encrypt_content what key c).
Proof using Type. unfold encrypt_content. keep. Qed.
Lemma keeps_generate_key : ikeeps generate_key.
Proof using Type. unfold generate_key. keep. Qed.
Lemma keeps_wrap c key : ikeeps (wrap_for_members c key).
Proof using Type.
  intros w Hw. unfold wrap_for_members. generalize (hash_order (default ∅ (app_members (w_app w) !! c))).*2. intros l.
  assert (∀ acc : World T * gmap bytes bytes, inv acc.1 → inv (foldl (λ '((w, m) : World T * gmap bytes bytes) r,
      match encrypt_for_member key (rng32 (w_draws w)) (rng24 (w_draws w)) (mr_x25519_public_key r) with
      | Ok wrapped => (draw w, <[mr_user_id r := wrapped]> m)
      | Err _ => (draw w, m)
      end) acc l).1) as Hf.
  { induction l as [|r l IH]; intros [w1 m1] Hacc; [done|]. cbn [foldl]. apply IH.
    destruct (encrypt_for_member _ _ _ _); by apply inv_draw. }
  specialize (Hf (w, ∅) Hw). destruct (foldl _ _ _) as [w1 m1]. exact Hf.
Qed.
Hint Resolve keeps_seed keeps_caller keeps_announcement keeps_channel_key keeps_community keeps_publish keeps_notify
  keeps_encrypt keeps_generate_key keeps_wrap : keep_db.
Ltac keep ::=
  repeat first
    [ apply keeps_ret | apply keeps_gets | apply keeps_need | apply keeps_check | apply keeps_error | apply keeps_panic
    | solve [auto 1 with keep_db]
    | apply keeps_step; intros ?w ?Hw; solve [eauto 8 with client_db]
    | apply keeps_bind; [|intros ?] ].

(** A manifest of a known community, changed and signed again. *)
Definition keyed_community (s : SignedManifest) : Prop := wf_key (cm_public_key (sm_manifest s)).
Lemma triple_community c : triple (T := T) inv (community_of c) (λ s w, keyed_community s ∧ inv w) inv.
Proof using Type.
  intros w Hw. unfold community_of, mbind, rpc_bind, gets. destruct (app_communities (w_app w) !! c) as [s|] eqn:Hs; [|done].
  split; [exact (ai_communities _ Hw _ _ Hs)|done].
Qed.
Lemma keeps_with_community {A} c (k : SignedManifest → Rpc T A) :
  (∀ s, keyed_community s → ikeeps (k s)) → ikeeps (community_of c ≫= k).
Proof using Type. intros Hk. eapply triple_bind; [apply triple_community|]. intros s. apply triple_pure, Hk. Qed.
Lemma keeps_resign {A} c m (k : SignedManifest → Rpc T A) :
  wf_key (cm_public_key m) → (∀ s, ikeeps (k s)) → ikeeps (resign c m ≫= k).
Proof using Type.
  intros Hm Hk. apply keeps_bind; [|done]. unfold resign. apply keeps_bind; [keep|]. intros sk.
  destruct (manifest_sign m sk) as [s|] eqn:Hs; [|keep]. unfold manifest_sign in Hs. apply bind_Some in Hs as (b & _ & [= <-]).
  apply keeps_bind; [|intros; keep]. apply keeps_step. intros w Hw. by apply inv_put_community.
Qed.
Lemma keeps_update_meta pk f : wf_key pk → ikeeps (step (update_meta pk f)).
Proof using All. intros Hpk. apply keeps_step. intros w Hw. by apply inv_update_meta. Qed.

(** *** Messages *)

(** The identifier [u] names no message yet. *)
Definition fresh_ulid (u : Ulid) w : Prop :=
  (∀ ch, ulid_to_string u ∉ le_message_id <$> entries_of ch (app_message_log (w_app w))) ∧
  (∀ peer l, app_dms (w_app w) !! peer = Some l → ulid_to_string u ∉ di_id <$> l).
Definition fresh_inv (u : Ulid) w : Prop := inv w ∧ fresh_ulid u w.

(** A method that leaves the tables as they are keeps whatever is said of them. *)
Definition quiet {A} (m : Rpc T A) : Prop := ∀ a, keeps (λ w, w_app w = a) m.
Lemma quiet_keeps {A} (P : World T → Prop) (m : Rpc T A) :
  (∀ w w', w_app w' = w_app w → P w → P w') → quiet m → keeps P m.
Proof using Type.
  intros HP Hm w Hw. specialize (Hm (w_app w) w eq_refl). by destruct (m w) as [[a|c s|] w']; eapply HP.
Qed.
Ltac silent :=
  repeat first
    [ apply keeps_ret | apply keeps_gets | apply keeps_need | apply keeps_check | apply keeps_error | apply keeps_panic
    | apply keeps_step; intros ?w ?Hw; exact Hw
    | apply keeps_bind; [|intros ?] ].
Lemma quiet_seed c : quiet (require_seed_connected c).
Proof using Type.
  intros a. unfold require_seed_connected. apply keeps_bind; [silent|]. intros o. apply keeps_bind; [silent|]. intros s.
  destruct (cm_seed_nodes _); [silent|]. apply keeps_bind; [silent|]. intros []; silent.
Qed.
Lemma quiet_announcement c ch : quiet (check_announcement c ch).
Proof using Type.
  intros a. unfold check_announcement. apply keeps_bind; [silent|]. intros [[? ? ? [] ? ? ?]|]; unfold caller_record; silent.
Qed.
Lemma quiet_channel_key ch : quiet (channel_key_of ch).
Proof using Type. intros a. unfold channel_key_of. silent. Qed.
Lemma fresh_inv_ext u w w' : w_app w' = w_app w → fresh_inv u w → fresh_inv u w'.
Proof using Type. unfold fresh_inv, fresh_ulid, inv. by intros ->. Qed.
Lemma fresh_keeps {A B} u (m : Rpc T A) (k : A → Rpc T B) R :
  quiet m → (∀ a, triple (fresh_inv u) (k a) R inv) → triple (fresh_inv u) (m ≫= k) R inv.
Proof using Type.
  intros Hm Hk. eapply (triple_bind _ _ _ (λ _, fresh_inv u)); [|done].
  intros w Hw. pose proof (quiet_keeps (fresh_inv u) m (fresh_inv_ext u) Hm w Hw) as Hq.
  destruct (m w) as [[a|c s|] w']; [done|apply Hq..].
Qed.
Lemma fresh_need {A B} u (o : option A) c s (k : A → Rpc T B) R :
  (∀ a, triple (fresh_inv u) (k a) R inv) → triple (fresh_inv u) (need o (rpc_error c s) ≫= k) R inv.
Proof using Type. apply fresh_keeps. intros a. apply keeps_need. Qed.
Lemma fresh_check {B} u b c s (k : unit → Rpc T B) R :
  (∀ a, triple (fresh_inv u) (k a) R inv) → triple (fresh_inv u) (check b (rpc_error c s) ≫= k) R inv.
Proof using Type. apply fresh_keeps. intros a. apply keeps_check. Qed.

Lemma triple_create_own ev what ch key content :
  triple (fresh_inv (rx_fresh ev)) (create_own ev what ch key content)
    (λ raw w, rm_id raw = rx_fresh ev ∧ fresh_inv (rx_fresh ev) w) inv.
Proof using Type.
  unfold create_own. apply fresh_keeps; [intros a; unfold encrypt_content; silent|]. intros [nonce ct].
  apply fresh_need. intros u. apply fresh_keeps; [intros a; silent|]. intros sk. apply triple_ret. intros w Hw. by split.
Qed.
Lemma inv_append_own ch raw then_log w :
  fresh_inv (rm_id raw) w → (∀ log c, entries_of c (then_log log) = entries_of c log) → inv (append_own ch raw then_log w).
Proof using Type.
  intros [Hw [Hf _]] Ht. unfold append_own. apply (inv_set_log (λ a, then_log _)); [done|].
  intros c. rewrite Ht. cbn. apply log_unique_snoc; [apply (ai_log _ Hw)|]. apply Hf.
Qed.
(** Appending, storing and publishing a message of one's own. *)
Lemma keeps_posting {B} ch raw then_log (k : Rpc T B) :
  (∀ log c, entries_of c (then_log log) = entries_of c log) → ikeeps k →
  triple (fresh_inv (rm_id raw)) (step (append_own ch raw then_log);; k) (λ _, inv) inv.
Proof using All.
  intros Ht Hk. eapply (triple_bind _ _ _ (λ _, inv)); [|intros _; exact Hk].
  apply triple_step. intros w Hw. by apply inv_append_own.
Qed.

Lemma inv_message_send ev p : triple (fresh_inv (rx_fresh ev)) (message_send ev p) (λ _, inv) inv.
Proof using All.
  unfold message_send. apply fresh_check. intros _. apply fresh_keeps; [apply quiet_seed|]. intros _.
  apply fresh_keeps; [apply quiet_announcement|]. intros _. apply fresh_keeps; [apply quiet_channel_key|]. intros key.
  eapply triple_bind; [apply triple_create_own|]. intros raw. apply triple_pure. intros Hid. rewrite <- Hid.
  apply keeps_posting; [done|]. keep.
Qed.
Lemma inv_reaction b ev p : triple (fresh_inv (rx_fresh ev)) (reaction_change b ev p) (λ _, inv) inv.
Proof using All.
  unfold reaction_change. apply fresh_keeps; [apply quiet_seed|]. intros _. apply fresh_keeps; [apply quiet_channel_key|]. intros key.
  apply fresh_keeps; [intros a; silent|]. intros target. apply fresh_need. intros e.
  eapply triple_bind; [apply triple_create_own|]. intros raw. apply triple_pure. intros Hid. rewrite <- Hid.
  apply fresh_keeps; [intros a; silent|]. intros me.
  apply keeps_posting; [|keep].
  intros log c. destruct b; unfold entries_of; [by rewrite (proj1 (react_channels _ _ _ _))|by rewrite (proj2 (react_channels _ _ _ _))].
Qed.

Lemma keeps_change_log f :
  (∀ log, log_unique log → log_unique (f log).1) → ikeeps (change_log f).
Proof using Type.
  intros Hf. unfold change_log. apply keeps_bind; [keep|]. intros b. apply keeps_bind; [|intros; keep].
  apply keeps_step. intros w Hw. apply (inv_set_log (λ a, (f (app_message_log a)).1)); [done|]. apply Hf, (ai_log _ Hw).
Qed.
Lemma keeps_own_entry ch mid d : ikeeps (own_entry ch mid d).
Proof using Type. unfold own_entry. keep. Qed.
Lemma inv_message_edit ev p : ikeeps (message_edit ev p).
Proof using All.
  unfold message_edit. keep. destruct (kept_parts _ _) as [reply atts]. apply keeps_bind; [apply keeps_encrypt|]. intros [nonce ct].
  apply keeps_bind; [apply keeps_change_log; intros log Hl; by apply (log_unique_edit _ _ nonce ct)|]. intros _. keep.
Qed.
Lemma inv_message_delete ev p : ikeeps (message_delete ev p).
Proof using All.
  unfold message_delete. apply keeps_bind; [keep|]. intros _. apply keeps_bind; [apply keeps_own_entry|]. intros _.
  apply keeps_bind; [apply keeps_change_log; intros log Hl; by apply (log_unique_edit _ _ [] [])|]. intros _. keep.
Qed.
Lemma inv_mark_read p : ikeeps (rpc_mark_read p).
Proof using Type.
  unfold rpc_mark_read. apply keeps_bind; [keep|]. intros o. apply keeps_bind; [|intros; keep].
  destruct o as [e|]; [|keep]. apply keeps_bind; [keep|]. intros n. destruct (n <? le_seq e); keep.
Qed.
Lemma inv_heartbeat ev p : ikeeps (presence_heartbeat ev p).
Proof using All.
  unfold presence_heartbeat. keep. apply keeps_step. intros w Hw. apply fold_inv; [done|]. intros. by apply inv_publish.
Qed.

(** *** Members *)

Definition members_keyed (l : gmap string MembershipRecord) : Prop := ∀ u m, l !! u = Some m → u = hex (mr_user_id m).
Lemma keeps_remove c uid : ikeeps (remove_member c uid).
Proof using All.
  unfold remove_member. apply (keeps_read _ _ members_keyed); [intros w Hw; exact (members_default_wf _ _ Hw)|]. intros l Hl.
  apply keeps_bind; [|intros; keep]. apply keeps_step. intros w Hw.
  apply inv_set_members; [done|]. apply members_insert_wf; [apply (ai_members _ Hw)|].
  intros u m. rewrite lookup_delete_Some. intros [_ Hm]. by apply Hl.
Qed.
Lemma keeps_left now c uid : ikeeps (publish_left now c uid).
Proof using All. unfold publish_left. destruct (parse_ulid c); keep. Qed.
Lemma inv_kick ev p : ikeeps (member_kick ev p).
Proof using All.
  unfold member_kick. apply keeps_bind; [keep|]. intros caller. apply keeps_bind; [keep|]. intros _.
  apply keeps_bind; [apply keeps_remove|]. intros r. apply keeps_bind; [apply keeps_left|]. intros _. unfold member_gone. keep.
Qed.
Lemma inv_ban ev p : ikeeps (member_ban ev p).
Proof using All.
  unfold member_ban. apply keeps_bind; [keep|]. intros caller. apply keeps_bind; [keep|]. intros _.
  apply keeps_bind; [apply keeps_remove|]. intros r. apply keeps_bind; [keep|]. intros _.
  apply keeps_bind; [apply keeps_left|]. intros _. unfold member_gone. keep.
Qed.
Lemma inv_update_role ev p : ikeeps (member_update_role ev p).
Proof using All.
  unfold member_update_role. apply keeps_bind; [keep|]. intros caller. apply keeps_bind; [keep|]. intros _.
  apply keeps_bind.
  { unfold check_not_creator. apply keeps_bind; [keep|]. intros o. apply keeps_bind; [keep|]. intros t.
    apply keeps_bind; [keep|]. intros []; keep. }
  intros _. apply (keeps_read _ _ members_keyed); [intros w Hw; exact (members_default_wf _ _ Hw)|]. intros l Hl.
  apply keeps_some. intros found Hfound. apply keeps_bind.
  { apply keeps_step. intros w Hw. apply inv_save_table, inv_set_members; [done|].
    apply members_insert_wf; [apply (ai_members _ Hw)|].
    intros u m. rewrite lookup_insert_Some. intros [[<- <-]|[_ Hm]]; [exact (Hl _ found Hfound)|by apply Hl]. }
  intros _. destruct (parse_ulid _); keep.
Qed.
Lemma inv_member_list c : ikeeps (member_list c).
Proof using All. unfold member_list. keep. Qed.

(** *** Channels *)

Lemma inv_channel_list c : ikeeps (channel_list c).
Proof using All. unfold channel_list. keep. destruct (foldl _ _ _). keep. Qed.
Lemma inv_channel_create ev p : ikeeps (channel_create ev p).
Proof using All.
  unfold channel_create. apply keeps_bind; [keep|]. intros _. apply keeps_bind; [keep|]. intros _.
  apply keeps_bind; [keep|]. intros cid. apply keeps_bind; [keep|]. intros key. apply keeps_bind; [keep|]. intros wrapped.
  apply keeps_bind; [apply keeps_step; intros w Hw; by apply inv_put_channel|]. intros _. apply keeps_bind; [keep|]. intros _.
  apply keeps_with_community. intros s Hs. apply keeps_bind; [keep|]. intros u.
  apply keeps_resign; [exact Hs|]. intros s'. apply keeps_bind; [by apply keeps_update_meta|]. intros _. keep.
Qed.
Lemma inv_channel_delete p : ikeeps (channel_delete p).
Proof using All.
  unfold channel_delete. apply keeps_bind; [keep|]. intros _. apply keeps_bind; [keep|]. intros o. apply keeps_bind; [keep|]. intros ch.
  apply keeps_bind.
  { apply keeps_step. intros w Hw. apply inv_save_table, (inv_set_channels (λ a, delete _ (app_channels a))); [done|].
    apply keyed_delete, (ai_channels _ Hw). }
  intros _. apply keeps_bind; [keep|]. intros _. apply keeps_with_community. intros s Hs. apply keeps_bind; [keep|]. intros u.
  apply keeps_resign; [exact Hs|]. intros s'. apply keeps_bind; [by apply keeps_update_meta|]. intros _. keep.
Qed.
Lemma inv_rotate_key p : ikeeps (channel_rotate_key p).
Proof using All.
  unfold channel_rotate_key. apply keeps_bind; [keep|]. intros _.
  apply (keeps_read _ _ (λ o, ∀ ch, o = Some ch → rkp_channel_id p = ulid_to_string (ch_id ch))).
  { intros w Hw ch Hch. exact (ai_channels _ Hw _ _ Hch). }
  intros o Ho. apply keeps_some. intros ch Hch. apply Ho in Hch. apply keeps_bind; [keep|]. intros key.
  apply keeps_bind.
  { apply keeps_step. intros w Hw. apply inv_put_key. destruct (app_channel_keys (w_app w) !! _) as [old|]; [|done].
    case_bool_decide; [done|]. by apply inv_save_table, inv_set_previous_keys. }
  intros _. apply keeps_bind; [keep|]. intros wrapped.
  apply keeps_bind; [apply keeps_step; intros w Hw; by apply inv_put_channel|]. intros _.
  apply (keeps_read _ _ (λ o, ∀ pk, o = Some pk → wf_key pk)); [intros w Hw pk Hpk; by eapply known_community_pk_wf|].
  intros cpk Hcpk. apply keeps_bind.
  { apply keeps_step. intros w Hw. destruct cpk as [pk|]; [|done]. apply inv_update_meta; [done|]. by apply Hcpk. }
  intros _. keep.
Qed.
Lemma inv_reorder p : ikeeps (channel_reorder p).
Proof using All.
  unfold channel_reorder. apply keeps_bind; [keep|]. intros _. apply keeps_bind.
  { induction (rop_channel_ids p) as [|id ids IH]; cbn [check_channels]; [keep|]. apply keeps_bind; [keep|]. intros o.
    apply keeps_bind; [destruct o; keep|]. intros _. exact IH. }
  intros _. apply keeps_bind.
  { induction (rop_channel_ids p) as [|id ids IH]; cbn [parse_ids]; [keep|]. apply keeps_bind; [keep|]. intros u.
    apply keeps_bind; [exact IH|]. intros us. keep. }
  intros order. apply keeps_with_community. intros s Hs. apply keeps_resign; [exact Hs|]. intros s'.
  apply keeps_bind; [by apply keeps_update_meta|]. intros _. keep.
Qed.

(** *** Communities *)

Lemma inv_put_fingerprints addrs fp w : inv w → inv (put_fingerprints addrs fp w).
Proof using All. intros Hw. apply inv_save_table, (inv_set_fingerprints (λ a, foldl _ _ addrs)), Hw. Qed.
Hint Resolve inv_put_fingerprints : client_db.
Lemma triple_own_bytes s what : triple (T := T) inv (own_bytes s what) (λ b w, wf_key b ∧ inv w) inv.
Proof using All.
  intros w Hw. unfold own_bytes, hex32. destruct (hex_slices s) as [[b|]|] eqn:Hs; [|done..].
  destruct (Nat.eqb_spec (length b) 32) as [Hl|]; [|done]. split; [|done].
  apply hex_slices_pairs, parse_pairs_length in Hs as [_ Hb]. by split.
Qed.
Lemma keeps_own_bytes {A} s what (k : bytes → Rpc T A) : (∀ b, wf_key b → ikeeps (k b)) → ikeeps (own_bytes s what ≫= k).
Proof using All. intros Hk. eapply triple_bind; [apply triple_own_bytes|]. intros b. apply triple_pure, Hk. Qed.
Lemma keeps_fingerprint h : ikeeps (fingerprint_or_zero h).
Proof using All. unfold fingerprint_or_zero. destruct h as [h|]; [|keep]. destruct (parse_fingerprint_hex h); keep. Qed.
Lemma inv_create ev p : ikeeps (community_create ev p).
Proof using All.
  unfold community_create. apply keeps_bind; [keep|]. intros mode. apply keeps_bind; [keep|]. intros _. apply keeps_bind; [keep|]. intros _.
  apply keeps_bind; [keep|]. intros hexa. apply keeps_own_bytes. intros pk Hpk. apply keeps_bind; [keep|]. intros peer.
  apply keeps_own_bytes. intros admin Hadmin. apply keeps_bind.
  { unfold create_fingerprint. destruct (cop_seed_nodes p); [keep|]. apply keeps_bind; [apply keeps_fingerprint|]. intros fp. keep. }
  intros fp. unfold create_checked. apply keeps_bind; [keep|]. intros sk.
  destruct (manifest_sign _ sk) as [s|] eqn:Hs; [|intros w Hw; exact Hw].
  unfold manifest_sign in Hs. apply bind_Some in Hs as (b & _ & [= <-]). apply keeps_value. apply keeps_bind; [keep|]. intros self.
  apply keeps_bind; [apply keeps_step; intros w Hw; by apply inv_put_community|]. intros _. apply keeps_bind; [keep|]. intros _.
  apply keeps_bind; [apply keeps_step; intros w Hw; by apply inv_write_meta|]. intros _. apply keeps_bind; [keep|]. intros _.
  apply keeps_bind.
  { apply keeps_step. intros w Hw. unfold dial_other_seeds. apply fold_inv; [done|]. intros w' x _ Hw'. destruct (parse_node_addr x); [|done].
    destruct (_ && _); [done|by apply inv_emit]. }
  intros _. apply keeps_bind; [|intros; keep]. apply keeps_step. intros w Hw. unfold spawn_register.
  destruct (app_dht _); [by apply inv_emit|done].
Qed.

Lemma invite_pk_wf i pk : invite_pk i = Some pk → wf_key pk.
Proof using All.
  assert (wf_key zero32) as Hz by by apply (wf_array_replicate 32).
  unfold invite_pk. destruct (Nat.eqb_spec (String.length (inv_public_key_hex i)) 64) as [Hl|].
  - intros (r & Hb & ->)%fmap_Some_1. destruct r as [b|]; [|exact Hz]. by apply (hex_slices_wf 32) in Hb.
  - intros Hp. by injection Hp as <-.
Qed.
Lemma triple_accept i : triple (T := T) inv (accept_invite i) (λ r w, wf_key r.2 ∧ inv w) inv.
Proof using All.
  unfold accept_invite. eapply triple_bind; [apply keeps_check|]. intros []. eapply triple_bind; [apply keeps_need|]. intros cid.
  eapply triple_bind; [apply keeps_gets|]. intros known. eapply triple_bind; [apply keeps_check|]. intros [].
  eapply triple_bind; [apply keeps_gets|]. intros banned. eapply triple_bind; [apply keeps_check|]. intros [].
  destruct (invite_pk i) as [pk|] eqn:Hpk; [|by apply triple_panic]. apply (triple_bind _ _ _ (λ _, inv)); [|intros []; apply triple_ret; intros w Hw; split; [by eapply invite_pk_wf|exact Hw]].
  unfold check_signature. apply keeps_bind; [keep|]. intros _. case_bool_decide; [keep|]. destruct (invite_sig_valid i pk); keep.
Qed.
Lemma inv_dial_invited pw pk id fp seeds w : inv w → inv (dial_invited pw pk id fp seeds w).
Proof using All.
  intros Hw. unfold dial_invited. match goal with |- context [foldl ?f w seeds] => set (w1 := foldl f w seeds) end. assert (inv w1) as Hw1.
  { apply fold_inv; [done|]. intros w' x _ Hw'. destruct (parse_node_addr x); [by apply inv_emit|done]. }
  destruct (app_dht _); [by do 2 apply inv_emit|done].
Qed.
Lemma inv_join ev p : ikeeps (community_join ev p).
Proof using All.
  unfold community_join. apply keeps_bind; [unfold read_invite; keep|]. intros i. eapply triple_bind; [apply triple_accept|].
  intros [cid pk]. apply triple_pure. cbn [snd]. intros Hpk.
  apply keeps_bind; [apply keeps_step; intros w Hw; by apply inv_put_community|]. intros _. apply keeps_bind; [keep|]. intros _.
  apply keeps_bind; [keep|]. intros _. apply keeps_bind; [keep|]. intros self. apply keeps_bind; [keep|]. intros _.
  apply keeps_bind; [keep|]. intros _. apply keeps_bind; [keep|]. intros _. apply keeps_bind; [keep|]. intros _.
  apply keeps_bind; [apply keeps_step; intros w Hw; unfold fetch_from_peers; apply fold_inv; [done|]; intros; by apply inv_emit|]. intros _.
  apply keeps_bind.
  { unfold join_fingerprint. destruct (_ =? _)%nat; [destruct (parse_fingerprint_hex _) as [o|]|]; keep. }
  intros fp. apply keeps_bind; [apply keeps_step; intros w Hw; case_bool_decide; [done|by apply inv_put_fingerprints]|]. intros _.
  apply keeps_bind; [|intros; keep]. apply keeps_step. intros w Hw. by apply inv_dial_invited.
Qed.
Lemma keeps_admin s d : ikeeps (check_admin s d).
Proof using All. unfold check_admin. keep. Qed.
Lemma inv_invite c : ikeeps (community_generate_invite c).
Proof using All.
  unfold community_generate_invite. apply keeps_bind; [keep|]. intros s. apply keeps_bind; [apply keeps_admin|]. intros _.
  apply keeps_bind; [keep|]. intros payload. apply keeps_bind; [keep|]. intros sk. apply keeps_bind; [|intros; keep].
  unfold invite_fingerprint. apply keeps_bind; [keep|]. intros [fp|]; [|keep]. case_bool_decide; keep.
Qed.
Lemma inv_leave ev c : ikeeps (community_leave ev c).
Proof using All.
  unfold community_leave. apply keeps_bind; [keep|]. intros _. apply keeps_bind; [|intros _; keep].
  unfold publish_own_leave. apply keeps_bind; [keep|]. intros u. destruct (parse_ulid c); keep.
Qed.
Lemma inv_delete c : ikeeps (community_delete c).
Proof using All.
  unfold community_delete. apply keeps_with_community. intros s Hs. apply keeps_bind; [apply keeps_admin|]. intros _.
  apply keeps_bind; [apply keeps_step; intros w Hw; by apply inv_set_communities_insert|]. intros _. apply keeps_bind; [keep|]. intros sk.
  destruct (manifest_sign _ sk) as [t|] eqn:Ht; [|intros w Hw; exact Hw].
  unfold manifest_sign in Ht. apply bind_Some in Ht as (b & _ & [= <-]). apply keeps_value.
  apply keeps_bind; [apply keeps_step; intros w Hw; by apply inv_set_communities_insert|]. intros _. keep.
Qed.
Lemma inv_update_manifest p : ikeeps (community_update_manifest p).
Proof using All.
  unfold community_update_manifest. apply keeps_bind; [keep|]. intros _. apply keeps_bind; [keep|]. intros _.
  apply keeps_bind; [keep|]. intros _. apply keeps_bind; [keep|]. intros old. apply keeps_with_community. intros s Hs.
  apply keeps_bind; [apply keeps_admin|]. intros _. apply keeps_resign; [exact Hs|]. intros s'. apply keeps_bind; [keep|]. intros _.
  apply keeps_bind; [keep|]. intros _. apply keeps_bind.
  { unfold pin_new_seed. match goal with |- context [if ?b then _ else _] => destruct b end; [|keep].
    apply keeps_bind; [apply keeps_fingerprint|]. intros fp. keep. }
  intros _. apply keeps_bind; [keep|]. intros creator. apply keeps_bind; [|intros; keep]. apply keeps_step. intros w Hw.
  destruct (_ && creator); [by apply inv_emit|done].
Qed.

(** *** Direct messages, identity and configuration *)

(** What a DHT lookup is given: peers name keys, a lookup that is cut off leaves the table
    well-formed, and the answers come in some order. *)
Record net_ok (net : DhtNet) : Prop := {
  no_peers : ∀ e cl m, net_find_node net e = Some (cl, m) → all_wf cl;
  no_cut : ∀ s, net_timed_out net = Some s → rt_inv s;
  no_order : ∀ l, net_completion net l ≡ₚ l }.

Lemma keeps_ask_info net pid : net_ok net → wf_key pid → ikeeps (ask_peer_info net pid).
Proof using All.
  intros Hn Hp w Hw. unfold ask_peer_info. destruct (app_dht (w_app w)) as [h|] eqn:Hh; [|done].
  pose proof (find_peer_info_inv (net_find_node net) (net_find_info net) (net_completion net) (no_peers _ Hn) (no_order _ Hn)
    (net_timed_out net) (net_now net) pid h (ai_dht _ Hw _ Hh) Hp (no_cut _ Hn)) as Hi.
  destruct (find_peer_info _ _ _ _ _ _ h) as [res h']. by apply inv_set_dht.
Qed.
Lemma keeps_ask_mailbox net pk : net_ok net → wf_key pk → ikeeps (ask_mailbox net pk).
Proof using All.
  intros Hn Hp w Hw. unfold ask_mailbox. destruct (app_dht (w_app w)) as [h|] eqn:Hh; [|done].
  pose proof (find_mailbox_inv (net_find_node net) (no_peers _ Hn)
    (net_timed_out net) (net_now net) pk h (ai_dht _ Hw _ Hh) Hp (no_cut _ Hn)) as Hi.
  destruct (find_mailbox_peers _ _ _ _ h) as [res h']. by apply inv_set_dht.
Qed.
Lemma keeps_resolve net peer : net_ok net → ikeeps (resolve_peer net peer).
Proof using All.
  intros Hn. unfold resolve_peer. apply keeps_bind; [keep|]. intros known. apply keeps_bind; [keep|]. intros online.
  destruct (negb online); [keep|]. destruct (parse_fingerprint_hex peer) as [[pid|]|] eqn:Hp; [|keep|apply keeps_panic].
  apply keeps_bind; [apply keeps_ask_info; [done|by eapply parse_fingerprint_wf]|]. intros [info|]; [|keep].
  destruct known; keep.
Qed.

Lemma bind_same {A B} (m : Rpc T A) (k : A → Rpc T B) w w1 :
  (m w).1 = (m w1).1 → (∀ a v v', (k a v).1 = (k a v').1) → ((m ≫= k) w).1 = ((m ≫= k) w1).1.
Proof using Type.
  intros Hm Hk. unfold mbind, rpc_bind. destruct (m w) as [r v], (m w1) as [r1 v1]. cbn in Hm. subst r1.
  destruct r; [apply Hk|done..].
Qed.
(** The recipient of a direct message is found in the members, the known peers and the DHT. *)
Lemma resolve_same net peer w w1 :
  app_members (w_app w1) = app_members (w_app w) → app_dm_peers (w_app w1) = app_dm_peers (w_app w) →
  app_dht (w_app w1) = app_dht (w_app w) → (resolve_peer net peer w1).1 = (resolve_peer net peer w).1.
Proof using All.
  intros Hm Hd Hh. unfold resolve_peer. do 2 rewrite (rpc_bind_ok _ _ _ _ _ (gets_run _ _)). symmetry.
  do 2 rewrite (rpc_bind_ok _ _ _ _ _ (gets_run _ _)).
  assert (known_x25519 peer w1 = known_x25519 peer w) as -> by (unfold known_x25519, member_x25519; by rewrite Hm, Hd). rewrite Hh.
  destruct (negb _); [done|]. destruct (parse_fingerprint_hex peer) as [[pid|]|]; [|done..].
  apply bind_same; [|intros [info|] v v'; [by destruct (known_x25519 peer w)|done]].
  unfold ask_peer_info. rewrite Hh. destruct (app_dht (w_app w)) as [h|]; [|done]. by destruct (find_peer_info _ _ _ _ _ _ h).
Qed.
Definition recipient_ok (net : DhtNet) (peer : string) w : Prop :=
  ∀ pk addr w', resolve_peer net peer w = (Reply (Some pk, addr), w') → wf_key pk.

Lemma inv_dm_send net ev p w :
  net_ok net → recipient_ok net (sdp_peer_id p) w → fresh_inv (rx_fresh ev) w → inv (dm_send net ev p w).2.
Proof using All.
  intros Hn Hr [Hw [_ Hf]]. unfold dm_send, invalid_params. rewrite (rpc_bind_refuse _ _ _ _ (check_spec _ _ _ w)).
  destruct (unless _ _ _) as [[]|]; [done|]. rewrite (rpc_bind_ok _ _ _ _ _ (gets_run _ w)), (rpc_bind_ok _ _ _ _ _ (step_run _ w)).
  set (w1 := save_dms _). assert (inv w1) as Hw1.
  { apply inv_save_table, inv_set_dms; [done|]. apply (keyed_insert (λ _ l, NoDup (di_id <$> l))); [|apply (ai_dms _ Hw)].
    destruct (app_dms (w_app w) !! sdp_peer_id p) as [l|] eqn:Hl; cbn; [|apply NoDup_singleton].
    rewrite fmap_app. apply NoDup_app. split_and!; [by apply (ai_dms _ Hw _ _ Hl)| |apply NoDup_singleton].
    intros x Hx ->%list_elem_of_singleton. by apply (Hf _ _ Hl). }
  assert (w_app w1 = set_dms (app_dms (w_app w1)) (w_app w)) as Happ by (subst w1; unfold save_dms; by rewrite save_table_app).
  pose proof (resolve_same net (sdp_peer_id p) w w1) as Hsame. rewrite Happ in Hsame. specialize (Hsame eq_refl eq_refl eq_refl).
  pose proof (keeps_resolve net (sdp_peer_id p) Hn w1 Hw1) as Hres. unfold mbind at 1, rpc_bind at 1.
  destruct (resolve_peer net (sdp_peer_id p) w1) as [[[recipient addr]|c s|] w2]; [|done..]. cbn in Hsame.
  assert (∀ pk, recipient = Some pk → wf_key pk) as Hpk.
  { intros pk ->. destruct (resolve_peer net (sdp_peer_id p) w) as [r w'] eqn:Hrw. cbn in Hsame. subst r. by eapply Hr. }
  match goal with |- inv (?m w2).2 => assert (ikeeps m) as Hk end.
  { apply keeps_bind; [|intros; keep]. destruct recipient as [pk|]; [|keep]. unfold deliver_dm. apply keeps_bind; [keep|]. intros sealed.
    apply keeps_bind; [keep|]. intros _. destruct sealed as [env|]; [|keep].
    apply keeps_bind; [by apply keeps_ask_mailbox; [|apply Hpk]|]. intros. keep. }
  specialize (Hk w2 Hres). match goal with |- inv (?m w2).2 => by destruct (m w2) as [[]] end.
Qed.
Lemma keeps_config path f : ikeeps (change_config path f).
Proof using All.
  apply keeps_step. intros w Hw. unfold save_config. destruct (to_toml _); [apply inv_write_file|]; by apply inv_set_config.
Qed.
Lemma inv_set_mailbox path p : ikeeps (dm_set_preferred_mailbox_community path p).
Proof using All.
  unfold dm_set_preferred_mailbox_community. apply keeps_bind; [keep|]. intros s. apply keeps_bind; [keep|]. intros a.
  apply keeps_bind; [keep|]. intros addr. apply keeps_bind; [apply keeps_config|]. intros _. apply keeps_bind; [|intros; keep].
  apply keeps_step. intros w Hw. destruct (app_dht (w_app w)) as [h|] eqn:Hh; [|done].
  apply inv_emit, (inv_set_dht (update_self_addr addr h)); [done|]. pose proof (ai_dht _ Hw _ Hh) as Hrt. by destruct h as [[]].
Qed.
Lemma inv_dm_discard p : ikeeps (dm_discard p).
Proof using All.
  unfold dm_discard. apply keeps_bind; [|intros; keep]. apply keeps_step. intros w Hw.
  destruct (app_dms (w_app w) !! _) as [l|] eqn:Hl; [|done]. apply inv_save_table, inv_set_dms; [done|].
  apply (keyed_insert (λ _ l, NoDup (di_id <$> l))); [|apply (ai_dms _ Hw)].
  pose proof (ai_dms _ Hw _ _ Hl) as Hnd. exact (sublist_NoDup _ _ Hnd (fmap_sublist _ _ _ (retain_sublist _ _))).
Qed.
Lemma inv_set_name path p : ikeeps (identity_set_display_name path p).
Proof using All.
  unfold identity_set_display_name. apply keeps_bind; [keep|]. intros _.
  apply keeps_bind; [apply keeps_step; intros w Hw; by apply (inv_set_identity (λ a, mkIdentity _ (is_status (app_identity_state a))))|].
  intros _. apply keeps_bind; [apply keeps_config|]. intros _. apply keeps_bind; [|intros; keep]. apply keeps_step. intros w Hw.
  unfold rename_everywhere. set (updated := omap _ _). apply fold_inv.
  - apply inv_save_table, inv_set_members; [done|]. intros k l. rewrite lookup_fmap_Some. intros (l0 & <- & Hl0) u m.
    rewrite lookup_alter_Some. intros [(<- & m0 & Hm0 & ->)|[_ Hm]]; [exact (ai_members _ Hw _ _ Hl0 _ _ Hm0)|exact (ai_members _ Hw _ _ Hl0 _ _ Hm)].
  - intros w' x _ Hw'. unfold announce_rename. by apply inv_publish, inv_emit.
Qed.
Lemma inv_set_status ev p : ikeeps (identity_set_status ev p).
Proof using All.
  unfold identity_set_status. apply keeps_bind; [|intros; keep].
  apply keeps_step; intros w Hw; by apply (inv_set_identity (λ a, mkIdentity (is_display_name (app_identity_state a)) _)).
Qed.
End server_invariant.

(** ** The server *)

(** The methods of [build_rpc_module], with their parameters. *)
Inductive RpcCall :=
  | CallIdentityGet | CallSetDisplayName (p : SetDisplayNameParams) | CallSetStatus (p : SetStatusParams)
  | CallCommunityCreate (p : CreateCommunityParams) | CallCommunityJoin (p : JoinCommunityParams)
  | CallGenerateInvite (community_id : string) | CallCommunityLeave (community_id : string)
  | CallCommunityDelete (community_id : string) | CallCommunityList | CallCommunityGet (community_id : string)
  | CallUpdateManifest (p : UpdateManifestParams)
  | CallChannelList (community_id : string) | CallChannelGet (channel_id : string)
  | CallChannelCreate (p : CreateChannelParams) | CallChannelDelete (p : DeleteChannelParams)
  | CallRotateKey (p : RotateKeyParams) | CallReorder (p : ReorderChannelsParams)
  | CallMessageSend (p : SendMessageParams) | CallMessageEdit (p : EditMessageParams)
  | CallMessageDelete (p : DeleteMessageParams) | CallGetHistory (p : GetHistoryParams)
  | CallReactionAdd (p : ReactionParams) | CallReactionRemove (p : ReactionParams) | CallMarkRead (p : MarkReadParams)
  | CallHeartbeat (p : SetStatusParams)
  | CallMemberList (community_id : string) | CallKick (p : KickBanParams) | CallBan (p : KickBanParams)
  | CallUpdateRole (p : UpdateRoleParams)
  | CallDmSend (p : SendDmParams) | CallDmHistory (p : GetDmHistoryParams) | CallClearMailbox
  | CallSetMailbox (p : SetPreferredMailboxCommunityParams) | CallDmDiscard (p : DiscardDmParams)
  | CallDmPeerName (peer_id : string)
  | CallGetConfig | CallSetConfig (p : SetConfigParams) | CallGetPeers | CallGetLocalAddrs
  | CallChangePassphrase (p : ChangePassphraseParams).

(** What a call finds: the clock and the fresh identifier, the DHT, and the configuration's
    path. *)
Record CallEnv := mkCallEnv { ce_rpc : RpcEnv; ce_net : DhtNet; ce_config_path : string }.

Section server.
Context {T : Type} `{Crypto} `{Table T} `{NodeCodecs} `{HashOrder} `{UlidText} `{UlidParse} `{AddrText}.
Context `{Entropy} `{AppCodecs} `{Invites} `{Certificates} `{Toml} `{Argon2}.
Implicit Types w : World T.

(** What a call leaves behind, whatever it replies. *)
Definition after {A} (m : Rpc T A) w : World T := (m w).2.

Definition serve (ce : CallEnv) (call : RpcCall) : World T → World T :=
  let ev := ce_rpc ce in
  let path := ce_config_path ce in
  match call with
  | CallIdentityGet => after identity_get
  | CallSetDisplayName p => after (identity_set_display_name path p)
  | CallSetStatus p => after (identity_set_status ev p)
  | CallCommunityCreate p => after (community_create ev p)
  | CallCommunityJoin p => after (community_join ev p)
  | CallGenerateInvite c => after (community_generate_invite c)
  | CallCommunityLeave c => after (community_leave ev c)
  | CallCommunityDelete c => after (community_delete c)
  | CallCommunityList => after community_list
  | CallCommunityGet c => after (community_get c)
  | CallUpdateManifest p => after (community_update_manifest p)
  | CallChannelList c => after (channel_list c)
  | CallChannelGet c => after (channel_get c)
  | CallChannelCreate p => after (channel_create ev p)
  | CallChannelDelete p => after (channel_delete p)
  | CallRotateKey p => after (channel_rotate_key p)
  | CallReorder p => after (channel_reorder p)
  | CallMessageSend p => after (message_send ev p)
  | CallMessageEdit p => after (message_edit ev p)
  | CallMessageDelete p => after (message_delete ev p)
  | CallGetHistory p => after (message_get_history p)
  | CallReactionAdd p => after (reaction_add ev p)
  | CallReactionRemove p => after (reaction_remove ev p)
  | CallMarkRead p => after (rpc_mark_read p)
  | CallHeartbeat p => after (presence_heartbeat ev p)
  | CallMemberList c => after (member_list c)
  | CallKick p => after (member_kick ev p)
  | CallBan p => after (member_ban ev p)
  | CallUpdateRole p => after (member_update_role ev p)
  | CallDmSend p => after (dm_send (ce_net ce) ev p)
  | CallDmHistory p => after (dm_get_history p)
  | CallClearMailbox => after (dm_clear_preferred_mailbox path)
  | CallSetMailbox p => after (dm_set_preferred_mailbox_community path p)
  | CallDmDiscard p => after (dm_discard p)
  | CallDmPeerName peer => after (dm_peer_name peer)
  | CallGetConfig => after node_get_config
  | CallSetConfig p => after (node_set_config path p)
  | CallGetPeers => after node_get_peers
  | CallGetLocalAddrs => after node_get_local_addrs
  | CallChangePassphrase p => after (identity_change_passphrase p)
  end.

(** What a call relies on: identifiers that [Ulid::new] makes are new, and the DHT answers
    with 32-byte keys. *)
Definition call_wf w (ce : CallEnv) (call : RpcCall) : Prop :=
  match call with
  | CallMessageSend _ | CallReactionAdd _ | CallReactionRemove _ => fresh_ulid (rx_fresh (ce_rpc ce)) w
  | CallDmSend p =>
      fresh_ulid (rx_fresh (ce_rpc ce)) w ∧ net_ok (ce_net ce) ∧ recipient_ok (ce_net ce) (sdp_peer_id p) w
  | _ => True
  end.

(** What a client does: it handles an event of its network task or serves a call. *)
Inductive session_step w : World T → Prop :=
  | step_event cx ev w' : event_wf w ev → process_swarm_event cx ev w = Done w' → session_step w w'
  | step_call ce call : call_wf w ce call → session_step w (serve ce call w).
End server.

Section session.
Context {T : Type} `{CryptoLaws} `{TableLaws T} `{NodeCodecsLaws} `{HashOrderLaws} `{UlidText} `{UlidParse} `{AddrText}.
Context `{EntropyLaws} `{AppCodecs} `{Invites} `{Certificates} `{Toml} `{Argon2}.
Implicit Types w : World T.

Lemma after_keeps {A} P (m : Rpc T A) w : keeps P m → P w → P (after m w).
Proof using Type. intros Hm Hw. specialize (Hm w Hw). unfold after. by destruct (m w) as [[]]. Qed.
Lemma after_triple {A} P Q (m : Rpc T A) w : triple P m (λ _, Q) Q → P w → Q (after m w).
Proof using Type. intros Hm Hw. specialize (Hm w Hw). unfold after. by destruct (m w) as [[]]. Qed.

Lemma inv_reads {A} (f : World T → A) w : inv w → inv (after (gets f) w).
Proof using Type. done. Qed.
Lemma after_fresh {A} u (m : Rpc T A) w : triple (fresh_inv u) m (λ _, inv) inv → inv w → fresh_ulid u w → inv (after m w).
Proof using Type. intros Hm Hw Hu. exact (after_triple _ _ m w Hm (conj Hw Hu)). Qed.
Lemma inv_community_get c : keeps (T := T) inv (community_get c).
Proof using All. apply keeps_bind; [unfold community_of; apply keeps_bind; [apply keeps_gets|intros; apply keeps_need]|intros; apply keeps_gets]. Qed.
Lemma inv_channel_get c : keeps (T := T) inv (channel_get c).
Proof using All. apply keeps_bind; [apply keeps_gets|intros; apply keeps_need]. Qed.
Lemma inv_history_page p : keeps (T := T) inv (message_get_history p).
Proof using All.
  unfold message_get_history. do 3 (apply keeps_bind; [apply keeps_gets|intros ?]).
  apply keeps_bind; [apply keeps_check|intros _]. apply keeps_bind; [apply keeps_gets|intros; apply keeps_ret].
Qed.
Lemma inv_config_call path f : keeps (T := T) inv (change_config path f;; mret true).
Proof using All. apply keeps_bind; [apply keeps_config|intros; apply keeps_ret]. Qed.

Lemma inv_change_passphrase p : keeps (T := T) inv (identity_change_passphrase p).
Proof using All.
  unfold identity_change_passphrase. apply keeps_bind; [apply keeps_check|intros _]. apply keeps_bind; [apply keeps_gets|intros loaded].
  apply keeps_bind; [apply keeps_need|intros _]. apply keeps_bind; [apply keeps_gets|intros sk]. apply keeps_bind; [|intros; apply keeps_ret].
  intros w Hw. unfold rpc_keystore_save. destruct (keystore_save _ _ _ _ _ _); by apply (inv_ext w).
Qed.

Lemma inv_serve ce call w : inv w → call_wf w ce call → inv (serve ce call w).
Proof using All.
  intros Hw Hc. destruct call; cbn [serve call_wf] in *.
  - exact Hw.
  - exact (after_keeps inv _ w (inv_set_name _ _) Hw).
  - exact (after_keeps inv _ w (inv_set_status _ _) Hw).
  - exact (after_keeps inv _ w (inv_create _ _) Hw).
  - exact (after_keeps inv _ w (inv_join _ _) Hw).
  - exact (after_keeps inv _ w (inv_invite _) Hw).
  - exact (after_keeps inv _ w (inv_leave _ _) Hw).
  - exact (after_keeps inv _ w (inv_delete _) Hw).
  - exact Hw.
  - exact (after_keeps inv _ w (inv_community_get _) Hw).
  - exact (after_keeps inv _ w (inv_update_manifest _) Hw).
  - exact (after_keeps inv _ w (inv_channel_list _) Hw).
  - exact (after_keeps inv _ w (inv_channel_get _) Hw).
  - exact (after_keeps inv _ w (inv_channel_create _ _) Hw).
  - exact (after_keeps inv _ w (inv_channel_delete _) Hw).
  - exact (after_keeps inv _ w (inv_rotate_key _) Hw).
  - exact (after_keeps inv _ w (inv_reorder _) Hw).
  - exact (after_fresh _ _ w (inv_message_send _ _) Hw Hc).
  - exact (after_keeps inv _ w (inv_message_edit _ _) Hw).
  - exact (after_keeps inv _ w (inv_message_delete _ _) Hw).
  - exact (after_keeps inv _ w (inv_history_page _) Hw).
  - exact (after_fresh _ _ w (inv_reaction _ _ _) Hw Hc).
  - exact (after_fresh _ _ w (inv_reaction _ _ _) Hw Hc).
  - exact (after_keeps inv _ w (inv_mark_read _) Hw).
  - exact (after_keeps inv _ w (inv_heartbeat _ _) Hw).
  - exact (after_keeps inv _ w (inv_member_list _) Hw).
  - exact (after_keeps inv _ w (inv_kick _ _) Hw).
  - exact (after_keeps inv _ w (inv_ban _ _) Hw).
  - exact (after_keeps inv _ w (inv_update_role _ _) Hw).
  - destruct Hc as (Hf & Hn & Hr). exact (inv_dm_send _ _ _ w Hn Hr (conj Hw Hf)).
  - exact Hw.
  - exact (after_keeps inv _ w (inv_config_call _ _) Hw).
  - exact (after_keeps inv _ w (inv_set_mailbox _ _) Hw).
  - exact (after_keeps inv _ w (inv_dm_discard _) Hw).
  - exact Hw.
  - exact Hw.
  - exact (after_keeps inv _ w (inv_config_call _ _) Hw).
  - exact Hw.
  - exact Hw.
  - exact (after_keeps inv _ w (inv_change_passphrase _) Hw).
Qed.

(** The client's invariant, over a whole session. Whatever events the network task
    delivers and whatever methods the user interface calls, in whatever interleaving, and
    whether a call replies, fails halfway or panics, the channel, member and community tables
    stay keyed by the identifiers of their values, no message is twice in a channel's log, no
    direct message twice in a conversation, no peer twice in a community, what is buffered
    for a channel are messages of that channel, and the node store and the DHT routing table
    stay well-formed. *)
Theorem session_invariant w w' : rtc session_step w w' → inv w → inv w'.
Proof using All.
  induction 1 as [w|w w1 w' Hstep _ IH]; [done|]. intros Hw. apply IH.
  destruct Hstep as [cx ev w2 Hev Hdone|ce call Hc]; [by eapply inv_event|by apply inv_serve].
Qed.
End session.
