(* ===== verification/Observe.v ===== *)
(** * What the user interface observes: the metrics and the event subscription

    [node_get_metrics] of [bitcord-core/src/api/rpc_server/node.rs] with the counters of
    [resource/metrics.rs], and [subscribe_events] of [rpc_server/subscription.rs] with the
    broadcaster of [push_broadcaster.rs] and the helper of [ws_handler.rs]. What a receiver of
    Tokio's broadcast channel gets is an argument; [Broadcast] is what its documentation
    promises. *)

From S2P Require Import Prelude Bytes Config Redb Routing Crypto Codec Model Store DhtNode Handler AppState Rpc Resource.

(** ** [metrics.rs] *)

Record MetricsSnapshot := mkSnapshot {
  ms_connected_peers : Z; ms_stored_channels : Z; ms_disk_usage_mb : Z;
  ms_bandwidth_in_kbps : Z; ms_bandwidth_out_kbps : Z; ms_uptime_secs : Z }.
Definition snapshot (m : NodeMetrics) : MetricsSnapshot :=
  mkSnapshot (m_connected_peers m) (m_stored_channels m) (m_disk_usage_mb m)
    (m_bandwidth_in_kbps m) (m_bandwidth_out_kbps m) (m_uptime_secs m).

(** What writes the counters: a message to the metrics task, its tick, which copies the rates it
    is wired to, and the event processor, which counts the connected peers. *)
Inductive MetricsWrite :=
  | WriteUpdate (u : MetricsUpdate)
  | WriteTick (uptime : Z) (s : BandwidthStats)
  | WritePeers (total : Z).
Definition metrics_write (m : NodeMetrics) (x : MetricsWrite) : NodeMetrics :=
  match x with
  | WriteUpdate u => metrics_update u m
  | WriteTick uptime s => metrics_tick uptime s m
  | WritePeers total =>
      mkMetrics total (m_stored_channels m) (m_disk_usage_mb m) (m_bandwidth_in_kbps m) (m_bandwidth_out_kbps m) (m_uptime_secs m)
  end.
Definition metrics_new : NodeMetrics := mkMetrics 0 0 0 0 0 0.
Definition metrics_run (xs : list MetricsWrite) : NodeMetrics := foldl metrics_write metrics_new xs.

(** The method: the number of peers is the one the event processor keeps in the state. *)
Definition node_get_metrics {T} (m : NodeMetrics) : Rpc T MetricsSnapshot :=
  gets (λ w, snapshot (metrics_write m (WritePeers (app_metrics_connected_peers (w_app w))))).

(** The rates the binary wires to the task: those of a new limiter, copied once. *)
Definition main_rates (limit : option Z) : BandwidthStats :=
  let s := bl_stats (bandwidth_new limit) in mkStats 0 0 (rate_out_kbps s) (rate_in_kbps s).
(** The only message the binary sends. *)
Definition main_update (used : Z) : MetricsUpdate := DiskUsageMb (used / (1024 * 1024)).

(** ** [subscription.rs] *)

(** What wakes a subscription: an event, that is sent or finds its client gone; falling
    behind; the end of the broadcaster; the client closing. *)
Inductive Wake := Received (e : PushEvent) (sent : bool) | Lagged | Closed | SinkClosed.

Section subscription.
Context (to_json : PushEvent → option string).

(** The messages the client gets, and whether the subscription is still open. *)
Fixpoint subscribe_events (wakes : list Wake) : list string * bool :=
  match wakes with
  | [] => ([], true)
  | Received e sent :: wakes =>
      match to_json e with
      | None => ([], false)
      | Some msg =>
          if sent then let '(msgs, still) := subscribe_events wakes in (msg :: msgs, still) else ([], false)
      end
  | Lagged :: wakes => subscribe_events wakes
  | Closed :: _ | SinkClosed :: _ => ([], false)
  end.
(** [ws_handler.rs]: the same, but an event that has no JSON is skipped. *)
Fixpoint forward_push_events (wakes : list Wake) : list string * bool :=
  match wakes with
  | [] => ([], true)
  | Received e sent :: wakes =>
      match to_json e with
      | None => forward_push_events wakes
      | Some msg =>
          if sent then let '(msgs, still) := forward_push_events wakes in (msg :: msgs, still) else ([], false)
      end
  | Lagged :: wakes => forward_push_events wakes
  | Closed :: _ | SinkClosed :: _ => ([], false)
  end.
End subscription.

(** ** [push_broadcaster.rs] *)

Definition CAPACITY : nat := 1024.
Definition received (wakes : list Wake) : list PushEvent :=
  omap (λ x, match x with Received e _ => Some e | _ => None end) wakes.
(** What a receiver that has caught up got of the events sent since it subscribed: each at most once and in order, the last [CAPACITY] of them in any
    case, and all of them unless it falls behind. *)
Class Broadcast (wakes_of : list PushEvent → list Wake) : Prop := {
  broadcast_order sent : received (wakes_of sent) `sublist_of` sent;
  broadcast_recent sent : drop (length sent - CAPACITY) sent `suffix_of` received (wakes_of sent);
  broadcast_lag sent : Lagged ∉ wakes_of sent → received (wakes_of sent) = sent }.

(** ** The counters hold what was last written *)

Lemma metrics_run_snoc xs x : metrics_run (xs ++ [x]) = metrics_write (metrics_run xs) x.
Proof. unfold metrics_run. by rewrite foldl_app. Qed.

Definition disk_written (x : MetricsWrite) : option Z := match x with WriteUpdate (DiskUsageMb n) => Some n | _ => None end.
Definition channels_written (x : MetricsWrite) : option Z := match x with WriteUpdate (StoredChannels n) => Some n | _ => None end.
Definition peers_written (x : MetricsWrite) : option Z :=
  match x with WriteUpdate (ConnectedPeers n) | WritePeers n => Some n | _ => None end.
Definition tick_written (x : MetricsWrite) : option (Z * Z * Z) :=
  match x with WriteTick uptime s => Some (rate_in_kbps s, rate_out_kbps s, uptime) | _ => None end.

(** Whatever the order in which the task, its ticks and the event processor write, each counter
    is the last value written to it, and the rates and the uptime are of one tick. *)
Theorem metrics_last xs :
  metrics_run xs =
    let '(bw_in, bw_out, uptime) := default (0, 0, 0) (last (omap tick_written xs)) in
    mkMetrics (default 0 (last (omap peers_written xs))) (default 0 (last (omap channels_written xs)))
      (default 0 (last (omap disk_written xs))) bw_in bw_out uptime.
Proof.
  induction xs as [|x xs IH] using rev_ind; [done|]. rewrite metrics_run_snoc, IH, !omap_app, !last_app.
  destruct x as [[n|n|n]|uptime s|n]; cbn [omap list_omap last disk_written channels_written peers_written tick_written];
    by destruct (default (0, 0, 0) (last (omap tick_written xs))) as [[a b] u].
Qed.

(** In the node binary the rates and the number of stored channels are always reported as zero,
    and the disk usage as it was at the start, or zero before that is known. *)
Theorem main_metrics limit used xs :
  Forall (λ x, match x with
               | WriteUpdate u => u = main_update used
               | WriteTick _ s => s = main_rates limit
               | WritePeers _ => True
               end) xs →
  let m := metrics_run xs in
  m_bandwidth_in_kbps m = 0 ∧ m_bandwidth_out_kbps m = 0 ∧ m_stored_channels m = 0 ∧
  (m_disk_usage_mb m = 0 ∨ m_disk_usage_mb m = used / (1024 * 1024)).
Proof.
  induction xs as [|x xs IH] using rev_ind; intros Hall m; [cbn; auto|].
  apply Forall_app in Hall as [Hxs [Hx _]%Forall_cons]. specialize (IH Hxs) as (H1 & H2 & H3 & H4).
  unfold m. rewrite metrics_run_snoc.
  destruct x as [u|uptime s|n]; cbn; [subst u; cbn; auto| |auto]. by subst s.
Qed.

(** ** What a subscriber sees *)

Section subscribed.
Context (to_json : PushEvent → option string) (wakes_of : list PushEvent → list Wake) `{!Broadcast wakes_of}.

(** While every event has a JSON form, the two loops are the same. *)
Theorem forward_push_events_equiv wakes :
  Forall (λ e, is_Some (to_json e)) (received wakes) →
  forward_push_events to_json wakes = subscribe_events to_json wakes.
Proof using Type.
  induction wakes as [|[e sent| | |] wakes IH]; cbn; try done.
  intros [[msg ->] Hall]%Forall_cons. destruct sent; [|done]. by rewrite IH.
Qed.

Lemma subscribe_prefix wakes : (subscribe_events to_json wakes).1 `prefix_of` omap to_json (received wakes).
Proof using Type.
  induction wakes as [|[e sent| | |] wakes IH]; cbn; try apply prefix_nil; [|exact IH].
  destruct (to_json e) as [msg|]; [|apply prefix_nil]. destruct sent; [|apply prefix_nil].
  destruct (subscribe_events to_json wakes) as [msgs still]. by apply prefix_cons.
Qed.
Lemma subscribe_open wakes :
  (subscribe_events to_json wakes).2 = true → (subscribe_events to_json wakes).1 = omap to_json (received wakes).
Proof using Type.
  induction wakes as [|[e sent| | |] wakes IH]; cbn; try done.
  destruct (to_json e) as [msg|]; [|done]. destruct sent; [|done].
  destruct (subscribe_events to_json wakes) as [msgs still]. cbn in *. intros Hs. by rewrite IH.
Qed.
Lemma omap_sublist {A B} (f : A → option B) l k : l `sublist_of` k → omap f l `sublist_of` omap f k.
Proof using Type. induction 1; cbn; [done| |]; destruct (f x); [by constructor|done|by constructor|done]. Qed.

(** A subscriber never sees an event twice or out of order. While its subscription is open it has
    seen the last 1024 events, and all of them if it never fell behind. *)
Theorem subscription_correct sent :
  let '(msgs, still) := subscribe_events to_json (wakes_of sent) in
  msgs `sublist_of` omap to_json sent ∧
  (still = true →
     omap to_json (drop (length sent - CAPACITY) sent) `suffix_of` msgs ∧
     (Lagged ∉ wakes_of sent → msgs = omap to_json sent)).
Proof using Type*.
  pose proof (subscribe_prefix (wakes_of sent)) as Hpre. pose proof (subscribe_open (wakes_of sent)) as Hopen.
  destruct (subscribe_events to_json (wakes_of sent)) as [msgs still]. cbn in *. split.
  - trans (omap to_json (received (wakes_of sent))); [destruct Hpre as [k ->]; by apply sublist_inserts_r|]. apply omap_sublist, broadcast_order.
  - intros Hs. rewrite (Hopen Hs). split; [|intros Hl; by rewrite (broadcast_lag sent Hl)].
    destruct (broadcast_recent sent) as [k ->]. rewrite omap_app. by eexists.
Qed.
End subscribed.

(** A receiver that is always behind: it gets the last events the channel holds. *)
Definition late (sent : list PushEvent) : list Wake :=
  (if (length sent <=? CAPACITY)%nat then [] else [Lagged]) ++ ((λ e, Received e true) <$> drop (length sent - CAPACITY) sent).
#[export] Instance late_broadcast : Broadcast late.
Proof.
  assert (∀ l b, received ((λ e, Received e b) <$> l) = l) as Hr by (unfold received; intros l b; induction l as [|e l IH]; [done|by cbn; f_equal]).
  assert (∀ sent, received (late sent) = drop (length sent - CAPACITY) sent) as Hl.
  { intros sent. unfold late, received. rewrite omap_app. fold (received ((λ e, Received e true) <$> drop (length sent - CAPACITY) sent)).
    rewrite Hr. by destruct (length sent <=? CAPACITY)%nat. }
  split; intros sent; rewrite ?Hl; [apply sublist_drop|done|].
  unfold late. destruct (Nat.leb_spec (length sent) CAPACITY); [|set_solver].
  intros _. by replace (length sent - CAPACITY)%nat with 0%nat by lia.
Qed.
