(* ===== verification/Concurrency.v ===== *)
(** * Methods and events that interleave between two locks

    A method of [bitcord-core/src/api/rpc_server/] holds a lock for a few lines at a time, and
    another task may run wherever it holds none. Here [channel_rotate_key] and [channel_delete]
    are cut into what they do under one lock at a time (the embedded store's metadata, which is
    read and written back by two transactions, into two), and run among other such tasks and
    among the events and calls of [RpcServer]. Run without interruption they are the methods of
    [RpcChannel]; interrupted, they keep the client's invariant and nothing more. The last part
    ties the event loop's handler of a new peer to the queues of [Locks]. *)

From S2P Require Import Locks.
From S2P Require Import Prelude Bytes Config Redb Routing Kademlia Crypto Codec Model ClientState Store DhtNode Handler.
From S2P Require Import AppState ChannelEvents CommunityEvents ManifestEvents ClientEvents AppStart.
From S2P Require Import Identity Rpc Passphrase RpcMessage RpcMember RpcChannel RpcCommunity RpcNode RpcServer.

(** ** Tasks *)

(** A method that has ended, or the next thing it does without being interrupted. *)
Inductive Task (T A : Type) : Type :=
  | Finished (r : RpcResult A)
  | Atomic (f : World T → World T * Task T A).
Arguments Finished {T A}.
Arguments Atomic {T A}.

Section tasks.
Context {T : Type} {A : Type}.
Implicit Types t : Task T A.

(** A computation under one lock, and what comes after it. *)
Definition locked {B} (m : Rpc T B) (k : B → Task T A) : Task T A := Atomic (λ w,
  match m w with
  | (Reply b, w') => (w', k b)
  | (Fail code msg, w') => (w', Finished (Fail code msg))
  | (Crash, w') => (w', Finished Crash)
  end).
(** Without interruption. *)
Fixpoint run_task t (w : World T) : RpcResult A * World T :=
  match t with
  | Finished r => (r, w)
  | Atomic f => match f w with (w', t') => run_task t' w' end
  end.
(** Among other tasks, and among events and calls. *)
Inductive pool_step (env : World T → World T → Prop) : list (Task T A) * World T → list (Task T A) * World T → Prop :=
  | pool_task ts w i f : ts !! i = Some (Atomic f) → pool_step env (ts, w) (<[i := (f w).2]> ts, (f w).1)
  | pool_env ts w w' : env w w' → pool_step env (ts, w) (ts, w').

(** Each part of the task keeps [P], in whatever state in [P] it starts. *)
Fixpoint task_keeps (P : World T → Prop) t : Prop :=
  match t with
  | Finished _ => True
  | Atomic f => ∀ w, P w → match f w with (w', t') => P w' ∧ task_keeps P t' end
  end.

Lemma run_locked {B} (m : Rpc T B) k w : run_task (locked m k) w = (m ≫= λ b, run_task (k b)) w.
Proof. cbn. unfold mbind, rpc_bind. by destruct (m w) as [[b|c s|] w']. Qed.
Lemma run_locked_reply {B} (m : Rpc T B) k w b w' : m w = (Reply b, w') → run_task (locked m k) w = run_task (k b) w'.
Proof. intros Hm. cbn. by rewrite Hm. Qed.
Lemma run_locked_fail {B} (m : Rpc T B) k w c msg w' : m w = (Fail c msg, w') → run_task (locked m k) w = (Fail c msg, w').
Proof. intros Hm. cbn. by rewrite Hm. Qed.
Lemma task_keeps_locked {B} P (m : Rpc T B) k (φ : B → Prop) :
  triple P m (λ b w, φ b ∧ P w) P → (∀ b, φ b → task_keeps P (k b)) → task_keeps P (locked m k).
Proof.
  intros Hm Hk w Hw. specialize (Hm w Hw). destruct (m w) as [[b|c s|] w']; [|by split..].
  destruct Hm as [Hb Hw']. split; [done|by apply Hk].
Qed.
Lemma task_keeps_plain {B} P (m : Rpc T B) k : keeps P m → (∀ b, task_keeps P (k b)) → task_keeps P (locked m k).
Proof.
  intros Hm Hk. apply (task_keeps_locked P m k (λ _, True)); [|auto].
  eapply triple_conseq; [exact Hm|done|by intros b w Hw].
Qed.

Lemma pool_keeps env P ts w ts' w' :
  (∀ w w', env w w' → P w → P w') → rtc (pool_step env) (ts, w) (ts', w') →
  Forall (task_keeps P) ts → P w → Forall (task_keeps P) ts' ∧ P w'.
Proof.
  intros Henv Hr. remember (ts, w) as s eqn:Hs. remember (ts', w') as s' eqn:Hs'. revert ts w Hs.
  induction Hr as [s|s1 s2 s3 Hstep _ IH]; intros ts w -> Hts Hw; [by injection Hs' as -> ->|].
  inversion Hstep as [ts0 w0 i f Hi|ts0 w0 w1 He]; subst.
  - pose proof (proj1 (Forall_lookup _ _) Hts i _ Hi w Hw) as Hf. destruct (f w) as [w1 t1] eqn:Hfw. destruct Hf as [Hw1 Ht1].
    eapply IH; [done|done| |exact Hw1]. cbn. by apply Forall_insert.
  - eapply IH; [done|done|done|by eapply Henv].
Qed.
(** Induction over the parts of a task. *)
Definition task_ind (P : Task T A → Prop) (Hr : ∀ r, P (Finished r)) (Ha : ∀ f, (∀ w, P (f w).2) → P (Atomic f)) :
    ∀ t, P t :=
  fix go t := match t with
  | Finished r => Hr r
  | Atomic f => Ha f (λ w, match f w as x return P x.2 with (w', t') => go t' end)
  end.
(** A task of a pool may run to its end. *)
Lemma pool_run env t : ∀ ts w i, ts !! i = Some t →
  rtc (pool_step env) (ts, w) (<[i := Finished (run_task t w).1]> ts, (run_task t w).2).
Proof.
  induction t as [r|f IH] using task_ind; intros ts w i Hi; [by rewrite list_insert_id|].
  eapply rtc_l; [by apply pool_task|]. specialize (IH w). cbn [run_task]. destruct (f w) as [w' t'] eqn:Hf. cbn [fst snd] in *.
  assert (<[i := t']> ts !! i = Some t') as Hi' by (apply list_lookup_insert_eq; by eapply lookup_lt_Some).
  specialize (IH (<[i := t']> ts) w' i Hi'). by rewrite list_insert_insert_eq in IH.
Qed.
(** All of them may. *)
Definition ended (ts : list (Task T A)) : Prop := ∀ i t, ts !! i = Some t → ∃ r, t = Finished r.
Lemma pool_ends env ts w : ∃ ts' w', rtc (pool_step env) (ts, w) (ts', w') ∧ ended ts'.
Proof.
  assert (∀ n, ∃ ts' w', rtc (pool_step env) (ts, w) (ts', w') ∧ ∀ i t, (i < n)%nat → ts' !! i = Some t → ∃ r, t = Finished r) as Hall.
  { induction n as [|n (ts1 & w1 & Hr & Hn)]; [exists ts, w; split; [done|lia]|].
    destruct (ts1 !! n) as [t|] eqn:Ht.
    - exists (<[n := Finished (run_task t w1).1]> ts1), (run_task t w1).2. split; [etrans; [exact Hr|by apply pool_run]|].
      intros i t' Hi. destruct (decide (i = n)) as [->|Hne].
      + rewrite list_lookup_insert_eq by (by eapply lookup_lt_Some). intros [= <-]. by eexists.
      + rewrite list_lookup_insert_ne by done. apply Hn. lia.
    - exists ts1, w1. split; [done|]. intros i t Hi Hit. destruct (decide (i = n)) as [->|]; [congruence|]. apply (Hn i t); [lia|done]. }
  assert (∀ ts' w', rtc (pool_step env) (ts, w) (ts', w') → length ts' = length ts) as Hlen.
  { intros ts' w' Hr. remember (ts, w) as a eqn:Ha. remember (ts', w') as z eqn:Hz. assert (length z.1 = length a.1) as Hl; [|by subst].
    clear Ha Hz Hall. induction Hr as [|x y z Hs _ IH]; [done|]. rewrite IH. destruct Hs; [apply length_insert|done]. }
  destruct (Hall (length ts)) as (ts' & w' & Hr & Hn). exists ts', w'. split; [exact Hr|]. intros i t Ht. apply (Hn i t); [|exact Ht].
  rewrite <- (Hlen ts' w' Hr). by eapply lookup_lt_Some.
Qed.
Lemma pool_locked env {B} (m : Rpc T B) k ts w i b w' :
  ts !! i = Some (locked m k) → m w = (Reply b, w') → pool_step env (ts, w) (<[i := k b]> ts, w').
Proof.
  intros Hi Hm. pose proof (pool_task env ts w i _ Hi) as Hs. cbn in Hs. by rewrite Hm in Hs.
Qed.
End tasks.

(** ** The methods, one lock at a time *)

Section methods.
Context {T : Type} `{Crypto} `{Table T} `{NodeCodecs} `{HashOrder} `{UlidText} `{UlidParse} `{AddrText}.
Context `{Entropy} `{AppCodecs}.
Implicit Types w : World T.

(** [if let Ok(Some(mut meta)) = store.get_community_meta(..)] and [store.set_community_meta(..)]:
    two transactions. *)
Definition update_meta_task {A} (cpk : bytes) (f : CommunityMeta → CommunityMeta) (k : Task T A) : Task T A :=
  locked (gets (stored_meta cpk)) (λ meta,
    match meta with
    | Some meta => locked (step (write_meta cpk (f meta))) (λ _, k)
    | None => k
    end).

Definition announce_rotation (p : RotateKeyParams) (ch : ChannelManifest) : Task T bool :=
  locked (encoded ← need (to_allocvec ch) (internal_err "failed to encode manifest");
          sk ← gets (λ w, app_signing_key (w_app w));
          publish (channel_topic (rkp_channel_id p)) (ChannelKeyRotation (mkRotation ch (ed_sign sk encoded)))) (λ _,
  locked (publish (community_topic (rkp_community_id p)) (ChannelManifestBroadcast (mkBroadcast ch))) (λ _,
  Finished (Reply true))).
Definition store_rotation (p : RotateKeyParams) (key : bytes) (ch : ChannelManifest) : Task T bool :=
  locked (gets (known_community_pk (rkp_community_id p))) (λ cpk,
  match cpk with
  | Some pk => update_meta_task pk (rotate_in_meta (rkp_channel_id p) key ch) (announce_rotation p ch)
  | None => announce_rotation p ch
  end).
(** The channel as it is when its table is locked for writing. *)
Definition rotate_channel (channel_id : string) (wrapped : gmap bytes bytes) : Rpc T ChannelManifest :=
  ch ← gets (λ w, app_channels (w_app w) !! channel_id);
  ch ← need ch (not_found "channel not found");
  step (put_channel channel_id (rotated_channel wrapped ch));;
  mret (rotated_channel wrapped ch).
Definition rotate_tail (p : RotateKeyParams) (key : bytes) : Task T bool :=
  locked (wrap_for_members (rkp_community_id p) key) (λ wrapped,
  locked (rotate_channel (rkp_channel_id p) wrapped) (λ ch, store_rotation p key ch)).
Definition rotate_task (p : RotateKeyParams) : Task T bool :=
  let channel_id := rkp_channel_id p in
  locked (require_seed_connected (rkp_community_id p)) (λ _,
  locked (ch ← gets (λ w, app_channels (w_app w) !! channel_id); need ch (not_found "channel not found")) (λ _,
  locked (key ← generate_key; step (replace_key channel_id key);; mret key) (λ key, rotate_tail p key))).

Definition delete_task (p : DeleteChannelParams) : Task T bool :=
  let community_id := dcp_community_id p in
  let channel_id := dcp_channel_id p in
  locked (require_seed_connected community_id) (λ _,
  locked (ch ← gets (λ w, app_channels (w_app w) !! channel_id); need ch (not_found "channel not found")) (λ ch,
  locked (step (λ w, save_channels (upd (λ a, set_channels (delete channel_id (app_channels a)) a) w))) (λ _,
  locked (step (λ w, save_channel_keys (upd (λ a, set_channel_keys (delete channel_id (app_channel_keys a)) a) w))) (λ _,
  locked (signed ← community_of community_id;
          channel_ulid ← need (parse_ulid channel_id) (invalid_params "invalid channel_id");
          let m := sm_manifest signed in
          resign community_id (with_channels (retain (λ id, negb (bool_decide (id = channel_ulid))) (cm_channel_ids m)) m)) (λ signed,
  update_meta_task (cm_public_key (sm_manifest signed)) (drop_channel_from_meta channel_id)
  (locked (step (command (CmdUnsubscribe (channel_topic channel_id)))) (λ _,
  locked (publish (community_topic community_id) (ManifestUpdate signed)) (λ _,
  locked (notify (PushChannelDeleted (mkChannelEvent channel_id community_id (ch_name ch)))) (λ _,
  Finished (Reply true)))))))))).
End methods.

Section alone.
Context {T : Type} `{CryptoLaws} `{TableLaws T} `{NodeCodecsLaws} `{HashOrderLaws} `{UlidText} `{UlidParse} `{AddrText}.
Context `{EntropyLaws} `{AppCodecsLaws}.
Implicit Types w : World T.

Lemma wrap_for_members_app c key w : ∃ m w', wrap_for_members c key w = (Reply m, w') ∧ w_app w' = w_app w ∧ w_out w' = w_out w.
Proof using Type.
  unfold wrap_for_members. generalize (hash_order (default ∅ (app_members (w_app w) !! c))).*2. intros l.
  assert (∀ acc : World T * gmap bytes bytes,
    let r := foldl (λ '((w, m) : World T * gmap bytes bytes) r,
      match encrypt_for_member key (rng32 (w_draws w)) (rng24 (w_draws w)) (mr_x25519_public_key r) with
      | Ok wrapped => (draw w, <[mr_user_id r := wrapped]> m)
      | Err _ => (draw w, m)
      end) acc l in w_app r.1 = w_app acc.1 ∧ w_out r.1 = w_out acc.1) as Hf.
  { induction l as [|r l IH]; intros [w1 m1]; [done|]. cbn [foldl]. destruct (encrypt_for_member _ _ _ _); match goal with |- context [foldl _ ?acc l] => exact (IH acc) end. }
  specialize (Hf (w, ∅)). destruct (foldl _ _ _) as [w1 m1]. by exists m1, w1.
Qed.

Lemma update_meta_run {A} cpk f (k : Task T A) w : run_task (update_meta_task cpk f k) w = run_task k (update_meta cpk f w).
Proof using Type. unfold update_meta_task, update_meta. cbn. by destruct (stored_meta cpk w). Qed.
Lemma announce_rotation_run p ch w :
  run_task (announce_rotation p ch) w =
    (encoded ← need (to_allocvec ch) (internal_err "failed to encode manifest");
     sk ← gets (λ w, app_signing_key (w_app w));
     publish (channel_topic (rkp_channel_id p)) (ChannelKeyRotation (mkRotation ch (ed_sign sk encoded)));;
     publish (community_topic (rkp_community_id p)) (ChannelManifestBroadcast (mkBroadcast ch));;
     mret true) w.
Proof using Type. unfold announce_rotation. rewrite run_locked. unfold mbind, rpc_bind. by destruct (to_allocvec ch). Qed.

(** Without interruption the rotation is the method. *)
Lemma rotate_task_run p w : run_task (rotate_task p) w = channel_rotate_key p w.
Proof using Type.
  unfold rotate_task, channel_rotate_key. rewrite (rpc_bind_refuse _ _ _ _ (require_seed_spec _ w)).
  destruct (seed_refusal (rkp_community_id p) w) as [[c msg]|] eqn:Hseed; [cbn; by rewrite require_seed_spec, Hseed|].
  rewrite (run_locked_reply _ _ w tt w) by by rewrite require_seed_spec, Hseed.
  rewrite (rpc_bind_ok _ _ _ _ _ (gets_run _ w)).
  destruct (app_channels (w_app w) !! rkp_channel_id p) as [ch|] eqn:Hch; last first.
  { eapply run_locked_fail. rewrite (rpc_bind_ok _ _ _ _ _ (gets_run _ w)). by rewrite Hch. }
  rewrite (run_locked_reply _ _ w ch w) by (rewrite (rpc_bind_ok _ _ _ _ _ (gets_run _ w)), Hch; done).
  cbn [need]. rewrite (rpc_bind_ok (mret ch) _ w ch w eq_refl), (rpc_bind_ok _ _ _ _ _ (generate_key_run w)).
  set (key := rng32 (w_draws w)). rewrite (rpc_bind_ok _ _ _ _ _ (step_run _ _)).
  destruct (replace_key_app (rkp_channel_id p) key (draw w)) as [Ha1 _]. set (w1 := replace_key _ key (draw w)) in *.
  rewrite (run_locked_reply _ _ w key w1).
  2:{ rewrite (rpc_bind_ok _ _ _ _ _ (generate_key_run w)). fold key. by rewrite (rpc_bind_ok _ _ _ _ _ (step_run _ _)). }
  destruct (wrap_for_members_app (rkp_community_id p) key w1) as (wrapped & w2 & Hwr & Ha2 & _).
  unfold rotate_tail. rewrite (run_locked_reply _ _ _ _ _ Hwr), (rpc_bind_ok _ _ _ _ _ Hwr).
  set (new := rotated_channel wrapped ch). set (w3 := put_channel (rkp_channel_id p) new w2).
  rewrite (rpc_bind_ok _ _ _ _ _ (step_run _ _)). fold w3.
  rewrite (run_locked_reply _ _ _ new w3).
  2:{ unfold rotate_channel. rewrite (rpc_bind_ok _ _ _ _ _ (gets_run _ w2)). cbv beta.
      assert (app_channels (w_app w2) = app_channels (w_app w)) as Hchs by by rewrite Ha2, Ha1.
      rewrite Hchs, Hch. cbn [need]. rewrite (rpc_bind_ok (mret ch) _ w2 ch w2 eq_refl). fold new. by rewrite (rpc_bind_ok _ _ _ _ _ (step_run _ _)). }
  unfold store_rotation. rewrite (run_locked_reply _ _ _ _ _ (gets_run _ w3)), (rpc_bind_ok _ _ _ _ _ (gets_run _ w3)).
  destruct (known_community_pk (rkp_community_id p) w3) as [pk|];
    [rewrite update_meta_run|]; rewrite (rpc_bind_ok _ _ _ _ _ (step_run _ _)), announce_rotation_run; done.
Qed.
End alone.

(** ** Interrupted, they keep the client's invariant *)

Section interrupted.
Context {T : Type} `{CryptoLaws} `{TableLaws T} `{NodeCodecsLaws} `{HashOrderLaws} `{UlidText} `{UlidParse} `{AddrText}.
Context `{EntropyLaws} `{AppCodecs} `{Invites} `{Certificates} `{Toml} `{Argon2}.
Implicit Types w : World T.
Notation tkeeps := (task_keeps (T := T) inv).

Lemma tkeeps_update_meta {A} pk f (k : Task T A) : wf_key pk → tkeeps k → tkeeps (update_meta_task pk f k).
Proof using All.
  intros Hpk Hk. apply task_keeps_plain; [apply keeps_gets|]. intros [meta|]; [|done].
  apply task_keeps_plain; [|done]. apply keeps_step. intros w Hw. by apply inv_write_meta.
Qed.
Lemma tkeeps_announce p ch : tkeeps (announce_rotation p ch).
Proof using All.
  apply task_keeps_plain; [|intros _; apply task_keeps_plain; [apply keeps_publish|done]].
  apply keeps_bind; [apply keeps_need|]. intros encoded. apply keeps_bind; [apply keeps_gets|]. intros sk. apply keeps_publish.
Qed.
Lemma tkeeps_store p key ch : tkeeps (store_rotation p key ch).
Proof using All.
  apply (task_keeps_locked _ _ _ (λ o, ∀ pk, o = Some pk → wf_key pk)).
  - apply triple_gets. intros w Hw. split; [|done]. intros pk Hpk. by eapply known_community_pk_wf.
  - intros [pk|] Hpk; [|apply tkeeps_announce]. apply tkeeps_update_meta; [by apply Hpk|apply tkeeps_announce].
Qed.
Lemma keeps_replace_key id key : keeps (T := T) inv (step (replace_key id key)).
Proof using All.
  apply keeps_step. intros w Hw. apply inv_put_key. destruct (app_channel_keys (w_app w) !! _) as [old|]; [|done].
  case_bool_decide; [done|]. by apply inv_save_table, inv_set_previous_keys.
Qed.
Lemma tkeeps_rotate p : tkeeps (rotate_task p).
Proof using All.
  apply task_keeps_plain; [apply keeps_seed|]. intros _.
  apply task_keeps_plain; [apply keeps_bind; [apply keeps_gets|]; intros o; apply keeps_need|]. intros _.
  apply task_keeps_plain.
  { apply keeps_bind; [apply keeps_generate_key|]. intros key. apply keeps_bind; [apply keeps_replace_key|]. intros _. apply keeps_ret. }
  intros key. apply task_keeps_plain; [apply keeps_wrap|]. intros wrapped.
  apply task_keeps_plain; [|intros ch; apply tkeeps_store]. unfold rotate_channel.
  apply (keeps_read _ _ (λ o, ∀ ch, o = Some ch → rkp_channel_id p = ulid_to_string (ch_id ch))).
  { intros w Hw ch Hch. exact (ai_channels _ Hw _ _ Hch). }
  intros o Ho. apply keeps_some. intros ch Hch. apply Ho in Hch.
  apply keeps_bind; [|intros _; apply keeps_ret]. apply keeps_step. intros w Hw. by apply inv_put_channel.
Qed.
Lemma triple_resign c m : wf_key (cm_public_key m) → triple (T := T) inv (resign c m) (λ s w, keyed_community s ∧ inv w) inv.
Proof using All.
  intros Hm. unfold resign. apply (triple_bind _ _ _ (λ _, inv)); [by apply triple_gets|]. intros sk.
  destruct (manifest_sign m sk) as [s|] eqn:Hs; [|by apply triple_panic].
  unfold manifest_sign in Hs. apply bind_Some in Hs as (b & _ & [= <-]).
  apply (triple_bind _ _ _ (λ _, inv)); [apply triple_step; intros w Hw; by apply inv_put_community|].
  intros _. by apply triple_ret.
Qed.
Lemma tkeeps_delete p : tkeeps (delete_task p).
Proof using All.
  apply task_keeps_plain; [apply keeps_seed|]. intros _.
  apply task_keeps_plain; [apply keeps_bind; [apply keeps_gets|]; intros o; apply keeps_need|]. intros ch.
  apply task_keeps_plain.
  { apply keeps_step. intros w Hw. apply inv_save_table, (inv_set_channels (λ a, delete _ (app_channels a))); [done|].
    apply keyed_delete, (ai_channels _ Hw). }
  intros _. apply task_keeps_plain; [apply keeps_step; intros w Hw; by apply inv_save_table, inv_set_channel_keys|]. intros _.
  apply (task_keeps_locked _ _ _ keyed_community).
  { eapply triple_bind; [apply triple_community|]. intros s. apply triple_pure. intros Hs.
    apply (triple_bind _ _ _ (λ _, inv)); [by apply triple_need|]. intros u. by apply triple_resign. }
  intros s Hs. apply tkeeps_update_meta; [exact Hs|].
  apply task_keeps_plain; [apply keeps_step; intros w Hw; by apply inv_emit|]. intros _.
  apply task_keeps_plain; [apply keeps_publish|]. intros _. by apply task_keeps_plain; [apply keeps_notify|].
Qed.

(** C5: under any interleaving of network events, JSON-RPC calls that succeed, fail or panic, and
    rotations and deletions of channels that are interrupted between any two locks, the client's
    tables stay keyed by their identifiers, no message, direct message or peer is there twice,
    buffers hold messages of their channel, and store and routing table stay well-formed. *)
Theorem interleaved_invariant (tasks : list (Task T bool)) w ts' w' :
  Forall (λ t, (∃ p, t = rotate_task p) ∨ ∃ p, t = delete_task p) tasks →
  rtc (pool_step session_step) (tasks, w) (ts', w') → inv w → inv w'.
Proof using All.
  intros Htasks Hr Hw. eapply (pool_keeps session_step inv); [|exact Hr| |exact Hw].
  - intros w1 w2 [cx ev w3 Hev Hdone|ce call Hc] Hw1; [by eapply inv_event|by apply inv_serve].
  - eapply Forall_impl; [exact Htasks|]. intros t [[p ->]|[p ->]]; [apply tkeeps_rotate|apply tkeeps_delete].
Qed.
End interrupted.

(** ** Interrupted, they are not the methods any more *)

Section races.
Context {T : Type} `{CryptoLaws} `{TableLaws T} `{NodeCodecsLaws} `{HashOrderLaws} `{UlidText} `{UlidParse} `{AddrText}.
Context `{EntropyLaws} `{AppCodecsLaws}.
Context (Haead : ∀ k n m, is_Some (aead_encrypt k n m)).
Context (Hevent : ∀ e : NetworkEvent, is_Some (to_allocvec e)).
Context (Hchannel : ∀ c : ChannelManifest, is_Some (to_allocvec c)).
Implicit Types w : World T.

Lemma announce_rotation_ends p ch w :
  ∃ w', run_task (announce_rotation p ch) w = (Reply true, w') ∧ w_app w' = w_app w.
Proof using All.
  rewrite announce_rotation_run. destruct (Hchannel ch) as [encoded He]. rewrite He. cbn [need].
  rewrite (rpc_bind_ok (mret encoded) _ _ encoded _ eq_refl), (rpc_bind_ok _ _ _ _ _ (gets_run _ _)).
  set (event := ChannelKeyRotation _). destruct (publish_run Hevent (channel_topic (rkp_channel_id p)) event w) as (data & Hp & _).
  rewrite (rpc_bind_ok _ _ _ _ _ Hp).
  destruct (publish_run Hevent (community_topic (rkp_community_id p)) (ChannelManifestBroadcast (mkBroadcast ch))
    (command (CmdPublish (channel_topic (rkp_channel_id p)) data) w)) as (data2 & Hp2 & _).
  rewrite (rpc_bind_ok _ _ _ _ _ Hp2). by eexists.
Qed.
(** What comes after the channel's table is left: the store and the announcements, whatever else happens. *)
Lemma store_rotation_ends p key ch w :
  ∃ w' s, run_task (store_rotation p key ch) w = (Reply true, w') ∧ w_app w' = set_node_store s (w_app w).
Proof using All.
  unfold store_rotation. rewrite (run_locked_reply _ _ _ _ _ (gets_run _ w)).
  destruct (known_community_pk (rkp_community_id p) w) as [pk|].
  - rewrite update_meta_run. destruct (update_meta_keeps pk (rotate_in_meta (rkp_channel_id p) key ch) w) as [[s Hs] _].
    destruct (announce_rotation_ends p ch (update_meta pk (rotate_in_meta (rkp_channel_id p) key ch) w)) as (w' & Hr & Ha).
    exists w', s. split; [done|]. by rewrite Ha.
  - destruct (announce_rotation_ends p ch w) as (w' & Hr & Ha). exists w', (app_node_store (w_app w)). split; [done|].
    rewrite Ha. symmetry. by apply set_store_id.
Qed.
Lemma rotate_channel_run id wrapped ch w :
  app_channels (w_app w) !! id = Some ch →
  rotate_channel id wrapped w = (Reply (rotated_channel wrapped ch), put_channel id (rotated_channel wrapped ch) w).
Proof using Type.
  intros Hch. unfold rotate_channel. rewrite (rpc_bind_ok _ _ _ _ _ (gets_run _ w)), Hch. cbn [need].
  rewrite (rpc_bind_ok (mret ch) _ w ch w eq_refl). by rewrite (rpc_bind_ok _ _ _ _ _ (step_run _ _)).
Qed.
(** From the new key on, without interruption. *)
Lemma rotate_tail_ends p key w ch :
  (∀ k l, app_members (w_app w) !! k = Some l → ∀ u m, l !! u = Some m → u = hex (mr_user_id m)) →
  length key = 32%nat → app_channels (w_app w) !! rkp_channel_id p = Some ch →
  ∃ w' s wrapped, run_task (rotate_tail p key) w = (Reply true, w') ∧
    w_app w' = set_node_store s (set_channels (<[rkp_channel_id p := rotated_channel wrapped ch]> (app_channels (w_app w))) (w_app w)) ∧
    ∀ uid r, member_of (rkp_community_id p) uid w = Some r → wrapped_for key wrapped r.
Proof using All.
  intros Hkeyed Hlen Hch. destruct (wrap_for_members_spec Haead Hevent Hchannel (rkp_community_id p) key w Hlen Hkeyed) as (wrapped & w1 & Hwr & Ha1 & _ & Hall).
  unfold rotate_tail. rewrite (run_locked_reply _ _ _ _ _ Hwr).
  assert (app_channels (w_app w1) !! rkp_channel_id p = Some ch) as Hch1 by by rewrite Ha1.
  rewrite (run_locked_reply _ _ _ _ _ (rotate_channel_run _ wrapped _ _ Hch1)).
  destruct (store_rotation_ends p key (rotated_channel wrapped ch) (put_channel (rkp_channel_id p) (rotated_channel wrapped ch) w1)) as (w' & s & Hr & Ha).
  exists w', s, wrapped. split_and!; [exact Hr| |exact Hall]. rewrite Ha, put_channel_app, Ha1. done.
Qed.

(** Up to the new key, in a pool. *)
Lemma rotate_starts env p ts i w ch :
  ts !! i = Some (rotate_task p) → seed_refusal (rkp_community_id p) w = None → app_channels (w_app w) !! rkp_channel_id p = Some ch →
  let key := rng32 (w_draws w) in
  rtc (pool_step env) (ts, w) (<[i := rotate_tail p key]> ts, replace_key (rkp_channel_id p) key (draw w)).
Proof using Type.
  intros Hi Hseed Hch key. assert (i < length ts)%nat as Hlt by by eapply lookup_lt_Some.
  eapply rtc_l; [eapply pool_locked; [exact Hi|]; by rewrite require_seed_spec, Hseed|].
  eapply rtc_l; [eapply pool_locked; [by apply list_lookup_insert_eq|]|].
  { rewrite (rpc_bind_ok _ _ _ _ _ (gets_run _ w)). by rewrite Hch. }
  rewrite list_insert_insert_eq. eapply rtc_l; [eapply pool_locked; [by apply list_lookup_insert_eq|]|].
  { rewrite (rpc_bind_ok _ _ _ _ _ (generate_key_run w)). by rewrite (rpc_bind_ok _ _ _ _ _ (step_run _ _)). }
  by rewrite list_insert_insert_eq.
Qed.

(** C20: rotating a channel's key, alone and twice at once. Alone, the key the client goes on writing
    with is the one that the manifest it announces carries wrapped for every member. Two calls
    that reach the channel's table in the opposite order of their keys leave the client writing
    under the second key while its newest manifest, two versions later, carries the first one. *)
Theorem rotations_race env p w old :
  (∀ k l, app_members (w_app w) !! k = Some l → ∀ u m, l !! u = Some m → u = hex (mr_user_id m)) →
  rotate_refusal p w = None → app_channels (w_app w) !! rkp_channel_id p = Some old →
  let id := rkp_channel_id p in
  let k1 := rng32 (w_draws w) in
  let k2 := rng32 (w_draws (replace_key id k1 (draw w))) in
  (∃ w' new,
     rtc (pool_step env) ([rotate_task p; rotate_task p], w) ([Finished (Reply true); Finished (Reply true)], w') ∧
     app_channel_keys (w_app w') !! id = Some k2 ∧ app_channels (w_app w') !! id = Some new ∧
     ch_version new = wrap64 (wrap64 (ch_version old + 1) + 1) ∧
     ∀ uid r, member_of (rkp_community_id p) uid w = Some r → wrapped_for k1 (ch_encrypted_channel_key new) r) ∧
  (∃ w' new, run_task (rotate_task p) w = (Reply true, w') ∧
     app_channel_keys (w_app w') !! id = Some k1 ∧ app_channels (w_app w') !! id = Some new ∧
     ∀ uid r, member_of (rkp_community_id p) uid w = Some r → wrapped_for k1 (ch_encrypted_channel_key new) r).
Proof using All.
  intros Hkeyed Href Hold id k1 k2. split.
  2:{ pose proof (channel_rotate_key_spec Haead Hevent Hchannel p w Hkeyed) as Hs. cbv zeta in Hs. fold id k1 in Hs. rewrite Href in Hs.
      destruct Hs as (old' & wrapped & encoded & data & w' & Hold' & Hrun & Hch & Hkey & _ & Hwr & _).
      exists w', (rotated_channel wrapped old'). rewrite rotate_task_run, Hrun, Hch, Hkey, !lookup_insert_eq. by split_and!. }
  assert (seed_refusal (rkp_community_id p) w = None) as Hseed.
  { unfold rotate_refusal, or_else in Href. by destruct (seed_refusal _ w). }
  destruct (replace_key_app id k1 (draw w)) as [Ha1 _]. set (w1 := replace_key id k1 (draw w)) in *.
  destruct (replace_key_app id k2 (draw w1)) as [Ha2 _]. set (w2 := replace_key id k2 (draw w1)) in *.
  assert (app_channels (w_app w2) !! id = Some old) as Hold2 by by rewrite Ha2; cbn; rewrite Ha1.
  destruct (rotate_tail_ends p k2 w2 old) as (w3 & s3 & m2 & Hrun3 & Ha3 & _); [by rewrite Ha2; cbn; rewrite Ha1|apply rng32_length|done|].
  destruct (rotate_tail_ends p k1 w3 (rotated_channel m2 old)) as (w4 & s4 & m1 & Hrun4 & Ha4 & Hwr);
    [by rewrite Ha3; cbn; rewrite Ha2; cbn; rewrite Ha1|apply rng32_length|rewrite Ha3; cbn; by rewrite lookup_insert_eq|].
  exists w4, (rotated_channel m1 (rotated_channel m2 old)). split_and!.
  - etrans; [by apply (rotate_starts env p _ 0%nat w old)|]. fold id k1 w1. cbn [insert list_insert].
    etrans; [apply (rotate_starts env p _ 1%nat w1 old); [done| |by rewrite Ha1]|].
    { unfold seed_refusal, Rpc.we_are_seed. rewrite Ha1. exact Hseed. }
    fold id k2 w2. cbn [insert list_insert]. etrans; [by apply (pool_run env (rotate_tail p k2) _ _ 1%nat)|]. rewrite Hrun3. cbn [insert list_insert fst snd].
    etrans; [by apply (pool_run env (rotate_tail p k1) _ _ 0%nat)|]. rewrite Hrun4. done.
  - rewrite Ha4. cbn. rewrite Ha3. cbn. rewrite Ha2. cbn. by rewrite lookup_insert_eq.
  - rewrite Ha4. cbn. by rewrite lookup_insert_eq.
  - done.
  - intros uid r Hm. apply (Hwr uid). unfold member_of in *. rewrite Ha3. cbn. rewrite Ha2. cbn. by rewrite Ha1.
Qed.
End races.

(** ** What two transactions lose *)

Section overwritten.
Context {T : Type} `{CryptoLaws} `{TableLaws T} `{NodeCodecsLaws} `{HashOrderLaws} `{UlidText} `{UlidParse} `{AddrText}.
Context `{EntropyLaws} `{AppCodecsLaws}.
Context (Haead : ∀ k n m, is_Some (aead_encrypt k n m)).
Context (Hmeta : ∀ m : CommunityMeta, is_Some (to_allocvec m)).
Implicit Types w : World T.

(** The embedded store can be written. *)
Definition store_ready w : Prop := ∃ st, app_node_store (w_app w) = Some st ∧ store_inv st ∧ st_online st = true.

Lemma write_meta_ready pk m w : wf_key pk → store_ready w →
  store_ready (write_meta pk m w) ∧
  ∀ pk', stored_meta pk' (write_meta pk m w) = if decide (pk = pk') then Some m else stored_meta pk' w.
Proof using Haead Hmeta H0 H2 H4 H6 H11 H13.
  intros Hpk (st & Hst & Hinv & Hon). pose proof (rng24_length (w_draws w)) as Hlen.
  destruct (set_community_meta_succeeds (rng24 (w_draws w)) pk m st Haead (Hmeta m) Hon) as [st' Hset].
  destruct (set_community_meta_spec _ _ _ _ _ Hinv Hpk Hlen Hset) as (Hinv' & Hget & Heq). injection Heq as _ _ _ _ Hon'.
  unfold write_meta, on_store, store_ready, stored_meta, meta_or_none. rewrite Hst, Hset. split; [by exists st'|].
  intros pk'. cbn. rewrite Hget. by case_decide.
Qed.
(** An accepted member is written to the store. *)
Lemma joined_store r w pk :
  genuine r → is_banned (ulid_to_string (mr_community_id r)) (hex (mr_user_id r)) w = false →
  known_community_pk (ulid_to_string (mr_community_id r)) w = Some pk → wf_key pk → store_ready w →
  store_ready (handle_member_joined r w) ∧
  ∀ meta, stored_meta pk w = Some meta → stored_meta pk (handle_member_joined r w) = Some (meta_with_member r meta).
Proof using Haead Hmeta H0 H2 H4 H6 H11 H13.
  intros Hg Hban Hk Hpk Hready. unfold handle_member_joined. apply genuine_spec in Hg. rewrite Hg, Hban. cbn [negb].
  set (w1 := cache_dm_peer r (insert_member _ r w)). set (w2 := sync_member_to_store _ r w1). set (w3 := wrap_keys_as_admin _ r w2).
  assert (∀ B (proj : AppState T → B), (∀ s a, proj (set_dm_peers s a) = proj a) → (∀ s a, proj (set_members s a) = proj a) →
    proj (w_app w1) = proj (w_app w)) as Hframe.
  { intros B proj Hp Hm. unfold w1, cache_dm_peer, save_dm_peers, insert_member, save_members. rewrite save_table_app. cbn.
    rewrite Hp, save_table_app. apply Hm. }
  assert (app_node_store (w_app (broadcast (PushMemberJoined (mkMemberEvent (hex (mr_user_id r)) (ulid_to_string (mr_community_id r)) (mr_display_name r))) w3))
    = app_node_store (w_app w2)) as Hst3 by exact (admin_wrap_frame app_node_store _ _ w2 (λ _ _, eq_refl)).
  assert (stored_meta pk w1 = stored_meta pk w) as Hs1 by (unfold stored_meta; by rewrite (Hframe _ app_node_store)).
  assert (store_ready w1) as Hready1 by (unfold store_ready; by rewrite (Hframe _ app_node_store)).
  unfold known_community_pk in Hk. destruct (app_communities (w_app w) !! _) as [signed|] eqn:Hc; [|done]. injection Hk as Hk.
  unfold store_ready, stored_meta. rewrite Hst3. fold (store_ready w2).
  unfold w2, sync_member_to_store. rewrite (Hframe _ app_communities), Hc, Hk, Hs1 by done.
  destruct Hready1 as (st & Hst & Hi). rewrite Hst. destruct (write_meta_ready pk (meta_with_member r (default
    (mkMeta (dummy_cert pk w1) (Some signed) [] ∅ ∅) (stored_meta pk w))) w1 Hpk (ex_intro _ st (conj Hst Hi))) as [Hr Hm].
  split; [exact Hr|]. intros meta Hmt. change (stored_meta pk w = Some meta) in Hmt. specialize (Hm pk). rewrite decide_True in Hm by done. etrans; [exact Hm|]. by rewrite Hmt.
Qed.

(** A rotation reads a community's metadata in one transaction and writes it in another: a member
    accepted between the two is in the client's table and missing from the embedded node's
    record of the community; accepted just before, it is in both. *)
Theorem join_lost_by_rotation env p key ch ts i w r pk meta :
  let c := ulid_to_string (mr_community_id r) in
  let uid := hex (mr_user_id r) in
  let rotated := <[i := announce_rotation p ch]> ts in
  env w (handle_member_joined r w) → ts !! i = Some (store_rotation p key ch) → rkp_community_id p = c →
  genuine r → is_banned c uid w = false → known_community_pk c w = Some pk → wf_key pk → store_ready w → stored_meta pk w = Some meta →
  (∃ w' meta', rtc (pool_step env) (ts, w) (rotated, w') ∧ member_of c uid w' = Some r ∧
     stored_meta pk w' = Some meta' ∧ meta_members meta' = meta_members meta) ∧
  (∃ w' meta', rtc (pool_step env) (ts, w) (rotated, w') ∧ member_of c uid w' = Some r ∧
     stored_meta pk w' = Some meta' ∧ meta_members meta' = <[uid := r]> (meta_members meta)).
Proof using All.
  intros c uid dn Henv Hi Hc Hg Hban Hk Hpk Hready Hmt. unfold store_rotation in Hi.
  destruct (joined_store r w pk Hg Hban Hk Hpk Hready) as [Hready1 Hjoined]. specialize (Hjoined meta Hmt).
  pose proof (proj2 (member_joined_spec r w Haead) (proj2 (genuine_spec r) Hg) Hban) as (Hin & _).
  set (w1 := handle_member_joined r w) in *. fold c uid in Hin.
  assert (i < length ts)%nat as Hlt by by eapply lookup_lt_Some.
  assert (∀ f v, member_of c uid (write_meta pk f v) = member_of c uid v) as Hkeepm.
  { intros f v. unfold member_of, write_meta. by rewrite (on_store_frame app_members). }
  split.
  - destruct (write_meta_ready pk (rotate_in_meta (rkp_channel_id p) key ch meta) w1 Hpk Hready1) as [_ Hm].
    exists (write_meta pk (rotate_in_meta (rkp_channel_id p) key ch meta) w1), (rotate_in_meta (rkp_channel_id p) key ch meta).
    split_and!; [|by rewrite Hkeepm|by rewrite Hm, decide_True|done].
    eapply rtc_l; [eapply pool_locked; [exact Hi|apply gets_run]|]. cbv beta. rewrite Hc, Hk.
    eapply rtc_l; [eapply pool_locked; [by apply list_lookup_insert_eq|apply gets_run]|]. cbv beta. rewrite list_insert_insert_eq, Hmt.
    eapply rtc_l; [by apply pool_env|].
    eapply rtc_l; [eapply pool_locked; [by apply list_lookup_insert_eq|apply step_run]|]. by rewrite list_insert_insert_eq.
  - destruct (write_meta_ready pk (rotate_in_meta (rkp_channel_id p) key ch (meta_with_member r meta)) w1 Hpk Hready1) as [_ Hm].
    exists (write_meta pk (rotate_in_meta (rkp_channel_id p) key ch (meta_with_member r meta)) w1), (rotate_in_meta (rkp_channel_id p) key ch (meta_with_member r meta)).
    split_and!; [|by rewrite Hkeepm|by rewrite Hm, decide_True|done].
    assert (known_community_pk c w1 = Some pk) as Hk1 by (unfold known_community_pk, w1; by rewrite (member_joined_frame app_communities)).
    eapply rtc_l; [by apply pool_env|].
    eapply rtc_l; [eapply pool_locked; [exact Hi|apply gets_run]|]. cbv beta. rewrite Hc. fold w1. rewrite Hk1.
    eapply rtc_l; [eapply pool_locked; [by apply list_lookup_insert_eq|apply gets_run]|]. cbv beta. rewrite list_insert_insert_eq, Hjoined.
    eapply rtc_l; [eapply pool_locked; [by apply list_lookup_insert_eq|apply step_run]|]. by rewrite list_insert_insert_eq.
Qed.
End overwritten.

(** ** A new peer and the queues *)

Section crowd.
Context {T : Type} `{CryptoLaws} `{TableLaws T} `{NodeCodecsLaws} `{HashOrderLaws} `{UlidText} `{UlidParse} `{AddrText}.
Context `{EntropyLaws} `{AppCodecsLaws}.
Implicit Types w : World T.

Definition event_sends (e : NetworkEvent) : nat := match to_allocvec e with Some _ => 1 | None => 0 end.
(** What [handle_peer_connected] publishes of a community. *)
Definition community_publishes w (cs : string * SignedManifest) : nat :=
  let '(community_id, signed) := cs in
  if negb (bool_decide (cm_public_key (sm_manifest signed) = own_pk w)) then 0%nat
  else (event_sends (ManifestUpdate signed) +
    sum_list ((λ id, match app_channels (w_app w) !! ulid_to_string id with
                     | Some ch => event_sends (ChannelManifestBroadcast (mkBroadcast ch))
                     | None => 0
                     end) <$> cm_channel_ids (sm_manifest signed)) +
    match app_members (w_app w) !! community_id with
    | Some list => sum_list ((λ m, event_sends (MemberJoined m)) <$> (hash_order list).*2)
    | None => 0
    end)%nat.
Definition peer_publishes w : nat := sum_list (community_publishes w <$> hash_order (app_communities (w_app w))).
Definition peer_connected_trace (community_id : string) w : list Action :=
  peer_connected_locks (bool_decide (is_Some (known_community_pk community_id w)))
    (bool_decide (is_Some (app_dht (w_app w)))) (peer_publishes w).
Definition sends (p : list Action) : nat := sum_list ((λ a, match a with SendCommand => 1%nat | _ => 0%nat end) <$> p).

Lemma commands_publish_event topic e w : commands (publish_event topic e w) = (commands w + event_sends e)%nat.
Proof using Type.
  unfold publish_event, event_sends. destruct (to_allocvec e) as [data|]; [apply commands_emit|lia].
Qed.
Lemma commands_foldl {A} (f : World T → A → World T) (n : A → nat) l :
  (∀ w a, commands (f w a) = (commands w + n a)%nat) → ∀ w, commands (foldl f w l) = (commands w + sum_list (n <$> l))%nat.
Proof using Type.
  intros Hf. induction l as [|a l IH]; intros w; cbn; [lia|]. rewrite IH, Hf. lia.
Qed.
Lemma commands_publish_community w0 w cs : commands (publish_community w0 w cs) = (commands w + community_publishes w0 cs)%nat.
Proof using Type.
  destruct cs as [c signed]. unfold publish_community, community_publishes. destruct (negb _); [lia|].
  set (ch := λ id, match app_channels _ !! ulid_to_string id with Some ch => event_sends _ | None => _ end).
  destruct (app_members (w_app w0) !! c) as [l|].
  - rewrite (commands_foldl _ (λ m, event_sends (MemberJoined m))) by (intros; apply commands_publish_event).
    rewrite (commands_foldl _ ch), commands_publish_event; [lia|].
    intros w1 id. unfold ch. destruct (_ !! _); [apply commands_publish_event|lia].
  - rewrite (commands_foldl _ ch), commands_publish_event; [lia|].
    intros w1 id. unfold ch. destruct (_ !! _); [apply commands_publish_event|lia].
Qed.

Lemma sends_app p q : sends (p ++ q) = (sends p + sends q)%nat.
Proof using Type. unfold sends. by rewrite fmap_app, sum_list_with_app || (rewrite fmap_app; induction p as [|a p IH]; cbn in *; lia). Qed.
Lemma sends_replicate n : sends (replicate n SendCommand) = n.
Proof using Type. induction n as [|n IH]; [done|]. change (replicate (S n) SendCommand) with ([SendCommand] ++ replicate n SendCommand). by rewrite sends_app, IH. Qed.
Lemma community_publishes_ext w w' cs :
  app_channels (w_app w') = app_channels (w_app w) → app_members (w_app w') = app_members (w_app w) →
  app_signing_key (w_app w') = app_signing_key (w_app w) → community_publishes w' cs = community_publishes w cs.
Proof using Type. intros Hch Hm Hk. unfold community_publishes, own_pk. by rewrite Hch, Hm, Hk. Qed.
Lemma spawned_quietly (f : World T → string * SignedManifest → World T) l :
  (∀ w cs, w_app (f w cs) = w_app w ∧ commands (f w cs) = commands w) → ∀ w, w_app (foldl f w l) = w_app w ∧ commands (foldl f w l) = commands w.
Proof using Type.
  intros Hf. induction l as [|cs l IH]; intros w; [done|]. cbn [foldl]. destruct (IH (f w cs)) as [-> ->]. apply Hf.
Qed.
(** The trace sends what the handler sends. *)
Lemma peer_connected_sends peer c w : commands (handle_peer_connected peer c w) = (commands w + sends (peer_connected_trace c w))%nat.
Proof using Type.
  unfold handle_peer_connected. cbv zeta.
  match goal with |- context [update_peer_count ?w] => set (w1 := update_peer_count w) end.
  assert (known_community_pk c w1 = known_community_pk c w) as -> by done.
  set (w2 := command (CmdFetchMailbox peer) _).
  assert (w_app w2 = w_app w1 ∧ commands w2 = commands w1 + (if bool_decide (is_Some (known_community_pk c w)) then 1 else 0) + 1)%nat as [Ha2 Hc2].
  { unfold w2. destruct (known_community_pk c w); (split; [done|]); unfold command; rewrite !commands_emit; [rewrite bool_decide_true by done|rewrite bool_decide_false by by intros []]; lia. }
  match goal with |- commands (foldl (publish_community ?w) _ _) = _ => set (w3 := w) end.
  assert (w_app w3 = w_app w2 ∧ commands w3 = commands w2) as [Ha3 Hc3].
  { unfold w3. destruct (app_dht (w_app w2)); [|done]. apply spawned_quietly. intros v cs. split; [done|]. rewrite !commands_emit. lia. }
  rewrite (commands_foldl _ (community_publishes w)).
  2:{ intros v cs. rewrite commands_publish_community. f_equal. by apply community_publishes_ext; rewrite Ha3, Ha2. }
  rewrite Hc3, Hc2, Ha2. change (commands w1) with (commands w).
  unfold peer_connected_trace, peer_connected_locks. rewrite sends_app, sends_replicate. unfold peer_publishes.
  change (app_communities (w_app w1)) with (app_communities (w_app w)).
  destruct (bool_decide _), (bool_decide _); cbn; lia.
Qed.

Lemma sum_list_elem n l : n ∈ l → (n ≤ sum_list l)%nat.
Proof using Type. induction 1 as [n l|n m l _ IH]; cbn; lia. Qed.

(** C3: the founder of a community with as many members as the command queue has places. When a
    peer connects, the handler sends more commands than fit (one for each member, a manifest and
    the rest); if the network task is then delivering an event into a full event queue, both wait
    for each other, and nothing that can happen to the client ends it. *)
Theorem crowd_jams_client may_grant `{!LockPolicy may_grant} calls peer c w signed members :
  (∀ e : NetworkEvent, is_Some (to_allocvec e)) →
  app_communities (w_app w) !! c = Some signed → cm_public_key (sm_manifest signed) = own_pk w →
  app_members (w_app w) !! c = Some members → (CMD_CAPACITY ≤ size members)%nat →
  let p := peer_connected_trace c w in
  commands (handle_peer_connected peer c w) = (commands w + sends p)%nat ∧ made_of event_piece p ∧
  ∃ s, rtc (moves may_grant (eq p) calls) (machine_start 0) s ∧ full s ∧
    ∀ s', rtc (moves may_grant (eq p) calls) s s' → full s'.
Proof using All.
  intros Hevent Hs Hown Hm Hsize p. split_and!; [apply peer_connected_sends|apply peer_connected_made|].
  assert (S CMD_CAPACITY ≤ peer_publishes w)%nat as Hn.
  { assert (community_publishes w (c, signed) ≤ peer_publishes w)%nat as Hle.
    { apply sum_list_elem, list_elem_of_fmap. exists (c, signed). split; [done|]. rewrite hash_order_perm. by apply elem_of_map_to_list. }
    assert (∀ e, event_sends e = 1%nat) as Hone by (intros e; unfold event_sends; by destruct (Hevent e) as [d ->]).
    assert (sum_list ((λ m, event_sends (MemberJoined m)) <$> (hash_order members).*2) = size members) as Hall.
    { assert (length (hash_order members).*2 = size members) as <- by by rewrite length_fmap, hash_order_perm, length_map_to_list.
      induction (hash_order members).*2 as [|m l IH]; [done|]. cbn. rewrite Hone, IH. done. }
    revert Hle. unfold community_publishes. rewrite bool_decide_true by done. cbn [negb]. rewrite Hm, Hall, Hone. lia. }
  unfold p, peer_connected_trace, peer_connected_locks. set (pre := peer_connected_reads _ _).
  replace (peer_publishes w) with (S CMD_CAPACITY + (peer_publishes w - S CMD_CAPACITY))%nat by lia.
  rewrite replicate_add. set (rest := replicate (_ - _) _).
  destruct (queues_can_jam may_grant (eq (pre ++ replicate (S CMD_CAPACITY) SendCommand ++ rest)) calls pre rest)
    as (s & Hr & Hfull & Hjam); [apply alone_peer_connected|done|].
  exists s. split_and!; [exact Hr|exact Hfull|]. intros s' Hs'. destruct (Hjam s' Hs') as (? & ? & ? & t & Ht & Hp).
  unfold full. split_and!; [done..|]. exists t. by rewrite Hp.
Qed.
End crowd.
