(* ===== verification/Sends.v ===== *)
(** * Messages sent at the same time

    [message_send] ([core/api/rpc_server/message.rs]) cut at its locks: the checks, the key, the
    message log, the embedded store, the queue of commands, the members. Run alone it is the
    method of [RpcMessage]; any number of calls for one channel, interleaved with each other and
    with whatever leaves the channel's messages alone, end with every acknowledged message once
    in the log and once on the wire, and nothing else. *)

From S2P Require Import Prelude Bytes Config Redb Routing Kademlia Crypto Codec Model ClientState Store DhtNode Handler.
From S2P Require Import AppState ChannelEvents CommunityEvents ManifestEvents ClientEvents AppStart.
From S2P Require Import Identity Rpc Passphrase RpcMessage RpcMember RpcChannel Concurrency.

Section sends.
Context {T : Type} `{Crypto} `{Table T} `{NodeCodecs} `{HashOrder} `{UlidText} `{UlidParse} `{AddrText}.
Context `{Entropy} `{AppCodecs}.
Implicit Types w : World T.

Definition notify_sent (p : SendMessageParams) (raw : RawMessage) : Task T MessageInfo :=
  locked (author_name ← gets (λ w, mr_display_name <$> member_of (smp_community_id p) (hex (rm_author_id raw)) w);
          notify (PushMessageNew (mkMessageEvent (ulid_to_string (rm_id raw)) (smp_channel_id p) (smp_community_id p)
                    (hex (rm_author_id raw)) author_name (rm_timestamp raw) None))) (λ _,
  Finished (Reply (sent_info p raw))).
Definition publish_sent (p : SendMessageParams) (raw : RawMessage) : Task T MessageInfo :=
  locked (publish (channel_topic (smp_channel_id p)) (NewMessage raw)) (λ _, notify_sent p raw).
Definition persist_sent (p : SendMessageParams) (raw : RawMessage) : Task T MessageInfo :=
  locked (step (persist_own (smp_community_id p) raw)) (λ _, publish_sent p raw).
(** Encryption and signing take no lock; the message log is taken to append. *)
Definition append_sent (ev : RpcEnv) (p : SendMessageParams) (key : bytes) : Task T MessageInfo :=
  locked (raw ← create_own ev "message" (smp_channel_id p) key (TextContent (smp_body p) [] (smp_reply_to p ≫= parse_ulid) None);
          step (append_own (smp_channel_id p) raw id);;
          mret raw) (persist_sent p).
Definition keyed_send (ev : RpcEnv) (p : SendMessageParams) : Task T MessageInfo :=
  locked (channel_key_of (smp_channel_id p)) (append_sent ev p).
Definition admitted_send (ev : RpcEnv) (p : SendMessageParams) : Task T MessageInfo :=
  locked (check_announcement (smp_community_id p) (smp_channel_id p)) (λ _, keyed_send ev p).
Definition send_task (ev : RpcEnv) (p : SendMessageParams) : Task T MessageInfo :=
  locked (check (negb (bool_decide (smp_body p = ""%string))) (invalid_params "body must not be empty");;
          require_seed_connected (smp_community_id p)) (λ _, admitted_send ev p).

(** Without interruption it is the method. *)
Lemma send_task_run ev p w : run_task (send_task ev p) w = message_send ev p w.
Proof using Type.
  unfold send_task, message_send. rewrite run_locked. unfold mbind, rpc_bind. destruct (check _ _ w) as [[[]|c s|] w1]; [|done..].
  destruct (require_seed_connected _ w1) as [[[]|c s|] w2]; [|done..]. unfold admitted_send. rewrite run_locked. unfold mbind, rpc_bind.
  destruct (check_announcement _ _ w2) as [[[]|c s|] w3]; [|done..]. unfold keyed_send. rewrite run_locked. unfold mbind, rpc_bind.
  destruct (channel_key_of _ w3) as [[key|c s|] w4]; [|done..]. unfold append_sent. rewrite run_locked. unfold mbind, rpc_bind.
  by destruct (create_own _ _ _ _ _ w4) as [[raw|c s|] w5].
Qed.

(** What the client has in a channel's log, and what it has published there. *)
Definition written (raw : RawMessage) : string * bytes * bytes := (ulid_to_string (rm_id raw), rm_nonce raw, rm_ciphertext raw).
Definition logged (c : string) w : list (string * bytes * bytes) :=
  (λ e, (le_message_id e, le_nonce e, le_ciphertext e)) <$> entries_of c (app_message_log (w_app w)).
Definition new_message_on (topic : string) (o : Output) : option RawMessage :=
  match o with
  | Cmd (CmdPublish t data) =>
      if bool_decide (t = topic) then match from_bytes data with Some (NewMessage raw) => Some raw | _ => None end else None
  | _ => None
  end.
Definition published (c : string) w : list RawMessage := omap (new_message_on (channel_topic c)) (w_out w).

(** How far a call has come: the message it has written, and whether it has published it. *)
Inductive stage (ev : RpcEnv) (p : SendMessageParams) : Task T MessageInfo → option RawMessage → bool → Prop :=
  | at_start : stage ev p (send_task ev p) None false
  | at_admitted : stage ev p (admitted_send ev p) None false
  | at_permitted : stage ev p (keyed_send ev p) None false
  | at_keyed key : stage ev p (append_sent ev p key) None false
  | at_appended raw : stage ev p (persist_sent p raw) (Some raw) false
  | at_persisted raw : stage ev p (publish_sent p raw) (Some raw) false
  | at_published raw : stage ev p (notify_sent p raw) (Some raw) true
  | at_replied raw : stage ev p (Finished (Reply (sent_info p raw))) (Some raw) true
  | at_refused code msg : stage ev p (Finished (Fail code msg)) None false.
End sends.

Section together.
Context {T : Type} `{CryptoLaws} `{TableLaws T} `{NodeCodecsLaws} `{HashOrderLaws} `{UlidText} `{UlidParse} `{AddrText}.
Context `{EntropyLaws} `{AppCodecsLaws} `{!PostcardLaws MessageContent}.
Context (Haead : ∀ k n m, is_Some (aead_encrypt k n m)) (Hcontent : ∀ c : MessageContent, is_Some (to_allocvec c)).
Context (Hevent : ∀ e : NetworkEvent, is_Some (to_allocvec e)).
Implicit Types w : World T.

Definition gained {A} (before after : option A) : list A := match before, after with None, Some a => [a] | _, _ => [] end.
Definition put_out (before after : bool) (o : option RawMessage) : list RawMessage :=
  if before then [] else if after then match o with Some raw => [raw] | None => [] end else [].

Lemma logged_append c raw w : logged c (append_own c raw id w) = logged c w ++ [written raw].
Proof using Type. unfold logged, append_own, append. cbn. rewrite entries_of_set, bool_decide_true by done. by rewrite fmap_app. Qed.
Lemma quiet_persist c c' raw w : logged c (persist_own c' raw w) = logged c w ∧ published c (persist_own c' raw w) = published c w.
Proof using Type.
  unfold logged, published. rewrite persist_own_out. destruct (persist_own_app c' raw w) as [s ->]. by split.
Qed.

(** One step of a call. *)
Lemma stage_step ev p t o b f w :
  stage ev p t o b → t = Atomic f →
  ∃ o' b', stage ev p (f w).2 o' b' ∧ (∀ raw, o = Some raw → o' = Some raw) ∧ (b = true → b' = true) ∧
    logged (smp_channel_id p) (f w).1 = logged (smp_channel_id p) w ++ (written <$> gained o o') ∧
    published (smp_channel_id p) (f w).1 = published (smp_channel_id p) w ++ put_out b b' o'.
Proof using All.
  intros Hst. unfold invalid_params in *. destruct Hst; intros [= <-]; cbv beta.
  - unfold invalid_params. rewrite (rpc_bind_refuse _ _ _ _ (check_spec _ _ _ w)). destruct (unless _ _ _) as [[c m]|].
    + exists None, false. rewrite !app_nil_r. split; [constructor|done].
    + rewrite require_seed_spec. destruct (seed_refusal _ _) as [[c m]|]; exists None, false; rewrite !app_nil_r; by split; [constructor|].
  - rewrite announcement_spec. destruct (announcement_refusal _ _ _) as [[c m]|]; exists None, false; rewrite !app_nil_r; by split; [constructor|].
  - rewrite channel_key_spec. destruct (_ !! _) as [key|]; exists None, false; rewrite !app_nil_r; by split; [constructor|].
  - match goal with |- context [create_own ev "message" ?ch key ?content] =>
      pose proof (create_own_spec Haead Hcontent Hevent ev "message" ch key content w) as Hc end.
    destruct (parse_ulid (smp_channel_id p)) as [u|].
    + destruct Hc as (raw & Hc & _). rewrite (rpc_bind_ok _ _ _ _ _ Hc), (rpc_bind_ok _ _ _ _ _ (step_run _ _)).
      exists (Some raw), false. split; [constructor|]. split; [done|]. split; [done|]. cbn [fst snd mret rpc_ret].
      rewrite logged_append. rewrite app_nil_r. by split.
    + rewrite (rpc_bind_err _ _ _ _ _ _ Hc). exists None, false. rewrite !app_nil_r. by split; [constructor|].
  - exists (Some raw), false. split; [constructor|]. split; [done|]. split; [done|]. cbn. rewrite !app_nil_r. apply quiet_persist.
  - unfold publish_event. destruct (Hevent (NewMessage raw)) as [data Hd]. rewrite Hd. apply postcard_roundtrip in Hd.
    exists (Some raw), true. split; [constructor|]. split; [done|]. split; [done|]. cbn. rewrite app_nil_r. split; [done|].
    unfold published, command, emit. cbn. rewrite omap_app. cbn. by rewrite bool_decide_true, Hd.
  - exists (Some raw), true. split; [constructor|]. split; [done|]. split; [done|]. cbn. rewrite !app_nil_r. split; [done|].
    unfold published, broadcast, emit. cbn. by rewrite omap_app, app_nil_r.
Qed.
Lemma stage_out ev p t o b : stage ev p t o b → b = true → is_Some o.
Proof using Type. by destruct 1. Qed.
Lemma stage_end ev p r o b : stage ev p (Finished r) o b →
  match r with Reply info => ∃ raw, info = sent_info p raw ∧ o = Some raw ∧ b = true | Fail _ _ => o = None ∧ b = false | Crash => False end.
Proof using Type.
  intros Hst. remember (Finished r) as t eqn:Ht. destruct Hst; try discriminate; injection Ht as <-; [by eexists|done].
Qed.

(** The messages of a pool of calls for one channel, in the order of the log and in the order of the
    wire, each with the call it is of; how far each call has come. *)
Record accounted (c : string) (calls : list (RpcEnv * SendMessageParams)) w0 (ts : list (Task T MessageInfo)) w
    (sts : list (option RawMessage * bool)) (mem pub : list (nat * RawMessage)) : Prop := {
  ac_logged : logged c w = logged c w0 ++ (written <$> mem.*2);
  ac_published : published c w = published c w0 ++ pub.*2;
  ac_mem_once : NoDup mem;
  ac_pub_once : NoDup pub;
  ac_stages i call t st : calls !! i = Some call → ts !! i = Some t → sts !! i = Some st → stage call.1 call.2 t st.1 st.2;
  ac_tasks : length ts = length calls;
  ac_lengths : length sts = length calls;
  ac_mem i raw : (i, raw) ∈ mem ↔ ∃ b, sts !! i = Some (Some raw, b);
  ac_pub i raw : (i, raw) ∈ pub ↔ sts !! i = Some (Some raw, true) }.

Lemma once_app {A} (l : list (nat * A)) i new :
  NoDup l → (length new ≤ 1)%nat → (∀ a, new ≠ [] → (i, a) ∉ l) → NoDup (l ++ ((i,.) <$> new)).
Proof using Type.
  intros Hl Hlen Hnew. destruct new as [|a [|]]; [by rewrite app_nil_r| |cbn in Hlen; lia].
  apply NoDup_app. split; [done|]. split; [|apply NoDup_singleton]. intros x Hx ->%list_elem_of_singleton. by apply (Hnew a).
Qed.
Lemma elem_of_tagged {A} (l : list (nat * A)) i new j (a : A) :
  (j, a) ∈ l ++ ((i,.) <$> new) ↔ (j, a) ∈ l ∨ j = i ∧ a ∈ new.
Proof using Type. rewrite elem_of_app, list_elem_of_fmap. naive_solver. Qed.
Lemma accounted_step c calls w0 env ts w sts mem pub ts' w' :
  (∀ v v', env v v' → logged c v' = logged c v ∧ published c v' = published c v) →
  Forall (λ call, smp_channel_id call.2 = c) calls →
  pool_step env (ts, w) (ts', w') → accounted c calls w0 ts w sts mem pub →
  ∃ sts' mem' pub', accounted c calls w0 ts' w' sts' mem' pub'.
Proof using All.
  intros Henv Hc Hstep Ha. inversion Hstep as [ts0 w1 i f Hi|ts0 w1 w2 He]; subst.
  2:{ destruct (Henv _ _ He) as [Hl Hp]. exists sts, mem, pub. destruct Ha. split; congruence || done. }
  destruct (lookup_lt_is_Some_2 calls i) as [[ev p] Hcall].
  { rewrite <- (ac_tasks _ _ _ _ _ _ _ _ Ha). by eapply lookup_lt_Some. }
  destruct (lookup_lt_is_Some_2 sts i) as [[o b] Hs].
  { rewrite (ac_lengths _ _ _ _ _ _ _ _ Ha). by eapply lookup_lt_Some. }
  pose proof (ac_stages _ _ _ _ _ _ _ _ Ha i _ _ _ Hcall Hi Hs) as Hst. cbn [fst snd] in Hst.
  pose proof (stage_out _ _ _ _ _ Hst) as Hout.
  destruct (stage_step ev p _ o b f w Hst eq_refl) as (o' & b' & Hst' & Ho & Hb & Hl & Hp).
  rewrite Forall_lookup in Hc. specialize (Hc i _ Hcall). cbn in Hc. rewrite Hc in Hl, Hp.
  assert (i < length ts)%nat as Hlt by by eapply lookup_lt_Some. assert (i < length sts)%nat as Hlt' by by eapply lookup_lt_Some.
  pose proof (ac_mem _ _ _ _ _ _ _ _ Ha) as Hmem. pose proof (ac_pub _ _ _ _ _ _ _ _ Ha) as Hpub.
  exists (<[i := (o', b')]> sts), (mem ++ ((i,.) <$> gained o o')), (pub ++ ((i,.) <$> put_out b b' o')). split.
  - rewrite Hl, (ac_logged _ _ _ _ _ _ _ _ Ha), <- app_assoc. f_equal. rewrite !fmap_app. f_equal. by destruct o, o'.
  - rewrite Hp, (ac_published _ _ _ _ _ _ _ _ Ha), <- app_assoc. f_equal. rewrite fmap_app. f_equal. by destruct b, b', o'.
  - apply once_app; [apply Ha|by destruct o, o'; cbn; lia|]. intros a Hne [b0 Hin]%Hmem. rewrite Hs in Hin. by injection Hin as -> _.
  - apply once_app; [apply Ha|by destruct b, b', o'; cbn; lia|]. intros a Hne Hin%Hpub. rewrite Hs in Hin. by injection Hin as -> ->.
  - intros j call t st Hj Ht Hsj. destruct (decide (j = i)) as [->|Hne].
    + rewrite list_lookup_insert_eq in Ht by done. rewrite list_lookup_insert_eq in Hsj by done. injection Ht as <-. injection Hsj as <-.
      rewrite Hcall in Hj. by injection Hj as <-.
    + rewrite list_lookup_insert_ne in Ht by done. rewrite list_lookup_insert_ne in Hsj by done.
      by eapply (ac_stages _ _ _ _ _ _ _ _ Ha).
  - rewrite length_insert. apply Ha.
  - rewrite length_insert. apply Ha.
  - intros j raw. rewrite elem_of_tagged, Hmem. destruct (decide (j = i)) as [->|Hne].
    + rewrite list_lookup_insert_eq, Hs by done. destruct o as [a|], o' as [a'|]; cbn; rewrite ?elem_of_nil, ?list_elem_of_singleton; naive_solver.
    + rewrite list_lookup_insert_ne by done. naive_solver.
  - intros j raw. rewrite elem_of_tagged, Hpub. destruct (decide (j = i)) as [->|Hne].
    + rewrite list_lookup_insert_eq, Hs by done. destruct o as [a|], o' as [a'|], b, b'; cbn; rewrite ?elem_of_nil, ?list_elem_of_singleton; naive_solver.
    + rewrite list_lookup_insert_ne by done. naive_solver.
Qed.

Definition sending (calls : list (RpcEnv * SendMessageParams)) : list (Task T MessageInfo) :=
  (λ call, send_task call.1 call.2) <$> calls.
Lemma accounted_run c calls env w ts' w' :
  (∀ v v', env v v' → logged c v' = logged c v ∧ published c v' = published c v) →
  Forall (λ call, smp_channel_id call.2 = c) calls →
  rtc (pool_step env) (sending calls, w) (ts', w') → ∃ sts mem pub, accounted c calls w ts' w' sts mem pub.
Proof using All.
  intros Henv Hc Hr. assert (∃ sts mem pub, accounted c calls w (sending calls) w sts mem pub) as H00.
  { exists (replicate (length calls) (None, false)), [], []. split; try (by rewrite app_nil_r); try apply NoDup_nil_2.
    - intros i call t st Hi Ht Hs. unfold sending in Ht. rewrite list_lookup_fmap, Hi in Ht. injection Ht as <-.
      apply lookup_replicate in Hs as [-> _]. constructor.
    - by apply length_fmap.
    - apply length_replicate.
    - intros i raw. rewrite elem_of_nil. split; [done|]. intros (b & [[=] _]%lookup_replicate).
    - intros i raw. rewrite elem_of_nil. split; [done|]. intros [[=] _]%lookup_replicate. }
  enough (∀ a z, rtc (pool_step env) a z → (∃ sts mem pub, accounted c calls w a.1 a.2 sts mem pub) →
    ∃ sts mem pub, accounted c calls w z.1 z.2 sts mem pub) as Hall by exact (Hall _ _ Hr H00).
  clear Hr H00. induction 1 as [|[ts1 w1] [ts2 w2] z Hstep _ IH]; [done|]. intros (sts & mem & pub & Ha). apply IH.
  by eapply accounted_step.
Qed.

(** C8: calls of [message_send] for one channel at the same time, interrupted at every lock by each
    other and by whatever writes no message of that channel. When all have returned, the log has
    got exactly one message for each call that replied and no other, and the wire the same
    messages, perhaps in another order; each reply describes the message of its call; a call
    that failed has written and published nothing, and no call panics. *)
Theorem concurrent_sends c calls env w ts' w' :
  (∀ v v', env v v' → logged c v' = logged c v ∧ published c v' = published c v) →
  Forall (λ call, smp_channel_id call.2 = c) calls →
  rtc (pool_step env) (sending calls, w) (ts', w') → ended ts' →
  ∃ mem pub : list (nat * RawMessage),
    logged c w' = logged c w ++ (written <$> mem.*2) ∧ published c w' = published c w ++ pub.*2 ∧
    pub ≡ₚ mem ∧ NoDup mem.*1 ∧ length ts' = length calls ∧
    (∀ i, i ∈ mem.*1 ↔ ∃ info, ts' !! i = Some (Finished (Reply info))) ∧
    ∀ i call, calls !! i = Some call → ∃ r, ts' !! i = Some (Finished r) ∧
      match r with
      | Reply info => ∃ raw, (i, raw) ∈ mem ∧ info = sent_info call.2 raw
      | Fail _ _ => i ∉ mem.*1
      | Crash => False
      end.
Proof using All.
  intros Henv Hc Hr Hend. destruct (accounted_run c calls env w ts' w' Henv Hc Hr) as (sts & mem & pub & [Hl Hp Hm1 Hp1 Hst Hts Hss Hmem Hpub]).
  assert (∀ i call, calls !! i = Some call → ∃ r o b, ts' !! i = Some (Finished r) ∧ sts !! i = Some (o, b) ∧
    match r with Reply info => ∃ raw, info = sent_info call.2 raw ∧ o = Some raw ∧ b = true | Fail _ _ => o = None ∧ b = false | Crash => False end) as Hall.
  { intros i call Hcall. apply lookup_lt_Some in Hcall as Hlt. destruct (lookup_lt_is_Some_2 ts' i) as [t Ht]; [lia|].
    destruct (lookup_lt_is_Some_2 sts i) as [[o b] Hs]; [lia|]. destruct (Hend i t Ht) as [r ->].
    exists r, o, b. split; [done|]. split; [done|]. exact (stage_end _ _ _ _ _ (Hst i call _ _ Hcall Ht Hs)). }
  exists mem, pub. split_and!; [exact Hl|exact Hp| | |exact Hts| |].
  - apply NoDup_Permutation; [done|done|]. intros [i raw]. rewrite Hmem, Hpub. split; [by eexists|]. intros [b Hs].
    destruct (lookup_lt_is_Some_2 calls i) as [call Hcall]; [rewrite <- Hss; by eapply lookup_lt_Some|].
    destruct (Hall i call Hcall) as (r & o & b' & _ & Hs' & Hr'). rewrite Hs in Hs'. injection Hs' as <- <-.
    destruct r; [by destruct Hr' as (? & _ & _ & ->)|by destruct Hr'|done].
  - apply NoDup_fmap_fst; [|done]. intros i r1 r2 [b1 H1']%Hmem [b2 H2']%Hmem. rewrite H1' in H2'. by injection H2'.
  - intros i. split.
    + intros ([j raw] & -> & [b Hs]%Hmem)%list_elem_of_fmap. cbn [fst].
      destruct (lookup_lt_is_Some_2 calls j) as [call Hcall]; [rewrite <- Hss; by eapply lookup_lt_Some|].
      destruct (Hall j call Hcall) as (r & o & b' & Ht & Hs' & Hr'). rewrite Hs in Hs'. injection Hs' as <- <-.
      destruct r as [info|cd m|]; [by exists info|by destruct Hr'|done].
    + intros [info Ht]. destruct (lookup_lt_is_Some_2 calls i) as [call Hcall]; [rewrite <- Hts; by eapply lookup_lt_Some|].
      destruct (Hall i call Hcall) as (r & o & b & Ht' & Hs & Hr'). rewrite Ht in Ht'. injection Ht' as <-.
      destruct Hr' as (raw & _ & -> & ->). apply list_elem_of_fmap. exists (i, raw). split; [done|]. apply Hmem. by exists true.
  - intros i call Hcall. destruct (Hall i call Hcall) as (r & o & b & Ht & Hs & Hr'). exists r. split; [done|].
    destruct r as [info|cd m|]; [| |done].
    + destruct Hr' as (raw & -> & -> & ->). exists raw. split; [apply Hmem; by exists true|done].
    + intros ([j raw] & -> & [b' Hin]%Hmem)%list_elem_of_fmap. cbn in Hs. rewrite Hs in Hin. destruct Hr' as [-> _]. discriminate Hin.
Qed.
End together.
