(* ===== verification/NodeClient.v ===== *)
(** * The client of a node: [bitcord-core/src/network/connection_manager.rs], [client.rs]

    A [ConnectionManager] sends one request per QUIC stream and reads one response. It
    connects on the first request and never again: a connection that has closed makes it
    [Down], so that no request runs on a session that has not authenticated. [NodeClient]
    has a method per request.

    The QUIC library and the node behind it are the class [Quic]: a state of type [N] that
    connecting and exchanging bytes change. A [NodeClient] is a reference to its manager,
    which its clones share. An error is the text that [anyhow] displays. *)

From stdpp Require Import pretty.
From S2P Require Import Prelude Bytes Routing Crypto Codec Model Protocol.

(** [connect]: a handshake with the pinned fingerprint. [open]: a bidirectional stream;
    [exchange]: what is written to it and what is read until the node ends its side. *)
Class Quic (N : Type) := {
  quic_endpoint : bytes → N → bool;
  quic_connect : NodeAddr → bytes → N → result string nat * N;
  quic_closed : nat → N → bool;
  quic_open : nat → N → result string unit;
  quic_exchange : nat → bytes → N → result string bytes * N }.
(** [Display] and [Debug] of values in error texts. *)
Class NetText := { addr_to_string : NodeAddr → string; debug_response : NodeResponse → string }.

(** ** [ConnectionManager] *)

Inductive ConnState := Fresh | Connected (conn : nat) | Down.
Record ConnectionManager := mkManager { cm_addr : NodeAddr; cm_fingerprint : bytes; cm_state : ConnState }.
Definition with_state (s : ConnState) (m : ConnectionManager) : ConnectionManager :=
  mkManager (cm_addr m) (cm_fingerprint m) s.

(** The managers, by reference, and the network. *)
Record NetWorld (N : Type) := mkNetWorld { nw_managers : list ConnectionManager; nw_net : N }.
Arguments mkNetWorld {N}.
Arguments nw_managers {N}.
Arguments nw_net {N}.

(** Fallible computations on it. *)
Definition Net (N A : Type) : Type := NetWorld N → result string A * NetWorld N.
#[export] Instance net_ret N : MRet (Net N) := λ A a n, (Ok a, n).
#[export] Instance net_bind N : MBind (Net N) := λ A B k m n,
  match m n with (Ok a, n') => k a n' | (Err e, n') => (Err e, n') end.
Definition bail {N A} (e : string) : Net N A := λ n, (Err e, n).
Definition lift {N A} (r : result string A) : Net N A := λ n, (r, n).
(** [.context(c)]: the error is displayed as [c]. *)
Definition context {N A} (c : string) (m : Net N A) : Net N A := λ n,
  match m n with (Err _, n') => (Err c, n') | out => out end.

(** The parts of a response frame: a short read is an error. *)
Definition read_response (frame : bytes) : result string bytes :=
  match read_exact 4 frame with
  | None => Err "read response length"%string
  | Some (len_buf, rest) =>
      match read_exact (Z.to_nat (of_be len_buf)) rest with
      | None => Err "read response payload"%string
      | Some (payload, _) => Ok payload
      end
  end.

Section client.
Context {N : Type} `{Quic N} `{Crypto} `{NetText} `{Postcard ClientRequest} `{Postcard NodeResponse}.
Implicit Types n : NetWorld N.

(** [ConnectionManager::new]. *)
Definition manager_new (addr : NodeAddr) (fp : bytes) : Net N nat := λ n,
  if quic_endpoint fp (nw_net n)
  then (Ok (length (nw_managers n)), mkNetWorld (nw_managers n ++ [mkManager addr fp Fresh]) (nw_net n))
  else (Err "create QUIC client endpoint"%string, n).

Definition set_state (r : nat) (s : ConnState) n : NetWorld N :=
  mkNetWorld (alter (with_state s) r (nw_managers n)) (nw_net n).
Definition down_text (addr : NodeAddr) : string :=
  "connection to " ++ addr_to_string addr ++ " is down; re-authentication required".

Definition try_connect (m : ConnectionManager) : Net N nat := λ n,
  let '(r, net) := quic_connect (cm_addr m) (cm_fingerprint m) (nw_net n) in
  (r, mkNetWorld (nw_managers n) net).

Definition get_connection (r : nat) : Net N nat := λ n,
  match nw_managers n !! r with
  | None => (Err ""%string, n)
  | Some m =>
      match cm_state m with
      | Fresh =>
          match context "initial connect" (try_connect m) n with
          | (Ok conn, n) => (Ok conn, set_state r (Connected conn) n)
          | (Err e, n) => (Err e, n)
          end
      | Connected conn =>
          if quic_closed conn (nw_net n)
          then (Err (down_text (cm_addr m)), set_state r Down n)
          else (Ok conn, n)
      | Down => (Err (down_text (cm_addr m)), n)
      end
  end.

Definition frame_of (req : ClientRequest) : result string bytes :=
  match encode_frame req with Ok f => Ok f | Err _ => Err "encode request"%string end.
Definition response_of (payload : bytes) : result string NodeResponse :=
  match decode_payload payload with Ok r => Ok r | Err _ => Err "decode response"%string end.

Definition request (r : nat) (req : ClientRequest) : Net N NodeResponse :=
  conn ← get_connection r;
  _ ← (λ n, (quic_open conn (nw_net n), n));
  frame ← lift (frame_of req);
  reply ← (λ n, let '(res, net) := quic_exchange conn frame (nw_net n) in (res, mkNetWorld (nw_managers n) net));
  payload ← lift (read_response reply);
  lift (response_of payload).

(** [reconnect_with_backoff]: the sleeps between the attempts, in milliseconds, and the
    outcome; [None]: no attempt was asked for, and the function panics. *)
Fixpoint backoff (r attempts : nat) (delay : Z) : NetWorld N → list Z * option (result string nat) * NetWorld N := λ n,
  match attempts with
  | O => ([], None, n)
  | S attempts' =>
      match nw_managers n !! r with
      | None => ([], None, n)
      | Some m =>
          match try_connect m n with
          | (Ok conn, n) => ([], Some (Ok conn), set_state r (Connected conn) n)
          | (Err _, n) =>
              match attempts' with
              | O => ([], Some (Err "max reconnect attempts exceeded"%string), n)
              | S _ => let '(sleeps, res, n) := backoff r attempts' (Z.min (delay * 2) 30000) n in (delay :: sleeps, res, n)
              end
          end
      end
  end.
Definition reconnect_with_backoff (r max_attempts : nat) : NetWorld N → list Z * option (result string nat) * NetWorld N :=
  backoff r max_attempts 100.

(** [push_reader_task] on the unidirectional streams the node opens, after which accepting
    fails: the pushes it forwards, and whether it marked the connection as down. *)
Fixpoint forward_pushes `{Postcard NodePush} (streams : list bytes) : list NodePush * bool :=
  match streams with
  | [] => ([], true)
  | stream :: streams =>
      match read_response stream with
      | Err _ => ([], false)
      | Ok payload =>
          let '(pushes, down) := forward_pushes streams in
          match decode_payload payload with Ok push => (push :: pushes, down) | Err _ => (pushes, down) end
      end
  end.
Definition push_reader_task `{Postcard NodePush} (r : nat) (streams : list bytes) n : list NodePush * NetWorld N :=
  match get_connection r n with
  | (Err _, n) => ([], n)
  | (Ok _, n) => let '(pushes, down) := forward_pushes streams in (pushes, if down then set_state r Down n else n)
  end.

(** ** [NodeClient] *)

(** Most methods name one response they accept; [None]: another one. *)
Definition failed (what : string) (code : Z) (msg : string) : string :=
  what ++ " failed (code=" ++ pretty code ++ "): " ++ msg.
Definition ask {A} (what : string) (accept : NodeResponse → option A) (r : nat) (req : ClientRequest) : Net N A :=
  resp ← request r req;
  match accept resp with
  | Some a => mret a
  | None =>
      match resp with
      | Error code msg => bail (failed what code msg)
      | other => bail ("unexpected " ++ what ++ " response: " ++ debug_response other)%string
      end
  end.

(** [NodeClient::connect] on a fresh nonce: the client and the node's key. *)
Definition connect (addr : NodeAddr) (fp : bytes) (sk nonce : bytes) : Net N (nat * bytes) :=
  r ← context "create connection manager" (manager_new addr fp);
  let sig := ed_sign sk nonce in
  resp ← context "authentication request" (request r (Authenticate (ed_public sk) (take 32 sig) (drop 32 sig) nonce));
  match resp with
  | Authenticated pk => mret (r, pk)
  | Error code msg => bail ("node rejected authentication (code=" ++ pretty code ++ "): " ++ msg)%string
  | other => bail ("unexpected authentication response: " ++ debug_response other)%string
  end.

Definition join_community (r : nat) (cert : HostingCert) (community_id password : option string) : Net N unit :=
  ask "join_community" (λ resp, match resp with Authenticated _ => Some tt | _ => None end) r
    (JoinCommunity cert community_id password).
Definition fetch_manifest (r : nat) (community_pk : bytes)
    : Net N (SignedManifest * list ChannelManifest * gmap string bytes * list MembershipRecord) :=
  ask "fetch_manifest"
    (λ resp, match resp with Manifest m chs keys ms => Some (m, chs, keys, ms) | _ => None end) r
    (FetchManifest community_pk).
Definition send_message (r : nat) (community_pk : bytes) (channel_id : Ulid) (nonce ciphertext : bytes) : Net N Z :=
  ask "send_message" (λ resp, match resp with MessageAck seq => Some seq | _ => None end) r
    (SendMessage community_pk channel_id nonce ciphertext).
Definition get_messages (r : nat) (community_pk : bytes) (channel_id : Ulid) (since_seq : Z) : Net N (list LogEntry) :=
  ask "get_messages" (λ resp, match resp with Messages es => Some es | _ => None end) r
    (GetMessages community_pk channel_id since_seq).
Definition send_dm (r : nat) (recipient_pk : bytes) (envelope : DmEnvelope) : Net N Z :=
  ask "send_dm" (λ resp, match resp with DmAck seq => Some seq | _ => None end) r (SendDm recipient_pk envelope).
Definition get_dms (r : nat) (since_seq : Z) : Net N (list LogEntry) :=
  ask "get_dms" (λ resp, match resp with Dms es => Some es | _ => None end) r (GetDms since_seq).
Definition find_node (r : nat) (target_id : bytes) : Net N (list (bytes * NodeAddr) * option NodeAddr) :=
  ask "find_node" (λ resp, match resp with ClosestPeers ps mb => Some (ps, mb) | _ => None end) r (FindNode target_id).
Definition store_dht_record (r : nat) (user_pk : bytes) (addr : NodeAddr) : Net N unit :=
  ask "store_dht_record" (λ resp, match resp with DhtAck => Some tt | _ => None end) r (StoreDhtRecord user_pk addr).
Definition store_community_peer (r : nat) (community_pk node_pk : bytes) (addr : NodeAddr) : Net N unit :=
  ask "store_community_peer" (λ resp, match resp with CommunityPeerAck => Some tt | _ => None end) r
    (StoreCommunityPeer community_pk node_pk addr).
Definition find_community_peers (r : nat) (community_pk : bytes) : Net N (list CommunityPeerRecord) :=
  ask "find_community_peers" (λ resp, match resp with CommunityPeers rs => Some rs | _ => None end) r
    (FindCommunityPeers community_pk).
Definition store_peer_info (r : nat) (peer_id ed25519_pk x25519_pk : bytes) (addr : NodeAddr) (display_name : string)
    (sig : bytes) : Net N unit :=
  ask "store_peer_info" (λ resp, match resp with PeerInfoAck => Some tt | _ => None end) r
    (StorePeerInfo peer_id ed25519_pk x25519_pk addr display_name (take 32 sig) (drop 32 sig)).
(** [now]: [DhtState::unix_now]. *)
Definition find_peer_info (r : nat) (now : Z) (peer_id : bytes) : Net N (option PeerInfoRecord) :=
  ask "find_peer_info"
    (λ resp, match resp with
             | PeerInfo x addr name => Some (Some (mkPeerInfo x addr now name))
             | Error code _ => if code =? 404 then Some None else None
             | _ => None
             end) r (FindPeerInfo peer_id).
Definition send_gossip (r : nat) (topic : string) (data : bytes) : Net N unit :=
  ask "send_gossip" (λ resp, match resp with GossipAck => Some tt | _ => None end) r (Gossip topic data).
Definition heartbeat (r : nat) : Net N unit :=
  resp ← request r Heartbeat;
  match resp with
  | Error code msg => bail ("heartbeat error (code=" ++ pretty code ++ "): " ++ msg)%string
  | _ => mret tt
  end.
Definition push_manifest (r : nat) (community_pk : bytes) (manifest : SignedManifest) (channels : list ChannelManifest)
    (channel_keys : gmap string bytes) (members : list MembershipRecord) : Net N unit :=
  ask "push_manifest" (λ resp, match resp with PushAck => Some tt | _ => None end) r
    (PushManifest community_pk manifest channels channel_keys members).
Definition push_history (r : nat) (community_pk : bytes) (channel_id : Ulid) (entries : list LogEntry) : Net N unit :=
  ask "push_history" (λ resp, match resp with PushAck => Some tt | _ => None end) r
    (PushHistory community_pk channel_id entries).
End client.

(** *** Waiting and reading *)

Section client_props.
Context {N : Type} `{Quic N}.
Implicit Types n : NetWorld N.

(** The sleeps double from their first up to thirty seconds, and there is one fewer than
    attempts. *)
Lemma backoff_sleeps r k delay n :
  0 < delay ≤ 30000 →
  let sleeps := (backoff r k delay n).1.1 in
  (length sleeps ≤ pred k)%nat ∧
  ∀ i d, sleeps !! i = Some d → d = Z.min (delay * 2 ^ Z.of_nat i) 30000.
Proof using Type.
  revert delay n. induction k as [|k IH]; intros delay n Hd; cbn; [done|].
  destruct (nw_managers n !! r) as [m|]; [|cbn; split; [lia|done]].
  destruct (try_connect m n) as [[conn|e] n1]; [cbn; split; [lia|done]|]. destruct k as [|k]; [done|].
  specialize (IH (Z.min (delay * 2) 30000) n1 ltac:(lia)).
  destruct (backoff r (S k) (Z.min (delay * 2) 30000) n1) as [[sleeps res] n2]. destruct IH as [Hlen Hs].
  split; [cbn in *; lia|]. intros [|i] d; [intros [= <-]; rewrite Z.pow_0_r; lia|].
  intros Hi. rewrite (Hs i d Hi), Nat2Z.inj_succ, Z.pow_succ_r by lia.
  assert (0 < 2 ^ Z.of_nat i) by (apply Z.pow_pos_nonneg; lia). nia.
Qed.
Theorem backoff_bounds r k n :
  let sleeps := (reconnect_with_backoff r k n).1.1 in
  (length sleeps ≤ pred k)%nat ∧ ∀ i d, sleeps !! i = Some d → d = Z.min (100 * 2 ^ Z.of_nat i) 30000.
Proof using Type. by apply backoff_sleeps. Qed.
End client_props.

Lemma read_response_frame payload :
  Z.of_nat (length payload) ≤ U32_MAX → read_response (be_bytes 4 (Z.of_nat (length payload)) ++ payload) = Ok payload.
Proof.
  intros Hlen. unfold read_response. rewrite (read_exact_app 4) by apply length_be_bytes. rewrite frame_len by done.
  rewrite <- (app_nil_r payload) at 2. by rewrite read_exact_app by lia.
Qed.
(** The pushes that the node frames are read back in their order. *)
Lemma forward_pushes_framed `{PostcardLaws NodePush} pushes frames :
  Forall2 (λ push f, encode_frame push = Ok f) pushes frames → forward_pushes frames = (pushes, true).
Proof.
  induction 1 as [|push f pushes frames Hf _ IH]; [done|]. apply encode_frame_spec in Hf as (payload & Hp & Hlen & ->).
  cbn [forward_pushes]. rewrite read_response_frame by done. rewrite IH. unfold decode_payload.
  by rewrite (postcard_roundtrip push payload Hp).
Qed.
