(* ===== verification/Wire.v ===== *)
(** * A node behind QUIC

    The requests of a [NodeClient] and the dispatcher of [Handler], joined by the frames of
    [Protocol]: an instance of [Quic] whose state is a [Node]. Every exchange is a step of
    the node, and the response the client returns is the one that [dispatch] made. *)

From S2P Require Import Prelude Bytes Redb Routing Crypto Codec Model Store DhtNode Protocol Handler NodeClient.

(** The node, the requests it has served, in order, and what it has pushed and started. *)
Record NodeNet (T : Type) := mkNodeNet {
  nn_node : Node T; nn_requests : list ClientRequest; nn_effects : list Effect }.
Arguments mkNodeNet {T}.
Arguments nn_node {T}.
Arguments nn_requests {T}.
Arguments nn_effects {T}.

(** What the node finds when it serves its [i]-th request, the client's address, and the
    fingerprints that its certificate passes. *)
Class NodeSite := { site_env : nat → Env; site_client : NodeAddr; site_pinned : bytes → bool }.

Section wire.
Context {T : Type} `{Crypto} `{Table T} `{NodeCodecs} `{HashOrder} `{UlidText} `{ErrorText}.
Context `{Postcard PeerInfoRecord} `{Postcard NodeAddr} `{Postcard NetworkEvent}.
Context `{Postcard ClientRequest} `{Postcard NodeResponse} `{NodeSite}.
Implicit Types nd : NodeNet T.

Definition nn_served nd : nat := length (nn_requests nd).
Definition sessions nd : gmap nat ClientSession := nd_sessions (nn_node nd).
Definition with_sessions (ss : gmap nat ClientSession) nd : NodeNet T :=
  mkNodeNet (mkNode (nd_services (nn_node nd)) ss) (nn_requests nd) (nn_effects nd).

(** Accepting a connection opens an empty session. *)
Definition accept nd : nat * NodeNet T :=
  let c := fresh (dom (sessions nd)) in
  (c, with_sessions (<[c := session_new]> (sessions nd)) nd).

(** The request loop on one stream of connection [c]: what it writes to the stream. *)
Definition serve_stream (c : nat) (stream : bytes) (sess : ClientSession) nd : bytes * NodeNet T :=
  match read_request (A := ClientRequest) stream with
  | CloseConnection => ([], with_sessions (delete c (sessions nd)) nd)
  | SkipStream => ([], nd)
  | GotRequest req =>
      let '(resp, sess, sv, effects) :=
        dispatch (site_env (nn_served nd)) site_client req sess (nd_services (nn_node nd)) in
      let served ss := mkNodeNet (mkNode sv ss) (nn_requests nd ++ [req]) (nn_effects nd ++ effects) in
      match encode_frame resp with
      | Ok frame => (frame, served (<[c := sess]> (sessions nd)))
      | Err _ => ([], served (delete c (sessions nd)))
      end
  end.

#[export] Instance node_quic : Quic (NodeNet T) := {|
  quic_endpoint _ _ := true;
  quic_connect _ fp nd :=
    if site_pinned fp then let '(c, nd) := accept nd in (Ok c, nd) else (Err "QUIC handshake"%string, nd);
  quic_closed c nd := bool_decide (sessions nd !! c = None);
  quic_open c nd :=
    match sessions nd !! c with Some _ => Ok tt | None => Err "open bidirectional QUIC stream"%string end;
  quic_exchange c stream nd :=
    match sessions nd !! c with
    | None => (Err "write request frame"%string, nd)
    | Some sess => let '(reply, nd) := serve_stream c stream sess nd in (Ok reply, nd)
    end |}.

(** The node after it has dispatched a request. *)
Definition dispatched (c : nat) (sess : ClientSession) (req : ClientRequest) nd : NodeResponse * NodeNet T :=
  let '(resp, sess, sv, effects) :=
    dispatch (site_env (nn_served nd)) site_client req sess (nd_services (nn_node nd)) in
  (resp, mkNodeNet (mkNode sv (<[c := sess]> (sessions nd))) (nn_requests nd ++ [req]) (nn_effects nd ++ effects)).
End wire.

Section wire_props.
Context {T : Type} `{CryptoLaws} `{TableLaws T} `{NodeCodecsLaws} `{HashOrderLaws} `{UlidText} `{ErrorText}.
Context `{Postcard PeerInfoRecord} `{Postcard NodeAddr} `{Postcard NetworkEvent}.
Context `{PostcardLaws ClientRequest} `{PostcardLaws NodeResponse} `{NodeSite} `{NetText}.
Implicit Types nd : NodeNet T.
Implicit Types n : NetWorld (NodeNet T).

(** A value whose frame fits: requests into the node's limit, responses into 32 bits. *)
Definition fits {A} `{Postcard A} (limit : Z) (a : A) : Prop :=
  ∃ b, to_allocvec a = Some b ∧ Z.of_nat (length b) <= limit.

(** Client [r] is on the live connection [c] with session [sess]. *)
Definition live (r c : nat) (sess : ClientSession) n : Prop :=
  ∃ m, nw_managers n !! r = Some m ∧ cm_state m = Connected c ∧ sessions (nw_net n) !! c = Some sess.

Lemma live_connection r c sess n : live r c sess n → get_connection r n = (Ok c, n).
Proof using Type.
  intros (m & Hm & Hs & Hc). unfold get_connection. rewrite Hm, Hs. cbn [quic_closed node_quic].
  by rewrite Hc, bool_decide_eq_false_2.
Qed.

Lemma request_dispatched r c sess req resp nd' n :
  live r c sess n → fits MAX_REQUEST req → fits U32_MAX resp →
  dispatched c sess req (nw_net n) = (resp, nd') →
  request r req n = (Ok resp, mkNetWorld (nw_managers n) nd').
Proof using Type*.
  intros Hl (b & Hb & Hlb) (a & Ha & Hla) Hd. unfold request, mbind, net_bind. rewrite (live_connection _ _ _ _ Hl).
  cbn [quic_open node_quic]. destruct Hl as (m & _ & _ & Hc). rewrite Hc.
  unfold lift, frame_of, encode_frame. rewrite Hb. cbn [ok_or mbind result_bind].
  rewrite (proj2 (Z.leb_le _ _)) by (unfold MAX_REQUEST, U32_MAX in *; lia). cbn [quic_exchange node_quic].
  rewrite Hc. unfold serve_stream.
  rewrite <- (app_nil_r b) at 2. rewrite (read_request_frame req b []) by done.
  unfold dispatched in Hd. destruct (dispatch _ _ _ _ _) as [[[resp0 sess'] sv] effects]. injection Hd as -> <-.
  unfold encode_frame. rewrite Ha. cbn [ok_or mbind result_bind]. rewrite (proj2 (Z.leb_le _ _)) by done.
  rewrite read_response_frame by done. unfold response_of, decode_payload. by rewrite (postcard_roundtrip resp a Ha).
Qed.

(** The first request connects. *)
Definition opened (r : nat) n : NetWorld (NodeNet T) :=
  mkNetWorld (alter (with_state (Connected (accept (nw_net n)).1)) r (nw_managers n)) (accept (nw_net n)).2.
Lemma opened_live r m n : nw_managers n !! r = Some m → live r (accept (nw_net n)).1 session_new (opened r n).
Proof using Type.
  intros Hm. exists (with_state (Connected (accept (nw_net n)).1) m). unfold opened. cbn.
  rewrite list_lookup_alter_eq, Hm. split; [done|]. split; [done|]. apply lookup_insert_eq.
Qed.
Lemma request_connects r m req n :
  nw_managers n !! r = Some m → cm_state m = Fresh → site_pinned (cm_fingerprint m) = true →
  request r req n = request r req (opened r n).
Proof using Type.
  intros Hm Hs Hp. pose proof (live_connection _ _ _ _ (opened_live r m n Hm)) as Hl.
  unfold request, mbind, net_bind. rewrite Hl.
  assert (get_connection r n = (Ok (accept (nw_net n)).1, opened r n)) as ->; [|done].
  unfold get_connection. rewrite Hm, Hs. unfold context, try_connect. cbn [quic_connect node_quic]. by rewrite Hp.
Qed.

Lemma authenticates addr sk nonce sess (sv : NodeServices T) (env : Env) :
  dispatch env addr (Authenticate (ed_public sk) (take 32 (ed_sign sk nonce)) (drop 32 (ed_sign sk nonce)) nonce) sess sv =
  (Authenticated (sv_node_pk sv), mkSession (Some (ed_public sk)) (joined_communities sess),
   map_dht (add_known_peer (ed_public sk) addr) sv, []).
Proof using Type*.
  cbn. unfold dispatch_authenticate, handle_authenticate. by rewrite ed_public_valid, take_drop, ed_sign_verify_strict.
Qed.

(** Connecting to a node whose certificate is accepted: an authenticated session. *)
Definition hello (sk nonce : bytes) : ClientRequest :=
  Authenticate (ed_public sk) (take 32 (ed_sign sk nonce)) (drop 32 (ed_sign sk nonce)) nonce.
Definition services n : NodeServices T := nd_services (nn_node (nw_net n)).
Lemma connect_authenticates addr fp sk nonce n :
  site_pinned fp = true → fits MAX_REQUEST (hello sk nonce) → fits U32_MAX (Authenticated (sv_node_pk (services n))) →
  let r := length (nw_managers n) in
  let c := fresh (dom (sessions (nw_net n))) in
  let sess := mkSession (Some (ed_public sk)) [] in
  ∃ n', connect addr fp sk nonce n = (Ok (r, sv_node_pk (services n)), n') ∧ live r c sess n' ∧
    services n' = map_dht (add_known_peer (ed_public sk) site_client) (services n) ∧
    sessions (nw_net n') = <[c := sess]> (sessions (nw_net n)) ∧ nn_effects (nw_net n') = nn_effects (nw_net n) ∧
    nn_requests (nw_net n') = nn_requests (nw_net n) ++ [hello sk nonce].
Proof using Type*.
  intros Hp Hreq Hresp r c sess. set (m := mkManager addr fp Fresh). set (n0 := mkNetWorld (nw_managers n ++ [m]) (nw_net n)).
  assert (nw_managers n0 !! r = Some m) as Hm by by apply list_lookup_middle.
  destruct (dispatched c session_new (hello sk nonce) (nw_net (opened r n0))) as [resp nd'] eqn:Hd.
  assert (resp = Authenticated (sv_node_pk (services n)) ∧
          nd' = mkNodeNet (mkNode (map_dht (add_known_peer (ed_public sk) site_client) (services n))
                             (<[c := sess]> (sessions (nw_net n)))) (nn_requests (nw_net n) ++ [hello sk nonce]) (nn_effects (nw_net n))) as [-> ->].
  { unfold dispatched, hello in Hd. rewrite authenticates in Hd. injection Hd as <- <-. split; [done|].
    unfold sessions, opened, accept, with_sessions. cbn. fold c. by rewrite insert_insert_eq, app_nil_r. }
  pose proof (request_connects r m (hello sk nonce) n0 Hm eq_refl Hp) as Hconn.
  rewrite (request_dispatched r c session_new _ _ _ _ (opened_live r m n0 Hm) Hreq Hresp Hd) in Hconn.
  eexists. split.
  { unfold connect, context, manager_new, mbind, net_bind. cbn [quic_endpoint node_quic]. fold m n0 r (hello sk nonce).
    rewrite Hconn. reflexivity. }
  split; [|split; [done|split; done]].
  exists (with_state (Connected c) m). unfold opened. cbn. rewrite list_lookup_alter_eq.
  split; [|split; [done|apply lookup_insert_eq]]. change (with_state (Connected c) <$> nw_managers n0 !! r = Some (with_state (Connected c) m)). by rewrite Hm.
Qed.

(** Another request on a live connection. *)
Lemma ask_dispatched {A} what (accept : NodeResponse → option A) r c sess req resp a sess' sv' effects n :
  live r c sess n → fits MAX_REQUEST req → fits U32_MAX resp →
  dispatch (site_env (nn_served (nw_net n))) site_client req sess (services n) = (resp, sess', sv', effects) →
  accept resp = Some a →
  ∃ n', ask what accept r req n = (Ok a, n') ∧ live r c sess' n' ∧ services n' = sv' ∧
    nn_requests (nw_net n') = nn_requests (nw_net n) ++ [req] ∧ nn_effects (nw_net n') = nn_effects (nw_net n) ++ effects.
Proof using Type*.
  intros Hl Hreq Hresp Hd Ha.
  assert (dispatched c sess req (nw_net n) = (resp, mkNodeNet (mkNode sv' (<[c := sess']> (sessions (nw_net n))))
            (nn_requests (nw_net n) ++ [req]) (nn_effects (nw_net n) ++ effects))) as Hdd.
  { unfold dispatched. fold (services n). by rewrite Hd. }
  eexists. split.
  - unfold ask, mbind, net_bind. rewrite (request_dispatched _ _ _ _ _ _ _ Hl Hreq Hresp Hdd), Ha. reflexivity.
  - destruct Hl as (m & Hm & Hs & _). split; [|done]. exists m. split; [done|]. split; [done|]. apply lookup_insert_eq.
Qed.
End wire_props.
