(* ===== verification/SeedSync.v ===== *)
(** * Copying a community to a new seed node

    [sync_community_to_seed] of [bitcord-core/src/api/rpc_server/community.rs], the task
    that [community_update_manifest] starts when the first seed changes: it connects,
    joins, pushes the manifest and then the history of each channel in batches. Run
    against the node of [Wire], it leaves the community's metadata and its logs there. The
    tables it reads are those of one moment: the code takes each lock by itself. *)

From S2P Require Import Prelude Bytes Redb Routing Crypto Codec Model ClientState SeqLog Protocol NodeClient.
From S2P Require Import Store DhtNode Handler AppState Wire.

(** [slice::chunks(n)]. *)
Fixpoint chunks_of {A} (fuel n : nat) (l : list A) : list (list A) :=
  match fuel, l with
  | S fuel, _ :: _ => take n l :: chunks_of fuel n (drop n l)
  | _, _ => []
  end.
Definition chunks {A} (n : nat) (l : list A) : list (list A) := chunks_of (length l) n l.

Lemma chunks_of_concat {A} fuel n (l : list A) :
  (0 < n)%nat → (length l ≤ fuel)%nat → concat (chunks_of fuel n l) = l.
Proof.
  intros Hn. revert l; induction fuel as [|fuel IH]; intros l Hl.
  - destruct l; [done|cbn in Hl; lia].
  - destruct l as [|x l]; [done|]. cbn [chunks_of concat]. rewrite IH, take_drop; [done|].
    rewrite length_drop. cbn in *. lia.
Qed.
Lemma chunks_concat {A} n (l : list A) : (0 < n)%nat → concat (chunks n l) = l.
Proof. intros Hn. by apply chunks_of_concat. Qed.
Lemma chunks_bound {A} n (l : list A) : Forall (λ c, (length c ≤ n)%nat) (chunks n l).
Proof.
  unfold chunks. generalize (length l) as fuel. intros fuel. revert l; induction fuel as [|fuel IH]; intros [|x l]; cbn [chunks_of]; auto.
  constructor; [rewrite length_take; lia|apply IH].
Qed.

(** ** The task *)

Section seed_sync.
Context {T N : Type} `{Quic N} `{Crypto} `{NetText} `{Postcard ClientRequest} `{Postcard NodeResponse}.
Context `{AddrText} `{UlidText} `{HashOrder}.
Implicit Types app : AppState T.

(** [for x in l { f(x)?; }]. *)
Fixpoint each {A} (f : A → Net N unit) (l : list A) : Net N unit :=
  match l with [] => mret tt | x :: l => _ ← f x; each f l end.

Definition sync_channels (manifest : SignedManifest) app : list ChannelManifest :=
  omap (λ cid, app_channels app !! ulid_to_string cid) (cm_channel_ids (sm_manifest manifest)).
Definition sync_members (community_id : string) app : list MembershipRecord :=
  match app_members app !! community_id with Some ms => (hash_order ms).*2 | None => [] end.
Definition channel_batches app (ch : ChannelManifest) : list (list LogEntry) :=
  chunks 500 (get_since (ulid_to_string (ch_id ch)) 0 (app_message_log app)).

(** [nonce]: the random bytes of the authentication. *)
Definition sync_community_to_seed app (community_id : string) (community_pk : bytes) (manifest : SignedManifest)
    (seed_addr_str : string) (nonce : bytes) : Net N unit :=
  match parse_node_addr seed_addr_str with
  | None => bail ("invalid seed address: " ++ seed_addr_str)%string
  | Some addr =>
      let cert_fp := default (replicate 32 0) (app_seed_fingerprints app !! seed_addr_str) in
      '(client, node_pk) ← connect addr cert_fp (app_signing_key app) nonce;
      let cert := cert_new (app_signing_key app) node_pk U64_MAX in
      _ ← join_community client cert (Some community_id) None;
      let channels := sync_channels manifest app in
      _ ← push_manifest client community_pk manifest channels (app_channel_keys app) (sync_members community_id app);
      each (λ ch, each (push_history client community_pk (ch_id ch)) (channel_batches app ch)) channels
  end.

(** The requests it makes, in order. *)
Definition sync_pushes app (manifest : SignedManifest) : list (Ulid * list LogEntry) :=
  ch ← sync_channels manifest app; (λ b, (ch_id ch, b)) <$> channel_batches app ch.
Definition sync_requests app (community_id : string) (manifest : SignedManifest) (nonce node_pk : bytes)
    : list ClientRequest :=
  let cpk := ed_public (app_signing_key app) in
  hello (app_signing_key app) nonce ::
  JoinCommunity (cert_new (app_signing_key app) node_pk U64_MAX) (Some community_id) None ::
  PushManifest cpk manifest (sync_channels manifest app) (app_channel_keys app) (sync_members community_id app) ::
  ((λ '(ch, b), PushHistory cpk ch b) <$> sync_pushes app manifest).
End seed_sync.

(** ** What pushes leave in the seed's logs *)

Definition renumbered (es : list LogEntry) (e : LogEntry) : LogEntry :=
  mkLogEntry (succ_seq le_seq es) (le_nonce e) (le_ciphertext e) (le_message_id e) (le_author_id e)
    (le_timestamp_ms e) false.
(** The log after entries were appended: each takes the next number, and none is deleted. *)
Definition log_extend (es entries : list LogEntry) : list LogEntry :=
  foldl (λ es e, es ++ [renumbered es e]) es entries.
(** What a list of pushes carries for one channel. *)
Definition pushed_to (c : Ulid) (pushes : list (Ulid * list LogEntry)) : list LogEntry :=
  push ← pushes; if decide (push.1 = c) then push.2 else [].

Definition room (es : list LogEntry) (k : nat) : Prop :=
  match last es with Some e => le_seq e + Z.of_nat k <= U64_MAX | None => Z.of_nat k <= U64_MAX end.
Lemma room_log_room es k : room es (S k) → log_room le_seq es.
Proof. unfold room, log_room. intros Hr e He. rewrite He in Hr. lia. Qed.
Lemma room_snoc es e k :
  Forall (λ e, is_u64 (le_seq e)) es → room es (S k) → room (es ++ [renumbered es e]) k.
Proof.
  unfold room. rewrite last_snoc. intros Hu Hr. cbn. unfold succ_seq. destruct (last es) as [x|] eqn:Hl; [|lia].
  apply last_Some_elem_of in Hl. rewrite Forall_forall in Hu. destruct (Hu _ Hl). rewrite wrap64_small by (split; lia). lia.
Qed.

Lemma log_extend_u64 es b : Forall (λ e, is_u64 (le_seq e)) es → Forall (λ e, is_u64 (le_seq e)) (log_extend es b).
Proof.
  revert es; induction b as [|e b IH]; intros es Hu; [done|]. cbn. apply IH, Forall_app. split; [done|].
  repeat constructor; apply (succ_seq_u64 le_seq).
Qed.
Lemma room_extend es b k :
  Forall (λ e, is_u64 (le_seq e)) es → room es (length b + k) → room (log_extend es b) k.
Proof.
  revert es; induction b as [|e b IH]; intros es Hu Hr; [done|]. cbn. apply IH; [|by apply room_snoc].
  by apply (log_extend_u64 es [e]).
Qed.
Lemma room_le es k k' : (k' ≤ k)%nat → room es k → room es k'.
Proof. unfold room. destruct (last es); lia. Qed.

Lemma log_extend_app es a b : log_extend es (a ++ b) = log_extend (log_extend es a) b.
Proof. apply foldl_app. Qed.
(** A dense log pushed to an empty channel arrives as it is, its deletion marks apart. *)
Lemma log_extend_dense l :
  dense_list l → Z.of_nat (length l) ≤ U64_MAX →
  log_extend [] l = (λ e, mkLogEntry (le_seq e) (le_nonce e) (le_ciphertext e) (le_message_id e) (le_author_id e)
    (le_timestamp_ms e) false) <$> l.
Proof.
  induction l as [|e l IH] using rev_ind; [done|]. intros Hd Hlen. rewrite length_app in Hlen. cbn in Hlen.
  rewrite log_extend_app, fmap_app, IH; [|intros i x Hx; apply Hd; by apply lookup_app_l_Some|lia]. cbn. f_equal. f_equal. unfold renumbered. f_equal.
  rewrite (Hd (length l) e) by (by apply list_lookup_middle). unfold succ_seq. rewrite fmap_last.
  destruct l as [|x l _] using rev_ind; [done|]. rewrite last_snoc. cbn.
  rewrite (Hd (length l) x) by (rewrite <- app_assoc; by apply list_lookup_middle).
  rewrite length_app in *. cbn in *. rewrite wrap64_small by (split; lia). lia.
Qed.

Section seed_props.
Context {T : Type} `{CryptoLaws} `{TableLaws T} `{NodeCodecsLaws} `{HashOrderLaws} `{UlidText} `{ErrorText}.
Context `{Postcard PeerInfoRecord} `{Postcard NodeAddr} `{Postcard NetworkEvent}.
Context `{PostcardLaws ClientRequest} `{PostcardLaws NodeResponse} `{NodeSite} `{NetText} `{AddrText}.
Implicit Types st : NodeStore T.
Implicit Types sv : NodeServices T.
Implicit Types n : NetWorld (NodeNet T).

(** Values of this type are encoded and encrypted. *)
Definition sealable (A : Type) `{Postcard A} st : Prop :=
  ∀ (a : A) rnd, length rnd = 24%nat → ∃ v, seal_value st rnd a = Ok v.
Lemma sealable_key A (codec : Postcard A) st st' : st_key st' = st_key st → sealable A st → sealable A st'.
Proof using Type. intros Hk Hs a rnd Hr. destruct (Hs a rnd Hr) as (v & Hv). exists v. unfold seal_value, store_encrypt in *. by rewrite Hk. Qed.

(** The logs of one community, and what appending to them leaves alone. *)
Definition logs_are (cpk : bytes) (L : Ulid → list LogEntry) st : Prop :=
  store_inv st ∧ st_online st = true ∧ ∀ c, is_u128 c → get_messages cpk c 0 st = Ok (L c).
Definition same_rest (cpk : bytes) st st' : Prop :=
  (META st', MAIL st', DHT_PEERS st', st_key st') = (META st, MAIL st, DHT_PEERS st, st_key st) ∧
  ∀ cpk' c since, wf_key cpk' → is_u128 c → is_u64 since → cpk' ≠ cpk →
    get_messages cpk' c since st' = get_messages cpk' c since st.
Lemma same_rest_trans cpk st st' st'' : same_rest cpk st st' → same_rest cpk st' st'' → same_rest cpk st st''.
Proof using Type. intros [Ha Hb] [Hc Hd]. split; [congruence|]. intros. rewrite Hd by done. by apply Hb. Qed.
Definition upd_log (c : Ulid) (es : list LogEntry) (L : Ulid → list LogEntry) : Ulid → list LogEntry :=
  λ c', if decide (c' = c) then es else L c'.
Lemma logs_are_ext cpk L L' st : (∀ c, L c = L' c) → logs_are cpk L st → logs_are cpk L' st.
Proof using Type. intros Heq (Hi & Ho & Hg). split; [done|]. split; [done|]. intros c Hc. rewrite <- Heq. by apply Hg. Qed.

Lemma logs_u64 cpk L st c : wf_key cpk → is_u128 c → logs_are cpk L st → Forall (λ e, is_u64 (le_seq e)) (L c).
Proof using Type*.
  intros Hpk Hc (Hi & _ & Hg). destruct (get_messages_holds _ _ _ _ Hi Hpk (Hg c Hc)) as [_ He].
  by apply (holds_log_u64 _ _ _ _ _ He).
Qed.

Lemma push_entry_spec rnd cpk ch e st L k :
  length rnd = 24%nat → wf_key cpk → is_u128 ch → sealable LogEntry st → logs_are cpk L st → room (L ch) (S k) →
  let st' := push_entry rnd cpk ch e st in
  logs_are cpk (upd_log ch (L ch ++ [renumbered (L ch) e]) L) st' ∧ same_rest cpk st st'.
Proof using Type*.
  intros Hr Hpk Hch Hs (Hi & Ho & Hg) Hroom%room_log_room st'. unfold st', push_entry.
  assert (∃ seq st1, append_message rnd cpk ch (le_nonce e) (le_ciphertext e) (le_message_id e) (le_author_id e)
            (le_timestamp_ms e) st = Ok (seq, st1)) as (seq & st1 & Happ).
  { unfold append_message, transaction. rewrite Ho. cbn [mbind result_bind].
    edestruct (λ a, Hs a rnd Hr) as (v & Hv). rewrite Hv. cbn. eauto. }
  rewrite Happ. destruct (append_message_holds _ _ _ _ _ _ _ _ _ _ _ _ Hi Hpk Hr (Hg ch Hch) Hroom Happ)
    as (Hseq & Hi' & Ho' & He').
  pose proof (append_message_step _ _ _ _ _ _ _ _ _ _ _ Hi Hpk Hr Happ) as (_ & _ & Hu & _ & v & _ & Heq).
  split.
  - split; [done|]. split; [done|]. intros c Hc. unfold upd_log. case_decide as Hd.
    + subst c. rewrite (get_messages_since cpk ch 0 st1 _ Hi' Hpk ltac:(auto with bytes_db) Ho' He').
      subst seq. f_equal. apply retain_all. intros x Hx. pose proof (holds_log_u64 _ _ _ _ _ He') as Hus.
      rewrite Forall_forall in Hus. destruct (Hus _ Hx). lia.
    + subst st1. rewrite get_messages_other; auto with bytes_db. congruence.
  - subst st1. split; [done|]. intros. apply get_messages_other; auto with bytes_db. congruence.
Qed.

Lemma push_entries_spec rnd cpk ch entries st L :
  (∀ i, length (rnd i) = 24%nat) → wf_key cpk → is_u128 ch → sealable LogEntry st → logs_are cpk L st →
  room (L ch) (length entries) →
  let st' := push_entries rnd cpk ch entries st in
  logs_are cpk (upd_log ch (log_extend (L ch) entries) L) st' ∧ same_rest cpk st st'.
Proof using Type*.
  intros Hr Hpk Hch. revert rnd st L Hr. induction entries as [|e entries IH]; intros rnd st L Hr Hs HL Hroom; cbn.
  { split; [|done]. eapply logs_are_ext, HL. intros c. unfold upd_log. by case_decide; subst. }
  destruct (push_entry_spec _ _ _ e _ _ _ (Hr 0%nat) Hpk Hch Hs HL Hroom) as [HL1 Hs1].
  set (st1 := push_entry (rnd 0%nat) cpk ch e st) in *.
  assert (upd_log ch (L ch ++ [renumbered (L ch) e]) L ch = L ch ++ [renumbered (L ch) e]) as Hch1
    by (unfold upd_log; by rewrite decide_True).
  destruct (IH (λ i, rnd (S i)) st1 _ (λ i, Hr (S i)) (sealable_key LogEntry _ st st1 ltac:(destruct Hs1; congruence) Hs) HL1) as [HL2 Hs2].
  { rewrite Hch1. apply room_snoc; [|done]. by eapply logs_u64. }
  rewrite Hch1 in HL2. split; [|by eapply same_rest_trans].
  eapply logs_are_ext, HL2. intros c. unfold upd_log. by case_decide.
Qed.

(** *** The requests of the task *)

Lemma net_then {A} (m : Net (NodeNet T) unit) (k : Net (NodeNet T) A) n :
  (_ ← m; k) n = match m n with (Ok _, n') => k n' | (Err e, n') => (Err e, n') end.
Proof using Type. unfold mbind, net_bind. by destruct (m n) as [[[]|] ?]. Qed.
Lemma each_flat {A K B} (k : A → K) (f : K → B → Net (NodeNet T) unit) (g : A → list B) l n :
  each (λ a, each (f (k a)) (g a)) l n = each (λ p, f p.1 p.2) (a ← l; (λ b, (k a, b)) <$> g a) n.
Proof using Type.
  assert (∀ (m : list (K * B)) bs a n, each (λ p, f p.1 p.2) (((λ b, (a, b)) <$> bs) ++ m) n =
            (_ ← each (f a) bs; each (λ p, f p.1 p.2) m) n) as Happ.
  { intros m bs a. induction bs as [|b bs IH]; intros n0; [done|]. cbn [fmap list_fmap app each fst snd]. rewrite !net_then.
    destruct (f a b n0) as [[[]|] n1]; [by rewrite IH, net_then|done]. }
  revert n. induction l as [|a l IH]; intros n; [done|].
  change ((a :: l) ≫= _) with (((λ b, (k a, b)) <$> g a) ++ (a ← l; (λ b, (k a, b)) <$> g a)).
  rewrite Happ. cbn [each]. rewrite !net_then. destruct (each (f (k a)) (g a) n) as [[[]|] n1]; [apply IH|done].
Qed.

Definition extended (L : Ulid → list LogEntry) (ps : list (Ulid * list LogEntry)) : Ulid → list LogEntry :=
  λ c, log_extend (L c) (pushed_to c ps).
Definition same_services sv sv' : Prop :=
  (sv_dht sv', sv_node_pk sv', sv_join_password sv') = (sv_dht sv, sv_node_pk sv, sv_join_password sv).

Lemma push_history_spec r c sess cpk ch b L n :
  live r c sess n → push_guard cpk sess = true → (∀ i, env_wf (site_env i)) → wf_key cpk → is_u128 ch →
  fits MAX_REQUEST (PushHistory cpk ch b) → fits U32_MAX PushAck →
  sealable LogEntry (sv_store (services n)) → logs_are cpk L (sv_store (services n)) → room (L ch) (length b) →
  ∃ n', push_history r cpk ch b n = (Ok tt, n') ∧ live r c sess n' ∧
    logs_are cpk (upd_log ch (log_extend (L ch) b) L) (sv_store (services n')) ∧
    same_rest cpk (sv_store (services n)) (sv_store (services n')) ∧ same_services (services n) (services n') ∧
    nn_requests (nw_net n') = nn_requests (nw_net n) ++ [PushHistory cpk ch b].
Proof using Type*.
  intros Hl Hg Henv Hpk Hch Hreq Hresp Hs HL Hr.
  set (ev := site_env (nn_served (nw_net n))).
  assert (dispatch ev site_client (PushHistory cpk ch b) sess (services n) =
    (PushAck, sess, with_store (push_entries (ev_rnd ev) cpk ch b (sv_store (services n))) (services n), [])) as Hd.
  { cbn. unfold dispatch_push_history. by rewrite Hg. }
  destruct (ask_dispatched "push_history" (λ resp, match resp with PushAck => Some tt | _ => None end) r c _ _ _ tt _ _ _ _
              Hl Hreq Hresp Hd eq_refl) as (n' & Hask & Hl' & Hsv & Hreqs & _).
  exists n'. split; [exact Hask|]. split; [done|]. rewrite Hsv. cbn.
  destruct (push_entries_spec (ev_rnd ev) cpk ch b _ L (Henv (nn_served (nw_net n))) Hpk Hch Hs HL Hr).
  split; [done|]. split; [done|]. by split.
Qed.

Lemma pushes_spec r c sess cpk ps L n :
  live r c sess n → push_guard cpk sess = true → (∀ i, env_wf (site_env i)) → wf_key cpk →
  Forall (λ p, is_u128 p.1 ∧ fits MAX_REQUEST (PushHistory cpk p.1 p.2)) ps → fits U32_MAX PushAck →
  sealable LogEntry (sv_store (services n)) → logs_are cpk L (sv_store (services n)) →
  (∀ ch, room (L ch) (length (pushed_to ch ps))) →
  ∃ n', each (λ p, push_history r cpk p.1 p.2) ps n = (Ok tt, n') ∧
    logs_are cpk (extended L ps) (sv_store (services n')) ∧
    same_rest cpk (sv_store (services n)) (sv_store (services n')) ∧ same_services (services n) (services n') ∧
    nn_requests (nw_net n') = nn_requests (nw_net n) ++ ((λ '(ch, b), PushHistory cpk ch b) <$> ps).
Proof using Type*.
  intros Hl Hg Henv Hpk Hps Hresp. revert L n Hl. induction Hps as [|[ch b] ps [Hch Hfit] _ IH]; intros L n Hl Hs HL Hroom.
  { exists n. split; [done|]. split; [done|]. split; [done|]. split; [done|]. by rewrite app_nil_r. }
  cbn [fst snd] in *. assert (∀ c', pushed_to c' ((ch, b) :: ps) = (if decide (ch = c') then b else []) ++ pushed_to c' ps) as Hto by done.
  destruct (push_history_spec r c sess cpk ch b L n) as (n1 & Hp1 & Hl1 & HL1 & Hr1 & Hs1 & Hq1); auto.
  { specialize (Hroom ch). rewrite Hto, decide_True, length_app in Hroom by done. eapply room_le, Hroom. lia. }
  destruct (IH _ n1 Hl1 ltac:(eapply sealable_key, Hs; destruct Hr1; congruence) HL1) as (n2 & Hp2 & HL2 & Hr2 & Hs2 & Hq2).
  { intros c'. specialize (Hroom c'). rewrite Hto in Hroom. unfold upd_log. destruct (decide (c' = ch)) as [Hd|Hd].
    - subst c'. rewrite decide_True, length_app in Hroom by done. apply room_extend; [by eapply logs_u64|done].
    - by rewrite decide_False in Hroom by congruence. }
  exists n2. split; [cbn [each fst snd]; by rewrite net_then, Hp1|].
  split; [|split; [by eapply same_rest_trans|split; [unfold same_services in *; congruence|by rewrite Hq2, Hq1, <- app_assoc]]].
  eapply logs_are_ext, HL2. intros c'. unfold extended. rewrite Hto. unfold upd_log.
  case_decide; subst; [rewrite decide_True by done; by rewrite log_extend_app|by rewrite decide_False by done].
Qed.

(** Changing the metadata of one community: the logs and everything else stay. *)
Definition meta_change (cpk : bytes) st st' : Prop :=
  store_inv st' ∧ (∀ cpk', cpk' ≠ cpk → get_community_meta cpk' st' = get_community_meta cpk' st) ∧
  (LOG st', MAIL st', DHT_PEERS st', st_key st', st_online st') = (LOG st, MAIL st, DHT_PEERS st, st_key st, st_online st).
Lemma meta_change_logs cpk st st' cpk' c since :
  meta_change cpk st st' → get_messages cpk' c since st' = get_messages cpk' c since st.
Proof using Type.
  intros (_ & _ & Heq). injection Heq as Hl _ _ Hk Ho.
  unfold get_messages, transaction, open_value, store_decrypt. by rewrite Hl, Hk, Ho.
Qed.
Lemma meta_change_trans cpk st st' st'' : meta_change cpk st st' → meta_change cpk st' st'' → meta_change cpk st st''.
Proof using Type.
  intros (_ & Ho & He) (Hi & Ho' & He'). split; [exact Hi|]. split; [intros cpk' Hne; by rewrite Ho', Ho|congruence].
Qed.
(** Appending to logs leaves the metadata alone. *)
Lemma same_rest_meta cpk st st' cpk' :
  same_rest cpk st st' → st_online st' = st_online st → get_community_meta cpk' st' = get_community_meta cpk' st.
Proof using Type.
  intros [Heq _] Ho. injection Heq as Hm _ _ Hk. unfold get_community_meta, transaction, open_value, store_decrypt. by rewrite Hm, Hk, Ho.
Qed.
Lemma meta_change_logs_are cpk st st' L : meta_change cpk st st' → logs_are cpk L st → logs_are cpk L st'.
Proof using Type.
  intros Hm (_ & Ho & Hg). split; [apply Hm|]. split; [destruct Hm as (_ & _ & Hm); congruence|].
  intros c Hc. rewrite (meta_change_logs _ _ _ _ _ _ Hm). by apply Hg.
Qed.
Lemma set_meta_change rnd cpk meta st :
  store_inv st → wf_key cpk → length rnd = 24%nat → st_online st = true → sealable CommunityMeta st →
  ∃ st', set_community_meta rnd cpk meta st = Ok st' ∧ meta_change cpk st st' ∧
    get_community_meta cpk st' = Ok (Some meta).
Proof using Type*.
  intros Hi Hpk Hr Ho Hs. destruct (Hs meta rnd Hr) as (v & Hv).
  assert (∃ st', set_community_meta rnd cpk meta st = Ok st') as (st' & Hset).
  { unfold set_community_meta, transaction. rewrite Hv, Ho. by eexists. }
  destruct (set_community_meta_spec _ _ _ _ _ Hi Hpk Hr Hset) as (Hi' & Hget & Hrest).
  exists st'. split; [done|]. split; [|by rewrite Hget, decide_True].
  split; [done|]. split; [|by rewrite Ho]. intros cpk' Hne. by rewrite Hget, decide_False by done.
Qed.
Lemma store_new_meta_change rnd cert st :
  store_inv st → wf_key (cert_community_pk cert) → length rnd = 24%nat → st_online st = true → sealable CommunityMeta st →
  meta_change (cert_community_pk cert) st (store_new_meta rnd cert st).
Proof using Type*.
  intros Hi Hpk Hr Ho Hs. unfold store_new_meta. destruct (meta_or_none _ _); [done|].
  destruct (set_meta_change rnd _ (new_meta cert) st Hi Hpk Hr Ho Hs) as (st' & -> & Hm & _). done.
Qed.

Definition members_by_id (ms : list MembershipRecord) : gmap string MembershipRecord :=
  foldl (λ acc m, <[hex (mr_user_id m) := m]> acc) ∅ ms.

(** The creator joins. *)
Lemma join_spec r c sk cid n :
  let cpk := ed_public sk in
  let sv := services n in
  let cert := cert_new sk (sv_node_pk sv) U64_MAX in
  live r c (mkSession (Some cpk) []) n → store_inv (sv_store sv) → st_online (sv_store sv) = true →
  sealable CommunityMeta (sv_store sv) → wf_key (sv_node_pk sv) → sv_join_password sv = None →
  (∀ i, env_wf (site_env i) ∧ unix_now (ev_time_ns (site_env i)) <= U64_MAX) →
  fits MAX_REQUEST (JoinCommunity cert (Some cid) None) → fits U32_MAX (Authenticated (sv_node_pk sv)) →
  ∃ n', join_community r cert (Some cid) None n = (Ok tt, n') ∧ live r c (mkSession (Some cpk) [cpk]) n' ∧
    meta_change cpk (sv_store sv) (sv_store (services n')) ∧ same_services sv (services n') ∧
    nn_requests (nw_net n') = nn_requests (nw_net n) ++ [JoinCommunity cert (Some cid) None].
Proof using Type*.
  intros cpk sv cert Hl Hi Ho Hs Hnode Hpw Henv Hreq Hresp.
  set (ev := site_env (nn_served (nw_net n))). destruct (Henv (nn_served (nw_net n))) as [Hev Hnow].
  assert (ed_valid_key cpk = true) as Hv by apply ed_public_valid.
  assert (refuse_cert ev cert None (sv_join_password sv) (sv_node_pk sv) = None) as Href.
  { unfold refuse_cert. rewrite Hpw. rewrite bool_decide_true by done. cbn [negb].
    destruct (hosting_cert_correct sk (sv_node_pk sv) U64_MAX (unix_now (ev_time_ns ev)) cert cpk Hnode ltac:(by auto with bytes_db))
      as [[_ Hver] _]. specialize (Hver Hnow). fold cpk cert in Hver. change (cert_community_pk cert) with cpk. by rewrite Hver. }
  assert (dispatch ev site_client (JoinCommunity cert (Some cid) None) (mkSession (Some cpk) []) sv =
    (Authenticated (sv_node_pk sv), mkSession (Some cpk) [cpk],
     with_store (store_new_meta (ev_rnd ev 0%nat) cert (sv_store sv)) sv, [NotifyCommunityJoined cpk cid])) as Hd.
  { cbn [dispatch is_authenticated client_pk]. cbn. unfold handle_join_community.
    change (cert_community_pk cert) with cpk. rewrite Hv. cbn [negb]. rewrite Href.
    destruct (is_known_member cert _ sv); reflexivity. }
  destruct (ask_dispatched "join_community" (λ resp, match resp with Authenticated _ => Some tt | _ => None end) r c _ _ _ tt
              _ _ _ _ Hl Hreq Hresp Hd eq_refl) as (n' & Hask & Hl' & Hsv & Hreqs & _).
  exists n'. split; [exact Hask|]. split; [done|]. rewrite Hsv. split; [|by split].
  apply store_new_meta_change; auto. apply wf_ed_public.
Qed.

Lemma push_manifest_spec r c sess cpk manifest channels keys members n :
  live r c sess n → push_guard cpk sess = true → wf_key cpk → (∀ i, env_wf (site_env i)) →
  store_inv (sv_store (services n)) → st_online (sv_store (services n)) = true →
  sealable CommunityMeta (sv_store (services n)) →
  fits MAX_REQUEST (PushManifest cpk manifest channels keys members) → fits U32_MAX PushAck →
  ∃ n' cert, push_manifest r cpk manifest channels keys members n = (Ok tt, n') ∧ live r c sess n' ∧
    meta_change cpk (sv_store (services n)) (sv_store (services n')) ∧ same_services (services n) (services n') ∧
    get_community_meta cpk (sv_store (services n')) =
      Ok (Some (mkMeta cert (Some manifest) channels keys (members_by_id members))) ∧
    nn_requests (nw_net n') = nn_requests (nw_net n) ++ [PushManifest cpk manifest channels keys members].
Proof using Type*.
  intros Hl Hg Hpk Henv Hi Ho Hs Hreq Hresp. set (sv := services n) in *. set (ev := site_env (nn_served (nw_net n))).
  set (meta := default (mkMeta (zero_cert cpk (sv_node_pk sv)) None [] ∅ ∅) (meta_or_none cpk (sv_store sv))).
  set (meta' := mkMeta (meta_cert meta) (Some manifest) channels keys (members_by_id members)).
  destruct (set_meta_change (ev_rnd ev 0%nat) cpk meta' (sv_store sv) Hi Hpk (Henv _ _) Ho Hs) as (st' & Hset & Hm & Hget).
  assert (dispatch ev site_client (PushManifest cpk manifest channels keys members) sess sv =
    (PushAck, sess, with_store st' sv, [])) as Hd.
  { cbn. unfold dispatch_push_manifest. rewrite Hg. cbn [negb]. fold meta (members_by_id members) meta'. by rewrite Hset. }
  destruct (ask_dispatched "push_manifest" (λ resp, match resp with PushAck => Some tt | _ => None end) r c _ _ _ tt
              _ _ _ _ Hl Hreq Hresp Hd eq_refl) as (n' & Hask & Hl' & Hsv & Hreqs & _).
  exists n', (meta_cert meta). split; [exact Hask|]. split; [done|]. rewrite Hsv. by split_and!.
Qed.

Lemma pushed_to_app c a b : pushed_to c (a ++ b) = pushed_to c a ++ pushed_to c b.
Proof using Type. unfold pushed_to. apply bind_app. Qed.
Lemma pushed_to_same c bs : pushed_to c ((λ b, (c, b)) <$> bs) = concat bs.
Proof using Type. unfold pushed_to. induction bs as [|b bs IH]; cbn; [done|]. rewrite decide_True by done. f_equal. exact IH. Qed.
Lemma pushed_to_other c c' bs : c' ≠ c → pushed_to c ((λ b, (c', b)) <$> bs) = [].
Proof using Type. intros Hne. unfold pushed_to. induction bs as [|b bs IH]; cbn; [done|]. rewrite decide_False by done. exact IH. Qed.
(** The pushes carry each channel's log once, to that channel. *)
Lemma pushed_batches {T'} (app : AppState T') chs c :
  NoDup (ch_id <$> chs) →
  pushed_to c (ch ← chs; (λ b, (ch_id ch, b)) <$> channel_batches app ch) =
  if decide (c ∈ ch_id <$> chs) then get_since (ulid_to_string c) 0 (app_message_log app) else [].
Proof using Type.
  induction chs as [|ch chs IH]; intros Hnd; [done|]. cbn [fmap list_fmap] in Hnd. apply NoDup_cons in Hnd as [Hni Hnd].
  change ((ch :: chs) ≫= _) with (((λ b, (ch_id ch, b)) <$> channel_batches app ch) ++
    (ch ← chs; (λ b, (ch_id ch, b)) <$> channel_batches app ch)).
  rewrite pushed_to_app, (IH Hnd). destruct (decide (ch_id ch = c)) as [<-|Hne].
  - rewrite pushed_to_same, decide_False, app_nil_r, decide_True by (done || by left).
    unfold channel_batches. rewrite chunks_concat by lia. done.
  - rewrite pushed_to_other, app_nil_l by done. cbn [fmap list_fmap]. destruct (decide (c ∈ ch_id <$> chs)).
    + by rewrite decide_True by (by right).
    + rewrite decide_False; [done|]. intros [->|Hin]%elem_of_cons; done.
Qed.

(** What the seed must be like: reachable, its store in order and writable, its clock before
    the end of time, no password, and room in the logs [L]. *)
Record seed_ready (cpk : bytes) (L : Ulid → list LogEntry) (ps : list (Ulid * list LogEntry)) n : Prop := {
  ready_logs : logs_are cpk L (sv_store (services n));
  ready_entries : sealable LogEntry (sv_store (services n));
  ready_meta : sealable CommunityMeta (sv_store (services n));
  ready_key : wf_key (sv_node_pk (services n));
  ready_password : sv_join_password (services n) = None;
  ready_env : ∀ i, env_wf (site_env i) ∧ unix_now (ev_time_ns (site_env i)) <= U64_MAX;
  ready_room : ∀ c, room (L c) (length (pushed_to c ps));
  ready_frames : Forall (fits U32_MAX) [Authenticated (sv_node_pk (services n)); PushAck] }.

(** The pushes of a copy: every message of the list of requests. *)
Lemma pushes_fit {T'} (app : AppState T') cpk manifest :
  Forall (λ ch, is_u128 (ch_id ch)) (sync_channels manifest app) →
  Forall (fits MAX_REQUEST) ((λ '(ch, b), PushHistory cpk ch b) <$> sync_pushes app manifest) →
  Forall (λ p, is_u128 p.1 ∧ fits MAX_REQUEST (PushHistory cpk p.1 p.2)) (sync_pushes app manifest).
Proof using Type.
  intros Hids Hpush. apply Forall_forall. intros [ch b] Hin. split.
  - apply list_elem_of_bind in Hin as (x & Hin & Hx). apply list_elem_of_fmap in Hin as (y & [= -> ->] & _).
    rewrite Forall_forall in Hids. by apply Hids.
  - rewrite Forall_forall in Hpush. apply Hpush. apply list_elem_of_fmap. by exists (ch, b).
Qed.

(** C13: copying a community to a seed: when the creator's address and fingerprint reach a
    seed that is ready, the task succeeds, and the seed has served exactly the requests of
    [sync_requests], in their order: the authentication, the join, the manifest, and then the
    history of each channel in batches of at most 500; afterwards the seed holds the
    community's manifest, channels and members and, under the keys field, every channel
    key of the client; the log of each channel of the manifest is its old log followed by
    the client's whole log, renumbered and without deletion marks; every other channel,
    community and mailbox is as before. *)
Theorem sync_correct {T'} (app : AppState T') community_id manifest seed addr nonce L n :
  let cpk := ed_public (app_signing_key app) in
  let sv := services n in
  let chs := sync_channels manifest app in
  parse_node_addr seed = Some addr →
  site_pinned (default (replicate 32 0) (app_seed_fingerprints app !! seed)) = true →
  seed_ready cpk L (sync_pushes app manifest) n →
  Forall (λ ch, is_u128 (ch_id ch)) chs → NoDup (ch_id <$> chs) →
  Forall (fits MAX_REQUEST) (sync_requests app community_id manifest nonce (sv_node_pk sv)) →
  ∃ n', sync_community_to_seed app community_id cpk manifest seed nonce n = (Ok tt, n') ∧
    let st := sv_store sv in
    let st' := sv_store (services n') in
    (∃ cert, get_community_meta cpk st' =
       Ok (Some (mkMeta cert (Some manifest) chs (app_channel_keys app) (members_by_id (sync_members community_id app))))) ∧
    (∀ c, is_u128 c → get_messages cpk c 0 st' =
       Ok (if decide (c ∈ ch_id <$> chs) then log_extend (L c) (get_since (ulid_to_string c) 0 (app_message_log app)) else L c)) ∧
    (∀ cpk', cpk' ≠ cpk → get_community_meta cpk' st' = get_community_meta cpk' st) ∧
    (∀ cpk' c since, wf_key cpk' → is_u128 c → is_u64 since → cpk' ≠ cpk →
       get_messages cpk' c since st' = get_messages cpk' c since st) ∧
    MAIL st' = MAIL st ∧ same_services (map_dht (add_known_peer cpk site_client) sv) (services n') ∧
    nn_requests (nw_net n') = nn_requests (nw_net n) ++ sync_requests app community_id manifest nonce (sv_node_pk sv).
Proof using Type*.
  intros cpk sv chs Haddr Hpin [HL He Hm Hkey Hpw Henv Hroom Hframes] Hids Hnd Hfit.
  subst sv. apply Forall_cons in Hfit as [Hhello Hfit]. apply Forall_cons in Hfit as [Hjoin Hfit]. apply Forall_cons in Hfit as [Hman Hpush].
  apply Forall_cons in Hframes as [Hauth [Hack _]%Forall_cons].
  destruct (connect_authenticates addr _ (app_signing_key app) nonce n Hpin Hhello Hauth) as (n1 & Hc & Hl1 & Hsv1 & _ & _ & Hq1).
  set (r := length (nw_managers n)) in *. set (c := fresh _) in *.
  assert (sv_store (services n1) = sv_store (services n) ∧ sv_node_pk (services n1) = sv_node_pk (services n) ∧
          sv_join_password (services n1) = sv_join_password (services n)) as (Hst1 & Hpk1 & Hpw1).
  { rewrite Hsv1. unfold map_dht. by destruct (sv_dht _). }
  destruct HL as (Hi & Ho & HL0).
  destruct (join_spec r c (app_signing_key app) community_id n1) as (n2 & Hj & Hl2 & Hm2 & Hs2 & Hq2);
    rewrite ?Hst1, ?Hpk1, ?Hpw1; auto. rewrite Hst1, Hpk1 in *.
  set (sess := mkSession (Some cpk) [cpk]) in *.
  assert (push_guard cpk sess = true) as Hg by (unfold push_guard, has_joined; cbn; apply bool_decide_eq_true_2; by left).
  pose proof Hm2 as (Hi2 & _ & Heq2). injection Heq2 as _ _ _ Hk2 Ho2.
  destruct (push_manifest_spec r c sess cpk manifest chs (app_channel_keys app) (sync_members community_id app) n2)
    as (n3 & cert & Hp & Hl3 & Hm3 & Hs3 & Hmeta & Hq3); auto.
  { apply wf_ed_public. } { intros i; apply Henv. } { congruence. } { by eapply sealable_key, Hm. }
  pose proof (meta_change_trans _ _ _ _ Hm2 Hm3) as Hm23. pose proof Hm23 as (Hi3 & Hother & Heq3). injection Heq3 as _ Hmail3 _ Hk3 Ho3.
  destruct (pushes_spec r c sess cpk (sync_pushes app manifest) L n3) as (n4 & Hps & HL4 & Hr4 & Hs4 & Hq4); auto.
  { intros i; apply Henv. } { apply wf_ed_public. }
  { by apply pushes_fit. }
  { eapply sealable_key, He. congruence. }
  { eapply meta_change_logs_are; [exact Hm23|]. by split. }
  exists n4. split.
  { unfold sync_community_to_seed. rewrite Haddr. unfold mbind, net_bind in *. rewrite Hc. fold r.
    unfold mbind, net_bind in Hj. rewrite Hj. fold chs. rewrite Hp.
    rewrite (each_flat ch_id (push_history r cpk)). unfold sync_pushes in Hps. fold chs in Hps. exact Hps. }
  assert (∀ cpk', get_community_meta cpk' (sv_store (services n4)) = get_community_meta cpk' (sv_store (services n3))) as Hgm.
  { intros cpk'. eapply same_rest_meta; [exact Hr4|]. destruct HL4 as (_ & -> & _). congruence. }
  destruct Hr4 as [Hr4 Hr4']. injection Hr4 as _ Hmail4 _ _.
  split; [exists cert; by rewrite Hgm|]. split; [|split; [|split; [|split; [|split]]]].
  - intros c' Hc'. destruct HL4 as (_ & _ & Hg4). rewrite Hg4 by done. f_equal. unfold extended, sync_pushes. fold chs.
    rewrite pushed_batches by done. by case_decide.
  - intros cpk' Hne. rewrite Hgm, Hother; done.
  - intros cpk' c' since H1' H2' H3' Hne. rewrite Hr4' by done. by rewrite (meta_change_logs _ _ _ _ _ _ Hm23).
  - congruence.
  - unfold same_services in *. fold cpk in Hsv1. rewrite <- Hsv1. congruence.
  - rewrite Hq4, Hq3, Hq2, Hq1, <- !app_assoc. reflexivity.
Qed.
End seed_props.
