(* ===== verification/NetworkTask.v ===== *)
(** * The network task of the client: [bitcord-core/src/network/network_handle/]

    One task owns the table of outbound peers. It takes commands from the application, the
    registrations of connections that other tasks have dialled, and the events that the
    readers of pushes forward, one at a time; what takes long runs in spawned tasks.
    [GossipState] is the state of all of them and [net_step] interleaves them. A spawned task is
    one step, and is split where it sleeps or hands its connection over.

    Bounded channels are queues that never refuse; the closing of the event channel, which
    ends the application, is left out. A cancel channel is a number: its sender lives only in
    [g_cancels], so that it is dropped, and the receiver woken, when the entry is replaced. *)

From S2P Require Import Prelude Bytes Routing Crypto Codec Model Store Protocol Handler AppState ClientEvents NodeClient.

(** ** [types.rs] *)

(** [SeedPeerInfo]: where a connection goes and what is joined on it. *)
Record SeedPeerInfo := mkSeed {
  si_addr : NodeAddr;
  si_join_community : option (bytes * string);
  si_password : option string;
  si_fingerprint : bytes }.
Record PeerRegistration := mkReg {
  reg_peer_id : string;
  reg_node_pk : bytes;
  reg_client : nat;
  reg_is_seed : bool;
  reg_seed : SeedPeerInfo }.

(** The tasks that [tokio::spawn] has started and that have not ended. *)
Inductive Task :=
  | DialTask (is_seed : bool) (seed : SeedPeerInfo) (cancel : option nat)
  | AutoJoinTask (client : nat) (node_pk : bytes) (community_id : string) (password : option string)
  | ReconnectTask (seed : SeedPeerInfo) (cancel : nat) (delay_secs : Z)
  | DiscoveredTask (addr : NodeAddr) (community_pk : bytes) (community_id : string)
  | FetchManifestTask (client : nat) (peer_id community_id : string) (community_pk : bytes)
  | FetchHistoryTask (client : nat) (community_id : string) (community_pk : bytes) (channel_id : string)
      (channel_ulid : Ulid) (since_seq : Z) (attempts_left : nat)
  | SendDmTask (route : nat + NodeAddr) (peer_id message_id : string) (recipient_pk : bytes) (envelope : DmEnvelope)
  | FetchMailboxTask (client : nat).

(** ** The state *)

Record GossipState (N : Type) := mkGossip {
  g_peers : gmap string nat;                (* hexadecimal node key to client *)
  g_sha256_map : gmap string string;        (* hexadecimal SHA-256 of the key to the key *)
  g_seed_peers : gmap string SeedPeerInfo;
  g_cancels : gmap string nat;              (* by address text *)
  g_next_cancel : nat;
  g_own_addrs : gset string;
  g_readers : list nat;                     (* clients whose pushes are read *)
  g_registrations : list PeerRegistration;
  g_forwarded : list SwarmEvent;            (* from the readers to the task *)
  g_events : list SwarmEvent;               (* to the application *)
  g_pushed : list (option bytes * NodePush); (* to the clients of the own node *)
  g_tasks : list Task;
  g_net : NetWorld N }.
Arguments mkGossip {N}.
Arguments g_peers {N}.
Arguments g_sha256_map {N}.
Arguments g_seed_peers {N}.
Arguments g_cancels {N}.
Arguments g_next_cancel {N}.
Arguments g_own_addrs {N}.
Arguments g_readers {N}.
Arguments g_registrations {N}.
Arguments g_forwarded {N}.
Arguments g_events {N}.
Arguments g_pushed {N}.
Arguments g_tasks {N}.
Arguments g_net {N}.

(** The tables of the task, and the rest. *)
Definition set_tables {N} (ps : gmap string nat) (sha : gmap string string) (seeds : gmap string SeedPeerInfo)
    (g : GossipState N) : GossipState N :=
  mkGossip ps sha seeds (g_cancels g) (g_next_cancel g) (g_own_addrs g) (g_readers g) (g_registrations g)
    (g_forwarded g) (g_events g) (g_pushed g) (g_tasks g) (g_net g).
Definition set_cancels {N} (cs : gmap string nat) (next : nat) (g : GossipState N) : GossipState N :=
  mkGossip (g_peers g) (g_sha256_map g) (g_seed_peers g) cs next (g_own_addrs g) (g_readers g) (g_registrations g)
    (g_forwarded g) (g_events g) (g_pushed g) (g_tasks g) (g_net g).
Definition set_own_addrs {N} (a : gset string) (g : GossipState N) : GossipState N :=
  mkGossip (g_peers g) (g_sha256_map g) (g_seed_peers g) (g_cancels g) (g_next_cancel g) a (g_readers g)
    (g_registrations g) (g_forwarded g) (g_events g) (g_pushed g) (g_tasks g) (g_net g).
Definition set_queues {N} (readers : list nat) (regs : list PeerRegistration) (fwd : list SwarmEvent) (g : GossipState N)
    : GossipState N :=
  mkGossip (g_peers g) (g_sha256_map g) (g_seed_peers g) (g_cancels g) (g_next_cancel g) (g_own_addrs g) readers regs
    fwd (g_events g) (g_pushed g) (g_tasks g) (g_net g).
Definition set_out {N} (evs : list SwarmEvent) (pushed : list (option bytes * NodePush)) (g : GossipState N) : GossipState N :=
  mkGossip (g_peers g) (g_sha256_map g) (g_seed_peers g) (g_cancels g) (g_next_cancel g) (g_own_addrs g) (g_readers g)
    (g_registrations g) (g_forwarded g) evs pushed (g_tasks g) (g_net g).
Definition set_tasks {N} (ts : list Task) (g : GossipState N) : GossipState N :=
  mkGossip (g_peers g) (g_sha256_map g) (g_seed_peers g) (g_cancels g) (g_next_cancel g) (g_own_addrs g) (g_readers g)
    (g_registrations g) (g_forwarded g) (g_events g) (g_pushed g) ts (g_net g).
Definition set_net {N} (n : NetWorld N) (g : GossipState N) : GossipState N :=
  mkGossip (g_peers g) (g_sha256_map g) (g_seed_peers g) (g_cancels g) (g_next_cancel g) (g_own_addrs g) (g_readers g)
    (g_registrations g) (g_forwarded g) (g_events g) (g_pushed g) (g_tasks g) n.

(** [str::contains]. *)
Fixpoint contains (needle s : string) : bool :=
  String.prefix needle s || match s with EmptyString => false | String _ s' => contains needle s' end.

(** [HostingCert] of a member, who has no community key to sign with. *)
Definition dummy_cert (community_pk node_pk : bytes) : HostingCert := mkCert community_pk node_pk U64_MAX (replicate 64 0).
Definition TOFU : bytes := replicate 32 0.

(** ** The task *)

Section task.
Context {N : Type} `{Quic N} `{Crypto} `{NetText} `{Postcard ClientRequest} `{Postcard NodeResponse}.
Context `{HashOrder} `{UlidParse}.
(** The identity's signing key, and whether the embedded node's push channel is there. *)
Context (sk : bytes) (server : bool).
Implicit Types g : GossipState N.

Definition own_pk_hex : string := hex (ed_public sk).
Definition send (e : SwarmEvent) g : GossipState N := set_out (g_events g ++ [e]) (g_pushed g) g.
Definition forward (e : SwarmEvent) g : GossipState N :=
  set_queues (g_readers g) (g_registrations g) (g_forwarded g ++ [e]) g.
Definition register (r : PeerRegistration) g : GossipState N :=
  set_queues (g_readers g) (g_registrations g ++ [r]) (g_forwarded g) g.
Definition spawn (t : Task) g : GossipState N := set_tasks (g_tasks g ++ [t]) g.
Definition on_net {A} (m : Net N A) g : result string A * GossipState N := let '(r, n) := m (g_net g) in (r, set_net n g).

(** A new cancel channel; the sender stored under the address before is dropped. *)
Definition new_cancel (addr : NodeAddr) g : nat * GossipState N :=
  (g_next_cancel g, set_cancels (<[addr_to_string addr := g_next_cancel g]> (g_cancels g)) (S (g_next_cancel g)) g).
Definition cancelled (addr : NodeAddr) (cancel : nat) g : bool :=
  negb (bool_decide (g_cancels g !! addr_to_string addr = Some cancel)).
Definition is_own_addr (addr : NodeAddr) g : bool := bool_decide (addr_to_string addr ∈ g_own_addrs g).

(** *** [gossip.rs] *)

Definition gossip_start (local_listen_addrs : list string) (n : NetWorld N) : GossipState N :=
  foldl (λ g a, send (NewListenAddr a) (set_own_addrs ({[ a ]} ∪ g_own_addrs g) g))
    (mkGossip ∅ ∅ ∅ ∅ 0 ∅ [] [] [] [] [] [] n) local_listen_addrs.

Definition connected_event (r : PeerRegistration) : option SwarmEvent :=
  match si_join_community (reg_seed r) with
  | Some (_, community_id) =>
      Some (if reg_is_seed r then SeedPeerConnected community_id (reg_peer_id r) else PeerConnected (reg_peer_id r) community_id)
  | None => if reg_is_seed r then None else Some (LanPeerConnected (reg_peer_id r))
  end.
Definition send_opt (e : option SwarmEvent) g : GossipState N := match e with Some e => send e g | None => g end.

Definition handle_registration (r : PeerRegistration) g : GossipState N :=
  match g_peers g !! reg_peer_id r with
  | None =>
      let g := send (PeerAddrKnown (reg_node_pk r) (si_addr (reg_seed r))) g in
      let sha := <[hex (sha256 (reg_node_pk r)) := reg_peer_id r]> (g_sha256_map g) in
      let seeds := if reg_is_seed r then <[reg_peer_id r := reg_seed r]> (g_seed_peers g) else g_seed_peers g in
      let g := set_queues (reg_client r :: g_readers g) (g_registrations g) (g_forwarded g) g in
      set_tables (<[reg_peer_id r := reg_client r]> (g_peers g)) sha seeds (send_opt (connected_event r) g)
  | Some _ => if reg_is_seed r then send_opt (connected_event r) g else g
  end.

(** *** [push_reader.rs], and the relay of the own node's pushes *)

Definition translate (push : NodePush) : option SwarmEvent :=
  match push with
  | GossipMessage topic source data =>
      if bool_decide (source = own_pk_hex) then None else Some (MessageReceived topic (Some source) data)
  | NewDm entry recipient_pk => Some (DmReceived entry recipient_pk)
  | _ => None
  end.
Definition read_push (push : NodePush) g : GossipState N :=
  match translate push with Some e => forward e g | None => g end.
(** The task that relays what other nodes push into the own node's server. *)
Definition inbound_push (push : NodePush) g : GossipState N :=
  match push with
  | GossipMessage topic source data =>
      if bool_decide (source = own_pk_hex) then g else forward (MessageReceived topic (Some source) data) g
  | NewDm entry recipient_pk => forward (DmReceived entry recipient_pk) g
  | _ => g
  end.

(** *** [command.rs] *)

Definition relay (topic : string) (data : bytes) (acc : list string * GossipState N) (peer : string * nat)
    : list string * GossipState N :=
  let '(dead, g) := acc in
  match on_net (send_gossip peer.2 topic data) g with
  | (Ok _, g) => (dead, g)
  | (Err _, g) => (dead ++ [peer.1], g)
  end.
Definition drop_peer g (id : string) : GossipState N :=
  let ps := delete id (g_peers g) in
  let sha := filter (λ kv, is_Some (ps !! kv.2)) (g_sha256_map g) in
  let lost := g_seed_peers g !! id in
  let g := send (PeerDisconnected id) (set_tables ps sha (delete id (g_seed_peers g)) g) in
  match lost with
  | None => g
  | Some seed =>
      let g := match si_join_community seed with
               | Some (_, community_id) => send (SeedPeerDisconnected community_id) g
               | None => g
               end in
      let '(cancel, g) := new_cancel (si_addr seed) g in
      spawn (ReconnectTask seed cancel 5) g
  end.
Definition publish (topic : string) (data : bytes) g : GossipState N :=
  let '(dead, g) := foldl (relay topic data) ([], g) (hash_order (g_peers g)) in
  let g := foldl drop_peer g dead in
  if server then set_out (g_events g) (g_pushed g ++ [(None, GossipMessage topic own_pk_hex data)]) g else g.

(** The client of a peer given by its node identifier or its key. *)
Definition direct_client (peer_id : string) g : option nat :=
  g_peers g !! default peer_id (g_sha256_map g !! peer_id).

Definition handle_send_dm (peer_id message_id : string) (recipient_pk : bytes) (envelope : DmEnvelope)
    (mailbox_addr peer_node_addr : option NodeAddr) g : GossipState N :=
  let task route := spawn (SendDmTask route peer_id message_id recipient_pk envelope) g in
  match direct_client peer_id g, mailbox_addr, peer_node_addr with
  | Some client, _, _ => task (inl client)
  | None, Some addr, _ => task (inr addr)
  | None, None, Some addr => task (inr addr)
  | None, None, None => send (DmSendFailed peer_id message_id) g
  end.

(** [false]: the loop ends. *)
Definition handle_command (cmd : NetworkCommand) g : bool * GossipState N :=
  match cmd with
  | CmdDial addr is_seed join_community password fp =>
      let seed := mkSeed addr join_community password fp in
      if is_seed
      then let '(cancel, g) := new_cancel addr g in (true, spawn (DialTask true seed (Some cancel)) g)
      else (true, spawn (DialTask false seed None) g)
  | CmdDiscoverAndDial discovered community_pk community_id =>
      (true, foldl (λ g '(node_pk, addr), if bool_decide (node_pk = ed_public sk) then g
                                          else spawn (DiscoveredTask addr community_pk community_id) g) g discovered)
  | CmdPublish topic data => (true, publish topic data g)
  | CmdSubscribe _ | CmdUnsubscribe _ => (true, g)
  | CmdFetchManifest peer_id community_id community_pk =>
      (true, match g_peers g !! peer_id with
             | None => g
             | Some client => spawn (FetchManifestTask client peer_id community_id community_pk) g
             end)
  | CmdFetchChannelHistory peer_id community_id community_pk channel_id since_seq =>
      (true, match g_peers g !! peer_id with
             | None => g
             | Some client =>
                 match parse_ulid channel_id with
                 | None => g
                 | Some ulid => spawn (FetchHistoryTask client community_id community_pk channel_id ulid since_seq 15) g
                 end
             end)
  | CmdSendDm peer_id message_id recipient_pk envelope mailbox_addr peer_node_addr =>
      (true, handle_send_dm peer_id message_id recipient_pk envelope mailbox_addr peer_node_addr g)
  | CmdAddListenAddr addr => (true, send (NewListenAddr addr) (set_own_addrs ({[ addr ]} ∪ g_own_addrs g) g))
  | CmdNotifyCommunityJoined community_pk community_id => (true, send (CommunityJoined community_pk community_id) g)
  | CmdFetchMailbox peer_id =>
      (true, match g_peers g !! peer_id with Some client => spawn (FetchMailboxTask client) g | None => g end)
  | CmdShutdown => (false, g)
  end.

(** *** The spawned tasks; [nonce]: what a connection draws to authenticate *)

Definition run_dial (nonce : bytes) (is_seed : bool) (seed : SeedPeerInfo) (cancel : option nat) g : GossipState N :=
  match on_net (connect (si_addr seed) (si_fingerprint seed) sk nonce) g with
  | (Ok (client, node_pk), g) =>
      let g := register (mkReg (hex node_pk) node_pk client is_seed seed) g in
      match si_join_community seed with
      | Some (community_pk, community_id) =>
          if bool_decide (ed_public sk = community_pk)
          then spawn (AutoJoinTask client node_pk community_id (si_password seed)) g else g
      | None => g
      end
  | (Err _, g) =>
      if negb is_seed then g
      else if is_own_addr (si_addr seed) g
      then match si_join_community seed with Some (_, community_id) => send (SeedPeerConnected community_id "") g | None => g end
      else
        let g := match si_join_community seed with
                 | Some (_, community_id) => send (SeedPeerDisconnected community_id) g | None => g end in
        match cancel with Some c => spawn (ReconnectTask seed c 5) g | None => g end
  end.

Definition run_auto_join (client : nat) (node_pk : bytes) (community_id : string) (password : option string) g : GossipState N :=
  match on_net (join_community client (cert_new sk node_pk U64_MAX) (Some community_id) password) g with
  | (Ok _, g) => g
  | (Err e, g) => send (CommunityJoinFailed community_id e) g
  end.

(** *** [reconnect.rs]: one round, after its delay *)

Definition run_reconnect (nonce : bytes) (seed : SeedPeerInfo) (cancel : nat) (delay_secs : Z) g : GossipState N :=
  if cancelled (si_addr seed) cancel g then g
  else if is_own_addr (si_addr seed) g then g
  else
    match on_net (connect (si_addr seed) (si_fingerprint seed) sk nonce) g with
    | (Ok (client, node_pk), g) =>
        let g := match si_join_community seed with
                 | Some (community_pk, community_id) =>
                     if bool_decide (ed_public sk = community_pk)
                     then (on_net (join_community client (cert_new sk node_pk U64_MAX) (Some community_id) (si_password seed)) g).2
                     else g
                 | None => g
                 end in
        register (mkReg (hex node_pk) node_pk client true seed) g
    | (Err _, g) => spawn (ReconnectTask seed cancel (Z.min (delay_secs * 2) 300)) g
    end.

Definition run_discovered (nonce : bytes) (addr : NodeAddr) (community_pk : bytes) (community_id : string) g : GossipState N :=
  match on_net (connect addr TOFU sk nonce) g with
  | (Err _, g) => g
  | (Ok (client, node_pk), g) =>
      let cert := if bool_decide (ed_public sk = community_pk) then cert_new sk node_pk U64_MAX
                  else dummy_cert community_pk node_pk in
      let '(_, g) := on_net (join_community client cert (Some community_id) None) g in
      register (mkReg (hex node_pk) node_pk client false (mkSeed addr (Some (community_pk, community_id)) None TOFU)) g
  end.

Definition run_fetch_manifest (client : nat) (peer_id community_id : string) (community_pk : bytes) g : GossipState N :=
  match on_net (fetch_manifest client community_pk) g with
  | (Ok (manifest, chs, channel_keys, members), g) =>
      send (ManifestReceived peer_id community_id manifest chs channel_keys members) g
  | (Err msg, g) =>
      if contains "404" msg || contains "not found" msg then send (ManifestNotFound community_id peer_id) g else g
  end.

(** One attempt to join, and the history when it succeeds. *)
Definition run_fetch_history (client : nat) (community_id : string) (community_pk : bytes) (channel_id : string)
    (channel_ulid : Ulid) (since_seq : Z) (attempts_left : nat) g : GossipState N :=
  match attempts_left with
  | O => g
  | S attempts_left =>
      match on_net (join_community client (dummy_cert community_pk (replicate 32 0)) (Some community_id) None) g with
      | (Ok _, g) =>
          match on_net (get_messages client community_pk channel_ulid since_seq) g with
          | (Ok entries, g) => send (ChannelHistoryReceived community_id channel_id entries) g
          | (Err _, g) => g
          end
      | (Err e, g) =>
          if contains "invalid node join password" e then g
          else if contains "403" e
          then spawn (FetchHistoryTask client community_id community_pk channel_id channel_ulid since_seq attempts_left) g
          else g
      end
  end.

Definition run_send_dm (nonce : bytes) (route : nat + NodeAddr) (peer_id message_id : string) (recipient_pk : bytes)
    (envelope : DmEnvelope) g : GossipState N :=
  let m : Net N Z :=
    match route with
    | inl client => send_dm client recipient_pk envelope
    | inr addr => '(client, _) ← connect addr TOFU sk nonce; send_dm client recipient_pk envelope
    end in
  match on_net m g with
  | (Ok _, g) => g
  | (Err _, g) => send (DmSendFailed peer_id message_id) g
  end.

Definition run_fetch_mailbox (client : nat) g : GossipState N :=
  match on_net (get_dms client 0) g with
  | (Ok entries, g) => foldl (λ g entry, send (DmReceived entry (x_public (sha256 sk))) g) g entries
  | (Err _, g) => g
  end.

Definition run_task (nonce : bytes) (t : Task) g : GossipState N :=
  match t with
  | DialTask is_seed seed cancel => run_dial nonce is_seed seed cancel g
  | AutoJoinTask client node_pk community_id password => run_auto_join client node_pk community_id password g
  | ReconnectTask seed cancel delay_secs => run_reconnect nonce seed cancel delay_secs g
  | DiscoveredTask addr community_pk community_id => run_discovered nonce addr community_pk community_id g
  | FetchManifestTask client peer_id community_id community_pk => run_fetch_manifest client peer_id community_id community_pk g
  | FetchHistoryTask client community_id community_pk channel_id ulid since_seq n =>
      run_fetch_history client community_id community_pk channel_id ulid since_seq n g
  | SendDmTask route peer_id message_id recipient_pk envelope =>
      run_send_dm nonce route peer_id message_id recipient_pk envelope g
  | FetchMailboxTask client => run_fetch_mailbox client g
  end.

(** ** One step of the whole *)

Inductive net_step g : GossipState N → Prop :=
  | step_command cmd g' : handle_command cmd g = (true, g') → net_step g g'
  | step_registration r rs :
      g_registrations g = r :: rs →
      net_step g (handle_registration r (set_queues (g_readers g) rs (g_forwarded g) g))
  | step_forwarded e es :
      g_forwarded g = e :: es → net_step g (send e (set_queues (g_readers g) (g_registrations g) es g))
  | step_peer_push client push : client ∈ g_readers g → net_step g (read_push push g)
  | step_own_push push : server = true → net_step g (inbound_push push g)
  | step_task i t nonce :
      g_tasks g !! i = Some t → net_step g (run_task nonce t (set_tasks (delete i (g_tasks g)) g))
  | step_network net : net_step g (set_net (mkNetWorld (nw_managers (g_net g)) net) g).
End task.

Section task_props.
Context {N : Type} `{Quic N} `{CryptoLaws} `{NetText} `{Postcard ClientRequest} `{Postcard NodeResponse}.
Context `{HashOrderLaws} `{UlidParse}.
Context (sk : bytes) (server : bool).
Implicit Types g : GossipState N.

(** *** References to clients: managers are only added *)

Definition grows {A} (m : Net N A) : Prop := ∀ n, (length (nw_managers n) ≤ length (nw_managers (m n).2))%nat.
Lemma grows_ret {A} (a : A) : grows (mret a).
Proof using Type. by intros n. Qed.
Lemma grows_bind {A B} (m : Net N A) (k : A → Net N B) : grows m → (∀ a, grows (k a)) → grows (m ≫= k).
Proof using Type.
  intros Hm Hk n. unfold mbind, net_bind. specialize (Hm n). destruct (m n) as [[a|e] n']; [|done]. cbn in Hm.
  etrans; [exact Hm|apply Hk].
Qed.
Lemma grows_lift {A} (r : result string A) : grows (lift r).
Proof using Type. by intros n. Qed.
Lemma grows_bail {A} e : grows (bail (A := A) e).
Proof using Type. by intros n. Qed.
Lemma grows_context {A} c (m : Net N A) : grows m → grows (context c m).
Proof using Type. intros Hm n. unfold context. specialize (Hm n). by destruct (m n) as [[]]. Qed.
Lemma grows_get_connection r : grows (get_connection r).
Proof using Type.
  intros n. unfold get_connection, context, try_connect. destruct (nw_managers n !! r) as [m|]; [|done].
  destruct (cm_state m) as [|conn|]; [|destruct (quic_closed _ _)|]; cbn; rewrite ?length_alter; try done.
  destruct (quic_connect _ _ _) as [[c|e] net]; cbn; by rewrite ?length_alter.
Qed.
Lemma grows_request r req : grows (request r req).
Proof using Type.
  unfold request. apply grows_bind; [apply grows_get_connection|intros conn]. apply grows_bind; [by intros n|intros _]. apply grows_bind; [apply grows_lift|intros frame].
  apply grows_bind; [|intros reply; apply grows_bind; [apply grows_lift|intros; apply grows_lift]].
  intros n. by destruct (quic_exchange _ _ _).
Qed.
Lemma grows_ask {A} what (accept : NodeResponse → option A) r req : grows (ask what accept r req).
Proof using Type.
  unfold ask. apply grows_bind; [apply grows_request|intros resp].
  destruct (accept resp); [apply grows_ret|]. destruct resp; apply grows_bail.
Qed.
Lemma connect_new addr fp nonce n c pk n' :
  connect addr fp sk nonce n = (Ok (c, pk), n') → (c < length (nw_managers n'))%nat.
Proof using Type.
  unfold connect. intros Hc.
  assert (∃ n1, manager_new addr fp n = (Ok c, n1) ∧ (length (nw_managers n1) ≤ length (nw_managers n'))%nat) as (n1 & Hm & Hle).
  { unfold mbind, net_bind in Hc. destruct (context "create connection manager" (manager_new addr fp) n) as [[r|e] n1] eqn:Hm; [|done].
    exists n1. unfold context in Hm. destruct (manager_new addr fp n) as [[r'|e] n1'] eqn:Hn; [|done]. injection Hm as -> ->.
    set (req := request r _) in Hc. assert (grows req) as Hg by apply grows_request. specialize (Hg n1).
    unfold context in Hc. destruct (req n1) as [[resp|e] n2]; [|done].
    destruct resp; try discriminate Hc. injection Hc as -> _ <-. done. }
  unfold manager_new in Hm. destruct (quic_endpoint _ _); [|done]. injection Hm as <- <-. cbn in Hle. rewrite length_app in Hle. cbn in Hle. lia.
Qed.
Lemma grows_connect addr fp nonce : grows (connect addr fp sk nonce).
Proof using Type.
  unfold connect. apply grows_bind; [apply grows_context|intros r].
  - intros n. unfold manager_new. destruct (quic_endpoint _ _); [|done]. cbn. rewrite length_app. lia.
  - apply grows_bind; [apply grows_context, grows_request|intros []; apply grows_ret || apply grows_bail].
Qed.

(** *** The invariant of the task *)

(** The three tables: the index names connected peers, by the digest of their key, and finds
    every peer whose digest is its own; seeds are connected. *)
Record tables_inv (ps : gmap string nat) (sha : gmap string string) (seeds : gmap string SeedPeerInfo) : Prop := {
  index_sound h p : sha !! h = Some p → is_Some (ps !! p) ∧ ∃ pk, p = hex pk ∧ h = hex (sha256 pk);
  index_complete p : is_Some (ps !! p) →
    ∃ pk, p = hex pk ∧ ((∀ pk', sha256 pk' = sha256 pk → pk' = pk) → sha !! hex (sha256 pk) = Some p);
  seeds_connected p : is_Some (seeds !! p) → is_Some (ps !! p) }.

Lemma tables_register ps sha seeds pk c (seed : option SeedPeerInfo) :
  tables_inv ps sha seeds → ps !! hex pk = None →
  tables_inv (<[hex pk := c]> ps) (<[hex (sha256 pk) := hex pk]> sha)
    (match seed with Some s => <[hex pk := s]> seeds | None => seeds end).
Proof using Type*.
  intros [Hs Hc Hd] Hnone. split.
  - intros h p. rewrite lookup_insert. case_decide as Hh.
    + intros [= <-]. split; [rewrite lookup_insert_eq; by eexists|]. by exists pk.
    + intros (Hp & Hex)%Hs. split; [|done]. rewrite lookup_insert. by case_decide; [eexists|].
  - intros p Hp. rewrite lookup_insert in Hp. case_decide as Hpk.
    + exists pk. split; [done|]. intros _. by rewrite lookup_insert_eq, Hpk.
    + destruct (Hc p Hp) as (pk0 & -> & Hf). exists pk0. split; [done|]. intros Hinj.
      rewrite lookup_insert_ne; [by apply Hf|]. intros Heq.
      apply hex_inj in Heq; [|apply wf_sha256..]. apply Hinj in Heq. congruence.
  - intros p Hp. rewrite lookup_insert. case_decide; [by eexists|]. apply Hd. destruct seed; [|done].
    rewrite lookup_insert_ne in Hp by done. done.
Qed.
Lemma tables_drop ps sha seeds id :
  tables_inv ps sha seeds →
  tables_inv (delete id ps) (filter (λ kv, is_Some (delete id ps !! kv.2)) sha) (delete id seeds).
Proof using Type.
  intros [Hs Hc Hd]. split.
  - intros h p [Hp Hps]%map_lookup_filter_Some. split; [done|]. by destruct (Hs h p Hp).
  - intros p Hp. destruct (Hc p) as (pk & -> & Hf).
    { rewrite lookup_delete in Hp. by case_decide; [destruct Hp|]. }
    exists pk. split; [done|]. intros Hinj. apply map_lookup_filter_Some. split; [by apply Hf|done].
  - intros p. rewrite !lookup_delete. case_decide; [by intros []|apply Hd].
Qed.

(** What a task refers to exists. *)
Definition task_ok (clients cancels : nat) (t : Task) : Prop :=
  match t with
  | DialTask is_seed _ (Some c) => (c < cancels)%nat
  | DialTask is_seed _ None => is_seed = false
  | ReconnectTask _ c delay => (c < cancels)%nat ∧ 5 ≤ delay ≤ 300
  | AutoJoinTask c _ _ _ | FetchManifestTask c _ _ _ | FetchHistoryTask c _ _ _ _ _ _
  | SendDmTask (inl c) _ _ _ _ | FetchMailboxTask c => (c < clients)%nat
  | DiscoveredTask _ _ _ | SendDmTask (inr _) _ _ _ _ => True
  end.
Lemma task_ok_mono b b' k k' t : (b ≤ b')%nat → (k ≤ k')%nat → task_ok b k t → task_ok b' k' t.
Proof using Type. intros Hb Hk. destruct t as [? ? []| | | | | |[]|]; cbn; intuition lia. Qed.

Definition clients g : nat := length (nw_managers (g_net g)).
Record task_inv g : Prop := {
  inv_tables : tables_inv (g_peers g) (g_sha256_map g) (g_seed_peers g);
  inv_peers p c : g_peers g !! p = Some c → (c < clients g)%nat;
  inv_readers : Forall (λ c, (c < clients g)%nat) (g_readers g);
  inv_registrations : Forall (λ r, reg_peer_id r = hex (reg_node_pk r) ∧ (reg_client r < clients g)%nat) (g_registrations g);
  inv_tasks : Forall (task_ok (clients g) (g_next_cancel g)) (g_tasks g);
  inv_cancels a c : g_cancels g !! a = Some c → (c < g_next_cancel g)%nat }.

Lemma inv_send e g : task_inv g → task_inv (send e g).
Proof using Type. intros []. by split. Qed.
Lemma inv_send_opt e g : task_inv g → task_inv (send_opt e g).
Proof using Type. destruct e; [apply inv_send|done]. Qed.
Lemma inv_forward e g : task_inv g → task_inv (forward e g).
Proof using Type. intros []. by split. Qed.
Lemma inv_register r g :
  task_inv g → reg_peer_id r = hex (reg_node_pk r) → (reg_client r < clients g)%nat → task_inv (register r g).
Proof using Type. intros [] Hr Hc. split; try done. apply Forall_app. split; [done|]. by repeat constructor. Qed.
Lemma inv_spawn t g : task_inv g → task_ok (clients g) (g_next_cancel g) t → task_inv (spawn t g).
Proof using Type. intros [] Ht. split; try done. apply Forall_app. split; [done|]. by repeat constructor. Qed.
Lemma inv_new_cancel addr g :
  task_inv g → task_inv (new_cancel addr g).2 ∧ ((new_cancel addr g).1 < g_next_cancel (new_cancel addr g).2)%nat.
Proof using Type.
  intros []. split; [|cbn; lia]. split; try done.
  - eapply Forall_impl; [done|]. intros t. apply task_ok_mono; unfold clients; cbn; lia.
  - intros a c. cbn. rewrite lookup_insert. case_decide; [intros [= <-]; lia|]. intros Hc. apply inv_cancels0 in Hc. lia.
Qed.
Lemma inv_set_net net g : task_inv g → (clients g ≤ length (nw_managers net))%nat → task_inv (set_net net g).
Proof using Type.
  intros [Ht Hp Hrd Hrg Hts Hc] Hle. unfold clients in *. split; cbn; try done.
  - intros p c Hpc. specialize (Hp p c Hpc). unfold clients; cbn; lia.
  - eapply Forall_impl; [exact Hrd|]. cbn; unfold clients; cbn; lia.
  - eapply Forall_impl; [exact Hrg|]. cbn; unfold clients; cbn; intuition lia.
  - eapply Forall_impl; [exact Hts|]. intros t. apply task_ok_mono; unfold clients; cbn; lia.
Qed.
Lemma inv_on_net {A} (m : Net N A) g : grows m → task_inv g → task_inv (on_net m g).2 ∧ (clients g ≤ clients (on_net m g).2)%nat.
Proof using Type.
  intros Hm Hg. unfold on_net. specialize (Hm (g_net g)). destruct (m (g_net g)) as [r n]. split; [|done]. by apply inv_set_net.
Qed.

(** *** Every step keeps it *)

Lemma inv_queues readers regs fwd g :
  task_inv g → Forall (λ c, (c < clients g)%nat) readers →
  Forall (λ r, reg_peer_id r = hex (reg_node_pk r) ∧ (reg_client r < clients g)%nat) regs →
  task_inv (set_queues readers regs fwd g).
Proof using Type. intros [] Hr Hg. by split. Qed.
Lemma inv_registration r g :
  task_inv g → reg_peer_id r = hex (reg_node_pk r) → (reg_client r < clients g)%nat → task_inv (handle_registration r g).
Proof using Type*.
  intros Hg Hr Hc. unfold handle_registration. destruct (g_peers g !! reg_peer_id r) as [c|] eqn:Hnone.
  { destruct (reg_is_seed r); [by apply inv_send_opt|done]. }
  set (g1 := set_queues _ _ _ _).
  assert (task_inv g1) as Hg1 by (apply inv_queues; [by apply inv_send| |apply Hg]; constructor; [done|apply Hg]).
  apply (inv_send_opt (connected_event r)) in Hg1 as Hg2. destruct Hg2 as [_ Hp Hrd Hrg Hts Hcs].
  assert (g_peers (send_opt (connected_event r) g1) = g_peers g) as Hps by by destruct (connected_event r).
  assert (clients (send_opt (connected_event r) g1) = clients g) as Hcl by by destruct (connected_event r).
  rewrite Hcl, Hps in *. split; try done.
  - cbn. rewrite Hr in *. destruct (reg_is_seed r).
    + by apply (tables_register _ _ _ _ _ (Some (reg_seed r))); [apply Hg|].
    + by apply (tables_register _ _ _ _ _ None); [apply Hg|].
  - intros p c. cbn. rewrite lookup_insert. case_decide; [intros [= <-]; unfold clients in *; cbn; congruence|].
    intros Hpc. unfold clients in *. cbn. rewrite Hcl. by apply (Hp p).
  - cbn. unfold clients in *. cbn. by rewrite Hcl.
  - cbn. unfold clients in *. cbn. by rewrite Hcl.
  - cbn. unfold clients in *. cbn. by rewrite Hcl.
Qed.

Lemma inv_drop_peer id g : task_inv g → task_inv (drop_peer g id).
Proof using Type.
  intros Hg. unfold drop_peer. set (g1 := send _ _).
  assert (task_inv g1) as Hg1.
  { apply inv_send. destruct Hg. split; try done; cbn; [by apply tables_drop|].
    intros p c. rewrite lookup_delete. case_decide; [done|apply inv_peers0]. }
  destruct (g_seed_peers g !! id) as [seed|]; [|done].
  set (g2 := match si_join_community seed with Some _ => _ | None => _ end).
  assert (task_inv g2) as Hg2 by (unfold g2; destruct (si_join_community seed) as [[]|]; [by apply inv_send|done]).
  destruct (inv_new_cancel (si_addr seed) g2 Hg2) as [Hg3 Hlt]. destruct (new_cancel (si_addr seed) g2) as [c g3].
  apply inv_spawn; [done|]. cbn in *. lia.
Qed.
Lemma relay_inv topic data acc peer : task_inv acc.2 → task_inv (relay topic data acc peer).2.
Proof using Type.
  destruct acc as [dead g]. cbn. intros Hg.
  destruct (inv_on_net (send_gossip peer.2 topic data) g (grows_ask _ _ _ _) Hg) as [Hg' _].
  by destruct (on_net _ _) as [[] g'].
Qed.
Lemma foldl_inv {A B} (P : A → Prop) (f : A → B → A) l a : (∀ a b, P a → P (f a b)) → P a → P (foldl f a l).
Proof using Type. intros Hf. revert a. induction l as [|b l IH]; intros a Ha; cbn; auto. Qed.
Lemma inv_publishes topic data g : task_inv g → task_inv (publish sk server topic data g).
Proof using Type.
  intros Hg. unfold publish.
  pose proof (foldl_inv (λ acc, task_inv acc.2) (relay topic data) (hash_order (g_peers g)) ([], g)
    (relay_inv topic data) Hg) as Hr.
  destruct (foldl (relay topic data) _ _) as [dead g1].
  assert (task_inv (foldl drop_peer g1 dead)) as Hd by (apply foldl_inv; [intros; by apply inv_drop_peer|done]).
  destruct server; [|done]. destruct Hd. by split.
Qed.

Lemma inv_own_addrs a g : task_inv g → task_inv (set_own_addrs a g).
Proof using Type. intros []. by split. Qed.
Lemma inv_command cmd g : task_inv g → task_inv (handle_command sk server cmd g).2.
Proof using Type.
  intros Hg. destruct cmd as [addr [] join pw fp|topic|topic|topic data|pid mid x env mb pn|pid cid cpk|pid cid cpk ch since|addr|cpk cid|pid|
    discovered cpk cid|]; cbn [handle_command snd]; try done.
  - destruct (inv_new_cancel addr g Hg) as [Hg' Hlt]. destruct (new_cancel addr g) as [c g']. by apply inv_spawn.
  - by apply inv_spawn.
  - by apply inv_publishes.
  - unfold handle_send_dm. destruct (direct_client pid g) as [c|] eqn:Hc.
    + apply inv_spawn; [done|]. cbn. by eapply inv_peers.
    + destruct mb; [by apply inv_spawn|]. destruct pn; [by apply inv_spawn|by apply inv_send].
  - destruct (g_peers g !! pid) as [c|] eqn:Hc; [|done]. apply inv_spawn; [done|]. by eapply inv_peers.
  - destruct (g_peers g !! pid) as [c|] eqn:Hc; [|done]. destruct (parse_ulid ch); [|done].
    apply inv_spawn; [done|]. by eapply inv_peers.
  - by apply inv_send, inv_own_addrs.
  - by apply inv_send.
  - destruct (g_peers g !! pid) as [c|] eqn:Hc; [|done]. apply inv_spawn; [done|]. by eapply inv_peers.
  - apply foldl_inv; [|done]. intros g0 [pk a] H0'. case_bool_decide; [done|by apply inv_spawn].
Qed.

(** A connection, its client and the state after it. *)
Lemma inv_connect addr fp nonce g :
  task_inv g →
  match on_net (connect addr fp sk nonce) g with
  | (Ok (c, _), g') => task_inv g' ∧ (c < clients g')%nat
  | (Err _, g') => task_inv g' end ∧
  g_next_cancel (on_net (connect addr fp sk nonce) g).2 = g_next_cancel g.
Proof using Type.
  intros Hg. destruct (inv_on_net _ g (grows_connect addr fp nonce) Hg) as [Hg' _]. unfold on_net in *.
  pose proof (connect_new addr fp nonce (g_net g)) as Hnew.
  destruct (connect addr fp sk nonce (g_net g)) as [[[c pk]|e] n]; [|done]. split; [|done]. split; [done|]. by apply (Hnew c pk n).
Qed.
Lemma inv_asks {A} (m : Net N A) g : grows m → task_inv g → task_inv (on_net m g).2 ∧ (clients g ≤ clients (on_net m g).2)%nat ∧
  g_next_cancel (on_net m g).2 = g_next_cancel g.
Proof using Type.
  intros Hm Hg. destruct (inv_on_net m g Hm Hg). unfold on_net in *. by destruct (m (g_net g)).
Qed.

Lemma inv_run_dial nonce is_seed seed cancel g :
  task_inv g → task_ok (clients g) (g_next_cancel g) (DialTask is_seed seed cancel) →
  task_inv (run_dial sk nonce is_seed seed cancel g).
Proof using Type.
  intros Hg Hok. unfold run_dial.
  destruct (inv_connect (si_addr seed) (si_fingerprint seed) nonce g Hg) as [Hc Hnext].
  destruct (on_net _ _) as [[[c pk]|e] g1]; cbn [snd] in Hnext.
  - destruct Hc as [Hg1 Hc]. set (g2 := register _ g1). assert (task_inv g2) as Hg2 by by apply inv_register.
    destruct (si_join_community seed) as [[cpk cid]|]; [|done]. case_bool_decide; [|done]. by apply inv_spawn.
  - destruct is_seed; cbn [negb]; [|done]. case_match.
    + destruct (si_join_community seed) as [[]|]; [by apply inv_send|done].
    + set (g2 := match si_join_community seed with Some _ => _ | None => _ end).
      assert (task_inv g2 ∧ g_next_cancel g2 = g_next_cancel g1) as [Hg2 Hn2]
        by (unfold g2; destruct (si_join_community seed) as [[]|]; [split; [by apply inv_send|done]|done]).
      destruct cancel as [c|]; [|done]. apply inv_spawn; [done|]. cbn in *. rewrite Hn2, Hnext. lia.
Qed.
Lemma inv_run_reconnect nonce seed cancel delay g :
  task_inv g → task_ok (clients g) (g_next_cancel g) (ReconnectTask seed cancel delay) →
  task_inv (run_reconnect sk nonce seed cancel delay g).
Proof using Type.
  intros Hg [Hcn Hdl]. unfold run_reconnect. case_match; [done|]. case_match; [done|].
  destruct (inv_connect (si_addr seed) (si_fingerprint seed) nonce g Hg) as [Hc Hnext].
  destruct (on_net _ _) as [[[c pk]|e] g1]; cbn [snd] in Hnext.
  - destruct Hc as [Hg1 Hc]. set (g2 := match si_join_community seed with Some _ => _ | None => _ end).
    assert (task_inv g2 ∧ (clients g1 ≤ clients g2)%nat) as [Hg2 Hle].
    { unfold g2. destruct (si_join_community seed) as [[]|]; [|done]. case_bool_decide; [|done].
      apply inv_on_net; [apply grows_ask|done]. }
    apply inv_register; [done|done|cbn; lia].
  - apply inv_spawn; [done|]. cbn. rewrite Hnext. lia.
Qed.
Lemma inv_run_discovered nonce addr cpk cid g : task_inv g → task_inv (run_discovered sk nonce addr cpk cid g).
Proof using Type.
  intros Hg. unfold run_discovered. destruct (inv_connect addr TOFU nonce g Hg) as [Hc _].
  destruct (on_net _ _) as [[[c pk]|e] g1]; [|done]. destruct Hc as [Hg1 Hc].
  set (m := join_community _ _ _ _). destruct (inv_on_net m g1 (grows_ask _ _ _ _) Hg1) as [Hg2 Hle].
  destruct (on_net m g1) as [r g2]. apply inv_register; [done|done|cbn in *; lia].
Qed.
Lemma inv_run_task nonce t g :
  task_inv g → task_ok (clients g) (g_next_cancel g) t → task_inv (run_task sk nonce t g).
Proof using Type.
  intros Hg Hok. destruct t as [b seed c|c pk cid pw|seed c d|addr cpk cid|c pid cid cpk|c cid cpk ch u since n|rt pid mid x env|c];
    cbn [run_task].
  - by apply inv_run_dial.
  - unfold run_auto_join. set (m := join_community _ _ _ _). destruct (inv_on_net m g (grows_ask _ _ _ _) Hg) as [Hg' _].
    destruct (on_net m g) as [[] g']; [done|by apply inv_send].
  - by apply inv_run_reconnect.
  - by apply inv_run_discovered.
  - unfold run_fetch_manifest. destruct (inv_on_net (fetch_manifest c cpk) g (grows_ask _ _ _ _) Hg) as [Hg' _].
    destruct (on_net _ _) as [[[[[]]]|] g']; [by apply inv_send|]. case_match; [by apply inv_send|done].
  - unfold run_fetch_history. destruct n as [|n]; [done|]. set (m := join_community _ _ _ _).
    destruct (inv_asks m g (grows_ask _ _ _ _) Hg) as (Hg' & Hle & Hn). destruct (on_net m g) as [[] g']; cbn [snd] in *.
    + destruct (inv_on_net (get_messages c cpk u since) g' (grows_ask _ _ _ _) Hg') as [Hg2 _].
      destruct (on_net _ _) as [[] g2]; [by apply inv_send|done].
    + case_match; [done|]. case_match; [|done]. apply inv_spawn; [done|]. cbn in *. lia.
  - unfold run_send_dm. set (m := match rt with inl _ => _ | inr _ => _ end).
    assert (grows m) as Hm.
    { unfold m. destruct rt; [apply grows_ask|]. apply grows_bind; [apply grows_connect|]. intros []. apply grows_ask. }
    destruct (inv_on_net m g Hm Hg) as [Hg' _]. destruct (on_net m g) as [[] g']; [done|by apply inv_send].
  - unfold run_fetch_mailbox. destruct (inv_on_net (get_dms c 0) g (grows_ask _ _ _ _) Hg) as [Hg' _].
    destruct (on_net _ _) as [[] g']; [|done]. apply foldl_inv; [intros; by apply inv_send|done].
Qed.

(** Pushes of the own node are read like those of a peer. *)
Lemma inbound_read push g : inbound_push sk push g = read_push sk push g.
Proof using Type. unfold inbound_push, read_push, translate. destruct push; try done. by case_bool_decide. Qed.
Lemma inv_step g g' : net_step sk server g g' → task_inv g → task_inv g'.
Proof using Type*.
  destruct 1 as [cmd g' Hcmd|r rs Hr|e es He|c push Hc|push|i t nonce Ht|net]; intros Hg.
  - pose proof (inv_command cmd g Hg) as Hi. by rewrite Hcmd in Hi.
  - pose proof (inv_registrations g Hg) as Hf. rewrite Hr in Hf. apply Forall_cons in Hf as [[Hid Hc] Hrs].
    apply inv_registration; [|done|done]. apply inv_queues; [done|apply Hg|done].
  - apply inv_send, inv_queues; [done|apply Hg..].
  - unfold read_push. destruct (translate _ _); [by apply inv_forward|done].
  - rewrite inbound_read. unfold read_push. destruct (translate _ _); [by apply inv_forward|done].
  - pose proof (inv_tasks g Hg) as Hf. apply inv_run_task.
    + destruct Hg. split; try done. cbn. by apply Forall_delete.
    + rewrite Forall_lookup in Hf. by apply (Hf i).
  - by apply inv_set_net.
Qed.

(** C14: the tables of the network task stay consistent, whatever commands, registrations,
    pushes, task endings and changes of the network happen, in any order: the index by
    node identifier names connected peers only, each under the digest of its key, and finds
    every connected peer whose digest no other key has; every seed in the table is connected;
    every client, reader, registration and task refers to a connection that was opened, and
    a reconnect loop waits between 5 and 300 seconds. *)
Theorem task_invariant addrs n g :
  rtc (net_step sk server) (gossip_start addrs n) g → task_inv g.
Proof using Type*.
  intros Hrtc. assert (task_inv (gossip_start addrs n)) as Hg.
  { unfold gossip_start. apply foldl_inv; [intros; by apply inv_send, inv_own_addrs|].
    split; cbn; try constructor; intros *; rewrite ?lookup_empty; done || by intros []. }
  induction Hrtc as [|g1 g2 g3 Hstep _ IH]; [done|]. apply IH. by eapply inv_step.
Qed.
(** A connected peer is found by its node identifier. *)
Lemma direct_client_digest g p c :
  task_inv g → g_peers g !! p = Some c →
  ∃ pk, p = hex pk ∧ ((∀ pk', sha256 pk' = sha256 pk → pk' = pk) → direct_client (hex (sha256 pk)) g = Some c).
Proof using Type.
  intros [[_ Hf _] _ _ _ _ _] Hp. destruct (Hf p) as (pk & -> & Hs); [by eexists|]. exists pk. split; [done|].
  intros Hinj. unfold direct_client. by rewrite (Hs Hinj).
Qed.

(** *** Publishing *)

(** What the application is told when a peer is lost. *)
Definition losses (seeds : gmap string SeedPeerInfo) (id : string) : list SwarmEvent :=
  PeerDisconnected id ::
  match seeds !! id with
  | Some seed => match si_join_community seed with Some (_, cid) => [SeedPeerDisconnected cid] | None => [] end
  | None => []
  end.

Definition keeps g g' : Prop :=
  (g_peers g', g_sha256_map g', g_seed_peers g', g_cancels g', g_next_cancel g', g_own_addrs g', g_readers g',
   g_registrations g', g_forwarded g', g_events g', g_pushed g', g_tasks g') =
  (g_peers g, g_sha256_map g, g_seed_peers g, g_cancels g, g_next_cancel g, g_own_addrs g, g_readers g,
   g_registrations g, g_forwarded g, g_events g, g_pushed g, g_tasks g).
Lemma on_net_keeps {A} (m : Net N A) g : keeps g (on_net m g).2.
Proof using Type. unfold on_net. by destruct (m (g_net g)). Qed.

Definition reached (topic : string) (data : bytes) (client : nat) (ok : bool) : Prop :=
  ∃ n n' r, send_gossip client topic data n = (r, n') ∧ (match r with Ok _ => true | Err _ => false end) = ok.
(** The relay sends to every peer once, in the order of the table, and collects those that
    could not be reached. *)
Lemma relay_spec topic data l g :
  NoDup l.*1 →
  let '(dead, g') := foldl (relay topic data) ([], g) l in
  keeps g g' ∧ sublist dead l.*1 ∧ Forall (λ peer, reached topic data peer.2 (bool_decide (peer.1 ∉ dead))) l.
Proof using Type.
  induction l as [|[p c] l IH] using rev_ind; intros Hnd; [by repeat constructor|].
  rewrite fmap_app, NoDup_app in Hnd. destruct Hnd as (Hnd & Hni & _). specialize (IH Hnd). rewrite foldl_app.
  destruct (foldl (relay topic data) ([], g) l) as [dead g1]. destruct IH as (Hk & Hs & Hf). cbn [foldl relay fst snd].
  pose proof (on_net_keeps (send_gossip c topic data) g1) as Hk1. unfold on_net in *.
  destruct (send_gossip c topic data (g_net g1)) as [r n'] eqn:Hsend; cbn [snd] in Hk1.
  assert (p ∉ dead) as Hp.
  { intros Hin. apply (Hni p); [|by left]. by eapply elem_of_sublist. }
  rewrite fmap_app. destruct r as [[]|e]; (split; [unfold keeps in *; congruence|]); rewrite Forall_app.
  - split; [by apply sublist_inserts_r|]. split; [done|]. repeat constructor. exists (g_net g1), n', (Ok tt). cbn [fst snd].
    by rewrite bool_decide_true.
  - split; [by apply sublist_app|]. split.
    + rewrite Forall_forall in *. intros [p' c'] Hin. specialize (Hf _ Hin). cbn [fst snd] in *.
      rewrite (bool_decide_ext (p' ∉ dead ++ [p]) (p' ∉ dead)); [done|].
      assert (p' ≠ p) by (intros ->; apply (Hni p); [by apply list_elem_of_fmap_2 with (f := fst) in Hin|by left]).
      rewrite elem_of_app, list_elem_of_singleton. naive_solver.
    + repeat constructor. exists (g_net g1), n', (Err e). cbn [fst snd]. split; [done|].
      rewrite bool_decide_false; [done|]. intros Hn. apply Hn, elem_of_app. right. by left.
Qed.

Lemma drop_peer_spec g id :
  let g' := drop_peer g id in
  g_peers g' = delete id (g_peers g) ∧ g_seed_peers g' = delete id (g_seed_peers g) ∧
  g_events g' = g_events g ++ losses (g_seed_peers g) id ∧ g_pushed g' = g_pushed g ∧ (g_next_cancel g ≤ g_next_cancel g')%nat ∧
  ∃ ts, g_tasks g' = g_tasks g ++ ts ∧
    match g_seed_peers g !! id with
    | Some seed => ts = [ReconnectTask seed (g_next_cancel g) 5] ∧ cancelled (si_addr seed) (g_next_cancel g) g' = false
    | None => ts = []
    end.
Proof using Type.
  unfold drop_peer, losses. destruct (g_seed_peers g !! id) as [seed|].
  - destruct (si_join_community seed) as [[cpk cid]|]; cbn; (split_and!; [done..|by rewrite <- ?app_assoc|done|lia|]);
      eexists; (split; [done|]); (split; [done|]); unfold cancelled; cbn; by rewrite lookup_insert_eq, bool_decide_true.
  - cbn. split_and!; [done..|]. exists []. by rewrite app_nil_r.
Qed.
Lemma losses_delete id dead seeds : id ∉ dead → dead ≫= losses (delete id seeds) = dead ≫= losses seeds.
Proof using Type.
  induction dead as [|d dead IH]; [done|]. intros [Hd Hni]%not_elem_of_cons.
  change (losses (delete id seeds) d ++ (dead ≫= losses (delete id seeds)) = losses seeds d ++ (dead ≫= losses seeds)).
  rewrite (IH Hni). f_equal. unfold losses. by rewrite lookup_delete_ne by done.
Qed.
Lemma drops_spec dead g :
  NoDup dead →
  let g' := foldl drop_peer g dead in
  (∀ p, g_peers g' !! p = if decide (p ∈ dead) then None else g_peers g !! p) ∧
  g_events g' = g_events g ++ (dead ≫= losses (g_seed_peers g)) ∧ g_pushed g' = g_pushed g ∧
  (∀ t, t ∈ g_tasks g → t ∈ g_tasks g') ∧
  ∀ p seed, p ∈ dead → g_seed_peers g !! p = Some seed → ∃ c, (g_next_cancel g ≤ c)%nat ∧ ReconnectTask seed c 5 ∈ g_tasks g'.
Proof using Type.
  revert g. induction dead as [|id dead IH]; intros g Hnd; cbn.
  { split_and!; try done; [by rewrite app_nil_r|]. intros p seed []%elem_of_nil. }
  apply NoDup_cons in Hnd as [Hni Hnd]. destruct (drop_peer_spec g id) as (Hps & Hsd & Hev & Hpu & Hnx & ts & Hts & Hseed).
  destruct (IH (drop_peer g id) Hnd) as (Hps' & Hev' & Hpu' & Hts' & Hr').
  split_and!.
  - intros p. rewrite Hps', Hps, lookup_delete. destruct (decide (p = id)) as [->|Hne].
    + rewrite decide_False by done. rewrite decide_True by done. by rewrite decide_True by (by left).
    + rewrite (decide_False (P := id = p)) by done. destruct (decide (p ∈ dead)).
      * by rewrite decide_True by (by right).
      * rewrite decide_False; [done|]. by intros [->|]%elem_of_cons.
  - by rewrite Hev', Hev, <- app_assoc, Hsd, losses_delete.
  - congruence.
  - intros t Ht. apply Hts'. rewrite Hts, elem_of_app. by left.
  - intros p seed [->|Hin]%elem_of_cons Hs.
    + rewrite Hs in Hseed. destruct Hseed as [-> _]. exists (g_next_cancel g). split; [done|]. apply Hts'.
      rewrite Hts, elem_of_app. right. by left.
    + destruct (Hr' p seed Hin) as (c & Hc & Ht); [|exists c; split; [lia|done]].
      rewrite Hsd, lookup_delete_ne; [done|]. by intros ->.
Qed.

(** Publishing: the message is sent to every outbound peer once; exactly the peers whose
    request failed leave the table, and for each of them the application is told, a seed's
    community included; every lost seed gets a reconnect loop; the others stay, and the
    clients of the embedded node get the message under this node's key. *)
Theorem publish_correct topic data g :
  let g' := publish sk server topic data g in
  ∃ dead, NoDup dead ∧
    (∀ p c, g_peers g !! p = Some c → reached topic data c (bool_decide (p ∉ dead))) ∧
    (∀ p, g_peers g' !! p = if decide (p ∈ dead) then None else g_peers g !! p) ∧
    (∀ p, p ∈ dead → is_Some (g_peers g !! p)) ∧
    g_events g' = g_events g ++ (dead ≫= losses (g_seed_peers g)) ∧
    (∀ p seed, p ∈ dead → g_seed_peers g !! p = Some seed →
       ∃ c, (g_next_cancel g ≤ c)%nat ∧ ReconnectTask seed c 5 ∈ g_tasks g') ∧
    g_pushed g' = g_pushed g ++ if server then [(None, GossipMessage topic (own_pk_hex sk) data)] else [].
Proof using Type*.
  intros g'. assert (NoDup (hash_order (g_peers g)).*1) as Hnd.
  { rewrite hash_order_perm. apply NoDup_fst_map_to_list. }
  pose proof (relay_spec topic data (hash_order (g_peers g)) g Hnd) as Hr. unfold g', publish.
  destruct (foldl (relay topic data) ([], g) (hash_order (g_peers g))) as [dead g1]. destruct Hr as (Hk & Hs & Hf).
  assert (NoDup dead) as Hdead by (by eapply sublist_NoDup).
  destruct (drops_spec dead g1 Hdead) as (Hps & Hev & Hpu & _ & Hre). unfold keeps in Hk.
  injection Hk as Hps1 _ Hsd1 _ Hnx1 _ _ _ _ Hev1 Hpu1 _.
  rewrite Hps1 in Hps. rewrite Hsd1, Hev1 in Hev. rewrite Hpu1 in Hpu. rewrite Hsd1, Hnx1 in Hre.
  exists dead. split; [done|]. split.
  { intros p c Hp. rewrite Forall_forall in Hf. apply (Hf (p, c)). rewrite hash_order_perm. by apply elem_of_map_to_list. }
  split; [by destruct server|]. split.
  { intros p Hp. assert (p ∈ (hash_order (g_peers g)).*1) as Hin by (by eapply elem_of_sublist).
    apply list_elem_of_fmap in Hin as ([p' c] & -> & Hin). rewrite hash_order_perm in Hin. apply elem_of_map_to_list in Hin. by eexists. }
  split; [by destruct server|]. split; [by destruct server|]. destruct server; cbn; [by rewrite Hpu|by rewrite app_nil_r].
Qed.

(** *** Reconnecting to seeds *)

(** 5, 10, 20, ..., 160, 300, 300, ... seconds. *)
Definition reconnect_delay (k : nat) : Z := Z.min (5 * 2 ^ Z.of_nat k) 300.
Lemma reconnect_delay_succ k : Z.min (reconnect_delay k * 2) 300 = reconnect_delay (S k).
Proof using Type. unfold reconnect_delay. rewrite Nat2Z.inj_succ, Z.pow_succ_r by lia. lia. Qed.

(** A round of the loop: it ends when its sender was dropped or the address has turned out to
    be this node's own; it goes on with twice the delay, at most five minutes, while the seed
    is unreachable; and it registers the seed, for the same community, when it is back. *)
Theorem reconnect_correct nonce seed cancel k g :
  let g' := run_reconnect sk nonce seed cancel (reconnect_delay k) g in
  (cancelled (si_addr seed) cancel g || is_own_addr (si_addr seed) g = true → g' = g) ∧
  (cancelled (si_addr seed) cancel g || is_own_addr (si_addr seed) g = false →
     match connect (si_addr seed) (si_fingerprint seed) sk nonce (g_net g) with
     | (Err _, n) => g' = spawn (ReconnectTask seed cancel (reconnect_delay (S k))) (set_net n g)
     | (Ok (c, pk), n) => ∃ n', g' = register (mkReg (hex pk) pk c true seed) (set_net n' g) ∧
         (n' = n ∨ ∃ cid, si_join_community seed = Some (ed_public sk, cid) ∧
            n' = (join_community c (cert_new sk pk U64_MAX) (Some cid) (si_password seed) n).2)
     end).
Proof using Type.
  unfold run_reconnect, on_net. destruct (cancelled _ _ _); [by split|]. destruct (is_own_addr _ _); [by split|].
  split; [done|]. intros _. destruct (connect _ _ _ _ _) as [[[c pk]|e] n]; [|by rewrite reconnect_delay_succ].
  destruct (si_join_community seed) as [[cpk cid]|]; [|by exists n; auto].
  case_bool_decide as Hpk; [|by exists n; auto]. subst cpk. cbn [g_net set_net].
  destruct (join_community _ _ _ _ n) as [r n'] eqn:Hj. exists n'. split; [done|]. right. exists cid. by rewrite Hj.
Qed.

(** Dialling an address for another community ends the loop that waits for it: two communities
    on one seed that is down, and only the second is announced when the seed is back. *)
Lemma redial_cancels_loop nonce seed cancel delay join pw fp g :
  task_inv g → ReconnectTask seed cancel delay ∈ g_tasks g →
  let g' := (handle_command sk server (CmdDial (si_addr seed) true join pw fp) g).2 in
  run_reconnect sk nonce seed cancel delay g' = g'.
Proof using Type.
  intros Hg Ht g'. pose proof (inv_tasks g Hg) as Hf. rewrite Forall_forall in Hf. destruct (Hf _ Ht) as [Hc _].
  unfold run_reconnect. assert (cancelled (si_addr seed) cancel g' = true) as ->; [|done].
  unfold cancelled, g'. cbn. rewrite lookup_insert_eq, bool_decide_false; [done|]. intros [= Heq]. lia.
Qed.
(** A seed that two communities share is remembered for the first only: when it is lost, only
    the first is told. *)
Lemma shared_seed_lost_once r r' g :
  g_peers g !! reg_peer_id r = None → reg_is_seed r = true → reg_is_seed r' = true → reg_peer_id r' = reg_peer_id r →
  let g' := handle_registration r' (handle_registration r g) in
  g_seed_peers g' !! reg_peer_id r = Some (reg_seed r) ∧
  g_events (drop_peer g' (reg_peer_id r)) = g_events g' ++ PeerDisconnected (reg_peer_id r) ::
    match si_join_community (reg_seed r) with Some (_, cid) => [SeedPeerDisconnected cid] | None => [] end.
Proof using Type.
  intros Hn Hs Hs' Hid g'.
  assert (g_seed_peers g' !! reg_peer_id r = Some (reg_seed r)) as Hl.
  { unfold g'. rewrite <- (lookup_insert_eq (g_seed_peers g) (reg_peer_id r) (reg_seed r)).
    unfold handle_registration at 1. rewrite Hid. unfold handle_registration. rewrite Hn, Hs, Hs'. cbn.
    rewrite lookup_insert_eq. by destruct (connected_event r'). }
  split; [done|]. destruct (drop_peer_spec g' (reg_peer_id r)) as (_ & _ & -> & _). unfold losses. by rewrite Hl.
Qed.

(** *** Fetching a history gives up after fifteen attempts *)

Definition attempts (t : Task) : nat := match t with FetchHistoryTask _ _ _ _ _ _ n => n | _ => 0 end.
Lemma history_attempts nonce client cid cpk ch u since k g :
  let g' := run_task sk nonce (FetchHistoryTask client cid cpk ch u since k) g in
  g_tasks g' = g_tasks g ∨ ∃ t, g_tasks g' = g_tasks g ++ [t] ∧ attempts t = pred k ∧ (0 < k)%nat.
Proof using Type.
  cbn. unfold run_fetch_history. destruct k as [|k]; [by left|].
  pose proof (on_net_keeps (join_community client (dummy_cert cpk (replicate 32 0)) (Some cid) None) g) as Hk.
  destruct (on_net _ g) as [[u1|e] g1]; cbn [snd] in Hk; unfold keeps in Hk; injection Hk as _ _ _ _ _ _ _ _ _ _ _ Hts.
  - pose proof (on_net_keeps (get_messages client cpk u since) g1) as Hk. destruct (on_net _ g1) as [[] g2]; cbn [snd] in Hk;
      unfold keeps in Hk; injection Hk as _ _ _ _ _ _ _ _ _ _ _ Hts2; left; cbn; congruence.
  - case_match; [by left|]. case_match; [|by left]. right. eexists. split; [cbn; by rewrite Hts|]. split; [done|lia].
Qed.
End task_props.
