(* ===== verification/Delivery.v ===== *)
(** * From one client through a node to another

    The network task of [NetworkTask] against the node of [Wire]: a seed that is dialled is
    joined and announced, a gossiped message reaches the clients of the node and not its
    publisher, a member fetches a channel's history, a direct message is read by its
    recipient as it arrives, and only then. *)

From S2P Require Import Prelude Bytes Redb Routing Crypto Codec Model ClientState SeqLog Protocol NodeClient.
From S2P Require Import Store DhtNode Handler AppState CommunityEvents ClientEvents Wire SeedSync NetworkTask.

(** What the client reads in the node's refusals. *)
Lemma mismatch_text :
  let e := failed "join_community" 403 "hosting cert node_pk does not match this node's identity" in
  contains "invalid node join password" e = false ∧ contains "403" e = true.
Proof. by vm_compute. Qed.
Lemma password_text : contains "invalid node join password" (failed "join_community" 403 "invalid node join password") = true.
Proof. by vm_compute. Qed.

Section delivery.
Context {T : Type} `{CryptoLaws} `{TableLaws T} `{NodeCodecsLaws} `{HashOrderLaws} `{UlidText} `{ErrorText}.
Context `{Postcard PeerInfoRecord} `{Postcard NodeAddr} `{AppCodecs}.
Context `{PostcardLaws ClientRequest} `{PostcardLaws NodeResponse} `{NodeSite} `{NetText} `{AddrText} `{UlidParse} `{Entropy}.
Implicit Types g : GossipState (NodeNet T).
Implicit Types n : NetWorld (NodeNet T).

(** One answered request of the task. *)
Lemma on_net_asked {A} what (accept : NodeResponse → option A) r c sess req resp a sess' sv' effects g :
  live r c sess (g_net g) → fits MAX_REQUEST req → fits U32_MAX resp →
  dispatch (site_env (nn_served (nw_net (g_net g)))) site_client req sess (services (g_net g)) = (resp, sess', sv', effects) →
  accept resp = Some a →
  ∃ n', on_net (ask what accept r req) g = (Ok a, set_net n' g) ∧ live r c sess' n' ∧ services n' = sv' ∧
    nn_effects (nw_net n') = nn_effects (nw_net (g_net g)) ++ effects.
Proof using Type*.
  intros Hl Hreq Hresp Hd Ha.
  destruct (ask_dispatched what accept r c sess req resp a sess' sv' effects _ Hl Hreq Hresp Hd Ha) as (n' & Hask & Hl' & Hsv & _ & Heff).
  exists n'. unfold on_net. by rewrite Hask.
Qed.
(** One refused request: the text of the error. *)
Lemma on_net_refused {A} what (accept : NodeResponse → option A) r c sess req code msg sess' sv' effects g :
  live r c sess (g_net g) → fits MAX_REQUEST req → fits U32_MAX (Error code msg) →
  dispatch (site_env (nn_served (nw_net (g_net g)))) site_client req sess (services (g_net g)) = (Error code msg, sess', sv', effects) →
  accept (Error code msg) = None →
  ∃ n', on_net (ask what accept r req) g = (Err (failed what code msg), set_net n' g) ∧ live r c sess' n' ∧ services n' = sv'.
Proof using Type*.
  intros Hl Hreq Hresp Hd Ha.
  assert (dispatched c sess req (nw_net (g_net g)) = (Error code msg, mkNodeNet (mkNode sv' (<[c := sess']> (sessions (nw_net (g_net g)))))
            (nn_requests (nw_net (g_net g)) ++ [req]) (nn_effects (nw_net (g_net g)) ++ effects))) as Hdd.
  { unfold dispatched. fold (services (g_net g)). by rewrite Hd. }
  eexists. unfold on_net, ask, mbind, net_bind. rewrite (request_dispatched _ _ _ _ _ _ _ Hl Hreq Hresp Hdd), Ha.
  split; [reflexivity|]. destruct Hl as (m & Hm & Hs & _). split; [|done]. exists m. split; [done|]. split; [done|]. apply lookup_insert_eq.
Qed.

(** *** Gossip *)

(** C10: gossip from its publisher to the other clients: when this client's one peer is a
    live, authenticated connection to a node, publishing keeps the peer and makes the node
    push the message to exactly its authenticated connections; whoever reads that push
    hands it to its application with the publisher's key as its source, and the publisher
    itself drops it. *)
Theorem gossip_delivered sk server topic data p r c sess g :
  live r c sess (g_net g) → client_pk sess = Some (ed_public sk) → g_peers g = {[ p := r ]} →
  fits MAX_REQUEST (Gossip topic data) → fits U32_MAX GossipAck →
  let g' := publish sk server topic data g in
  let push := GossipMessage topic (hex (ed_public sk)) data in
  g_peers g' = g_peers g ∧ g_events g' = g_events g ∧
  nn_effects (nw_net (g_net g')) = nn_effects (nw_net (g_net g)) ++ [Push None push] ∧
  (∀ other, should_send None other = is_authenticated other) ∧
  ∀ sk' g2, read_push sk' push g2 =
    if decide (ed_public sk = ed_public sk') then g2 else forward (MessageReceived topic (Some (hex (ed_public sk))) data) g2.
Proof using Type*.
  intros Hl Hpk Hps Hreq Hresp g' push.
  assert (hash_order (g_peers g) = [(p, r)]) as Hord.
  { apply Permutation_singleton_r. by rewrite hash_order_perm, Hps, map_to_list_singleton. }
  set (sv' := with_store (persist_gossip (ev_rnd (site_env (nn_served (nw_net (g_net g)))) 0%nat) topic data (sv_store (services (g_net g)))) (services (g_net g))).
  assert (dispatch (site_env (nn_served (nw_net (g_net g)))) site_client (Gossip topic data) sess (services (g_net g)) =
          (GossipAck, sess, sv', [Push None push])) as Hd by (cbn; unfold dispatch_gossip; by rewrite Hpk).
  destruct (on_net_asked "send_gossip" (λ resp, match resp with GossipAck => Some tt | _ => None end) r c sess _ _ tt _ _ _ g Hl Hreq Hresp Hd eq_refl)
    as (n' & Hask & _ & _ & Heff).
  assert (g' = if server then set_out (g_events g) (g_pushed g ++ [(None, push)]) (set_net n' g) else set_net n' g) as ->.
  { unfold g', publish. rewrite Hord. cbn [foldl relay fst snd]. change (send_gossip r topic data) with
      (ask "send_gossip" (λ resp, match resp with GossipAck => Some tt | _ => None end) r (Gossip topic data)).
    rewrite Hask. done. }
  split; [by destruct server|]. split; [by destruct server|]. split; [by destruct server|]. split; [done|].
  intros sk' g2. unfold read_push, translate, push, own_pk_hex.
  case_decide as Heq; [by rewrite Heq, bool_decide_true|]. rewrite bool_decide_false; [done|].
  intros Hh. apply Heq. apply hex_inj in Hh; [done|apply wf_ed_public..].
Qed.

(** *** A channel's history *)

(** A recorded member joins, whatever its certificate, and changes the session only. *)
Lemma member_joins ev cert community_id sess sv pk :
  client_pk sess = Some pk → ed_valid_key (cert_community_pk cert) = true → is_known_member cert sess sv = true →
  ∃ sess' effects, dispatch ev site_client (JoinCommunity cert (Some community_id) None) sess sv =
      (Authenticated (sv_node_pk sv), sess', sv, effects) ∧
    client_pk sess' = Some pk ∧ has_joined (cert_community_pk cert) sess' = true.
Proof using Type.
  intros Hpk Hv Hm. cbn. unfold is_authenticated. rewrite Hpk. cbn. unfold handle_join_community. rewrite Hm, Hv. cbn [negb].
  assert (store_new_meta (ev_rnd ev 0%nat) cert (sv_store sv) = sv_store sv) as ->.
  { unfold is_known_member in Hm. unfold store_new_meta. by destruct (meta_or_none _ _). }
  eexists _, _. split; [unfold with_store; by destruct sv|]. destruct (has_joined _ sess) eqn:Hjo; [done|]. split; [done|].
  unfold has_joined. apply bool_decide_eq_true_2, elem_of_app. right. by left.
Qed.
(** Anybody else is refused, and nothing changes. *)
Lemma stranger_refused ev cert community_id sess sv pk refusal :
  client_pk sess = Some pk → ed_valid_key (cert_community_pk cert) = true → is_known_member cert sess sv = false →
  refuse_cert ev cert None (sv_join_password sv) (sv_node_pk sv) = Some refusal →
  dispatch ev site_client (JoinCommunity cert (Some community_id) None) sess sv = (refusal, sess, sv, []).
Proof using Type.
  intros Hpk Hv Hm Hr. cbn. unfold is_authenticated. rewrite Hpk. cbn. unfold handle_join_community. by rewrite Hm, Hv, Hr.
Qed.
(** A joined session reads a channel. *)
Lemma joined_reads ev sess sv pk cpk ch since es :
  client_pk sess = Some pk → has_joined cpk sess = true → sv_inv sv → wf_key cpk → is_u64 since → get_messages cpk ch 0 (sv_store sv) = Ok es →
  dispatch ev site_client (GetMessages cpk ch since) sess sv = (Messages (retain (λ e, since <=? le_seq e) es), sess, sv, []).
Proof using Type*.
  intros Hpk Hjn [Hi _] Hcpk Hsince Hes. cbn. unfold channel_guard, is_authenticated. rewrite Hpk, Hjn. cbn. unfold dispatch_get_messages.
  destruct (get_messages_holds _ _ _ _ Hi Hcpk Hes) as [Ho He]. by rewrite (get_messages_since _ _ _ _ _ Hi Hcpk Hsince Ho He).
Qed.

(** C12: fetching a channel's history: a client that the node records as a member gets, in one
    attempt and although it presents a certificate that nobody signed, exactly the entries
    from [since_seq] on, and the node's data is unchanged; a client that is no member, at a
    node without a password, is refused and tries again as long as attempts are left; at a
    node with a password it gives up at once. *)
Theorem history_fetched sk nonce r c sess pk community_id cpk channel_id ch since es k g :
  let sv := services (g_net g) in
  let cert := dummy_cert cpk (replicate 32 0) in
  let g' := run_task sk nonce (FetchHistoryTask r community_id cpk channel_id ch since (S k)) g in
  live r c sess (g_net g) → client_pk sess = Some pk → ed_valid_key cpk = true → wf_key cpk →
  sv_inv sv → is_u64 since → get_messages cpk ch 0 (sv_store sv) = Ok es →
  fits MAX_REQUEST (JoinCommunity cert (Some community_id) None) → fits MAX_REQUEST (GetMessages cpk ch since) →
  Forall (fits U32_MAX) [Authenticated (sv_node_pk sv); Messages (retain (λ e, since <=? le_seq e) es);
    Error 403 "hosting cert node_pk does not match this node's identity"; Error 403 "invalid node join password"] →
  (is_known_member cert sess sv = true →
     g_events g' = g_events g ++ [ChannelHistoryReceived community_id channel_id (retain (λ e, since <=? le_seq e) es)] ∧
     g_tasks g' = g_tasks g ∧ services (g_net g') = sv) ∧
  (is_known_member cert sess sv = false → sv_node_pk sv ≠ replicate 32 0 → sv_join_password sv = None →
     g_events g' = g_events g ∧ services (g_net g') = sv ∧
     g_tasks g' = g_tasks g ++ [FetchHistoryTask r community_id cpk channel_id ch since k]) ∧
  (∀ pw, is_known_member cert sess sv = false → sv_join_password sv = Some pw → pw ≠ ""%string →
     g_events g' = g_events g ∧ g_tasks g' = g_tasks g).
Proof using Type*.
  intros sv cert g' Hl Hpk Hv Hcpk Hsv Hsince Hes Hreq Hreq2 Hresp.
  apply Forall_cons in Hresp as [Hauth [Hmsgs [H403 [Hpwd _]%Forall_cons]%Forall_cons]%Forall_cons].
  unfold g'. cbn [run_task]. unfold run_fetch_history, join_community, NodeClient.get_messages. fold cert.
  set (accept_join := λ resp : NodeResponse, match resp with Authenticated _ => Some tt | _ => None end).
  set (accept_messages := λ resp : NodeResponse, match resp with Messages es => Some es | _ => None end).
  split; [|split].
  - intros Hm. destruct (member_joins (site_env (nn_served (nw_net (g_net g)))) cert community_id sess sv pk Hpk Hv Hm) as (sess' & eff & Hd & Hpk' & Hjn).
    destruct (on_net_asked "join_community" accept_join r c sess _ _ tt _ _ _ g Hl Hreq Hauth Hd eq_refl) as (n1 & -> & Hl1 & Hs1 & _).
    pose proof (joined_reads (site_env (nn_served (nw_net n1))) sess' sv pk cpk ch since es Hpk' Hjn Hsv Hcpk Hsince Hes) as Hd2. rewrite <- Hs1 in Hd2 at 1.
    destruct (on_net_asked "get_messages" accept_messages r c sess' _ _
                (retain (λ e, since <=? le_seq e) es) _ _ _ (set_net n1 g) Hl1 Hreq2 Hmsgs Hd2 eq_refl) as (n2 & -> & _ & Hs2 & _).
    split; [done|]. split; [done|]. exact Hs2.
  - intros Hm Hnode Hpw.
    pose proof (stranger_refused (site_env (nn_served (nw_net (g_net g)))) cert community_id sess sv pk
      (Error 403 "hosting cert node_pk does not match this node's identity") Hpk Hv Hm) as Hd.
    unfold refuse_cert in Hd. rewrite Hpw, bool_decide_false in Hd by (by intros Heq). specialize (Hd eq_refl).
    destruct (on_net_refused "join_community" accept_join r c sess _ _ _ _ _ _ g Hl Hreq H403 Hd eq_refl) as (n1 & -> & _ & Hs1).
    destruct mismatch_text as [-> ->]. done.
  - intros pw Hm Hpw Hne.
    pose proof (stranger_refused (site_env (nn_served (nw_net (g_net g)))) cert community_id sess sv pk
      (Error 403 "invalid node join password") Hpk Hv Hm) as Hd.
    unfold refuse_cert in Hd. rewrite Hpw, bool_decide_false in Hd by (by intros Heq). specialize (Hd eq_refl).
    destruct (on_net_refused "join_community" accept_join r c sess _ _ _ _ _ _ g Hl Hreq Hpwd Hd eq_refl) as (n1 & -> & _ & Hs1).
    by rewrite password_text.
Qed.

(** *** Dialling a seed *)

Lemma connect_refused addr fp sk nonce n :
  site_pinned fp = false →
  ∃ n', connect addr fp sk nonce n = (Err "authentication request"%string, n') ∧ nw_net n' = nw_net n.
Proof using Type.
  intros Hp. set (m := mkManager addr fp Fresh). set (n0 := mkNetWorld (nw_managers n ++ [m]) (nw_net n)).
  set (r := length (nw_managers n)). assert (nw_managers n0 !! r = Some m) as Hm by by apply list_lookup_middle.
  assert (get_connection r n0 = (Err "initial connect"%string, n0)) as Hg.
  { unfold get_connection. rewrite Hm. cbn [cm_state m]. unfold context, try_connect. cbn [quic_connect node_quic cm_fingerprint m].
    by rewrite Hp. }
  exists n0. split; [|done]. unfold connect, context, manager_new, mbind, net_bind. cbn [quic_endpoint node_quic]. fold m n0 r.
  unfold request, mbind, net_bind. by rewrite Hg.
Qed.

(** C11: a community's creator dials its seed. When the seed's certificate passes, the dial
    hands the connection to the task, which registers the seed under its key and announces
    it, and the joining that follows leaves an authenticated session that has joined the
    community, without an error; when it does not pass, the application is told that the seed
    is away and a reconnect loop is started, unless the address is this node's own. *)
Theorem seed_dialled sk nonce addr fp cid cancel g :
  let cpk := ed_public sk in
  let sv := services (g_net g) in
  let pk := sv_node_pk sv in
  let seed := mkSeed addr (Some (cpk, cid)) None fp in
  let g1 := run_task sk nonce (DialTask true seed (Some cancel)) g in
  store_inv (sv_store sv) → st_online (sv_store sv) = true → sealable CommunityMeta (sv_store sv) →
  wf_key pk → sv_join_password sv = None →
  (∀ i, env_wf (site_env i) ∧ unix_now (ev_time_ns (site_env i)) <= U64_MAX) →
  fits MAX_REQUEST (hello sk nonce) → fits MAX_REQUEST (JoinCommunity (cert_new sk pk U64_MAX) (Some cid) None) →
  fits U32_MAX (Authenticated pk) → g_peers g !! hex pk = None →
  (site_pinned fp = true → ∃ r c, let reg := mkReg (hex pk) pk r true seed in
     g_registrations g1 = g_registrations g ++ [reg] ∧ g_tasks g1 = g_tasks g ++ [AutoJoinTask r pk cid None] ∧
     let g2 := handle_registration reg g1 in
     g_peers g2 = <[hex pk := r]> (g_peers g) ∧ g_seed_peers g2 = <[hex pk := seed]> (g_seed_peers g) ∧
     g_events g2 = g_events g ++ [PeerAddrKnown pk addr; SeedPeerConnected cid (hex pk)] ∧
     let g3 := run_task sk nonce (AutoJoinTask r pk cid None) g2 in
     g_events g3 = g_events g2 ∧ live r c (mkSession (Some cpk) [cpk]) (g_net g3)) ∧
  (site_pinned fp = false → services (g_net g1) = sv ∧ g_registrations g1 = g_registrations g ∧
     if is_own_addr addr g
     then g_events g1 = g_events g ++ [SeedPeerConnected cid ""] ∧ g_tasks g1 = g_tasks g
     else g_events g1 = g_events g ++ [SeedPeerDisconnected cid] ∧ g_tasks g1 = g_tasks g ++ [ReconnectTask seed cancel 5]).
Proof using Type*.
  intros cpk sv pk seed g1 Hi Ho Hs Hpk Hpw Henv Hhello Hjoin Hauth Hnone. split; intros Hp.
  - destruct (connect_authenticates addr fp sk nonce (g_net g) Hp Hhello Hauth) as (n1 & Hc & Hl1 & Hsv1 & _).
    set (r := length (nw_managers (g_net g))) in *. set (c := fresh _) in *.
    assert (g1 = spawn (AutoJoinTask r pk cid None) (register (mkReg (hex pk) pk r true seed) (set_net n1 g))) as ->.
    { unfold g1. cbn [run_task]. unfold run_dial, on_net. cbn [si_addr si_fingerprint si_join_community si_password seed].
      rewrite Hc. by rewrite bool_decide_true. }
    exists r, c. split; [done|]. split; [done|].
    assert (sv_store (services n1) = sv_store sv ∧ sv_node_pk (services n1) = pk ∧
            sv_join_password (services n1) = None) as (Hst1 & Hpk1 & Hpw1).
    { rewrite Hsv1. unfold map_dht. by destruct (sv_dht _). }
    set (g2 := handle_registration _ _).
    assert (g_net g2 = n1) as Hn2 by (unfold g2, handle_registration; cbn; by rewrite Hnone).
    assert (g_events g2 = g_events g ++ [PeerAddrKnown pk addr; SeedPeerConnected cid (hex pk)]) as Hev2.
    { unfold g2, handle_registration. cbn. rewrite Hnone. cbn. by rewrite <- app_assoc. }
    split; [unfold g2, handle_registration; cbn; by rewrite Hnone|].
    split; [unfold g2, handle_registration; cbn; by rewrite Hnone|]. split; [done|].
    destruct (join_spec r c sk cid n1) as (n2 & Hj & Hl2 & _); rewrite ?Hst1, ?Hpk1; auto. rewrite Hpk1 in Hj.
    cbn [run_task]. unfold run_auto_join, on_net. rewrite Hn2, Hj. done.
  - destruct (connect_refused addr fp sk nonce (g_net g) Hp) as (n1 & Hc & Hn1).
    unfold g1. cbn [run_task]. unfold run_dial, on_net. cbn [si_addr si_fingerprint si_join_community si_password seed].
    rewrite Hc. cbn [negb]. change (is_own_addr addr (set_net n1 g)) with (is_own_addr addr g).
    assert (services n1 = sv) as Hsv1 by (unfold services; by rewrite Hn1).
    by destruct (is_own_addr addr g).
Qed.

(** *** Direct messages *)

Lemma retain_from_last es e :
  StronglySorted (λ a b, le_seq a < le_seq b) (es ++ [e]) → retain (λ x, le_seq e <=? le_seq x) (es ++ [e]) = [e].
Proof using Type.
  intros Hs. apply StronglySorted_app in Hs as (Hlt & _ & _). rewrite retain_app. cbn. rewrite Z.leb_refl.
  assert (retain (λ x, le_seq e <=? le_seq x) es = []) as ->; [|done].
  induction es as [|x es IH]; [done|]. cbn. specialize (Hlt x e ltac:(by left) ltac:(by left)) as Hx. cbn in Hx.
  destruct (Z.leb_spec (le_seq e) (le_seq x)); [lia|]. apply IH. intros a b Ha Hb. apply Hlt; [by right|done].
Qed.

(** The node's answer to a [SendDm], with what it pushes. *)
Lemma send_dm_dispatched ev addr recipient env cb sess pk sv es :
  store_inv (sv_store sv) → wf_key recipient → env_wf ev → client_pk sess = Some pk →
  get_dms recipient 0 (sv_store sv) = Ok es → log_room le_seq es → sealable LogEntry (sv_store sv) → to_allocvec env = Some cb →
  ∃ entry st' effects,
    dispatch ev addr (SendDm recipient env) sess sv = (DmAck (succ_seq le_seq es), sess, with_store st' sv, effects) ∧
    le_author_id entry = hex (sha256 pk) ∧ from_bytes (le_ciphertext entry) = Some env ∧ le_timestamp_ms entry = now_ms ev ∧
    Push None (NewDm entry recipient) ∈ effects ∧ get_dms recipient 0 st' = Ok (es ++ [entry]) ∧
    (∀ pk' since, wf_key pk' → is_u64 since → pk' ≠ recipient → get_dms pk' since st' = get_dms pk' since (sv_store sv)).
Proof using Type*.
  intros Hi Hr Hev Hpk Hes Hroom Hs Hcb. destruct (get_dms_holds _ _ _ Hi Hr Hes) as [Ho He].
  assert (∃ seq st', append_dm (ev_rnd ev 0%nat) (now_ms ev) (ulid_to_string (ev_ulid ev)) recipient pk env (sv_store sv) = Ok (seq, st'))
    as (seq & st' & Happ).
  { unfold append_dm, transaction. rewrite Hcb. cbn [ok_or mbind result_bind]. rewrite Ho. cbn [mbind result_bind].
    edestruct (λ a, Hs a (ev_rnd ev 0%nat) (Hev 0%nat)) as (v & Hv). rewrite Hv. by eexists _, _. }
  destruct (append_dm_correct _ _ _ _ _ _ _ _ _ _ Hi Hr (Hev 0%nat) Hes Hroom Happ) as (_ & Hseq & (c & Hc & Hview) & Hother & _).
  destruct (append_dm_step _ _ _ _ _ _ _ _ _ Hi Hr (Hev 0%nat) Happ) as (_ & _ & Hu & _).
  destruct Hview as (Hv0 & Hsorted & Hvs). set (entry := mkLogEntry _ _ _ _ _ _ _) in *.
  assert (get_dms recipient seq st' = Ok [entry]) as Hpush by (rewrite (Hvs seq Hu); f_equal; by apply (retain_from_last es entry)).
  exists entry, st', ((match sv_dht sv with Some _ => [SpawnRegisterMailbox recipient] | None => [] end) ++ [Push None (NewDm entry recipient)]).
  split.
  { cbn. unfold dispatch_send_dm. rewrite Hpk, Happ, Hpush. by rewrite Hseq. }
  split_and!; try done. apply elem_of_app. right. by left.
Qed.

(** What a client makes of a direct message that was sealed for it. *)
Lemma dm_received_spec `{!PostcardLaws DmPayload} sender_sk ephem rnd plain env payload entry now (w : World T) :
  let x := x_public (own_x25519_sk w) in
  let author := le_author_id entry in
  let msg := mkDmInfo (dpl_id payload) author author (default now (from_timestamp_millis (le_timestamp_ms entry)))
               (dpl_body payload) (dpl_reply_to payload) None in
  seal sender_sk ephem rnd x plain = Ok env → to_allocvec payload = Some plain → dpl_id payload ≠ ""%string →
  from_bytes (le_ciphertext entry) = Some env →
  (∀ m, m ∈ default [] (app_dms (w_app w) !! author) → di_id m ≠ dpl_id payload) →
  app_dms (w_app (handle_dm_received now entry x w)) !! author =
    Some (default [] (app_dms (w_app w) !! author) ++ [msg]).
Proof using Type*.
  intros x author msg Hseal Hp Hid Hc Hnew. unfold handle_dm_received. rewrite bool_decide_true by done. cbn [negb].
  rewrite Hc. destruct (dm_seal_open _ _ _ _ _ _ Hseal) as [-> _]. unfold read_dm.
  rewrite (postcard_roundtrip payload plain Hp). rewrite bool_decide_false by done. cbn [default].
  fold author. cbn [di_id]. rewrite (proj2 (any_false (λ m, bool_decide (di_id m = dpl_id payload)) _))
    by (intros m Hm; apply bool_decide_eq_false_2; by apply Hnew).
  unfold save_dms. cbn [broadcast emit w_app]. rewrite save_table_app. apply lookup_insert_eq.
Qed.

(** C9: a direct message from its sender to its recipient. Sent over a live, authenticated
    connection it is put at the end of the recipient's mailbox and pushed to every
    authenticated connection; the recipient's client that reads the push has it in its
    conversation with the sender, and everybody else's ignores it. But it comes that way only:
    the mailbox goes by the recipient's X25519 key and the request for its contents by
    the session's Ed25519 key, so that fetching the mailbox returns what it did before. *)
Theorem dm_delivered `{!PostcardLaws DmPayload} sk sk_r nonce r c sess peer_id message_id ephem rnd plain env cb payload es g :
  let x := x_public (sha256 sk_r) in
  let sv := services (g_net g) in
  let author := hex (sha256 (ed_public sk)) in
  let g' := run_task sk nonce (SendDmTask (inl r) peer_id message_id x env) g in
  live r c sess (g_net g) → client_pk sess = Some (ed_public sk) → store_inv (sv_store sv) → (∀ i, env_wf (site_env i)) →
  get_dms x 0 (sv_store sv) = Ok es → log_room le_seq es → sealable LogEntry (sv_store sv) →
  seal (sha256 sk) ephem rnd x plain = Ok env → to_allocvec env = Some cb →
  to_allocvec payload = Some plain → dpl_id payload ≠ ""%string →
  fits MAX_REQUEST (SendDm x env) → fits U32_MAX (DmAck (succ_seq le_seq es)) →
  ∃ entry effects, le_author_id entry = author ∧ g_events g' = g_events g ∧
    get_dms x 0 (sv_store (services (g_net g'))) = Ok (es ++ [entry]) ∧
    nn_effects (nw_net (g_net g')) = nn_effects (nw_net (g_net g)) ++ effects ∧
    Push None (NewDm entry x) ∈ effects ∧
    (∀ g2, read_push sk_r (NewDm entry x) g2 = forward (DmReceived entry x) g2) ∧
    (∀ now (w : World T), app_signing_key (w_app w) = sk_r →
       (∀ m, m ∈ default [] (app_dms (w_app w) !! author) → di_id m ≠ dpl_id payload) →
       ∃ msg, di_id msg = dpl_id payload ∧ di_body msg = dpl_body payload ∧ di_author_id msg = author ∧
         app_dms (w_app (handle_dm_received now entry x w)) !! author =
           Some (default [] (app_dms (w_app w) !! author) ++ [msg])) ∧
    (∀ now (w : World T), x_public (own_x25519_sk w) ≠ x → handle_dm_received now entry x w = w) ∧
    (∀ ev addr since sess_r, client_pk sess_r = Some (ed_public sk_r) → ed_public sk_r ≠ x → is_u64 since →
       (dispatch ev addr (GetDms since) sess_r (services (g_net g'))).1.1.1 =
       (dispatch ev addr (GetDms since) sess_r sv).1.1.1).
Proof using Type*.
  intros x sv author g' Hl Hpk Hi Henv Hes Hroom Hs Hseal Hcb Hp Hid Hreq Hresp.
  destruct (send_dm_dispatched (site_env (nn_served (nw_net (g_net g)))) site_client x env cb sess (ed_public sk) sv es
    Hi (wf_x_public _) (Henv _) Hpk Hes Hroom Hs Hcb) as (entry & st' & effects & Hd & Hauthor & Hc & Hts & Hpush & Hes' & Hother).
  destruct (on_net_asked "send_dm" (λ resp, match resp with DmAck seq => Some seq | _ => None end) r c sess _ _
    (succ_seq le_seq es) _ _ _ g Hl Hreq Hresp Hd eq_refl) as (n' & Hask & _ & Hsv & Heff).
  assert (g' = set_net n' g) as -> by (unfold g'; cbn [run_task]; unfold run_send_dm, send_dm; by rewrite Hask).
  exists entry, effects. cbn [g_net set_net g_events]. rewrite Hsv. split_and!; try done.
  - intros now w Hsk Hnew. eexists (mkDmInfo _ _ _ _ _ _ _).
    assert (x = x_public (own_x25519_sk w)) as -> by (unfold x, own_x25519_sk; by rewrite Hsk).
    unfold author in *. rewrite <- Hauthor in Hnew |- *.
    split_and!; [..|by eapply dm_received_spec]; done.
  - intros now w Hne. unfold handle_dm_received. by rewrite bool_decide_false by done.
  - intros ev addr since sess_r Hr Hne Hu. cbn. unfold dispatch_get_dms. rewrite Hr. cbn.
    rewrite Hother by (done || apply wf_ed_public). destruct (get_dms (ed_public sk_r) since (sv_store sv)); reflexivity.
Qed.
End delivery.
