(* ===== verification/Discovery.v ===== *)
(** * Finding and checking other nodes: [bitcord-core/src/network/nat.rs], [mdns.rs], [tls.rs]

    The external address of a node, from the router or from a STUN server whose answer is
    parsed here; the nodes on the local network that announce themselves by mDNS; and the
    check of a node's certificate against a pinned fingerprint. What the router, the servers
    and the network interfaces answer are arguments. *)

From S2P Require Import Prelude Bytes Config Redb Routing Crypto Codec Model Store DhtNode Protocol Handler AppState.
From S2P Require Import NodeClient Rpc RpcCommunity NetworkTask.

(** ** [nat.rs] *)

Definition u16_at (b : bytes) (i : nat) : Z := of_be (take 2 (drop i b)).
Definition COOKIE : bytes := [33; 18; 164; 66].

Definition parse_mapped_address (data : bytes) : option (IpAddr * Z) :=
  if (length data <? 8)%nat then None
  else if default 0 (data !! 1%nat) =? 1
       then Some (V4 (be_bytes 4 (of_be (take 4 (drop 4 data)))), u16_at data 2)
       else None.
Definition parse_xor_mapped_address (data : bytes) : option (IpAddr * Z) :=
  if (length data <? 8)%nat then None
  else if default 0 (data !! 1%nat) =? 1
       then Some (V4 (be_bytes 4 (Z.lxor (of_be (take 4 (drop 4 data))) 554869826)), Z.lxor (u16_at data 2) 8466)
       else None.

(** [(attr_len + 3) & !3]. *)
Definition padded (attr_len : nat) : nat := Z.to_nat (Z.land (Z.of_nat attr_len + 3) (Z.lnot 3)).

(** The loop over the attributes; a step moves [pos] by four bytes at least, so that the length of
    the buffer is fuel enough. *)
Fixpoint stun_attributes (fuel : nat) (buf : bytes) (limit pos : nat) (mapped : option (IpAddr * Z)) : option (IpAddr * Z) :=
  match fuel with
  | O => mapped
  | S fuel =>
      if (limit <? pos + 4)%nat then mapped
      else
        let attr_type := u16_at buf pos in
        let attr_len := Z.to_nat (u16_at buf (pos + 2)) in
        let pos := (pos + 4)%nat in
        if (length buf <? pos + attr_len)%nat then mapped
        else
          let attr_data := take attr_len (drop pos buf) in
          let next := stun_attributes fuel buf limit (pos + padded attr_len) in
          if attr_type =? 32 then
            match parse_xor_mapped_address attr_data with Some addr => Some addr | None => next mapped end
          else if attr_type =? 1 then next (parse_mapped_address attr_data)
          else next mapped
  end.
Definition parse_stun_response (buf txid : bytes) : option (IpAddr * Z) :=
  if (length buf <? 20)%nat then None
  else if negb (bool_decide (take 2 buf = [1; 1])) then None
  else if negb (bool_decide (take 4 (drop 4 buf) = COOKIE)) then None
  else if negb (bool_decide (take 12 (drop 8 buf) = txid)) then None
  else
    let msg_len := Z.to_nat (u16_at buf 2) in
    if (length buf <? 20 + msg_len)%nat then None
    else stun_attributes (length buf) buf (20 + msg_len) 20 None.

Definition stun_request (txid : bytes) : bytes := [0; 1; 0; 0] ++ COOKIE ++ txid.
Definition STUN_SERVERS : list string :=
  ["stun.l.google.com:19302"%string; "stun1.l.google.com:19302"%string; "stun.cloudflare.com:3478"%string].

(** [ask]: what a server answers to a request in time, up to 512 bytes; every request has a fresh identifier. *)
Definition stun_binding_request (ask : string → bytes → option bytes) (txid : bytes) (server : string) : option (IpAddr * Z) :=
  buf ← ask server (stun_request txid); parse_stun_response (take 512 buf) txid.
Fixpoint try_stun (ask : string → bytes → option bytes) (servers : list (string * bytes)) (local_port : Z) : option (IpAddr * Z) :=
  match servers with
  | [] => None
  | (server, txid) :: servers =>
      match stun_binding_request ask txid server with
      | Some (i, _) => Some (i, local_port)
      | None => try_stun ask servers local_port
      end
  end.

(** An interface: its name in lower case, its address, whether it is a loopback. *)
Record LocalInterface := mkLocal { li_name : string; li_ip : IpAddr; li_loopback : bool }.
Definition is_link_local (o : bytes) : bool := match o with [a; b; _; _] => (a =? 169) && (b =? 254) | _ => false end.
Definition local_ipv4 (ifaces : option (list LocalInterface)) : option bytes :=
  l ← ifaces;
  head (omap (λ i, if li_loopback i then None
                   else match li_ip i with V4 o => if is_link_local o then None else Some o | V6 _ => None end) l).

(** The router: its external address and whether it maps the port ([None]: no router). *)
Inductive AddPort := PortAdded | PortInUse | PortRefused.
Definition try_upnp (gateway : option (option bytes * (bytes → Z → AddPort))) (ifaces : option (list LocalInterface)) (local_port : Z)
    : option (IpAddr * Z) :=
  g ← gateway;
  external_ip ← g.1;
  local_ip ← local_ipv4 ifaces;
  match g.2 local_ip local_port with PortRefused => None | _ => Some (V4 external_ip, local_port) end.
(** [None] is also what running out of time gives. *)
Definition discover_external_addr (upnp stun : option (IpAddr * Z)) : option (IpAddr * Z) :=
  match upnp with Some a => Some a | None => stun end.

(** ** [mdns.rs] *)

Definition is_private_ipv4 (o : bytes) : bool :=
  match o with
  | [a; b; _; _] => (a =? 10) || ((a =? 172) && (16 <=? b) && (b <=? 31)) || ((a =? 192) && (b =? 168))
  | _ => false
  end.
Definition is_virtual_iface (name : string) : bool :=
  any (λ p, String.prefix p name)
    ["tun"; "tap"; "wg"; "utun"; "virbr"; "br-"; "docker"; "veth"; "fct"]%string ||
  any (λ p, contains p name) ["vpn"; "nordlynx"; "vethernet"; "default switch"]%string.
Definition lan_candidate (i : LocalInterface) : option bytes :=
  if li_loopback i then None
  else match li_ip i with
       | V4 o => if negb (is_private_ipv4 o) then None else if is_virtual_iface (li_name i) then None else Some o
       | V6 _ => None
       end.
Definition prefer (best : option bytes) (o : bytes) : option bytes :=
  match best with
  | None => Some o
  | Some cur => if bool_decide (head o = Some 192) && negb (bool_decide (head cur = Some 192)) then Some o else best
  end.
Definition pick_lan_ip (ifaces : option (list LocalInterface)) : option bytes :=
  l ← ifaces; foldl prefer None (omap lan_candidate l).

(** What the browser reports; [ServiceFound] stands for every event that is only logged. The addresses come in the order
    the set of addresses is enumerated. *)
Inductive ServiceEvent :=
  | ServiceFound
  | ServiceResolved (fullname : string) (pk : option string) (port : Z) (addresses : list IpAddr)
  | ServiceRemoved (fullname : string)
  | SearchStopped.
Record Mdns := mkMdns { already_dialed : gset string; resolved_names : gmap string string }.
Definition mdns_start : Mdns := mkMdns ∅ ∅.
Definition is_v4 (i : IpAddr) : bool := match i with V4 _ => true | V6 _ => false end.

(** The state after an event and the peer that is dialled, with its address; the outer [None]: the loop ends. *)
Definition mdns_event (own_pk_hex : string) (e : ServiceEvent) (m : Mdns) : option (Mdns * option (string * NetworkCommand)) :=
  match e with
  | ServiceFound => Some (m, None)
  | ServiceResolved fullname (Some pk) port addresses =>
      if bool_decide (pk = own_pk_hex) then Some (m, None)
      else if bool_decide (pk ∈ already_dialed m) then Some (m, None)
      else
        match find_by is_v4 addresses with
        | Some i =>
            Some (mkMdns ({[ pk ]} ∪ already_dialed m) (<[fullname := pk]> (resolved_names m)),
                  Some (pk, CmdDial (mkNodeAddr i port) false None None TOFU))
        | None => Some (m, None)
        end
  | ServiceResolved _ None _ _ => Some (m, None)
  | ServiceRemoved fullname =>
      match resolved_names m !! fullname with
      | Some pk => Some (mkMdns (already_dialed m ∖ {[ pk ]}) (delete fullname (resolved_names m)), None)
      | None => Some (m, None)
      end
  | SearchStopped => None
  end.
Fixpoint mdns_run (own_pk_hex : string) (es : list ServiceEvent) (m : Mdns) : Mdns * list (string * NetworkCommand) :=
  match es with
  | [] => (m, [])
  | e :: es =>
      match mdns_event own_pk_hex e m with
      | None => (m, [])
      | Some (m, dial) => let '(m, dials) := mdns_run own_pk_hex es m in (m, option_list dial ++ dials)
      end
  end.

(** ** [tls.rs] *)

Section tls.
Context `{Crypto}.
(** [verify_server_cert]: the pinned fingerprint, or none. *)
Definition verify_server_cert (expected end_entity : bytes) : bool :=
  if bool_decide (expected = replicate 32 0) then true else bool_decide (sha256 end_entity = expected).
Definition verify_tls12_signature : bool := false.
(** [NodeTlsCert::generate]: the certificate and its fingerprint. *)
Definition cert_generate `{Certificates} (sk : bytes) : option (bytes * bytes) :=
  der ← self_signed_cert sk; Some (der, sha256 der).
End tls.

(** ** Parsing an answer *)

Section stun.
(** An attribute, with whatever fills it up to a multiple of four bytes. *)
Record Attribute := mkAttribute { at_type : Z; at_value : bytes; at_fill : bytes }.
Definition attribute_ok (a : Attribute) : Prop :=
  0 ≤ at_type a < 65536 ∧ Z.of_nat (length (at_value a)) < 65536 ∧
  (length (at_value a) + length (at_fill a))%nat = padded (length (at_value a)).
Definition attribute_bytes (a : Attribute) : bytes :=
  be_bytes 2 (at_type a) ++ be_bytes 2 (Z.of_nat (length (at_value a))) ++ at_value a ++ at_fill a.
Definition stun_response (txid : bytes) (attrs : list Attribute) : bytes :=
  let body := concat (attribute_bytes <$> attrs) in
  [1; 1] ++ be_bytes 2 (Z.of_nat (length body)) ++ COOKIE ++ txid ++ body.

(** What the attributes say: the first XOR-MAPPED-ADDRESS that can be read, or what the last MAPPED-ADDRESS says. *)
Fixpoint stun_address (mapped : option (IpAddr * Z)) (attrs : list Attribute) : option (IpAddr * Z) :=
  match attrs with
  | [] => mapped
  | a :: attrs =>
      if at_type a =? 32 then
        match parse_xor_mapped_address (at_value a) with Some addr => Some addr | None => stun_address mapped attrs end
      else stun_address (if at_type a =? 1 then parse_mapped_address (at_value a) else mapped) attrs
  end.

(** What a server puts in XOR-MAPPED-ADDRESS and MAPPED-ADDRESS. *)
Definition xor_mapped_address (ip port : Z) : bytes :=
  [0; 1] ++ be_bytes 2 (Z.lxor port 8466) ++ be_bytes 4 (Z.lxor ip 554869826).
Definition mapped_address (ip port : Z) : bytes := [0; 1] ++ be_bytes 2 port ++ be_bytes 4 ip.

Lemma padded_spec n : (padded n = 4 * ((n + 3) / 4))%nat.
Proof.
  unfold padded. rewrite <- Z.ldiff_land. change 3 with (Z.ones 2) at 2. rewrite Z.ldiff_ones_r by lia.
  rewrite Z.shiftl_mul_pow2, Z.shiftr_div_pow2 by lia. change (2 ^ 2) with 4.
  pose proof (Nat2Z.inj_div (n + 3) 4) as Hd. rewrite Nat2Z.inj_add in Hd. change (Z.of_nat 3) with 3 in Hd. change (Z.of_nat 4) with 4 in Hd.
  rewrite <- Hd. lia.
Qed.
Lemma u16_at_app a v b : 0 ≤ v < 65536 → u16_at (a ++ be_bytes 2 v ++ b) (length a) = v.
Proof. intros Hv. unfold u16_at. rewrite drop_app_length, take_app_length' by done. by apply of_be_be_bytes_small. Qed.
Lemma attribute_length a : attribute_ok a → length (attribute_bytes a) = (4 + padded (length (at_value a)))%nat.
Proof. intros (_ & _ & Hl). unfold attribute_bytes. rewrite !length_app, !length_be_bytes. lia. Qed.

Lemma stun_attributes_spec attrs : ∀ fuel pre rest mapped,
  Forall attribute_ok attrs → (length attrs < fuel)%nat →
  let body := concat (attribute_bytes <$> attrs) in
  stun_attributes fuel (pre ++ body ++ rest) (length pre + length body) (length pre) mapped = stun_address mapped attrs.
Proof.
  induction attrs as [|a attrs IH]; intros fuel pre rest mapped Hok Hf; (destruct fuel as [|fuel]; [cbn in Hf; lia|]).
  { cbv zeta. cbn [fmap list_fmap concat length stun_attributes stun_address].
    by destruct (Nat.ltb_spec (length pre + 0) (length pre + 4)); [|lia]. }
  apply Forall_cons in Hok as [Ha Hok]. pose proof (attribute_length a Ha) as Hlen.
  cbn [fmap list_fmap concat]. set (body := concat (attribute_bytes <$> attrs)). cbv zeta. cbn [stun_attributes].
  destruct (Nat.ltb_spec (length pre + length (attribute_bytes a ++ body)) (length pre + 4)) as [Hlt|_].
  { rewrite length_app in Hlt. lia. }
  destruct Ha as (Ht & Hv & Hp).
  assert (pre ++ (attribute_bytes a ++ body) ++ rest =
          pre ++ be_bytes 2 (at_type a) ++ be_bytes 2 (Z.of_nat (length (at_value a))) ++ at_value a ++ at_fill a ++ body ++ rest) as Hbuf.
  { unfold attribute_bytes. by rewrite <- !app_assoc. }
  assert (u16_at (pre ++ (attribute_bytes a ++ body) ++ rest) (length pre) = at_type a) as ->.
  { rewrite Hbuf. by apply u16_at_app. }
  assert (u16_at (pre ++ (attribute_bytes a ++ body) ++ rest) (length pre + 2) = Z.of_nat (length (at_value a))) as ->.
  { rewrite Hbuf, app_assoc. replace (length pre + 2)%nat with (length (pre ++ be_bytes 2 (at_type a))) by (rewrite length_app, length_be_bytes; lia).
    apply u16_at_app. lia. }
  rewrite Nat2Z.id.
  assert (drop (length pre + 4) (pre ++ (attribute_bytes a ++ body) ++ rest) = at_value a ++ at_fill a ++ body ++ rest) as Hdrop.
  { rewrite Hbuf. rewrite (app_assoc pre), (app_assoc (pre ++ _)). apply drop_app_length'. rewrite !length_app, !length_be_bytes; lia. }
  destruct (Nat.ltb_spec (length (pre ++ (attribute_bytes a ++ body) ++ rest)) (length pre + 4 + length (at_value a))) as [Hlt|_].
  { rewrite !length_app in Hlt. lia. }
  rewrite Hdrop, take_app_length.
  assert (∀ m, stun_attributes fuel (pre ++ (attribute_bytes a ++ body) ++ rest) (length pre + length (attribute_bytes a ++ body))
            (length pre + 4 + padded (length (at_value a))) m = stun_address m attrs) as Hnext.
  { intros m. rewrite <- (IH fuel (pre ++ attribute_bytes a) rest m Hok) by (cbn in Hf; lia). fold body. f_equal.
    - by rewrite <- !app_assoc.
    - rewrite !length_app. lia.
    - rewrite length_app. lia. }
  cbn [stun_address]. destruct (at_type a =? 32); [by destruct (parse_xor_mapped_address _); rewrite ?Hnext|].
  by destruct (at_type a =? 1).
Qed.

Lemma attributes_length attrs :
  Forall attribute_ok attrs → (4 * length attrs ≤ length (concat (attribute_bytes <$> attrs)))%nat.
Proof.
  induction 1 as [|a attrs Ha _ IH]; [cbn; lia|]. cbn [fmap list_fmap concat length].
  rewrite length_app, attribute_length by done.
  change (list_fmap _ _ attribute_bytes attrs) with (attribute_bytes <$> attrs). lia.
Qed.

(** An answer to the request [txid] says what its attributes say, whatever follows it in the
    buffer; to any other request it says nothing, and neither does an answer cut short. *)
Theorem stun_correct txid txid' attrs rest n :
  length txid = 12%nat → Forall attribute_ok attrs →
  Z.of_nat (length (concat (attribute_bytes <$> attrs))) < 65536 →
  parse_stun_response (stun_response txid attrs ++ rest) txid = stun_address None attrs ∧
  (txid' ≠ txid → parse_stun_response (stun_response txid attrs ++ rest) txid' = None) ∧
  ((n < length (stun_response txid attrs))%nat → parse_stun_response (take n (stun_response txid attrs)) txid = None).
Proof.
  intros Hx Hok Hlen. set (body := concat (attribute_bytes <$> attrs)) in *.
  assert (∃ l1 l2, be_bytes 2 (Z.of_nat (length body)) = [l1; l2]) as (l1 & l2 & Hl).
  { pose proof (length_be_bytes 2 (Z.of_nat (length body))). destruct (be_bytes _ _) as [|l1 [|l2 [|??]]]; try done. eauto. }
  assert (of_be [l1; l2] = Z.of_nat (length body)) as Hof by (rewrite <- Hl; apply of_be_be_bytes_small; change (256 ^ Z.of_nat 2) with 65536; lia).
  assert (∀ t, stun_response txid attrs ++ t = ([1; 1; l1; l2; 33; 18; 164; 66] ++ txid) ++ body ++ t) as Hr.
  { intros t. unfold stun_response. cbv zeta. fold body. rewrite Hl. unfold COOKIE. by rewrite <- !app_assoc. }
  set (hd := [1; 1; l1; l2; 33; 18; 164; 66] ++ txid) in *.
  assert (length hd = 20%nat) as Hhd by (unfold hd; rewrite length_app, Hx; done).
  assert (∀ t txid', parse_stun_response (hd ++ t) txid' =
            if negb (bool_decide (txid = txid')) then None
            else if (length (hd ++ t) <? 20 + length body)%nat then None
            else stun_attributes (length (hd ++ t)) (hd ++ t) (20 + length body) 20 None) as Hp.
  { intros t tx. unfold parse_stun_response.
    destruct (Nat.ltb_spec (length (hd ++ t)) 20) as [Hs|_]; [rewrite length_app in Hs; lia|].
    assert (take 12 (drop 8 (hd ++ t)) = txid) as ->.
    { unfold hd. rewrite <- app_assoc. cbn [drop app]. by apply take_app_length'. }
    assert (u16_at (hd ++ t) 2 = Z.of_nat (length body)) as -> by exact Hof.
    rewrite Nat2Z.id. cbv zeta. by cbn [take drop app hd]. }
  split_and!.
  - rewrite Hr, Hp, bool_decide_true by done. cbn [negb].
    destruct (Nat.ltb_spec (length (hd ++ body ++ rest)) (20 + length body)) as [Hs|_]; [rewrite !length_app in Hs; lia|].
    rewrite <- Hhd. apply stun_attributes_spec; [done|]. pose proof (attributes_length attrs Hok) as Hal. fold body in Hal. rewrite !length_app. lia.
  - intros Hne. by rewrite Hr, Hp, bool_decide_false by congruence.
  - intros Hn. pose proof (Hr []) as Hr0. rewrite !app_nil_r in Hr0. rewrite Hr0 in Hn |- *.
    rewrite length_app in Hn. destruct (decide (n < 20)%nat) as [Hs|Hs].
    + unfold parse_stun_response. rewrite length_take. destruct (Nat.ltb_spec (n `min` length (hd ++ body)) 20); [done|lia].
    + rewrite take_app_ge by lia. rewrite Hp, bool_decide_true by done. cbn [negb].
      destruct (Nat.ltb_spec (length (hd ++ take (n - length hd) body)) (20 + length body)) as [_|Hs']; [done|].
      rewrite length_app, length_take in Hs'. lia.
Qed.

Lemma lxor_bound a b n : 0 ≤ n → 0 ≤ a < 2 ^ n → 0 ≤ b < 2 ^ n → 0 ≤ Z.lxor a b < 2 ^ n.
Proof.
  intros Hn Ha Hb. assert (Z.lxor a b = Z.lxor a b mod 2 ^ n) as ->; [|apply Z.mod_pos_bound; lia].
  apply Z.bits_inj'. intros i Hi. destruct (Z.lt_ge_cases i n).
  - by rewrite Z.mod_pow2_bits_low.
  - rewrite Z.mod_pow2_bits_high, Z.lxor_spec by lia.
    rewrite <- (Z.mod_small a (2 ^ n)), <- (Z.mod_small b (2 ^ n)) by lia. by rewrite !Z.mod_pow2_bits_high by lia.
Qed.

(** The address a server puts in one or the other is the one that is read. *)
Theorem mapped_addresses ip port :
  0 ≤ ip < 2 ^ 32 → 0 ≤ port < 65536 →
  parse_xor_mapped_address (xor_mapped_address ip port) = Some (V4 (be_bytes 4 ip), port) ∧
  parse_mapped_address (mapped_address ip port) = Some (V4 (be_bytes 4 ip), port).
Proof.
  intros Hip Hport.
  assert (∀ p i, 0 ≤ p < 65536 → 0 ≤ i < 2 ^ 32 →
    let d := [0; 1] ++ be_bytes 2 p ++ be_bytes 4 i in
    length d = 8%nat ∧ u16_at d 2 = p ∧ of_be (take 4 (drop 4 d)) = i ∧ d !! 1%nat = Some 1) as Hd.
  { intros p i Hp Hi d. unfold d. split_and!; [by rewrite !length_app, !length_be_bytes | by apply (u16_at_app [0; 1]) | | done].
    rewrite app_assoc, drop_app_length' by (by rewrite length_app, length_be_bytes).
    rewrite take_ge by (by rewrite length_be_bytes). by apply of_be_be_bytes_small. }
  destruct (Hd (Z.lxor port 8466) (Z.lxor ip 554869826)) as (H1 & H2 & H3 & H4);
    [apply (lxor_bound _ _ 16); lia | apply (lxor_bound _ _ 32); lia |].
  destruct (Hd port ip) as (H5 & H6 & H7 & H8); [done..|].
  unfold parse_xor_mapped_address, parse_mapped_address, xor_mapped_address, mapped_address.
  rewrite H1, H2, H3, H4, H5, H6, H7, H8. cbn [default].
  by rewrite !Z.lxor_assoc, !Z.lxor_nilpotent, !Z.lxor_0_r.
Qed.
End stun.

(** ** Peers of the local network *)

(** The peers dialled are the recorded ones, none is the node's own and none was recorded before. *)
Lemma mdns_event_dial own e m m' peer cmd :
  mdns_event own e m = Some (m', Some (peer, cmd)) →
  peer ≠ own ∧ peer ∉ already_dialed m ∧ already_dialed m' = {[ peer ]} ∪ already_dialed m ∧
  ∃ fullname port o addresses, e = ServiceResolved fullname (Some peer) port addresses ∧ V4 o ∈ addresses ∧
    resolved_names m' = <[fullname := peer]> (resolved_names m) ∧
    cmd = CmdDial (mkNodeAddr (V4 o) port) false None None TOFU.
Proof.
  destruct e as [|f [pk|] port addresses|f|]; cbn; try done; [|by destruct (_ !! f)].
  destruct (bool_decide_reflect (pk = own)) as [|Hown]; [done|]. destruct (bool_decide_reflect (pk ∈ already_dialed m)) as [|Hal]; [done|].
  destruct (find_by is_v4 addresses) as [i|] eqn:Hfind; [|done]. intros [= <- <- <-]. split_and!; try done.
  apply find_by_Some in Hfind as [Hin Hv4]. destruct i as [o|]; [|done]. by eexists _, _, o, _.
Qed.
Lemma mdns_event_quiet own e m m' :
  mdns_event own e m = Some (m', None) → (∀ f, e ≠ ServiceRemoved f) → m' = m.
Proof.
  destruct e as [|f [pk|] port addresses|f|]; cbn; try naive_solver.
  destruct (bool_decide _); [naive_solver|]. destruct (bool_decide _); [naive_solver|]. destruct (find_by _ _); naive_solver.
Qed.

Lemma mdns_run_mono own es : ∀ m m' dials,
  mdns_run own es m = (m', dials) → (∀ f, ServiceRemoved f ∉ es) → already_dialed m ⊆ already_dialed m'.
Proof.
  induction es as [|e es IH]; intros m m' dials; cbn; [by intros [= <- <-]|].
  destruct (mdns_event own e m) as [[m1 [[p c]|]]|] eqn:He; [| |by intros [= <- <-]];
    destruct (mdns_run own es m1) as [m2 d2] eqn:Hr; intros [= <- <-] Hno; specialize (IH _ _ _ Hr ltac:(set_solver)).
  - destruct (mdns_event_dial _ _ _ _ _ _ He) as (_ & _ & Hset & _). set_solver.
  - rewrite (mdns_event_quiet _ _ _ _ He) in IH; [done|set_solver].
Qed.

(** The peers dialled are never the node itself, are dialled at an IPv4 address that their service
    resolved to, with no fingerprint pinned, and each is dialled once as long as no service goes away. *)
Theorem mdns_run_dials own es m m' dials :
  mdns_run own es m = (m', dials) →
  (∀ peer cmd, (peer, cmd) ∈ dials →
     peer ≠ own ∧ ∃ fullname port o addresses, ServiceResolved fullname (Some peer) port addresses ∈ es ∧ V4 o ∈ addresses ∧
       cmd = CmdDial (mkNodeAddr (V4 o) port) false None None TOFU) ∧
  ((∀ f, ServiceRemoved f ∉ es) → NoDup dials.*1 ∧ ∀ peer, peer ∈ dials.*1 → peer ∉ already_dialed m ∧ peer ∈ already_dialed m').
Proof.
  revert m m' dials. induction es as [|e es IH]; intros m m' dials; cbn; [intros [= <- <-]; cbn; repeat split; [set_solver.. | constructor | set_solver | set_solver]|].
  destruct (mdns_event own e m) as [[m1 dial]|] eqn:He; [|intros [= <- <-]; cbn; repeat split; [set_solver.. | constructor | set_solver | set_solver]].
  destruct (mdns_run own es m1) as [m2 ds] eqn:Hrun. intros [= <- <-]. destruct (IH _ _ _ Hrun) as [Hall Honce]. split.
  - intros peer cmd [Hin|Hin]%elem_of_app.
    + destruct dial as [[p c]|]; [|by apply not_elem_of_nil in Hin]. apply list_elem_of_singleton in Hin as [= -> ->].
      destruct (mdns_event_dial _ _ _ _ _ _ He) as (Hne & _ & _ & f & port & o & addrs & -> & Hin & _ & ->).
      split; [done|]. eexists f, port, o, addrs. set_solver.
    + destruct (Hall peer cmd Hin) as (Hne & f & port & o & addrs & ? & ? & ?). split; [done|]. eexists f, port, o, addrs. set_solver.
  - intros Hno. destruct Honce as [Hnd Hin]; [set_solver|]. destruct dial as [[p c]|].
    + destruct (mdns_event_dial _ _ _ _ _ _ He) as (_ & Hnew & Hset & _). cbn. split.
      * constructor; [|done]. intros Hp. destruct (Hin p Hp) as [Hout _]. set_solver.
      * intros peer [->|Hp]%elem_of_cons; [|destruct (Hin peer Hp); set_solver]. split; [done|].
        pose proof (mdns_run_mono _ _ _ _ _ Hrun ltac:(set_solver)). set_solver.
    + rewrite <- (mdns_event_quiet _ _ _ _ He) by set_solver. done.
Qed.
