(* ===== verification/NodeInit.v ===== *)
(** * Starting a node: [bitcord-core/src/node/init.rs] and [bitcord-node/src/main.rs]

    [init_node] derives the key of the tables from the passphrase, opens the stores, binds
    the QUIC server, and starts the tasks; the client's state comes from [app_new]. The
    command-line program applies its arguments to the configuration, loads or creates the
    identity, and runs it. What the machine answers is a [Machine]. The tasks that are
    spawned are values, in order; what they do is in the files they name. The node's
    services and the client's state hold the same store and the same DHT handle. *)

From stdpp Require Import pretty.
From S2P Require Import Prelude Bytes Config Redb Routing Crypto Utf8 Identity Codec Model ClientState Store Resource DhtNode.
From S2P Require Import Handler AppState ChannelEvents CommunityEvents ManifestEvents ClientEvents AppStart Durability.
From S2P Require Import Rpc Passphrase RpcCommunity RpcNode.

(** ** [NodeInitConfig], [NodeInitResult] *)

Record NodeInitConfig := mkInit {
  ic_identity : NodeIdentity;
  ic_passphrase : option string;
  ic_config : NodeConfig;
  ic_config_path : string;
  ic_join_password : option string;
  ic_fallback_to_random_port : bool;
  ic_dht_self_addr : option NodeAddr;
  ic_store_db_path : string }.

(** The files of the data directory; whether directories can be created; opening the two
    databases, which gives their tables; binding a UDP port (0: any), which gives the local address; the randomness. *)
Record Machine (T : Type) := mkMachine {
  mc_disk : gmap string bytes;
  mc_disk_ok : bool;
  mc_data_dir : bool;
  mc_store_dir : bool;
  mc_open_store : string → option (T * T * T * T);
  mc_open_dht : string → option (DhtStore T);
  mc_bind : Z → option (IpAddr * Z);
  mc_own_ips : list IpAddr;
  mc_salt : bytes;
  mc_now : Z }.
Arguments mkMachine {T}.
Arguments mc_disk {T}.
Arguments mc_disk_ok {T}.
Arguments mc_data_dir {T}.
Arguments mc_store_dir {T}.
Arguments mc_open_store {T}.
Arguments mc_open_dht {T}.
Arguments mc_bind {T}.
Arguments mc_own_ips {T}.
Arguments mc_salt {T}.
Arguments mc_now {T}.

Inductive Background :=
  | MetricsTask
  | ServeTask (limiter : ConnectionLimiter)
  | GossipTask (local_listen_addrs : list string) (server_pushes : bool)
  | NatTask (port : Z)
  | MdnsTask (own_pk_hex : string) (port : Z) (gossip_client : bool)
  | MailboxAnnouncements (x25519_pk : bytes)
  | CommunityAnnouncements
  | PeerInfoAnnouncements (peer_id x25519_pk : bytes)
  | EventProcessor.

Record NodeInitResult (T : Type) := mkNode {
  ir_world : World T;
  ir_services : option (NodeServices T);
  ir_quic_port : option Z;
  ir_fingerprint : bytes;
  ir_tasks : list Background }.
Arguments mkNode {T}.
Arguments ir_world {T}.
Arguments ir_services {T}.
Arguments ir_quic_port {T}.
Arguments ir_fingerprint {T}.
Arguments ir_tasks {T}.

(** What a start ends with; an error is the text that [anyhow] displays, with the files it leaves. *)
Inductive Started (A : Type) := Running (a : A) | Failed (e : string) (d : Disk) | Panicked (d : Disk).
Arguments Running {A}.
Arguments Failed {A}.
Arguments Panicked {A}.

Definition set_cfg_quic_port (v : Z) (c : NodeConfig) : NodeConfig :=
  mkConfig (cfg_identity_path c) (cfg_data_dir c) (cfg_listen_addrs c) (cfg_max_connections c)
    (cfg_storage_limit_mb c) (cfg_bandwidth_limit_kbps c) (cfg_node_mode c) (cfg_seed_priority c) (cfg_log_level c)
    v (cfg_display_name c) (cfg_join_password c) (cfg_save_passphrase c) (cfg_preferred_mailbox_node c).

Definition is_unspecified (i : IpAddr) : bool := bool_decide (i = V4 [0; 0; 0; 0]) || bool_decide (i = V6 (replicate 16 0)).
(** The address under which other nodes on this machine reach a socket. *)
Definition reachable_ip (i : IpAddr) : IpAddr := if is_unspecified i then V4 [127; 0; 0; 1] else i.

(** [IpAddr] as text. *)
Class IpText := { ip_to_string : IpAddr → string }.

Section init.
Context {T : Type} `{Crypto} `{Argon2} `{Base58} `{Table T} `{NodeCodecs} `{HashOrder} `{UlidText} `{UlidParse} `{AddrText}.
Context `{Entropy} `{AppCodecs} `{Certificates} `{Toml} `{IpText}.
Context `{Postcard PeerInfoRecord} `{Postcard NodeAddr}.
Implicit Types mc : Machine T.

(** Step 1: the key of the tables; [None] as the outer result is a panic. *)
Definition table_key (passphrase : option string) mc : option (option bytes * Disk) :=
  let d := mkDisk (mc_disk mc) (mc_disk_ok mc) in
  match passphrase with
  | Some p =>
      if bool_decide (p = ""%string) then Some (None, d)
      else match load_or_create_salt "table.salt" (mc_salt mc) d with
           | Ok (salt, d) => Some (Some (derive_table_key p salt), d)
           | Err _ => None
           end
  | None => Some (None, d)
  end.

(** Step 4: [NodeStore::open] does not look at what the tables hold. *)
Definition open_store (cfg : NodeInitConfig) mc (key : option bytes) : option (NodeStore T) :=
  match mc_open_store mc (ic_store_db_path cfg) with
  | Some (log, mail, meta, peers) => Some (mkStore log mail meta peers key true)
  | None => None
  end.

(** Step 5: every mailbox that the store holds is announced, without an address. *)
Definition announce_mailboxes (now : Z) (st : NodeStore T) (h : DhtHandle T) : DhtHandle T :=
  match all_mailbox_recipients st with
  | Ok recipients =>
      foldl (λ h pk, dh_with_state (add_mailbox_record now pk (mkNodeAddr (V4 [0; 0; 0; 0]) 0) (dh_state h)) h) h recipients
  | Err _ => h
  end.
Definition open_dht (cfg : NodeInitConfig) mc (st : NodeStore T) : option (option (DhtHandle T)) :=
  if bool_decide (cfg_node_mode (ic_config cfg) = GossipClient) then Some None
  else match mc_open_dht mc "dht.redb" with
       | None => None
       | Some ds =>
           let node_pk := verifying_key (ic_identity cfg) in
           Some (Some (announce_mailboxes (mc_now mc) st
             (dh_new node_pk (ic_dht_self_addr cfg) (signing_key (ic_identity cfg)) ds)))
       end.

(** Step 9: the port in the configuration, or any port when it is taken. *)
Definition bind_server (cfg : NodeInitConfig) mc : result string (IpAddr * Z) :=
  match mc_bind mc (cfg_quic_port (ic_config cfg)) with
  | Some a => Ok a
  | None =>
      if ic_fallback_to_random_port cfg
      then match mc_bind mc 0 with Some a => Ok a | None => Err "start QUIC server (fallback)"%string end
      else Err "start QUIC server"%string
  end.

(** Steps 13 to 14b: the hourly announcements. *)
Definition announcements (mode : NodeMode) (id : NodeIdentity) (dht : bool) : list Background :=
  (if bool_decide (mode = Peer) && dht then [MailboxAnnouncements (x25519_public_key_bytes id)] else []) ++
  (if dht then [CommunityAnnouncements] else []) ++
  (if bool_decide (mode = Peer) && dht then [PeerInfoAnnouncements (to_peer_id id) (x25519_public_key_bytes id)] else []).

Definition start_config (cfg : NodeInitConfig) (key : option bytes) (fp : bytes) (config : NodeConfig)
    (st : NodeStore T) (dht : option (DhtHandle T)) : StartConfig (T := T) :=
  let id := ic_identity cfg in
  mkStart (hex (to_peer_id id)) (hex (verifying_key id)) (node_address id) (signing_key id) key (Some (hex fp)) config (Some st) dht.

(** Step 10 on: the tasks and the state, once the server is there or is not wanted. *)
Definition start_tasks (cfg : NodeInitConfig) mc (key : option bytes) (d : Disk) (fp : bytes) (st : NodeStore T)
    (dht : option (DhtHandle T)) (config : NodeConfig) (server : option (IpAddr * Z)) : NodeInitResult T :=
  let id := ic_identity cfg in
  let mode := cfg_node_mode config in
  let listen := match server with Some (i, p) => [(ip_to_string i ++ ":" ++ pretty p)%string] | None => [] end in
  let tasks :=
    MetricsTask ::
    match server with Some _ => [ServeTask (mkLimiter (Z.max (cfg_max_connections config) 10))] | None => [] end ++
    [GossipTask listen (bool_decide (is_Some server))] ++
    match server with Some (_, p) => [NatTask p] | None => [] end ++
    [MdnsTask (hex (verifying_key id)) (match server with Some (_, p) => p | None => 0 end) (bool_decide (mode = GossipClient))] ++
    announcements mode id (bool_decide (is_Some dht)) ++ [EventProcessor] in
  let w := app_new (start_config cfg key fp config st dht) (disk_files d) (disk_ok d) 0 in
  mkNode (bootstrap_network (mc_own_ips mc) w)
    (match server with Some _ => Some (mkServices st dht (verifying_key id) (ic_join_password cfg)) | None => None end)
    (snd <$> server) fp tasks.

(** A port that the system chose is written to the configuration, and the DHT learns the address. *)
Definition save_port (cfg : NodeInitConfig) (port : Z) (d : Disk) : NodeConfig * Disk :=
  let config := ic_config cfg in
  if cfg_quic_port config =? port then (config, d)
  else
    let config := set_cfg_quic_port port config in
    (config, match to_toml config with Some s => default d (disk_write (ic_config_path cfg) s d) | None => d end).

Definition init_node (cfg : NodeInitConfig) mc : Started (NodeInitResult T) :=
  match table_key (ic_passphrase cfg) mc with
  | None => Panicked (mkDisk (mc_disk mc) (mc_disk_ok mc))
  | Some (key, d) =>
      if negb (mc_data_dir mc) then Failed "create data dir" d
      else if negb (mc_store_dir mc) then Failed "create store dir" d
      else
        match open_store cfg mc key with
        | None => Failed "open node store" d
        | Some st =>
            match open_dht cfg mc st with
            | None => Failed "init DHT" d
            | Some dht =>
                match tls_fingerprint (signing_key (ic_identity cfg)) with
                | None => Failed "generate node TLS cert" d
                | Some fp =>
                    if bool_decide (cfg_node_mode (ic_config cfg) = GossipClient)
                    then Running (start_tasks cfg mc key d fp st dht (ic_config cfg) None)
                    else
                      match bind_server cfg mc with
                      | Err e => Failed e d
                      | Ok (i, port) =>
                          let '(config, d) := save_port cfg port d in
                          let dht := update_self_addr (mkNodeAddr (reachable_ip i) port) <$> dht in
                          Running (start_tasks cfg mc key d fp st dht config (Some (i, port)))
                      end
                end
            end
        end
  end.

(** One tick of an announcing task: the routing state and what it sends. The mailbox is announced
    while the configuration prefers one. *)
Definition announce_communities (instant time_ns : Z) (st : NodeStore T) (h : DhtHandle T) : DhtHandle T * list DhtSend :=
  match all_communities st with
  | Ok pks =>
      foldl (λ '(h, sends) pk, let '(h, more) := register_community_peer instant time_ns pk h in (h, sends ++ more)) (h, []) pks
  | Err _ => (h, [])
  end.
Definition announce_tick (b : Background) (instant time_ns : Z) (config : NodeConfig) (st : NodeStore T) (h : DhtHandle T)
    : DhtHandle T * list DhtSend :=
  match b with
  | MailboxAnnouncements pk =>
      match cfg_preferred_mailbox_node config with Some _ => register_mailbox instant pk h | None => (h, []) end
  | CommunityAnnouncements => announce_communities instant time_ns st h
  | PeerInfoAnnouncements peer_id pk => register_peer_info time_ns peer_id pk (default ""%string (cfg_display_name config)) h
  | _ => (h, [])
  end.
(** The NAT task found the external address. *)
Definition nat_found (i : IpAddr) (p : Z) (dht : option (DhtHandle T)) : option (DhtHandle T) * NetworkCommand :=
  (update_self_addr (mkNodeAddr i p) <$> dht, CmdAddListenAddr (ip_to_string i ++ ":" ++ pretty p)%string).

(** ** [bitcord-node/src/main.rs] *)

Record Args := mkArgs {
  arg_data_dir : option string; arg_mode : option NodeMode; arg_log_level : option string;
  arg_quic_port : Z; arg_join_password : option string }.

Definition apply_args (a : Args) (c : NodeConfig) : NodeConfig :=
  mkConfig
    (match arg_data_dir a with Some dir => path_join dir "identity.key" | None => cfg_identity_path c end)
    (default (cfg_data_dir c) (arg_data_dir a)) (cfg_listen_addrs c) (cfg_max_connections c)
    (cfg_storage_limit_mb c) (cfg_bandwidth_limit_kbps c) (default (cfg_node_mode c) (arg_mode a)) (cfg_seed_priority c)
    (default (cfg_log_level c) (arg_log_level a))
    (if arg_quic_port a =? 0 then cfg_quic_port c else arg_quic_port a)
    (cfg_display_name c) (cfg_join_password c) (cfg_save_passphrase c) (cfg_preferred_mailbox_node c).

(** The lines that are typed at the prompts. *)
Definition prompt_passphrase (typed : list string) : result string string :=
  match typed with p :: _ => Ok p | [] => Err "read passphrase"%string end.
Fixpoint prompt_new_passphrase (typed : list string) : result string string :=
  match typed with
  | p1 :: p2 :: typed => if bool_decide (p1 = p2) then Ok p1 else prompt_new_passphrase typed
  | _ => Err "read passphrase"%string
  end.

(** A new key, a salt and a nonce. *)
Record Fresh := mkFresh { fr_key : bytes; fr_salt : bytes; fr_nonce : bytes }.
Definition or_context {A} (c : string) (r : result string A) : result string A :=
  match r with Ok a => Ok a | Err _ => Err c end.

Definition load_or_create_identity (config : NodeConfig) (passphrase_override : option string) (typed : list string)
    (fr : Fresh) (d : Disk) : result string (NodeIdentity * Disk) :=
  let path := cfg_identity_path config in
  match disk_files d !! path with
  | Some _ =>
      passphrase ← match passphrase_override with Some p => Ok p | None => prompt_passphrase typed end;
      id ← or_context "failed to unlock identity (wrong passphrase?)" (keystore_load path passphrase d);
      Ok (id, d)
  | None =>
      passphrase ← match passphrase_override with Some p => Ok p | None => prompt_new_passphrase typed end;
      let id := from_signing_key_bytes (fr_key fr) in
      d ← or_context "save new identity" (keystore_save path id passphrase (fr_salt fr) (fr_nonce fr) d);
      Ok (id, d)
  end.
Definition load_or_create_identity_headless (config : NodeConfig) (fr : Fresh) (d : Disk) : result string (NodeIdentity * Disk) :=
  let path := cfg_identity_path config in
  match disk_files d !! path with
  | Some _ => id ← or_context "failed to load headless seed identity" (keystore_load path "" d); Ok (id, d)
  | None =>
      let id := from_signing_key_bytes (fr_key fr) in
      d ← or_context "save headless seed identity" (keystore_save path id "" (fr_salt fr) (fr_nonce fr) d);
      Ok (id, d)
  end.

(** [main], up to the point where the node runs: [file] is the configuration file, [base]
    the platform's data directory, [env_passphrase] the environment variable. *)
Definition node_config (a : Args) (base : string) (file : option bytes) : option NodeConfig :=
  apply_args a <$> config_load base file.
Definition main_passphrase (config : NodeConfig) (env_passphrase : option string) : option string :=
  if bool_decide (cfg_node_mode config = HeadlessSeed) then Some ""%string else env_passphrase.
Definition main_init (a : Args) (config : NodeConfig) (config_path : string) (env_passphrase : option string) (id : NodeIdentity)
    : NodeInitConfig :=
  mkInit id (main_passphrase config env_passphrase) config config_path
    (match arg_join_password a with Some p => Some p | None => cfg_join_password config end) false None
    (path_join (path_join (cfg_data_dir config) "state") "node.redb").
Definition with_machine_disk (d : Disk) mc : Machine T :=
  mkMachine (disk_files d) (disk_ok d) (mc_data_dir mc) (mc_store_dir mc) (mc_open_store mc) (mc_open_dht mc) (mc_bind mc)
    (mc_own_ips mc) (mc_salt mc) (mc_now mc).
Definition node_main (a : Args) (base config_path : string) (file : option bytes) (env_passphrase : option string)
    (typed : list string) (fr : Fresh) mc : Started (NodeInitResult T) :=
  let d := mkDisk (mc_disk mc) (mc_disk_ok mc) in
  match node_config a base file with
  | None => Failed "load config" d
  | Some config =>
      match (if bool_decide (cfg_node_mode config = HeadlessSeed) then load_or_create_identity_headless config fr d
             else load_or_create_identity config env_passphrase typed fr d) with
      | Err e => Failed e d
      | Ok (id, d) =>
          match init_node (main_init a config config_path env_passphrase id) (with_machine_disk d mc) with
          | Running r =>
              (* [expect("Peer/HeadlessSeed mode must have QUIC server")] *)
              match ir_services r with Some _ => Running r | None => Panicked (disk_of (ir_world r)) end
          | other => other
          end
      end
  end.
End init.

Section init_props.
Context {T : Type} `{CryptoLaws} `{Argon2} `{Base58} `{TableLaws T} `{NodeCodecs} `{HashOrderLaws} `{UlidText} `{UlidParse} `{AddrText}.
Context `{EntropyLaws} `{AppCodecs} `{Certificates} `{Toml} `{IpText}.
Context `{Postcard PeerInfoRecord} `{Postcard NodeAddr}.
Implicit Types mc : Machine T.
Implicit Types w : World T.

(** ** What a start leaves in the state *)

Section kept.
Context {B : Type} (proj : AppState T → B).
Hypothesis Hstore : ∀ s a, proj (set_node_store s a) = proj a.
Hypothesis Hcomm : ∀ s a, proj (set_communities s a) = proj a.
Hypothesis Hchan : ∀ s a, proj (set_channels s a) = proj a.
Hypothesis Hkeys : ∀ s a, proj (set_channel_keys s a) = proj a.
Hypothesis Hmem : ∀ s a, proj (set_members s a) = proj a.
Hypothesis Hlog : ∀ s a, proj (set_message_log s a) = proj a.
Hypothesis Hdmp : ∀ s a, proj (set_dm_peers s a) = proj a.
Hypothesis Hsyn : ∀ s a, proj (set_pending_manifest_syncs s a) = proj a.

Lemma kept_sync_members w cl : proj (w_app (sync_members w cl)) = proj (w_app w).
Proof using Hstore.
  unfold sync_members. destruct (_ !! _); [|done]. destruct (stored_meta _ w); [|done].
  destruct (merge_members _ _) as [m []]; [|done]. by apply on_store_frame.
Qed.
Lemma kept_backfill w pk : proj (w_app (backfill w pk)) = proj (w_app w).
Proof using Hcomm Hchan Hkeys Hmem.
  unfold backfill. destruct (stored_meta pk w) as [m|]; [|done]. destruct (meta_manifest m); [|done]. cbn.
  by rewrite Hmem, Hkeys, Hchan, Hcomm.
Qed.
Lemma kept_history w : proj (w_app (load_history w)) = proj (w_app w).
Proof using Hlog. unfold load_history. destruct (app_node_store _); [apply Hlog|done]. Qed.
Lemma kept_app_new sc disk ok draws : proj (w_app (app_new sc disk ok draws)) = proj (load_state sc disk).
Proof using All.
  assert (∀ l w, proj (w_app (foldl sync_members w l)) = proj (w_app w)) as Hs by (intros; apply (fold_frame proj), kept_sync_members).
  assert (∀ l w, proj (w_app (foldl backfill w l)) = proj (w_app w)) as Hb by (intros; apply (fold_frame proj), kept_backfill).
  unfold app_new. cbn [upd w_app]. rewrite Hdmp. destruct (app_node_store (load_state _ _)) as [st|]; [|done].
  rewrite kept_history. destruct (app_node_store _); [destruct (all_communities _)|]; by rewrite ?Hb, Hs.
Qed.
Lemma kept_bootstrap ips w : proj (w_app (bootstrap_network ips w)) = proj (w_app w).
Proof using Hsyn.
  unfold bootstrap_network. rewrite (fold_frame proj) by done. rewrite (fold_frame proj); [by destruct (app_dht _)|].
  intros w' [id signed]. unfold bootstrap_community. rewrite (fold_frame proj).
  - unfold command at 1, emit at 1. cbn [w_app]. rewrite (fold_frame proj) by done. unfold queue_manifest_sync. case_bool_decide; [done|]. apply Hsyn.
  - intros w1 s. destruct (parse_node_addr s); [|done]. by destruct (is_self_addr _ _ _ _).
Qed.
End kept.

(** A start reads the files and writes none of them itself. *)
Lemma disk_kept_fold {A} (f : World T → A → World T) l w :
  (∀ w x, disk_of (f w x) = disk_of w) → disk_of (foldl f w l) = disk_of w.
Proof. intros Hf. revert w; induction l as [|x l IH]; intros w; [done|]. cbn. by rewrite IH. Qed.
Lemma sync_members_disk w cl : disk_of (sync_members w cl) = disk_of w.
Proof.
  unfold sync_members. destruct (_ !! _); [|done]. destruct (stored_meta _ w); [|done].
  destruct (merge_members _ _) as [m []]; [|done]. unfold write_meta, on_store.
  destruct (app_node_store _); [|done]. by destruct (set_community_meta _ _ _ _).
Qed.
Lemma backfill_disk w pk : disk_of (backfill w pk) = disk_of w.
Proof. unfold backfill. destruct (stored_meta pk w) as [m|]; [|done]. by destruct (meta_manifest m). Qed.
Lemma app_new_disk sc disk ok draws : disk_of (app_new sc disk ok draws) = mkDisk disk ok.
Proof.
  unfold app_new, disk_of at 1. cbn [upd w_disk w_disk_ok w_app]. destruct (app_node_store (load_state sc disk)); [|reflexivity].
  assert (∀ w, disk_of (load_history w) = disk_of w) as Hh by (intros w; unfold load_history; by destruct (app_node_store (w_app w))).
  match goal with |- mkDisk (w_disk (load_history ?w)) _ = _ => transitivity (disk_of w); [exact (Hh w)|] end.
  destruct (app_node_store _); [destruct (all_communities _)|]; rewrite ?(disk_kept_fold backfill) by apply backfill_disk;
    by rewrite (disk_kept_fold sync_members) by apply sync_members_disk.
Qed.
Lemma bootstrap_disk ips w : disk_of (bootstrap_network ips w) = disk_of w.
Proof.
  unfold bootstrap_network. rewrite disk_kept_fold by done. rewrite disk_kept_fold; [by destruct (app_dht _)|].
  intros w' [id signed]. unfold bootstrap_community. rewrite disk_kept_fold.
  - unfold command at 1, emit at 1, disk_of at 1. cbn [w_disk w_disk_ok].
    match goal with |- mkDisk (w_disk ?w) _ = _ => change (disk_of w = disk_of w') end.
    rewrite disk_kept_fold by done. unfold queue_manifest_sync. by case_bool_decide.
  - intros w1 s. destruct (parse_node_addr s); [|done]. by destruct (is_self_addr _ _ _ _).
Qed.

(** ** Which key the tables have *)

Lemma table_key_disk p mc key d :
  table_key p mc = Some (key, d) → disk_files d = mc_disk mc ∨ disk_files d = <["table.salt" := mc_salt mc]> (mc_disk mc).
Proof.
  unfold table_key. destruct p as [p|]; [case_bool_decide|]; [intros [= <- <-]; by left| |intros [= <- <-]; by left].
  unfold load_or_create_salt. cbn. destruct (mc_disk mc !! _) as [s|].
  - destruct (length s =? 32)%nat; [intros [= <- <-]; by left|done].
  - unfold disk_write. cbn. destruct (mc_disk_ok mc); [intros [= <- <-]; by right|done].
Qed.
Lemma init_node_running cfg mc r : init_node cfg mc = Running r →
  ∃ key d d' fp st dht config server,
    table_key (ic_passphrase cfg) mc = Some (key, d) ∧ open_store cfg mc key = Some st ∧
    (d' = d ∨ ∃ s, disk_write (ic_config_path cfg) s d = Some d') ∧
    r = start_tasks cfg mc key d' fp st dht config server ∧
    (cfg_node_mode (ic_config cfg) = GossipClient ↔ server = None) ∧ cfg_node_mode config = cfg_node_mode (ic_config cfg).
Proof.
  unfold init_node. destruct (table_key _ _) as [[key d]|] eqn:Hk; [|done].
  destruct (mc_data_dir mc); [|done]. destruct (mc_store_dir mc); [|done]. cbn.
  destruct (open_store _ _ _) as [st|] eqn:Hst; [|done]. destruct (open_dht _ _ _) as [dht|]; [|done].
  destruct (tls_fingerprint _) as [fp|]; [|done]. case_bool_decide as Hm.
  - intros [= <-]. exists key, d, d, fp, st, dht, (ic_config cfg), None. split_and!; auto. done.
  - destruct (bind_server cfg mc) as [[i port]|e]; [|done]. unfold save_port.
    destruct (_ =? port).
    + intros [= <-]. exists key, d, d, fp, st, (update_self_addr (mkNodeAddr (reachable_ip i) port) <$> dht), (ic_config cfg), (Some (i, port)).
      split_and!; auto. done.
    + intros [= <-]. set (d' := match to_toml _ with Some s => _ | None => _ end).
      exists key, d, d', fp, st, (update_self_addr (mkNodeAddr (reachable_ip i) port) <$> dht),
        (set_cfg_quic_port port (ic_config cfg)), (Some (i, port)).
      split_and!; auto; [|done]. subst d'. destruct (to_toml _) as [s|]; [|by left].
      destruct (disk_write _ s d) as [d'|] eqn:Hw; [|by left]. cbn. right. by exists s.
Qed.


(** The files that a start leaves: it writes the salt and the configuration at most. *)
Definition start_disk (s : Started (NodeInitResult T)) : Disk :=
  match s with Running r => disk_of (ir_world r) | Failed _ d => d | Panicked d => d end.
Lemma disk_write_other path data d d' f : disk_write path data d = Some d' → f ≠ path → disk_files d' !! f = disk_files d !! f.
Proof. unfold disk_write. destruct (disk_ok d); [|done]. intros [= <-] Hf. by apply lookup_insert_ne. Qed.
Lemma init_node_files cfg mc f :
  f ≠ "table.salt" → f ≠ ic_config_path cfg → disk_files (start_disk (init_node cfg mc)) !! f = mc_disk mc !! f.
Proof.
  intros Hs Hc. unfold init_node. destruct (table_key _ _) as [[key d]|] eqn:Hk; [|done].
  assert (disk_files d !! f = mc_disk mc !! f) as Hd.
  { destruct (table_key_disk _ _ _ _ Hk) as [->| ->]; [done|]. by rewrite lookup_insert_ne. }
  destruct (mc_data_dir mc); [|done]. destruct (mc_store_dir mc); [|done]. cbn.
  destruct (open_store _ _ _) as [st|]; [|done]. destruct (open_dht _ _ _) as [dht|]; [|done].
  destruct (tls_fingerprint _) as [fp|]; [|done].
  assert (∀ d dht config server, disk_files (start_disk (Running (start_tasks cfg mc key d fp st dht config server))) = disk_files d) as Hrun.
  { intros. unfold start_tasks, start_disk. cbn [ir_world]. by rewrite bootstrap_disk, app_new_disk. }
  case_bool_decide; [by rewrite Hrun|]. destruct (bind_server cfg mc) as [[i port]|e]; [|done].
  unfold save_port. destruct (_ =? port); rewrite Hrun; [done|]. destruct (to_toml _) as [s|]; [|done].
  destruct (disk_write _ s d) as [d'|] eqn:Hw; [|done]. cbn. by rewrite (disk_write_other _ _ _ _ _ Hw).
Qed.
Lemma node_main_running a base path file env typed fr mc r :
  node_main a base path file env typed fr mc = Running r →
  ∃ config id d, node_config a base file = Some config ∧ is_Some (ir_services r) ∧
    init_node (main_init a config path env id) (with_machine_disk d mc) = Running r.
Proof.
  unfold node_main. destruct (node_config _ _ _) as [config|]; [|done].
  destruct (if bool_decide (cfg_node_mode config = HeadlessSeed) then _ else _) as [[id d]|e]; [|done].
  destruct (init_node _ _) as [r'| |] eqn:Hr; [|done|done]. destruct (ir_services r') eqn:Hsv; [|done].
  intros [= <-]. exists config, id, d. by rewrite Hsv.
Qed.
Lemma start_tasks_kept {B} (proj : AppState T → B) cfg mc key d fp st dht config server :
  (∀ s a, proj (set_node_store s a) = proj a) → (∀ s a, proj (set_communities s a) = proj a) →
  (∀ s a, proj (set_channels s a) = proj a) → (∀ s a, proj (set_channel_keys s a) = proj a) →
  (∀ s a, proj (set_members s a) = proj a) → (∀ s a, proj (set_message_log s a) = proj a) →
  (∀ s a, proj (set_dm_peers s a) = proj a) → (∀ s a, proj (set_pending_manifest_syncs s a) = proj a) →
  proj (w_app (ir_world (start_tasks cfg mc key d fp st dht config server))) =
  proj (load_state (start_config cfg key fp config st dht) (disk_files d)).
Proof. intros. unfold start_tasks. cbn [ir_world]. rewrite (kept_bootstrap proj) by done. by apply (kept_app_new proj). Qed.

(** C36: The node program runs only with a QUIC server: in the gossip-client mode, which its
    arguments and its configuration accept, it never runs. The services have the verifying key
    of the identity with which the state signs. The tables are encrypted exactly when the node
    is a peer whose environment gives a passphrase that is not empty, and then under a key
    derived from that passphrase: a passphrase that was typed at the prompt opens the identity
    but leaves the tables in the clear, as in the headless mode. *)
Theorem node_main_correct a base path file env typed fr mc r :
  node_main a base path file env typed fr mc = Running r →
  ∃ config s, node_config a base file = Some config ∧ ir_services r = Some s ∧
    cfg_node_mode config ≠ GossipClient ∧
    (∃ id, sv_node_pk s = verifying_key id ∧ app_signing_key (w_app (ir_world r)) = signing_key id) ∧
    match cfg_node_mode config, env with
    | Peer, Some p =>
        if bool_decide (p = ""%string) then app_encryption_key (w_app (ir_world r)) = None
        else ∃ salt, app_encryption_key (w_app (ir_world r)) = Some (derive_table_key p salt)
    | _, _ => app_encryption_key (w_app (ir_world r)) = None
    end.
Proof.
  intros (config & id & d & Hc & Hsv & Hr)%node_main_running. exists config.
  apply init_node_running in Hr as (key & d1 & d' & fp & st & dht & config' & server & Hk & Hst & _ & -> & Hm & Hm').
  destruct server as [[i port]|]; [|by destruct Hsv as [? [=]]].
  rewrite !(start_tasks_kept app_encryption_key), (start_tasks_kept app_signing_key) by done. cbn.
  eexists. split_and!; [done|done| |by exists id|].
  - intros Hg. destruct Hm as [Hm _]. by specialize (Hm Hg).
  - cbn in Hk. unfold main_passphrase in Hk. cbn in Hm.
    destruct (cfg_node_mode config) eqn:Hmode; [by destruct Hm as [Hm _]; specialize (Hm eq_refl)| |by injection Hk].
    destruct env as [p|]; [|by injection Hk]. rewrite bool_decide_eq_false_2 in Hk by done. unfold table_key in Hk.
    case_bool_decide; [by injection Hk|].
    destruct (load_or_create_salt _ _ _) as [[salt ?]|]; [|done]. injection Hk as <- _. by exists salt.
Qed.

(** ** A start whose tables cannot be read *)

(** Nothing that a start can restore. *)
Definition no_tables (a : AppState T) : Prop :=
  app_communities a = ∅ ∧ app_channels a = ∅ ∧ app_channel_keys a = ∅ ∧ app_previous_channel_keys a = ∅ ∧
  app_members a = ∅ ∧ app_dms a = ∅ ∧ app_dm_peers a = ∅ ∧ app_bans a = ∅ ∧ app_read_state a = ∅ ∧
  app_hosting_passwords a = ∅ ∧ app_seed_fingerprints a = ∅ ∧ app_message_log a = log_new.

(** The bytes [raw] are no table [t]; an encrypted file is none. *)
Definition not_json (t : Tab) (raw : bytes) : Prop :=
  match t with
  | TCommunities => from_json (A := gmap string SignedManifest) raw = None
  | TChannels => from_json (A := gmap string ChannelManifest) raw = None
  | TKeys | TPrevious => from_json (A := gmap string bytes) raw = None
  | TMembers => from_json (A := gmap string (gmap string MembershipRecord)) raw = None
  | TPasswords => from_json (A := gmap string string) raw = None
  | TDms => from_json (A := gmap string (list DmMessageInfo)) raw = None
  | TDmPeers => from_json (A := gmap string DmPeerInfo) raw = None
  | TBans => from_json (A := gmap string (list string)) raw = None
  | TRead => from_json (A := gmap string Z) raw = None
  | TFingerprints => from_json (A := gmap string bytes) raw = None
  end.

Section foreign.
Context (key : bytes).
(** No file of [disk] and no row of [st] opens under [key]. *)
Definition foreign_files (disk : gmap string bytes) : Prop :=
  ∀ t raw, disk !! file_of t = Some raw → is_ok (decrypt_bytes raw key) = false ∧ not_json t raw.
Definition foreign_rows (meta : T) : Prop :=
  ∀ pk v, t_get pk meta = Some v → is_ok (decrypt_bytes v key) = false.

Lemma foreign_load {A} `{Json (gmap string A)} t disk :
  foreign_files disk → (∀ raw, not_json t raw → from_json (A := gmap string A) raw = None) →
  load_table (A := A) (file_of t) (Some key) disk = ∅.
Proof.
  intros Hf Hj. unfold load_table. destruct (disk !! file_of t) as [raw|] eqn:Hr; [|done].
  destruct (Hf t raw Hr) as [Hd Hn]. destruct (decrypt_bytes raw key); [done|]. by rewrite (Hj _ Hn).
Qed.
Lemma foreign_meta st pk : st_key st = Some key → foreign_rows (META st) → meta_or_none pk st = None.
Proof.
  intros Hk Hf. unfold meta_or_none, get_community_meta. destruct (transaction st); [|done]. cbn.
  destruct (t_get pk (META st)) as [v|] eqn:Hv; [|done]. unfold open_value, store_decrypt. rewrite Hk.
  pose proof (Hf pk v Hv) as Hd. by destruct (decrypt_bytes v key).
Qed.
Lemma hash_order_empty V : hash_order (∅ : gmap string V) = [].
Proof. apply Permutation_nil_r. rewrite hash_order_perm. by rewrite map_to_list_empty. Qed.

(** From such files and rows a start restores nothing. *)
Lemma foreign_start sc disk st ok draws :
  sc_encryption_key sc = Some key → sc_node_store sc = Some st → st_key st = Some key →
  foreign_files disk → foreign_rows (META st) → no_tables (w_app (app_new sc disk ok draws)).
Proof.
  intros Hk Hs Hsk Hf Hr.
  assert (load_state sc disk =
    mkApp (sc_peer_id sc) (sc_public_key_hex sc) (sc_node_address sc) (sc_signing_key sc) (Some key)
      (sc_tls_fingerprint sc) (mkIdentity (cfg_display_name (sc_config sc)) Online) (sc_config sc) log_new ∅
      ∅ ∅ ∅ ∅ ∅ ∅ ∅ ∅ ∅ ∅ ∅ ∅ [] ∅ [] None ∅ 0 (Some st) (sc_dht sc)) as Hl.
  { unfold load_state. rewrite Hk, Hs. f_equal;
      [apply (foreign_load TCommunities)|apply (foreign_load TChannels)|apply (foreign_load TKeys)|apply (foreign_load TPrevious)
      |apply (foreign_load TDms)|apply (foreign_load TDmPeers)|apply (foreign_load TMembers)|apply (foreign_load TBans)
      |apply (foreign_load TRead)|apply (foreign_load TPasswords)|apply (foreign_load TFingerprints)]; done. }
  unfold app_new. rewrite Hl. cbn [w_app app_node_store app_members]. rewrite hash_order_empty. cbn [foldl w_app app_node_store].
  set (w0 := mkWorld _ disk ok [] draws).
  assert (∀ l, foldl backfill w0 l = w0) as Hb.
  { induction l as [|pk l IH]; [done|]. cbn [foldl]. unfold backfill at 2, stored_meta. cbn.
    by rewrite foreign_meta. }
  assert (∀ o : result store_error (list bytes), match o with Ok pks => foldl backfill w0 pks | Err _ => w0 end = w0) as -> by (intros []; auto).
  unfold load_history. cbn. rewrite !hash_order_empty. cbn. unfold no_tables. cbn. unfold seed_dm_peers. cbn.
  by rewrite hash_order_empty.
Qed.
End foreign.

(** C35: A new passphrase loses the tables. A node runs with its tables saved;
    [identity_change_passphrase] succeeds, and the keystore opens with the new passphrase. The
    files of the tables are as before, under the key of the running node. So a start with the
    new passphrase, under whose key they do not open, runs without any community, channel, key,
    member, direct message, ban or message. *)
Theorem passphrase_change_loses_tables p w w' salt cfg mc r :
  (∀ k n m, is_Some (aead_encrypt k n m)) → length (app_signing_key (w_app w)) = 32%nat → persisted w →
  w_disk w !! "table.salt" = Some salt → length salt = 32%nat →
  identity_path w ≠ "table.salt" → (∀ t, identity_path w ≠ file_of t) →
  identity_change_passphrase p w = (Reply true, w') →
  let key := derive_table_key (new_passphrase p) salt in
  foreign_files key (w_disk w) →
  ic_passphrase cfg = Some (new_passphrase p) → mc_disk mc = w_disk w' → (∀ t, ic_config_path cfg ≠ file_of t) →
  (∀ log mail meta peers, mc_open_store mc (ic_store_db_path cfg) = Some (log, mail, meta, peers) → foreign_rows key meta) →
  init_node cfg mc = Running r →
  keystore_load (identity_path w) (new_passphrase p) (disk_of w') = Ok (from_signing_key_bytes (app_signing_key (w_app w))) ∧
  (∀ t, on_disk t (w_disk w') (w_app w)) ∧ no_tables (w_app (ir_world r)).
Proof.
  intros Haead Hsk [Hok Hper] Hsalt Hlen Hid Hidt Hch key Hff Hp Hdisk Hcp Hrows Hr.
  pose proof (change_passphrase_spec p w w' _ Hsk Hok (λ n, Haead _ n _) Hch) as Hspec.
  destruct (8 <=? String.length (new_passphrase p))%nat eqn:H8len; [|by destruct Hspec as [_ [? [=]]]].
  destruct (is_ok _); [|by destruct Hspec as [_ [? [=]]]]. destruct Hspec as (_ & _ & _ & Hload & Hsame & _).
  assert (foreign_files key (w_disk w')) as Hff'.
  { intros t raw. rewrite Hsame by (by apply not_eq_sym). apply Hff. }
  split; [done|]. split.
  { intros t. apply (on_disk_ext t (w_disk w) _ (w_app w)); [|done|by destruct t|apply Hper, not_elem_of_nil].
    symmetry. apply Hsame. by apply not_eq_sym. }
  apply init_node_running in Hr as (k & d & d' & fp & st & dht & config & server & Hk & Hst & Hd' & -> & _ & _).
  assert (k = Some key ∧ disk_files d = w_disk w') as [-> Hd].
  { revert Hk. unfold table_key. rewrite Hp, bool_decide_eq_false_2; [|by intros E; rewrite E in H8len].
    unfold load_or_create_salt. cbn [disk_files]. rewrite Hdisk, Hsame by (by apply not_eq_sym).
    rewrite Hsalt, Hlen. cbn. intros [= <- <-]. done. }
  unfold start_tasks. cbn [ir_world]. rewrite (kept_bootstrap no_tables) by done.
  unfold open_store in Hst. destruct (mc_open_store mc _) as [[[[log mail] meta] peers]|] eqn:Ho; [|done].
  injection Hst as <-. eapply foreign_start; [done|done|done| |by eapply Hrows].
  intros t raw Hraw. apply (Hff' t). rewrite <- Hraw, <- Hd.
  destruct Hd' as [->|[s Hw]]; [done|]. unfold disk_write in Hw. destruct (disk_ok d); [|done]. injection Hw as <-.
  cbn. by rewrite lookup_insert_ne.
Qed.
End init_props.
