(* ===== verification/Desktop.v ===== *)
(** * The desktop application: [bitcord-tauri/src/lib.rs], [commands.rs]

    The application starts the node of [NodeInit] in its own process once a passphrase opens
    the identity, and connects a [NodeClient] to the node's own QUIC server. Its commands
    read and write the configuration, the identity file and the passphrase in the keychain of
    the operating system. A relay turns what the node pushes to the client into events of the
    user interface, and a janitor keeps the store within the configured limit. *)

From stdpp Require Import pretty.
From S2P Require Import Prelude Bytes Config Redb Routing Crypto Utf8 Identity Codec Model ClientState Store DhtNode Protocol.
From S2P Require Import Handler AppState ChannelEvents CommunityEvents ManifestEvents ClientEvents AppStart Rpc Passphrase.
From S2P Require Import RpcCommunity RpcNode NodeClient Wire NodeInit.

(** ** [str::trim] on UTF-8 *)

Definition white_space : list bytes :=
  ((λ b, [b]) <$> [9; 10; 11; 12; 13; 32]) ++ [[194; 133]; [194; 160]; [225; 154; 128]] ++
  ((λ b, [226; 128; b]) <$> seqZ 128 11 ++ [168; 169; 175]) ++ [[226; 129; 159]; [227; 128; 128]].
Definition strip_prefix (p b : bytes) : option bytes :=
  if bool_decide (take (length p) b = p) then Some (drop (length p) b) else None.
(** The fuel is the length: every step removes a byte. *)
Fixpoint strip_all (fuel : nat) (patterns : list bytes) (b : bytes) : bytes :=
  match fuel with
  | O => b
  | S fuel =>
      match find_by (λ p, bool_decide (is_Some (strip_prefix p b))) patterns with
      | Some p => strip_all fuel patterns (drop (length p) b)
      | None => b
      end
  end.
Definition trim_bytes (b : bytes) : bytes :=
  let b := strip_all (length b) white_space b in
  reverse (strip_all (length b) (reverse <$> white_space) (reverse b)).
Definition trim (s : string) : string := string_of_bytes (trim_bytes (bytes_of_string s)).

(** [base64::STANDARD], and the texts of library errors. *)
Class Base64 := { std_encode : bytes → string; std_decode : string → option bytes }.
(** Decoding inverts encoding, which writes no white space. *)
Class Base64Laws `{Base64} : Prop := {
  std_roundtrip b : std_decode (std_encode b) = Some b;
  std_trim b : trim (std_encode b) = std_encode b }.
Class DesktopText := {
  key_error_text : crypto_error → string;
  ulid_error_text : string → string;
  base58_error_text : string → string }.

(** ** State *)

Inductive Status := FirstRun | Ready | AutoUnlocking | NeedsUnlock.

(** The events of the user interface. *)
Inductive Emitted :=
  | BackendStatus (status : Status)
  | MessageNew (channel_id : string) (seq : Z) (author_id : string) (timestamp_ms : Z)
  | DmNew (seq : Z) (author_id : string) (timestamp_ms : Z)
  | PresenceChanged (user_pk : string) (status : Z).

(** [NodeState]. The maps of keys and communities are those of the client's state, and
    [remote_clients] stays empty. *)
Record NodeState := mkNodeState { nst_identity : NodeIdentity; local_client : option nat }.

(** The entry in the keychain, and whether the keychain works. *)
Record Keychain := mkKeychain { kc_entry : option string; kc_ok : bool }.

(** What is managed once the backend has started: [NodeState] and the client's state, which
    has the files then. *)
Record Desktop (T N : Type) := mkDesktop {
  dt_disk : Disk;
  dt_keychain : Keychain;
  dt_auto_unlocking : bool;
  dt_state : option (NodeState * World T);
  dt_net : NetWorld N;
  dt_emitted : list Emitted }.
Arguments mkDesktop {T N}.
Arguments dt_disk {T N}.
Arguments dt_keychain {T N}.
Arguments dt_auto_unlocking {T N}.
Arguments dt_state {T N}.
Arguments dt_net {T N}.
Arguments dt_emitted {T N}.

(** The machine: the application's data directory and the default one, the randomness of a
    new key and of the client's nonce, and whether the port of the API server is free. *)
Record Platform (T : Type) := mkPlatform {
  pf_dir : string; pf_base : string; pf_machine : Machine T; pf_fresh : Fresh; pf_nonce : bytes; pf_api : bool }.
Arguments mkPlatform {T}.
Arguments pf_dir {T}.
Arguments pf_base {T}.
Arguments pf_machine {T}.
Arguments pf_fresh {T}.
Arguments pf_nonce {T}.
Arguments pf_api {T}.

(** Commands: an error is a text; [None]: the task panics. *)
Definition Cmd (T N A : Type) : Type := Desktop T N → option (result string A) * Desktop T N.
#[export] Instance cmd_ret T N : MRet (Cmd T N) := λ A a d, (Some (Ok a), d).
#[export] Instance cmd_bind T N : MBind (Cmd T N) := λ A B k m d,
  match m d with
  | (Some (Ok a), d') => k a d'
  | (Some (Err e), d') => (Some (Err e), d')
  | (None, d') => (None, d')
  end.
Definition refuse {T N A} (e : string) : Cmd T N A := λ d, (Some (Err e), d).
Definition try {T N A} (r : result string A) : Cmd T N A := λ d, (Some r, d).
Definition look {T N A} (f : Desktop T N → A) : Cmd T N A := λ d, (Some (Ok (f d)), d).
Definition modify {T N} (f : Desktop T N → Desktop T N) : Cmd T N unit := λ d, (Some (Ok tt), f d).

Section desktop.
Context {T N : Type} `{Crypto} `{Argon2} `{Base58} `{Table T} `{NodeCodecs} `{HashOrder} `{UlidText} `{UlidParse} `{AddrText}.
Context `{Entropy} `{AppCodecs} `{Certificates} `{Toml} `{IpText}.
Context `{Postcard PeerInfoRecord} `{Postcard NodeAddr}.
Context `{Quic N} `{NetText} `{Postcard ClientRequest} `{Postcard NodeResponse} `{Base64} `{DesktopText}.
Implicit Types d : Desktop T N.
Implicit Types pf : Platform T.
Implicit Types w : World T.

Definition files d : Disk := match dt_state d with Some (_, w) => disk_of w | None => dt_disk d end.
Definition with_files (fs : Disk) d : Desktop T N :=
  match dt_state d with
  | Some (ns, w) => mkDesktop (dt_disk d) (dt_keychain d) (dt_auto_unlocking d) (Some (ns, with_disk fs w)) (dt_net d) (dt_emitted d)
  | None => mkDesktop fs (dt_keychain d) (dt_auto_unlocking d) None (dt_net d) (dt_emitted d)
  end.
Definition with_keychain (k : Keychain) d : Desktop T N :=
  mkDesktop (dt_disk d) k (dt_auto_unlocking d) (dt_state d) (dt_net d) (dt_emitted d).
Definition with_auto_unlocking (b : bool) d : Desktop T N :=
  mkDesktop (dt_disk d) (dt_keychain d) b (dt_state d) (dt_net d) (dt_emitted d).
Definition with_net (net : NetWorld N) d : Desktop T N :=
  mkDesktop (dt_disk d) (dt_keychain d) (dt_auto_unlocking d) (dt_state d) net (dt_emitted d).
Definition emit_ui (e : Emitted) d : Desktop T N :=
  mkDesktop (dt_disk d) (dt_keychain d) (dt_auto_unlocking d) (dt_state d) (dt_net d) (dt_emitted d ++ [e]).
(** [manage] leaves a value that is there already. *)
Definition manage_state (ns : NodeState) w d : Desktop T N :=
  match dt_state d with
  | Some _ => d
  | None => mkDesktop (dt_disk d) (dt_keychain d) (dt_auto_unlocking d) (Some (ns, w)) (dt_net d) (dt_emitted d)
  end.

(** ** Configuration and keychain *)

Definition get_config_path pf : string := path_join (pf_dir pf) "config.toml".
Definition load_config pf d : option NodeConfig :=
  load_or_default (pf_base pf) (Some (pf_dir pf)) (disk_files (files d) !! get_config_path pf).
Definition load_config_or_default pf d : NodeConfig := default (default_config (pf_base pf)) (load_config pf d).
(** [let _ = config.save(..)]. *)
Definition save_config pf (c : NodeConfig) d : Desktop T N :=
  match to_toml c with
  | Some s => match disk_write (get_config_path pf) s (files d) with Some fs => with_files fs d | None => d end
  | None => d
  end.
Definition set_cfg_save_passphrase (v : bool) (c : NodeConfig) : NodeConfig :=
  mkConfig (cfg_identity_path c) (cfg_data_dir c) (cfg_listen_addrs c) (cfg_max_connections c)
    (cfg_storage_limit_mb c) (cfg_bandwidth_limit_kbps c) (cfg_node_mode c) (cfg_seed_priority c) (cfg_log_level c)
    (cfg_quic_port c) (cfg_display_name c) (cfg_join_password c) v (cfg_preferred_mailbox_node c).

Definition keychain_get d : option string := if kc_ok (dt_keychain d) then kc_entry (dt_keychain d) else None.
Definition keychain_save (password : string) d : Desktop T N :=
  if kc_ok (dt_keychain d) then with_keychain (mkKeychain (Some password) true) d else d.
Definition keychain_delete d : Desktop T N :=
  if kc_ok (dt_keychain d) then with_keychain (mkKeychain None true) d else d.
Definition handle_save_passphrase (passphrase : string) (save : bool) d : Desktop T N :=
  if save then keychain_save passphrase d else keychain_delete d.

(** ** [start_backend_with_passphrase] *)

Definition backend_identity pf (config : NodeConfig) (passphrase : string) (fs : Disk) : result string (NodeIdentity * Disk) :=
  match disk_files fs !! cfg_identity_path config with
  | Some _ => id ← keystore_load (cfg_identity_path config) passphrase fs; Ok (id, fs)
  | None =>
      let id := from_signing_key_bytes (fr_key (pf_fresh pf)) in
      fs ← keystore_save (cfg_identity_path config) id passphrase (fr_salt (pf_fresh pf)) (fr_nonce (pf_fresh pf)) fs;
      Ok (id, fs)
  end.
Definition backend_init pf (config : NodeConfig) (id : NodeIdentity) (passphrase : string) : NodeInitConfig :=
  mkInit id (if bool_decide (passphrase = ""%string) then None else Some passphrase) config (get_config_path pf) None true None
    (path_join (cfg_data_dir config) "node.redb").
Definition run_init (cfg : NodeInitConfig) pf : Cmd T N (NodeInitResult T) := λ d,
  match init_node cfg (with_machine_disk (files d) (pf_machine pf)) with
  | Running r => (Some (Ok r), with_files (disk_of (ir_world r)) d)
  | Failed e fs => (Some (Err e), with_files fs d)
  | Panicked fs => (None, with_files fs d)
  end.
Definition connect_local pf (id : NodeIdentity) (r : NodeInitResult T) : Cmd T N (option nat) := λ d,
  match ir_quic_port r with
  | None => (None, d)
  | Some port =>
      match connect (mkNodeAddr (V4 [127; 0; 0; 1]) port) (ir_fingerprint r) (signing_key id) (pf_nonce pf) (dt_net d) with
      | (Ok (client, _), net) => (Some (Ok (Some client)), with_net net d)
      | (Err e, net) => (Some (Err ("connect NodeClient to embedded node: " ++ e)%string), with_net net d)
      end
  end.
Definition start_backend_with_passphrase pf (passphrase : string) : Cmd T N unit :=
  loaded ← look (load_config pf);
  config ← try (match loaded with Some c => Ok c | None => Err "load config"%string end);
  fs ← look files;
  idfs ← try (backend_identity pf config passphrase fs);
  let '(id, fs) := idfs in
  _ ← modify (with_files fs);
  r ← run_init (backend_init pf config id passphrase) pf;
  client ← (if bool_decide (cfg_node_mode config = GossipClient) then mret None else connect_local pf id r);
  if negb (pf_api pf) then refuse "bind API server"
  else
    _ ← modify (manage_state (mkNodeState id client) (ir_world r));
    modify (emit_ui (BackendStatus Ready)).

(** The janitor's limit; seeds keep everything. *)
Definition janitor_limit (config : NodeConfig) : option Z :=
  if bool_decide (cfg_node_mode config = HeadlessSeed) then None
  else Some (wrap64 (cfg_storage_limit_mb config * 1048576)).

(** ** Commands *)

Definition identity_exists (config : NodeConfig) d : bool :=
  bool_decide (is_Some (disk_files (files d) !! cfg_identity_path config)).

Definition needs_unlock : Cmd T N unit := modify (λ d, emit_ui (BackendStatus NeedsUnlock) (with_auto_unlocking false d)).
Definition check_backend_status pf : Cmd T N unit := λ d,
  let config := load_config_or_default pf d in
  if negb (identity_exists config d) then modify (emit_ui (BackendStatus FirstRun)) d
  else if cfg_save_passphrase config
  then
    let d := with_auto_unlocking true d in
    match keychain_get d with
    | Some passphrase =>
        match start_backend_with_passphrase pf passphrase d with
        | (Some (Ok _), d) => (Some (Ok tt), with_auto_unlocking false d)
        | (Some (Err _), d) => needs_unlock d
        | (None, d) => (None, d)
        end
    | None => needs_unlock d
    end
  else modify (emit_ui (BackendStatus NeedsUnlock)) d.

(** The status, and whether the passphrase is kept. *)
Definition get_backend_status pf d : Status * bool :=
  let config := load_config_or_default pf d in
  (if negb (identity_exists config d) then FirstRun
   else match dt_state d with
        | Some _ => Ready
        | None => if dt_auto_unlocking d then AutoUnlocking else NeedsUnlock
        end, cfg_save_passphrase config).

Definition update_config pf (f : NodeConfig → NodeConfig) d : Desktop T N :=
  match load_config pf d with Some config => save_config pf (f config) d | None => d end.

Definition unlock_identity pf (passphrase : string) (save_passphrase : bool) : Cmd T N unit :=
  _ ← start_backend_with_passphrase pf passphrase;
  _ ← modify (handle_save_passphrase passphrase save_passphrase);
  modify (update_config pf (set_cfg_save_passphrase save_passphrase)).

(** What [create_identity] and [import_identity] do with the identity they have. *)
Definition save_identity pf (failed : string) (id : NodeIdentity) (passphrase : string) (config : NodeConfig) : Cmd T N unit := λ d,
  match keystore_save (cfg_identity_path config) id passphrase (fr_salt (pf_fresh pf)) (fr_nonce (pf_fresh pf)) (files d) with
  | Ok fs => (Some (Ok tt), with_files fs d)
  | Err e => (Some (Err (failed ++ e)%string), d)
  end.
Definition start_with_identity pf (passphrase : string) (save_passphrase : bool) (config : NodeConfig) : Cmd T N unit :=
  _ ← modify (save_config pf (set_cfg_save_passphrase save_passphrase config));
  _ ← start_backend_with_passphrase pf passphrase;
  modify (handle_save_passphrase passphrase save_passphrase).

Definition create_identity pf (passphrase display_name : string) (save_passphrase : bool) : Cmd T N unit :=
  loaded ← look (load_config pf);
  config ← try (match loaded with Some c => Ok c | None => Err "load config"%string end);
  _ ← save_identity pf "failed to save identity: " (from_signing_key_bytes (fr_key (pf_fresh pf))) passphrase config;
  start_with_identity pf passphrase save_passphrase (set_cfg_display_name (Some display_name) config).

Definition get_save_passphrase pf d : bool := cfg_save_passphrase (load_config_or_default pf d).
Definition set_save_passphrase pf (enabled : bool) (passphrase : string) : Cmd T N unit :=
  config ← look (load_config_or_default pf);
  fs ← look files;
  _ ← try (if enabled
           then match keystore_load (cfg_identity_path config) passphrase fs with Ok _ => Ok tt | Err _ => Err "Invalid passphrase"%string end
           else Ok tt);
  _ ← modify (update_config pf (set_cfg_save_passphrase enabled));
  modify (handle_save_passphrase passphrase enabled).

(** [saved]: what the file dialog and the write give; the bundle that is written. *)
Definition export_identity pf (export_passphrase : string) (salt nonce : bytes) (saved : bytes → result string unit) : Cmd T N bytes :=
  _ ← try (if (String.length export_passphrase <? 8)%nat then Err "export passphrase must be at least 8 characters"%string else Ok tt);
  state ← look dt_state;
  running ← try (match state with Some nw => Ok nw.1 | None => Err "backend is not running"%string end);
  config ← look (load_config_or_default pf);
  bundle ← try (export_create (nst_identity running) (cfg_display_name config) export_passphrase salt nonce);
  _ ← try (saved bundle);
  mret bundle.

Definition import_name (display_name : string) (embedded : option string) (config : NodeConfig) : NodeConfig :=
  let final_name := if bool_decide (trim display_name = ""%string) then default ""%string embedded else trim display_name in
  if bool_decide (final_name = ""%string) then config else set_cfg_display_name (Some final_name) config.
Definition import_identity pf (bundle_b64 export_passphrase local_passphrase display_name : string) (save_passphrase : bool)
    : Cmd T N unit :=
  _ ← try (if (String.length local_passphrase <? 8)%nat then Err "local passphrase must be at least 8 characters"%string else Ok tt);
  bundle ← try (match std_decode (trim bundle_b64) with Some b => Ok b | None => Err "invalid bundle encoding"%string end);
  loaded ← try (export_load bundle export_passphrase);
  let '(identity, embedded) := loaded in
  config ← look (load_config pf);
  config ← try (match config with Some c => Ok c | None => Err "load config"%string end);
  _ ← save_identity pf "failed to save imported identity: " identity local_passphrase config;
  start_with_identity pf local_passphrase save_passphrase (import_name display_name embedded config).

(** ** The push relay *)

Definition relay_new_message (now : DateTime) (channel_id : Ulid) (entry : LogEntry) w : World T :=
  let cid := match app_channels (w_app w) !! ulid_to_string channel_id with
             | Some c => ulid_to_string (ch_community_id c)
             | None => ""%string
             end in
  let name := list ← app_members (w_app w) !! cid; mr_display_name <$> list !! le_author_id entry in
  broadcast (PushMessageNew (mkMessageEvent (le_message_id entry) (ulid_to_string channel_id) cid (le_author_id entry) name
    (default now (from_timestamp_millis (le_timestamp_ms entry))) None)) w.
(** The outer result says whether the event [dm:new] is emitted. *)
Definition relay_new_dm (now : DateTime) (entry : LogEntry) w : bool * World T :=
  match from_bytes (A := DmEnvelope) (le_ciphertext entry) with
  | Some envelope =>
      match open envelope (own_x25519_sk w) with
      | Ok plaintext =>
          match read_dm plaintext with
          | Some (body, reply_to, payload_id) =>
              let author := le_author_id entry in
              let msg := mkDmInfo (default (le_message_id entry) payload_id) author author
                           (default now (from_timestamp_millis (le_timestamp_ms entry))) body reply_to None in
              (true, broadcast (PushDmNew msg)
                       (upd (λ a, set_dms (<[author := default [] (app_dms (w_app w) !! author) ++ [msg]]> (app_dms a)) a) w))
          | None => (false, w)
          end
      | Err _ => (true, w)
      end
  | None => (true, w)
  end.
Definition relay_push (now : DateTime) (push : NodePush) w : list Emitted * World T :=
  match push with
  | NewMessagePush channel_id entry =>
      ([MessageNew (ulid_to_string channel_id) (le_seq entry) (le_author_id entry) (le_timestamp_ms entry)],
       relay_new_message now channel_id entry w)
  | NewDm entry _ =>
      let '(event, w) := relay_new_dm now entry w in
      (if event then [DmNew (le_seq entry) (le_author_id entry) (le_timestamp_ms entry)] else [], w)
  | PresencePush user_pk status => ([PresenceChanged (bs58_encode user_pk) status], w)
  | GossipMessage _ _ _ => ([], w)
  end.

(** ** [commands.rs] *)

Record DecryptedMessage := mkDecrypted {
  dec_seq : Z; dec_message_id : string; dec_author_id : string; dec_timestamp_ms : Z; dec_plaintext : string }.

Definition command_community (community_id : string) w : result string bytes :=
  match app_communities (w_app w) !! community_id with
  | Some signed => Ok (cm_public_key (sm_manifest signed))
  | None =>
      match parse_ulid community_id with
      | Some u => Ok (ulid_be u ++ replicate 16 0)
      | None => Err (ulid_error_text community_id)
      end
  end.
Definition command_channel (channel_id : string) : result string Ulid :=
  match parse_ulid channel_id with Some u => Ok u | None => Err (ulid_error_text channel_id) end.
Definition command_key (channel_id : string) w : result string bytes :=
  match app_channel_keys (w_app w) !! channel_id with
  | Some k => Ok k
  | None => Err "no channel key for this channel"%string
  end.
Definition command_client (ns : NodeState) : result string nat :=
  match local_client ns with Some r => Ok r | None => Err "embedded node not yet connected"%string end.
Definition with_text {A} (r : result crypto_error A) : result string A :=
  match r with Ok a => Ok a | Err e => Err (key_error_text e) end.

Definition node_send_message (ns : NodeState) w (fresh_nonce : bytes) (community_id channel_id plaintext : string) : Net N Z :=
  community_pk ← lift (command_community community_id w);
  channel ← lift (command_channel channel_id);
  key ← lift (command_key channel_id w);
  nc ← lift (with_text (encrypt_message key fresh_nonce (bytes_of_string plaintext)));
  client ← lift (command_client ns);
  send_message client community_pk channel nc.1 nc.2.

Definition decrypt_entry (key : bytes) (e : LogEntry) : result string DecryptedMessage :=
  match decrypt_message key (le_nonce e) (le_ciphertext e) with
  | Ok b => Ok (mkDecrypted (le_seq e) (le_message_id e) (le_author_id e) (le_timestamp_ms e) (default "<binary>"%string (from_utf8 b)))
  | Err err => Err ("decrypt seq " ++ pretty (le_seq e) ++ ": " ++ key_error_text err)%string
  end.
Fixpoint decrypt_entries (key : bytes) (es : list LogEntry) : result string (list DecryptedMessage) :=
  match es with
  | [] => Ok []
  | e :: es => m ← decrypt_entry key e; ms ← decrypt_entries key es; Ok (m :: ms)
  end.
Definition node_get_messages (ns : NodeState) w (community_id channel_id : string) (since_seq : Z) : Net N (list DecryptedMessage) :=
  community_pk ← lift (command_community community_id w);
  channel ← lift (command_channel channel_id);
  client ← lift (command_client ns);
  entries ← NodeClient.get_messages client community_pk channel since_seq;
  key ← lift (command_key channel_id w);
  lift (decrypt_entries key entries).

Definition node_send_dm (ns : NodeState) (ephem_sk nonce : bytes) (recipient_pk_b58 plaintext : string) : Net N Z :=
  recipient ← lift (match bs58_decode recipient_pk_b58 with
                    | None => Err (base58_error_text recipient_pk_b58)
                    | Some b => if (length b =? 32)%nat then Ok b else Err "recipient public key must be exactly 32 bytes"%string
                    end);
  envelope ← lift (with_text (seal (x25519_secret (nst_identity ns)) ephem_sk nonce recipient (bytes_of_string plaintext)));
  client ← lift (command_client ns);
  send_dm client recipient envelope.
End desktop.

Section desktop_props.
Context {T N : Type} `{CryptoLaws} `{Argon2} `{Base58} `{TableLaws T} `{NodeCodecs} `{HashOrderLaws} `{UlidText} `{UlidParse} `{AddrText}.
Context `{EntropyLaws} `{AppCodecs} `{Certificates} `{Toml} `{IpText}.
Context `{Postcard PeerInfoRecord} `{Postcard NodeAddr}.
Context `{Quic N} `{NetText} `{Postcard ClientRequest} `{Postcard NodeResponse} `{Base64} `{DesktopText}.
Implicit Types d : Desktop T N.
Implicit Types pf : Platform T.
Implicit Types w : World T.

Lemma files_with_files fs d : files (with_files fs d) = fs.
Proof. unfold files, with_files. by destruct (dt_state d) as [[ns w]|], fs. Qed.
Lemma with_files_self d : with_files (files d) d = d.
Proof. destruct d as [[] ? ? [[ns []]|] ? ?]; reflexivity. Qed.
Lemma files_manage ns w d : files d = disk_of w → files (manage_state ns w d) = files d.
Proof. unfold files, manage_state. destruct (dt_state d) as [[? ?]|] eqn:E; [by rewrite E|]. cbn. by intros ->. Qed.

(** ** Starting *)

(** The outcome once the identity is there. *)
Definition started pf config id passphrase : Cmd T N unit :=
  r ← run_init (backend_init pf config id passphrase) pf;
  client ← (if bool_decide (cfg_node_mode config = GossipClient) then mret None else connect_local pf id r);
  if negb (pf_api pf) then refuse "bind API server"
  else
    _ ← modify (manage_state (mkNodeState id client) (ir_world r));
    modify (emit_ui (BackendStatus Ready)).
Lemma start_opened pf passphrase d config raw :
  load_config pf d = Some config → disk_files (files d) !! cfg_identity_path config = Some raw →
  start_backend_with_passphrase pf passphrase d =
    match keystore_load (cfg_identity_path config) passphrase (files d) with
    | Ok id => started pf config id passphrase d
    | Err e => (Some (Err e), d)
    end.
Proof.
  intros Hc Hr. unfold start_backend_with_passphrase, mbind, cmd_bind, look, try, modify. rewrite Hc. unfold backend_identity.
  rewrite Hr. destruct (keystore_load _ _ _) as [id|e]; [|done]. cbn. by rewrite with_files_self.
Qed.
Lemma connect_local_files pf id r d : files (connect_local pf id r d).2 = files d.
Proof.
  unfold connect_local. destruct (ir_quic_port r); [|done].
  by destruct (connect _ _ _ _ _) as [[[client ?]|e] net].
Qed.
Lemma started_files pf config id passphrase d f :
  f ≠ "table.salt" → f ≠ get_config_path pf →
  disk_files (files (started pf config id passphrase d).2) !! f = disk_files (files d) !! f.
Proof.
  intros Hs Hc. unfold started, mbind, cmd_bind, run_init.
  pose proof (init_node_files (backend_init pf config id passphrase) (with_machine_disk (files d) (pf_machine pf)) f Hs Hc) as Hf.
  destruct (init_node _ _) as [r|e fs|fs]; cbn [start_disk] in Hf; [|cbn; by rewrite files_with_files..].
  set (d1 := with_files (disk_of (ir_world r)) d). assert (files d1 = disk_of (ir_world r)) as Hd1 by apply files_with_files.
  set (step := if bool_decide (cfg_node_mode config = GossipClient) then mret None else connect_local pf id r : Cmd T N (option nat)).
  assert (files (step d1).2 = files d1) as Hstep by (subst step; case_bool_decide; [done|apply connect_local_files]).
  destruct (step d1) as [[[client|e]|] d2]; cbn in Hstep |- *; [|by rewrite Hstep, Hd1..].
  destruct (pf_api pf); cbn; [|by rewrite Hstep, Hd1].
  change (disk_files (files (manage_state (mkNodeState id client) (ir_world r) d2)) !! f = disk_files (files d) !! f).
  rewrite files_manage by congruence. by rewrite Hstep, Hd1.
Qed.

Lemma connect_local_frame pf id r d :
  dt_state (connect_local pf id r d).2 = dt_state d ∧ dt_emitted (connect_local pf id r d).2 = dt_emitted d ∧
  dt_auto_unlocking (connect_local pf id r d).2 = dt_auto_unlocking d ∧
  (is_Some (ir_quic_port r) → (connect_local pf id r d).1 ≠ None).
Proof.
  unfold connect_local. destruct (ir_quic_port r) as [port|]; [|by split_and!; try done; intros [? [=]]].
  by destruct (connect _ _ _ _ _) as [[[client ?]|e] net].
Qed.
Lemma with_files_frame fs d :
  is_Some (dt_state (with_files fs d)) ↔ is_Some (dt_state d).
Proof. unfold with_files. by destruct (dt_state d) as [[ns w]|]. Qed.
Lemma with_files_emitted fs d :
  dt_emitted (with_files fs d) = dt_emitted d ∧ dt_auto_unlocking (with_files fs d) = dt_auto_unlocking d.
Proof. unfold with_files. by destruct (dt_state d) as [[ns w]|]. Qed.

(** How a start ends, for the user interface. A panic comes from the salt file, and changes nothing. *)
Lemma started_outcome pf config id passphrase d :
  let '(o, d') := started pf config id passphrase d in
  dt_auto_unlocking d' = dt_auto_unlocking d ∧
  match o with
  | None => d' = d
  | Some (Err _) => dt_emitted d' = dt_emitted d ∧ (is_Some (dt_state d') ↔ is_Some (dt_state d))
  | Some (Ok _) => dt_emitted d' = dt_emitted d ++ [BackendStatus Ready] ∧ is_Some (dt_state d')
  end.
Proof.
  unfold started, mbind, cmd_bind, run_init. destruct (init_node _ _) as [r|e fs|fs] eqn:Hi.
  2:{ destruct (with_files_emitted fs d) as [-> ->]. split; [done|]. split; [done|]. apply with_files_frame. }
  2:{ assert (fs = files d) as -> by
        (unfold init_node in Hi; destruct (table_key _ _) as [[key d1]|]; [|injection Hi as <-; by destruct (files d)];
         repeat (case_match; try done)).
      by rewrite with_files_self. }
  apply init_node_running in Hi as (key & d1 & fs' & fp & st & dht & config' & server & Hk & _ & _ & -> & Hm & _).
  set (r := start_tasks _ _ _ _ _ _ _ _ _). set (d2 := with_files (disk_of (ir_world r)) d).
  destruct (with_files_emitted (disk_of (ir_world r)) d) as [He Ha]. fold d2 in He, Ha.
  set (step := if bool_decide (cfg_node_mode config = GossipClient) then mret None else connect_local pf id r : Cmd T N (option nat)).
  assert (dt_state (step d2).2 = dt_state d2 ∧ dt_emitted (step d2).2 = dt_emitted d2 ∧
    dt_auto_unlocking (step d2).2 = dt_auto_unlocking d2 ∧ (step d2).1 ≠ None) as (Hs1 & Hs2 & Hs3 & Hs4).
  { subst step. case_bool_decide as Hg; [done|]. destruct (connect_local_frame pf id r d2) as (? & ? & ? & Hp).
    split_and!; try done. apply Hp. cbn. destruct server as [[i port]|]; [by eexists|]. exfalso. by apply Hg, Hm. }
  destruct (step d2) as [[[client|e]|] d3]; cbn in Hs1, Hs2, Hs3, Hs4 |- *; [| |done].
  - destruct (pf_api pf); cbn; [|rewrite Hs3, Hs2, Hs1; split; [done|]; split; [done|]; apply with_files_frame].
    unfold manage_state. destruct (dt_state d3) as [[? ?]|] eqn:Hd3; cbn; rewrite ?Hs2, ?Hs3, ?He, ?Ha, ?Hd3; by split_and!; try done; eexists.
  - rewrite Hs3, Hs2, Hs1. split; [done|]. split; [done|]. apply with_files_frame.
Qed.

Lemma bad_salt_panics pf config id passphrase d salt :
  passphrase ≠ ""%string → disk_files (files d) !! "table.salt" = Some salt → length salt ≠ 32%nat →
  started pf config id passphrase d = (None, d).
Proof.
  intros Hp Hs Hl. pose proof (started_outcome pf config id passphrase d) as Ho.
  destruct (started pf config id passphrase d) as [o d'] eqn:Hst.
  enough (o = None) as -> by by destruct Ho as [_ ->].
  unfold started, mbind, cmd_bind, run_init, init_node, table_key, backend_init in Hst. cbn [ic_passphrase] in Hst.
  rewrite bool_decide_eq_false_2 in Hst by done. rewrite bool_decide_eq_false_2 in Hst by done.
  unfold load_or_create_salt in Hst. cbn [disk_files with_machine_disk mc_disk] in Hst. rewrite Hs in Hst.
  rewrite (proj2 (Nat.eqb_neq _ _) Hl) in Hst. by injection Hst as <- _.
Qed.

(** C34: What the application says when it opens: that it is a first run exactly when there is
    no identity; that it needs the passphrase when none is kept or the kept one does not open
    the identity, with no other change. With a passphrase that opens it, the backend starts
    and says so, or the passphrase is asked for again; and the status that the user interface
    can ask for agrees. But when the start panics, as on a salt file of the wrong length, the
    application says nothing, and its status is that it is unlocking for ever. *)
Theorem check_status_correct pf d config :
  dt_state d = None → dt_auto_unlocking d = false → load_config pf d = Some config →
  let '(out, d') := check_backend_status pf d in
  let said s := out = Some (Ok tt) ∧ d' = emit_ui (BackendStatus s) d ∧ (get_backend_status pf d').1 = s in
  match disk_files (files d) !! cfg_identity_path config, if cfg_save_passphrase config then keychain_get d else None with
  | None, _ => said FirstRun
  | Some _, None => said NeedsUnlock
  | Some _, Some p =>
      match keystore_load (cfg_identity_path config) p (files d) with
      | Err _ => said NeedsUnlock
      | Ok id =>
          match out with
          | Some _ => dt_auto_unlocking d' = false ∧
              (if dt_state d' then dt_emitted d' = dt_emitted d ++ [BackendStatus Ready]
               else dt_emitted d' = dt_emitted d ++ [BackendStatus NeedsUnlock])
          | None => d' = with_auto_unlocking true d ∧ (get_backend_status pf d').1 = AutoUnlocking
          end ∧
          (∀ salt, p ≠ ""%string → disk_files (files d) !! "table.salt" = Some salt → length salt ≠ 32%nat → out = None)
      end
  end.
Proof.
  intros Hst Hau Hc. destruct (check_backend_status pf d) as [out d'] eqn:Hcheck. cbv zeta. revert Hcheck.
  assert (∀ s b, get_backend_status pf (emit_ui (BackendStatus s) (with_auto_unlocking b d)) =
    (if negb (identity_exists config d) then FirstRun else if b then AutoUnlocking else NeedsUnlock, cfg_save_passphrase config)) as Hget.
  { intros s b. unfold get_backend_status. change (load_config_or_default pf _) with (load_config_or_default pf d).
    unfold load_config_or_default. rewrite Hc. cbn. by rewrite Hst. }
  assert (with_auto_unlocking false d = d) as Hself by (destruct d; cbn in *; by subst).
  assert (load_config_or_default pf d = config) as Hcfg by (unfold load_config_or_default; by rewrite Hc).
  unfold check_backend_status. rewrite Hcfg.
  assert (identity_exists config d = bool_decide (is_Some (disk_files (files d) !! cfg_identity_path config))) as Hex by done.
  destruct (disk_files (files d) !! cfg_identity_path config) as [raw|] eqn:Hraw; rewrite Hex; cbn [negb].
  2:{ rewrite bool_decide_eq_false_2 by (by intros [? [=]]). intros [= <- <-]. split_and!; [done|done|].
      specialize (Hget FirstRun false). rewrite Hself in Hget. rewrite Hget, Hex. by rewrite bool_decide_eq_false_2 by (by intros [? [=]]). }
  rewrite bool_decide_eq_true_2 in Hex |- * by done. cbn [negb].
  assert (∀ d1, d1 = emit_ui (BackendStatus NeedsUnlock) d → (Some (Ok tt), d1) = (out, d') →
    out = Some (Ok tt) ∧ d' = emit_ui (BackendStatus NeedsUnlock) d ∧ (get_backend_status pf d').1 = NeedsUnlock) as Hneed.
  { intros d1 -> [= <- <-]. split_and!; [done|done|]. specialize (Hget NeedsUnlock false). rewrite Hself in Hget. by rewrite Hget, Hex. }
  destruct (cfg_save_passphrase config); [|by apply Hneed].
  change (keychain_get (with_auto_unlocking true d)) with (keychain_get d).
  destruct (keychain_get d) as [p|]; [|by apply Hneed; rewrite <- Hself].
  rewrite (start_opened pf p (with_auto_unlocking true d) config raw Hc Hraw).
  change (files (with_auto_unlocking true d)) with (files d).
  destruct (keystore_load _ p (files d)) as [id|e]; [|by apply Hneed; rewrite <- Hself].
  pose proof (started_outcome pf config id p (with_auto_unlocking true d)) as Ho.
  pose proof (bad_salt_panics pf config id p (with_auto_unlocking true d)) as Hbad.
  destruct (started pf config id p (with_auto_unlocking true d)) as [[[u|e]|] d1]; destruct Ho as [Ha Ho]; intros [= <- <-];
    (split; [|intros salt Hp Hs Hl; by specialize (Hbad salt Hp Hs Hl)]).
  - destruct Ho as [He [x Hx]]. split; [done|]. cbn. by rewrite Hx.
  - destruct Ho as [He Hi]. split; [done|]. cbn. destruct (dt_state d1); [|by rewrite He].
    exfalso. cbn in Hi. rewrite Hst in Hi. by destruct Hi as [[? [=]] _].
  - subst d1. split; [done|]. unfold get_backend_status. change (load_config_or_default pf _) with (load_config_or_default pf d).
    rewrite Hcfg. cbn. change (identity_exists config _) with (identity_exists config d). by rewrite Hex, Hst.
Qed.

(** ** Moving an identity *)

(** A start writes no other file than the salt and the configuration over one that is there. *)
Lemma start_files pf passphrase d f :
  is_Some (disk_files (files d) !! f) → f ≠ "table.salt" → f ≠ get_config_path pf →
  disk_files (files (start_backend_with_passphrase pf passphrase d).2) !! f = disk_files (files d) !! f.
Proof.
  intros Hf Hs Hc. unfold start_backend_with_passphrase, mbind, cmd_bind, look, try, modify.
  destruct (load_config pf d) as [config|]; [|done]. unfold backend_identity.
  destruct (disk_files (files d) !! cfg_identity_path config) as [raw|] eqn:Hr.
  - destruct (keystore_load _ _ _) as [id|e]; [|done]. cbn [mbind result_bind]. rewrite with_files_self.
    exact (started_files pf config id passphrase d f Hs Hc).
  - destruct (keystore_save _ _ _ _ _ _) as [fs|e] eqn:Hk; [|done]. cbn [mbind result_bind].
    etransitivity; [exact (started_files pf config _ passphrase (with_files fs d) f Hs Hc)|]. rewrite files_with_files.
    unfold keystore_save in Hk. destruct (seal_key _ _ _ _ _) as [b|]; [|done]. cbn in Hk.
    destruct (disk_write _ b (files d)) as [fs'|] eqn:Hw; [|done]. injection Hk as <-.
    apply (disk_write_other _ _ _ _ _ Hw). intros ->. rewrite Hr in Hf. by destruct Hf.
Qed.
Lemma save_config_files pf c d f : f ≠ get_config_path pf → disk_files (files (save_config pf c d)) !! f = disk_files (files d) !! f.
Proof.
  intros Hf. unfold save_config. destruct (to_toml c) as [s|]; [|done]. destruct (disk_write _ s _) as [fs|] eqn:Hw; [|done].
  rewrite files_with_files. by apply (disk_write_other _ _ _ _ _ Hw).
Qed.
Lemma keychain_files p b d : files (handle_save_passphrase p b d) = files d.
Proof. unfold handle_save_passphrase, keychain_save, keychain_delete. by destruct b, (kc_ok _). Qed.
Lemma start_with_identity_files pf p b c d f :
  is_Some (disk_files (files d) !! f) → f ≠ "table.salt" → f ≠ get_config_path pf →
  disk_files (files (start_with_identity pf p b c d).2) !! f = disk_files (files d) !! f.
Proof.
  intros Hf Hs Hc. unfold start_with_identity, mbind, cmd_bind, modify. set (d1 := save_config pf _ d).
  assert (disk_files (files d1) !! f = disk_files (files d) !! f) as Hd1 by by apply save_config_files.
  pose proof (start_files pf p d1 f) as Hst. rewrite Hd1 in Hst. specialize (Hst Hf Hs Hc).
  destruct (start_backend_with_passphrase pf p d1) as [[[u|e]|] d2]; cbn in Hst |- *; [|done..]. by rewrite keychain_files.
Qed.
(** An identity that is saved is the one that its passphrase opens after the start, whatever
    file was there and whatever becomes of the start. *)
Lemma saved_identity_opens pf failed id p b c c' d :
  (∀ k n m, is_Some (aead_encrypt k n m)) → length (fr_salt (pf_fresh pf)) = 32%nat → length (fr_nonce (pf_fresh pf)) = 24%nat →
  length (signing_key id) = 32%nat → verifying_key id = ed_public (signing_key id) → disk_ok (files d) = true →
  cfg_identity_path c ≠ "table.salt" → cfg_identity_path c ≠ get_config_path pf →
  let d' := ((_ ← save_identity pf failed id p c; start_with_identity pf p b c') d).2 in
  keystore_load (cfg_identity_path c) p (files d') = Ok id.
Proof.
  intros Haead Hs Hn Hk Hv Hok Hps Hpc d'. subst d'. unfold mbind, cmd_bind, save_identity, keystore_save.
  destruct (seal_key "Encryption failed" id p (fr_salt (pf_fresh pf)) (fr_nonce (pf_fresh pf))) as [blob|] eqn:Hb.
  2:{ unfold seal_key in Hb. by destruct (Haead (derive_key p (fr_salt (pf_fresh pf))) (fr_nonce (pf_fresh pf)) (signing_key id)) as [x Hx];
      rewrite Hx in Hb. }
  cbn [mbind result_bind]. unfold disk_write. rewrite Hok. set (fs := mkDisk _ true).
  assert (disk_files (files (with_files fs d)) !! cfg_identity_path c = Some blob) as Hfile
    by (rewrite files_with_files; apply lookup_insert_eq).
  unfold keystore_load. rewrite start_with_identity_files, Hfile by (done || by eexists).
  by apply (sealed_key_opens "Encryption failed" id p (fr_salt (pf_fresh pf)) (fr_nonce (pf_fresh pf))).
Qed.

(** C33: An identity moves from one machine to another: a bundle that [export_identity] gives,
    read back as base64 by [import_identity] under the same passphrase, becomes the identity
    that the local passphrase opens on the second machine, with the key and so the peer id of
    the first. That holds whatever becomes of the start that follows, and whatever identity
    the second machine had, which is overwritten. The first machine is left as it was, and
    either passphrase has eight bytes at least. *)
Theorem identity_travels `{!Base64Laws} pfA (dA : Desktop T N) ns w pass salt nonce saved bundle dA' pfB (dB : Desktop T N) config local name save :
  (∀ k n m, is_Some (aead_encrypt k n m)) →
  dt_state dA = Some (ns, w) → nst_identity ns = from_signing_key_bytes (signing_key (nst_identity ns)) →
  length (signing_key (nst_identity ns)) = 32%nat → length salt = 32%nat → length nonce = 24%nat →
  utf8 (bytes_of_string (default ""%string (cfg_display_name (load_config_or_default pfA dA)))) →
  export_identity pfA pass salt nonce saved dA = (Some (Ok bundle), dA') →
  load_config pfB dB = Some config → (8 ≤ String.length local)%nat → disk_ok (files dB) = true →
  length (fr_salt (pf_fresh pfB)) = 32%nat → length (fr_nonce (pf_fresh pfB)) = 24%nat →
  cfg_identity_path config ≠ "table.salt" → cfg_identity_path config ≠ get_config_path pfB →
  let dB' := (import_identity pfB (std_encode bundle) pass local name save dB).2 in
  dA' = dA ∧ (8 ≤ String.length pass)%nat ∧
  ∃ id, keystore_load (cfg_identity_path config) local (files dB') = Ok id ∧ id = nst_identity ns ∧
    to_peer_id id = to_peer_id (nst_identity ns).
Proof.
  intros Haead HA Hid Hk Hs Hn Hu Hex Hc Hlocal Hok Hs' Hn' Hps Hpc dB'.
  assert (verifying_key (nst_identity ns) = ed_public (signing_key (nst_identity ns))) as Hv by by rewrite Hid at 1.
  unfold export_identity, mbind, cmd_bind, try, look in Hex. rewrite HA in Hex. cbn [fst] in Hex.
  destruct (Nat.ltb_spec (String.length pass) 8) as [|Hp]; [done|].
  destruct (export_create _ _ _ _ _) as [b|e] eqn:Hb; [|done]. destruct (saved b) as [[]|e]; [|done]. injection Hex as -> <-.
  split; [done|]. split; [done|]. exists (nst_identity ns). split; [|done].
  subst dB'. unfold import_identity. unfold mbind at 1, cmd_bind at 1, try at 1.
  destruct (Nat.ltb_spec (String.length local) 8) as [|_]; [lia|]. unfold mbind at 1, cmd_bind at 1, try at 1.
  rewrite std_trim, std_roundtrip. unfold mbind at 1, cmd_bind at 1, try at 1.
  pose proof (export_loads _ _ _ _ _ _ [] Hs Hn Hk Hv Hu Hb) as Hload. rewrite app_nil_r in Hload. cbv zeta in Hload. rewrite Hload.
  set (shown := if decide _ then None else _). unfold mbind at 1, cmd_bind at 1, look at 1. rewrite Hc.
  unfold mbind at 1, cmd_bind at 1, try at 1. by apply saved_identity_opens.
Qed.

(** A new identity takes the place of one that is there, under a passphrase of any length. *)
Theorem create_replaces pf passphrase name save d config :
  (∀ k n m, is_Some (aead_encrypt k n m)) → length (fr_key (pf_fresh pf)) = 32%nat →
  length (fr_salt (pf_fresh pf)) = 32%nat → length (fr_nonce (pf_fresh pf)) = 24%nat →
  load_config pf d = Some config → disk_ok (files d) = true →
  cfg_identity_path config ≠ "table.salt" → cfg_identity_path config ≠ get_config_path pf →
  keystore_load (cfg_identity_path config) passphrase (files (create_identity pf passphrase name save d).2) =
    Ok (from_signing_key_bytes (fr_key (pf_fresh pf))).
Proof.
  intros Haead Hk Hs Hn Hc Hok Hps Hpc. unfold create_identity. unfold mbind at 1, cmd_bind at 1, look at 1.
  unfold mbind at 1, cmd_bind at 1, try at 1. rewrite Hc. by apply saved_identity_opens.
Qed.

(** ** The relay *)

Section dm.
Context (now : DateTime) (entry : LogEntry) (env : DmEnvelope) (plain : bytes) (body : string) (reply pid : option string).
Context (Henv : from_bytes (le_ciphertext entry) = Some env) (Hread : read_dm plain = Some (body, reply, pid)).
Let author := le_author_id entry.
Definition dm_of : DmMessageInfo :=
  mkDmInfo (default (le_message_id entry) pid) author author
    (default now (from_timestamp_millis (le_timestamp_ms entry))) body reply None.
Definition conversation w : list DmMessageInfo := default [] (app_dms (w_app w) !! author).
Definition with_conversation (l : list DmMessageInfo) w : World T := upd (λ a, set_dms (<[author := l]> (app_dms a)) a) w.

Lemma conversation_with l w : app_dms (w_app (with_conversation l w)) !! author = Some l.
Proof using Type. apply lookup_insert_eq. Qed.
Lemma relay_dm w : open env (own_x25519_sk w) = Ok plain →
  (relay_push now (NewDm entry (x_public (own_x25519_sk w))) w).2 =
  broadcast (PushDmNew dm_of) (with_conversation (conversation w ++ [dm_of]) w).
Proof using Henv Hread. intros Ho. cbn [relay_push]. unfold relay_new_dm. by rewrite Henv, Ho, Hread. Qed.
Lemma event_dm w : open env (own_x25519_sk w) = Ok plain →
  handle_dm_received now entry (x_public (own_x25519_sk w)) w =
  if any (λ m, bool_decide (di_id m = di_id dm_of)) (conversation w) then with_conversation (conversation w) w
  else broadcast (PushDmNew dm_of) (save_dms (with_conversation (conversation w ++ [dm_of]) w)).
Proof using Henv Hread.
  intros Ho. unfold handle_dm_received. rewrite bool_decide_eq_true_2 by done. cbn [negb]. by rewrite Henv, Ho, Hread.
Qed.
End dm.

(** A direct message that somebody sends over the embedded node is handled twice: by the
    event processor and by the relay, which look at it alike but do not know of each other.
    When the event processor is first, the conversation has the message twice and the user
    interface hears of it twice. When the relay is first, the conversation has it once, but
    then it is not written to the file of the conversations, so that a restart loses it. *)
Theorem relay_and_events now entry env plain body reply pid w :
  let x := x_public (own_x25519_sk w) in
  let author := le_author_id entry in
  let conv := default [] (app_dms (w_app w) !! author) in
  let msg := dm_of now entry body reply pid in
  from_bytes (le_ciphertext entry) = Some env → open env (own_x25519_sk w) = Ok plain → read_dm plain = Some (body, reply, pid) →
  (∀ m, m ∈ conv → di_id m ≠ di_id msg) →
  let w1 := (relay_push now (NewDm entry x) (handle_dm_received now entry x w)).2 in
  let w2 := handle_dm_received now entry x (relay_push now (NewDm entry x) w).2 in
  app_dms (w_app w1) !! author = Some (conv ++ [msg; msg]) ∧ w_out w1 = w_out w ++ [Event (PushDmNew msg); Event (PushDmNew msg)] ∧
  app_dms (w_app w2) !! author = Some (conv ++ [msg]) ∧ w_out w2 = w_out w ++ [Event (PushDmNew msg)] ∧
  disk_of w2 = disk_of w.
Proof.
  intros x author conv msg Henv Hopen Hread Hnew w1 w2.
  assert (any (λ m, bool_decide (di_id m = di_id msg)) conv = false) as Hany.
  { apply any_false. intros m Hm. apply bool_decide_eq_false_2. by apply Hnew. }
  pose proof (event_dm now entry env plain body reply pid Henv Hread w Hopen) as He.
  change (conversation entry w) with conv in He. fold msg in He. rewrite Hany in He.
  pose proof (relay_dm now entry env plain body reply pid Henv Hread w Hopen) as Hr.
  change (conversation entry w) with conv in Hr. fold msg in Hr. fold x in He, Hr. subst w1 w2. rewrite He, Hr.
  set (w1 := broadcast _ (save_dms _)). set (w2 := broadcast _ (with_conversation _ _ w)).
  assert (w_app w1 = w_app (with_conversation entry (conv ++ [msg]) w)) as Ha1 by apply save_table_app.
  assert (w_out w1 = w_out w ++ [Event (PushDmNew msg)]) as Ho1 by (subst w1; unfold save_dms; cbn; by rewrite save_table_out).
  assert (own_x25519_sk w1 = own_x25519_sk w) as Hsk by (unfold own_x25519_sk; by rewrite Ha1).
  assert (conversation entry w1 = conv ++ [msg]) as Hc1 by (unfold conversation; by rewrite Ha1, conversation_with).
  assert (conversation entry w2 = conv ++ [msg]) as Hc2 by (unfold conversation; subst w2; cbn; by rewrite lookup_insert_eq).
  pose proof (relay_dm now entry env plain body reply pid Henv Hread w1) as Hr1. rewrite Hsk in Hr1. specialize (Hr1 Hopen).
  pose proof (event_dm now entry env plain body reply pid Henv Hread w2 Hopen) as He2.
  fold msg in Hr1, He2. rewrite Hc1 in Hr1. rewrite Hc2, (proj2 (any_true _ _)) in He2.
  2:{ exists msg. split; [apply elem_of_app; right; by left|by apply bool_decide_eq_true_2]. }
  change (x_public (own_x25519_sk w2)) with x in He2. fold x in Hr1. rewrite Hr1, He2.
  split_and!; [| | |done|done].
  - transitivity (Some ((conv ++ [msg]) ++ [msg])); [apply (conversation_with entry)|by rewrite <- app_assoc].
  - cbn [broadcast emit w_out with_conversation upd]. rewrite Ho1. by rewrite <- app_assoc.
  - apply (conversation_with entry).
Qed.
End desktop_props.

(** ** The commands, on the embedded node *)

Section commands.
Context {T : Type} `{CryptoLaws} `{Argon2} `{Base58} `{TableLaws T} `{NodeCodecsLaws} `{HashOrderLaws} `{UlidText} `{UlidParse} `{AddrText}.
Context `{ErrorText} `{Postcard PeerInfoRecord} `{Postcard NodeAddr} `{Postcard NetworkEvent} `{AppCodecs} `{Entropy} `{Certificates} `{Toml} `{IpText}.
Context `{PostcardLaws ClientRequest} `{PostcardLaws NodeResponse} `{NodeSite} `{NetText} `{Base64} `{DesktopText}.
Implicit Types n : NetWorld (NodeNet T).
Implicit Types w : World T.

Definition refusal : NodeResponse := err 403 "not a member of this community on this session".

(** A request that is refused changes neither the node nor the session. *)
Lemma ask_refused {A} what (accept : NodeResponse → option A) r c sess req n :
  live r c sess n → fits MAX_REQUEST req → fits U32_MAX refusal → accept refusal = None →
  dispatch (site_env (nn_served (nw_net n))) site_client req sess (services n) = (refusal, sess, services n, []) →
  ∃ e n', ask what accept r req n = (Err e, n') ∧ live r c sess n' ∧ services n' = services n.
Proof using Type*.
  intros Hl Hreq Hresp Ha Hd.
  assert (dispatched c sess req (nw_net n) = (refusal, mkNodeNet (Handler.mkNode (services n) (<[c := sess]> (sessions (nw_net n))))
            (nn_requests (nw_net n) ++ [req]) (nn_effects (nw_net n) ++ []))) as Hdd.
  { unfold dispatched. fold (services n). by rewrite Hd. }
  eexists _, _. split.
  - unfold ask, mbind, net_bind. rewrite (request_dispatched _ _ _ _ _ _ _ Hl Hreq Hresp Hdd), Ha. reflexivity.
  - destruct Hl as (m & Hm & Hs & _). split; [|done]. exists m. split; [done|]. split; [done|]. apply lookup_insert_eq.
Qed.

Lemma lift_cases {A B} (r : result string A) (k : A → Net (NodeNet T) B) n (P : result string B * NetWorld (NodeNet T) → Prop) :
  (∀ e, P (Err e, n)) → (∀ a, r = Ok a → P (k a n)) → P ((lift r ≫= k) n).
Proof using Type. intros He Ho. unfold mbind, net_bind, lift. destruct r as [a|e]; [by apply Ho|apply He]. Qed.

(** The application's own client cannot use the channels of its own node. It connects with
    a session that has joined no community, and none of the commands joins one; so
    [node_send_message] and [node_get_messages] fail for every community and channel, and
    leave the node's services, the connection and the session as they were. *)
Theorem node_commands_refused addr fp sk nonce n :
  site_pinned fp = true → fits MAX_REQUEST (hello sk nonce) → fits U32_MAX (Authenticated (sv_node_pk (services n))) →
  fits U32_MAX refusal →
  ∃ r c sess n0, connect addr fp sk nonce n = (Ok (r, sv_node_pk (services n)), n0) ∧ live r c sess n0 ∧
    client_pk sess = Some (ed_public sk) ∧ joined_communities sess = [] ∧
    ∀ ns w community channel n1, local_client ns = Some r → live r c sess n1 →
      (∀ rnd text, (∀ cpk u key sealed, command_community community w = Ok cpk → command_channel channel = Ok u →
                      command_key channel w = Ok key → encrypt_message key rnd (bytes_of_string text) = Ok sealed →
                      fits MAX_REQUEST (SendMessage cpk u sealed.1 sealed.2)) →
         ∃ e n2, node_send_message ns w rnd community channel text n1 = (Err e, n2) ∧ live r c sess n2 ∧ services n2 = services n1) ∧
      (∀ since, (∀ cpk u, command_community community w = Ok cpk → command_channel channel = Ok u →
                   fits MAX_REQUEST (GetMessages cpk u since)) →
         ∃ e n2, node_get_messages ns w community channel since n1 = (Err e, n2) ∧ live r c sess n2 ∧ services n2 = services n1).
Proof using Type*.
  intros Hp Hreq Hresp Href. destruct (connect_authenticates addr fp sk nonce n Hp Hreq Hresp) as (n0 & Hc & Hl & _).
  eexists _, _, _, n0. split; [exact Hc|]. split; [exact Hl|]. split; [done|]. split; [done|].
  intros ns w community channel n1 Hns Hl1. set (sess := mkSession _ _) in *.
  set (P A := λ out : result string A * NetWorld (NodeNet T),
    ∃ e n2, out = (Err e, n2) ∧ live (length (nw_managers n)) (fresh (dom (sessions (nw_net n)))) sess n2 ∧ services n2 = services n1).
  assert (∀ A e, P A (Err e, n1)) as Herr by (intros A e; by exists e, n1).
  split.
  - intros rnd text Hfit. change (P Z (node_send_message ns w rnd community channel text n1)). unfold node_send_message.
    apply lift_cases; [by intros|]. intros cpk Hcpk. apply lift_cases; [by intros|]. intros u Hu.
    apply lift_cases; [by intros|]. intros key Hkey. apply lift_cases; [by intros|]. intros sealed Henc.
    apply lift_cases; [by intros|]. intros client Hcl. unfold command_client in Hcl. rewrite Hns in Hcl. injection Hcl as <-.
    assert (encrypt_message key rnd (bytes_of_string text) = Ok sealed) as Hse
      by (unfold with_text in Henc; destruct (encrypt_message _ _ _); [by injection Henc as ->|done]).
    unfold send_message. by eapply ask_refused; [exact Hl1|by apply (Hfit _ _ key)|done|done|].
  - intros since Hfit. change (P (list DecryptedMessage) (node_get_messages ns w community channel since n1)). unfold node_get_messages.
    apply lift_cases; [by intros|]. intros cpk Hcpk. apply lift_cases; [by intros|]. intros u Hu.
    apply lift_cases; [by intros|]. intros client Hcl. unfold command_client in Hcl. rewrite Hns in Hcl. injection Hcl as <-.
    unfold mbind at 1, net_bind at 1, NodeClient.get_messages.
    edestruct (ask_refused (A := list LogEntry)) as (e & n2 & -> & Hl2 & Hs2); [exact Hl1|by apply Hfit|done| |reflexivity|]; [done|].
    by exists e, n2.
Qed.
End commands.
