(* ===== verification/ClientExample.v ===== *)
(** * A concrete client

    Instances of the interfaces of the client's files and a small state, on which the
    properties of the client are applied to concrete inputs. *)

From stdpp Require Import countable.
From S2P Require Import Prelude Bytes Config Redb Routing Crypto Codec Model ClientState Store DhtNode.
From S2P Require Import Protocol Handler AppState ChannelEvents CommunityEvents ManifestEvents ClientEvents.
From S2P Require Import AppStart Durability DurableEvents.

Module ClientExample.
Export HandlerExample.

#[export] Instance DmPayload_eq_dec : EqDecision DmPayload.
Proof. solve_decision. Defined.
#[export] Instance DmPayload_countable : Countable DmPayload.
Proof.
  refine (inj_countable' (λ r, (dpl_body r, dpl_reply_to r, dpl_id r)) (λ p, mkDmPayload p.1.1 p.1.2 p.2) _).
  by intros [].
Defined.
#[export] Instance DmMessageInfo_eq_dec : EqDecision DmMessageInfo.
Proof. solve_decision. Defined.
#[export] Instance DmMessageInfo_countable : Countable DmMessageInfo.
Proof.
  refine (inj_countable'
    (λ r, (di_id r, di_peer_id r, di_author_id r, di_timestamp r, di_body r, di_reply_to r, di_edited_at r))
    (λ p, mkDmInfo p.1.1.1.1.1.1 p.1.1.1.1.1.2 p.1.1.1.1.2 p.1.1.1.2 p.1.1.2 p.1.2 p.2) _).
  by intros [].
Defined.
#[export] Instance DmPeerInfo_eq_dec : EqDecision DmPeerInfo.
Proof. solve_decision. Defined.
#[export] Instance DmPeerInfo_countable : Countable DmPeerInfo.
Proof.
  refine (inj_countable' (λ r, (dp_display_name r, dp_x25519_public_key r)) (λ p, mkDmPeer p.1 p.2) _).
  by intros [].
Defined.

(** A text format that names a value by its number. *)
Definition countable_json (A : Type) `{Countable A} : Json A := {|
  to_json a := Some [Z.pos (encode a)];
  from_json b := match b with [Z.pos p] => decode p | _ => None end |}.
Lemma countable_json_laws (A : Type) `{Countable A} : @JsonLaws A (countable_json A).
Proof.
  split; cbn; [by eexists|]. intros a b [= <-]. apply decode_encode.
Qed.

Definition U (n : Z) : string := ulid_to_string n.

(** Channel 5 with its key wrapped for the client, as the administrator publishes it. *)
Definition client_sk : bytes := pk 9.
Definition new_key : bytes := pk 43.
Definition wrapped_key : bytes :=
  match encrypt_for_member new_key (pk 4) (replicate 24 1) (x_public (sha256 client_sk)) with
  | Ok b => b | Err _ => []
  end.
Definition channel1' : ChannelManifest := mkChannel 5 1 "general" Text {[ pk 9 := wrapped_key ]} 0 2.
Definition manifest_b : CommunityManifest := mkManifest 1 "c" "d" (pk 1) 0 [] [5] [] 2 false.
Definition manifest_x : CommunityManifest := mkManifest 1 "c" "d" (pk 6) 0 [] [5] [] 2 false.

(** A channel with more than one wrapped key is encoded again in another order, here marked by a
    first byte. *)
Definition keyed_postcard : Postcard ChannelManifest := {|
  to_allocvec m := Some (pos_bits (encode m));
  from_bytes b := match b with x :: b' => p ← bits_pos (if x =? 2 then b' else b); decode p | [] => None end |}.
Definition other_order (n : nat) (m : ChannelManifest) : option bytes :=
  Some (if (size (ch_encrypted_channel_key m) <=? 1)%nat then pos_bits (encode m) else 2 :: pos_bits (encode m)).
Lemma keyed_reads (m : ChannelManifest) : @from_bytes _ keyed_postcard (pos_bits (encode m)) = Some m.
Proof.
  cbn. assert (∃ x l, pos_bits (encode m) = x :: l ∧ (x =? 2) = false) as (x & l & Hb & Hx).
  { destruct (encode m); by eexists _, _. }
  rewrite Hb, Hx, <- Hb, bits_pos_bits. apply decode_encode.
Qed.
Lemma other_order_same n (m : ChannelManifest) b : other_order n m = Some b → @from_bytes _ keyed_postcard b = Some m.
Proof.
  unfold other_order. destruct (_ <=? _)%nat; intros [= <-]; [apply keyed_reads|]. cbn.
  rewrite bits_pos_bits. apply decode_encode.
Qed.

#[export] Instance client_codecs : AppCodecs := {|
  AppState.codec_event := HandlerExample.codec_event;
  codec_content := countable_postcard MessageContent;
  codec_legacy := countable_postcard LegacyMessageContent;
  codec_manifest := abbrev_postcard CommunityManifest [manifest_b; manifest_x];
  codec_channel := keyed_postcard;
  reencode_channel := other_order;
  codec_role := countable_postcard Role;
  codec_roles := countable_postcard (list Role);
  codec_dm_payload := countable_postcard DmPayload;
  json_communities := countable_json _;
  json_channels := countable_json _;
  json_keys := countable_json _;
  json_members := countable_json _;
  json_strings := countable_json _;
  json_dms := countable_json _;
  json_dm_peers := countable_json _;
  json_bans := countable_json _;
  json_read_state := countable_json _ |}.
#[export] Instance client_codecs_laws : AppCodecsLaws.
Proof.
  split; [apply countable_postcard_laws|apply other_order_same| |apply countable_json_laws..].
  intros n m Hs. unfold reencode_channel. cbn. unfold other_order. by rewrite (proj2 (Nat.leb_le _ _) Hs).
Qed.

#[export] Instance event_laws : @PostcardLaws NetworkEvent HandlerExample.codec_event := countable_postcard_laws _.

#[export] Instance entropy : Entropy := {| rng24 _ := replicate 24 1; rng32 _ := pk 4 |}.
#[export] Instance entropy_laws : EntropyLaws.
Proof. by split. Qed.
#[export] Instance ulid_parse : UlidParse :=
  {| parse_ulid s := find_by (λ n, bool_decide (U n = s)) [1; 5; 6; 7] |}.
#[export] Instance addr_text : AddrText := {| parse_node_addr _ := None |}.

Definition member2 : MembershipRecord := mkMember (pk 2) 1 "ann" None 0 [Member] (pk 2) (pk 3) [].

(** The client is in community 1, whose channel 5 has the key 42. *)
Definition client_app : AppState (gmap bytes bytes) :=
  mkApp (hex (pk 9)) (hex (pk 9)) "" client_sk None None (mkIdentity None Online) (default_config "/data") log_new ∅
    {[ U 1 := manifest1 ]} {[ U 5 := channel1 ]} {[ U 5 := pk 42 ]} ∅ ∅ ∅
    {[ U 1 := {[ hex (pk 2) := member2 ]} ]} ∅ ∅ ∅ ∅ ∅ [] ∅ [] None ∅ 0 (Some store5) None.
Definition client : World (gmap bytes bytes) := mkWorld client_app ∅ true [] 0.

Lemma keyed_singleton {A} (P : string → A → Prop) k v :
  P k v → ∀ j x, ({[ k := v ]} : gmap string A) !! j = Some x → P j x.
Proof. by intros HP j x [<- <-]%lookup_singleton_Some. Qed.

Lemma client_inv : inv client.
Proof.
  split; cbn.
  - intros st [= <-]. apply store5_inv.
  - done.
  - apply (keyed_singleton (λ _ s, wf_key (cm_public_key (sm_manifest s)))). by apply wf_pk.
  - exact (keyed_singleton (λ k c, k = ulid_to_string (ch_id c)) (U 5) channel1 eq_refl).
  - apply (keyed_singleton (λ _ l, ∀ u m, l !! u = Some m → u = hex (mr_user_id m))).
    by apply (keyed_singleton (λ u m, u = hex (mr_user_id m))).
  - intros c. constructor.
  - intros k l Hl. by rewrite lookup_empty in Hl.
  - intros k l Hl. by rewrite lookup_empty in Hl.
  - constructor.
  - intros k l Hl. by rewrite lookup_empty in Hl.
Qed.

(** A message of member 2 in channel 5, under the given key. *)
Definition posted (id : Z) (key : bytes) : RawMessage :=
  raw_create id 5 (pk 2) 0 (default [] (aead_encrypt key (replicate 24 1) [9])) (replicate 24 1).
End ClientExample.

Section client_witnesses.
Import ClientExample.

Definition payload (e : NetworkEvent) : bytes := default [] (to_allocvec e).
Lemma from_payload e : from_bytes (payload e) = Some e.
Proof. apply postcard_roundtrip. reflexivity. Qed.

Lemma new_message_correct_witness :
  ∃ w' st', handle_channel_message false "t" (payload (NewMessage (posted 7 (pk 42)))) client = Done w' ∧
    le_message_id <$> entries_of (U 5) (app_message_log (w_app w')) = [U 7] ∧ length (w_out w') = 1%nat ∧
    app_node_store (w_app w') = Some st' ∧ (∃ es, get_messages (pk 1) 5 0 st' = Ok es ∧ le_message_id <$> last es = Some (U 7)).
Proof.
  assert (community_of_channel (U 5) client = Some (U 1)) as Hc by by vm_compute.
  assert (member_of (U 1) (hex (from_verifying_key (ed_public (pk 2)))) client = Some member2) as Hm by vm_refl.
  assert (app_channel_keys (w_app client) !! U 5 = Some (pk 42)) as Hk by vm_refl.
  destruct (proj1 (new_message_correct client client_inv) (pk 2) (pk 42) (replicate 24 1) [9]
    (default [] (aead_encrypt (pk 42) (replicate 24 1) [9])) 7 5 0 (U 1) member2 "t"%string _
    (from_payload _) ltac:(vm_refl) (or_introl Hk) Hc Hm eq_refl ltac:(apply not_elem_of_nil))
    as (w' & Hd & Hent & _ & _ & Hout & Hstore & _).
  assert (∃ es, get_messages (pk 1) 5 0 store5 = Ok es ∧ SeqLog.log_room le_seq es) as (es & Hget & Hroom).
  { destruct (get_messages (pk 1) 5 0 store5) as [es|e] eqn:Hget.
    - exists es. split; [reflexivity|]. intros e He.
      assert (Ok (le_seq <$> last es) = Ok (E := store_error) (Some 1)) as Hl.
      { change (Ok (le_seq <$> last es)) with (match Ok (E := store_error) es with Ok es => Ok (le_seq <$> last es) | Err e => Err e end).
        rewrite <- Hget. vm_refl. }
      injection Hl as Hl. rewrite He in Hl. injection Hl as ->. by vm_compute.
    - assert (match get_messages (pk 1) 5 0 store5 with Ok _ => true | Err _ => false end = true) as Hok by vm_refl.
      rewrite Hget in Hok. discriminate Hok. }
  assert (known_community_pk (U 1) client = Some (pk 1)) as Hpk by vm_refl.
  destruct (Hstore store5 (pk 1) es eq_refl Hpk Hget Hroom ltac:(intros; by eexists) ltac:(intros; by eexists)) as (st' & Hst' & Hgot).
  exists w', st'. split; [exact Hd|]. split; [rewrite (Hent : entries_of (U 5) _ = _); vm_refl|].
  split; [rewrite Hout; reflexivity|]. split; [exact Hst'|]. eexists. split; [exact Hgot|]. rewrite last_snoc. reflexivity.
Defined.

(** Two entries, one of them twice. *)
Definition history : list LogEntry :=
  [mkLogEntry 0 [] [1] "a" (hex (pk 2)) 1 false; mkLogEntry 1 [] [2] "b" (hex (pk 2)) 2 false;
   mkLogEntry 0 [] [1] "a" (hex (pk 2)) 1 false].
Lemma history_catch_up_correct_witness :
  let w' := handle_channel_history_received (U 1) (U 5) history client in
  entries_of (U 5) (app_message_log (w_app w')) = take 2 history ∧
  get_messages (pk 1) 5 2 (default store5 (app_node_store (w_app w'))) =
    Ok [mkLogEntry 2 [] [1] "a" (hex (pk 2)) 1 false; mkLogEntry 3 [] [2] "b" (hex (pk 2)) 2 false].
Proof.
  cbv zeta. assert (parse_ulid (U 5) = Some 5) as Hp by by vm_compute.
  destruct (history_catch_up_correct (U 1) (U 5) 5 history client Hp) as (Hent & _).
  split; [rewrite Hent; by vm_compute|vm_refl].
Defined.

(** Member 7 joins, with the X25519 key of the secret [pk 8]. *)
Definition joiner : MembershipRecord :=
  let m roles sig := mkMember (pk 7) 1 "joe" None 0 roles (pk 7) (pk 8) sig in
  m [Member] (ed_sign (pk 7) (membership_message (pk 7) 1 "joe" 0 [Member])).
Lemma member_joined_correct_witness :
  member_verified joiner = true ∧ member_of (U 1) (hex (pk 7)) (handle_member_joined joiner client) = Some joiner.
Proof.
  assert (member_verified joiner = true) as Hv by by vm_compute. split; [exact Hv|].
  assert (∀ k n t, is_Some (aead_encrypt k n t)) as Ha by (intros; by eexists).
  destruct (member_joined_correct joiner client Ha) as [_ Hj]. by destruct (Hj (proj1 (genuine_spec _) Hv) eq_refl) as [Hm _].
Defined.

(** Member 2 leaves; a departure that it did not sign is ignored. *)
Definition leaving (signature : bytes) : MemberLeftPayload := mkLeft (pk 2) 1 0 signature.
Lemma member_changes_authorised_witness :
  member_of (U 1) (hex (pk 2)) (handle_member_left (leaving (ed_sign (pk 2) (leave_message (pk 2) 1))) client) = None ∧
  handle_member_left (leaving (replicate 64 0)) client = client.
Proof.
  destruct (member_changes_authorised client) as (Hl & _ & Ha). split.
  - apply (proj2 (Hl (leaving (ed_sign (pk 2) (leave_message (pk 2) 1))))). apply Ha. split; [by vm_compute|].
    exists (hex (pk 2)), member2. split_and!; [vm_refl|vm_refl|vm_refl|vm_refl].
  - apply (proj1 (Hl (leaving (replicate 64 0)))). intros [_ Hs].
    assert (signed_by_member (λ m, bool_decide (mr_user_id m = ml_user_id (leaving (replicate 64 0))) || is_privileged m)
              (ulid_to_string (ml_community_id (leaving (replicate 64 0)))) (leave_message (pk 2) 1) (replicate 64 0) client
            = false) as Hn by vm_refl.
    pose proof (eq_trans (eq_sym Hn) Hs) as Hbad. discriminate Hbad.
Defined.

(** Member 7 joins as an admin and makes member 2 a moderator. *)
Lemma self_promotion_witness :
  let r := mkMember (pk 7) 1 "joe" None 0 [Admin] (pk 7) (pk 8)
             (ed_sign (pk 7) (membership_message (pk 7) 1 "joe" 0 [Admin])) in
  let w1 := handle_member_joined r client in
  member_of (U 1) (hex (pk 2))
    (handle_member_role_updated (mkRoleUpdate (pk 2) 1 Moderator 0 (ed_sign (pk 7) (role_message (pk 2) 1 Moderator))) w1) =
  Some (with_roles [Moderator] member2).
Proof.
  cbv zeta. assert (∀ k n t, is_Some (aead_encrypt k n t)) as Ha by (intros; by eexists).
  assert (is_banned (U 1) (hex (from_verifying_key (ed_public (pk 7)))) client = false) as Hb by by vm_compute.
  destruct (self_promotion (pk 7) 1 "joe" 0 (pk 8) client Hb Ha) as [_ Hp].
  apply (Hp (pk 2)). vm_refl.
Defined.

Definition signed_b : SignedManifest :=
  mkSigned manifest_b (ed_sign (pk 1) (default [] (to_allocvec manifest_b))).
Lemma manifest_update_correct_witness :
  ∃ w', handle_manifest_update None signed_b client = Done w' ∧
    app_communities (w_app w') !! U 1 = Some signed_b ∧ handle_manifest_update None signed_b w' = Done w' ∧
    U 1 ∈ app_pending_manifest_syncs (w_app w').
Proof.
  assert (manifest_verify signed_b = Some true) as Hv by vm_refl.
  assert (app_communities (w_app client) !! U 1 = Some manifest1) as Hold by vm_refl.
  destruct (proj2 (manifest_update_correct None signed_b client) manifest1 Hv Hold ltac:(reflexivity)) as (w' & Hw' & Ha & _ & Hrest).
  assert (cm_deleted (sm_manifest signed_b) = false) as Hdel by reflexivity. rewrite Hdel in Hrest.
  destruct Hrest as (Hc & _ & _ & _ & Hs & _). exists w'. split; [exact Hw'|]. split; [exact Hc|]. split; [exact Ha|exact Hs].
Defined.

(** Whoever has the secret [pk 6] takes community 1 over. *)
Lemma manifest_update_not_pinned_witness :
  ∃ w', handle_manifest_update None (mkSigned manifest_x (ed_sign (pk 6) (default [] (to_allocvec manifest_x)))) client
          = Done w' ∧ known_community_pk (U 1) client = Some (pk 1) ∧ known_community_pk (U 1) w' = Some (pk 6).
Proof.
  assert (app_communities (w_app client) !! U 1 = Some manifest1) as Hold by vm_refl.
  destruct (manifest_update_not_pinned (pk 6) manifest_x (default [] (to_allocvec manifest_x)) manifest1 client None
    Hold eq_refl ltac:(vm_refl) ltac:(vm_refl) ltac:(vm_refl)) as (w' & Hd & Hpk).
  exists w'. split_and!; [exact Hd|vm_refl|exact Hpk].
Defined.

(** A rotation of channel 5 is in progress and a message under the key [k] is buffered. *)
Definition rotating (k : bytes) : World (gmap bytes bytes) :=
  upd (set_pending_rotation_messages {[ U 5 := [("t"%string, payload (NewMessage (posted 7 k)))] ]}) client.
Lemma rotating_inv k : inv (rotating k).
Proof.
  apply (inv_set_buffers (λ _, _)); [apply client_inv|].
  apply (keyed_singleton (λ ch buf, ∀ td, td ∈ buf →
    ∃ raw, from_bytes td.2 = Some (NewMessage raw) ∧ ulid_to_string (rm_channel_id raw) = ch)).
  intros td ->%list_elem_of_singleton. exists (posted 7 k). split; [apply from_payload|done].
Qed.
Definition client_manifest : SwarmEvent := ManifestReceived "p" (U 1) signed_b [channel1'] ∅ [].
Definition cx0 : EventEnv := mkEventEnv 0 7 None 0.

Definition installed (k : bytes) : World (gmap bytes bytes) * list string :=
  install_manifest "p" signed_b [channel1'] ∅
    (manifest_pending_done (ulid_to_string (cm_id (sm_manifest signed_b))) (cm_version (sm_manifest signed_b))
       (rotating k)).
Lemma installed_rotated k : (installed k).2 = [U 5].
Proof. vm_refl. Qed.
Lemma installed_key k : app_channel_keys (w_app (installed k).1) !! U 5 = Some new_key.
Proof. vm_refl. Qed.
Lemma stuck_44 : stuck_in (installed (pk 44)).2 (installed (pk 44)).1.
Proof.
  exists (U 5), [("t"%string, payload (NewMessage (posted 7 (pk 44))))]. split_and!.
  - rewrite installed_rotated. by left.
  - vm_refl.
  - constructor. exists (posted 7 (pk 44)). split; [apply from_payload|]. split; [reflexivity|]. split.
    + exists (U 1). vm_refl.
    + exists new_key. split; [apply installed_key|vm_refl].
Qed.
Lemma not_stuck_43 : ¬ stuck_in (installed new_key).2 (installed new_key).1.
Proof.
  intros (id & buf & Hin & Hb & Hex). rewrite installed_rotated in Hin. apply list_elem_of_singleton in Hin as ->.
  assert (app_pending_rotation_messages (w_app (installed new_key).1) !! U 5 =
          Some [("t"%string, payload (NewMessage (posted 7 new_key)))]) as Hb' by vm_refl.
  rewrite Hb' in Hb. injection Hb as <-. apply Exists_cons in Hex as [Hs|Hs]; [|by apply Exists_nil in Hs].
  destruct Hs as (raw & Hraw & _ & _ & key & Hk & Hdec). pose proof (eq_trans (eq_sym (from_payload _)) Hraw) as Hr. injection Hr as <-.
  rewrite installed_key in Hk. injection Hk as <-.
  assert (decrypt_with_previous new_key (app_previous_channel_keys (w_app (installed new_key).1) !! U 5)
            (rm_nonce (posted 7 new_key)) (rm_ciphertext (posted 7 new_key)) = Some [9]) as Hd by vm_refl.
  rewrite Hd in Hdec. discriminate Hdec.
Qed.

(** The manifest brings the key 43. A buffered message under it is read; one under a key that
    the client never gets blocks the client. *)
Lemma manifest_replay_correct_witness :
  handle_manifest_received 0 "p" signed_b [channel1'] ∅ [] (rotating (pk 44)) = Blocked ∧
  ∃ w', handle_manifest_received 0 "p" signed_b [channel1'] ∅ [] (rotating new_key) = Done w' ∧
    is_Some (get_entry (U 5) (U 7) (app_message_log (w_app w'))).
Proof.
  assert (manifest_verify signed_b = Some true) as Hv by vm_refl.
  assert (cm_deleted (sm_manifest signed_b) = false) as Hd by reflexivity.
  pose proof (λ k, manifest_replay_correct 0 "p" signed_b [channel1'] ∅ [] (rotating k) (rotating_inv k) Hv Hd) as Hr.
  cbv zeta in Hr. split.
  - pose proof stuck_44 as Hs. specialize (Hr (pk 44)). revert Hr Hs. unfold installed.
    destruct (install_manifest _ _ _ _ _) as [w1 rotated]. intros (_ & Hb & _) Hs. exact (Hb Hs).
  - pose proof not_stuck_43 as Hs. pose proof (installed_rotated new_key) as Hrot.
    pose proof (installed_key new_key) as Hkey.
    assert (acceptable (posted 7 new_key) (U 1) member2 [9] (installed new_key).1) as Hacc.
    { split_and!; [vm_refl|exists new_key; split; [exact Hkey|vm_refl]|vm_refl..]. }
    specialize (Hr new_key). revert Hr Hs Hrot Hacc. clear Hkey. unfold installed.
    destruct (install_manifest _ _ _ _ _) as [w1 rotated]. intros (_ & _ & Hok) Hs Hrot Hacc.
    destruct (Hok Hs) as (w' & Hd' & _ & Hlog). exists w'. split; [exact Hd'|].
    refine (Hlog (U 5) [("t"%string, payload (NewMessage (posted 7 new_key)))]
      ("t"%string, payload (NewMessage (posted 7 new_key))) (posted 7 new_key) (U 1) member2 [9]
      _ _ _ (from_payload (NewMessage (posted 7 new_key))) Hacc).
    + rewrite (Hrot : rotated = [U 5]). by left.
    + vm_refl.
    + by left.
Defined.

(** A rotation, then a message under the new key, then the manifest. *)
Lemma client_step_done cx ev w w' : event_wf w ev → process_swarm_event cx ev w = Done w' → client_step w w'.
Proof. intros Hev Hd. by exists cx, ev. Qed.
Definition is_done (h : Handled (gmap bytes bytes)) : bool := match h with Done _ => true | _ => false end.
Definition after_manifest : World (gmap bytes bytes) :=
  match process_swarm_event cx0 client_manifest (rotating new_key) with Done w => w | _ => client end.
Lemma client_invariant_witness :
  le_message_id <$> entries_of (U 5) (app_message_log (w_app after_manifest)) = [U 7] ∧ inv after_manifest.
Proof.
  split; [vm_refl|]. apply (client_invariant (rotating new_key)); [|apply rotating_inv]. apply rtc_once.
  apply (client_step_done cx0 client_manifest); [by apply (wf_pk 1)|].
  unfold after_manifest. assert (is_done (process_swarm_event cx0 client_manifest (rotating new_key)) = true) as Hn by vm_refl.
  by destruct (process_swarm_event cx0 client_manifest (rotating new_key)).
Defined.

Lemma event_loop_progress_witness :
  (∃ w', process_swarm_event cx0 (PeerConnected "p" (U 1)) client = Done w') ∧
  process_swarm_event cx0 client_manifest (rotating (pk 44)) = Blocked.
Proof.
  assert (∀ m : CommunityManifest, is_Some (to_allocvec m)) as Ht.
  { intros m. cbn. match goal with |- is_Some (match ?x with _ => _ end) => destruct x as [[i x0]|] end; by eexists. }
  split.
  - destruct (event_loop_progress 0 7 None (PeerConnected "p" (U 1)) client client_inv Ht) as [[w' Hd]|(_ & x)];
      [|by destruct x as (? & ? & ? & ? & ? & ? & ? & _)].
    exists w'. specialize (Hd 0%nat). change (mkEventEnv 0 7 None 0) with cx0 in Hd.
    assert (is_done (process_swarm_event cx0 (PeerConnected "p" (U 1)) client) = true) as Hn by vm_refl.
    revert Hn. rewrite Hd. case_decide; [reflexivity|discriminate].
  - destruct (event_loop_progress 0 7 None client_manifest (rotating (pk 44)) (rotating_inv _) Ht) as [[w' Hd]|[Hb _]];
      [exfalso|exact (Hb 0%nat)].
    specialize (Hd (commands w')). rewrite decide_True in Hd by (right; lia). apply process_done in Hd.
    assert (∀ n, is_done (handle_swarm_event (mkEventEnv 0 7 None n) client_manifest (rotating (pk 44))) = false) as Hn
      by (intros n; vm_refl).
    specialize (Hn (commands w')). rewrite Hd in Hn. discriminate Hn.
Defined.

(** ** Restarts *)

Lemma can_encrypt (k n m : bytes) : is_Some (aead_encrypt k n m).
Proof. by eexists. Qed.

(** The client with its tables on disk. *)
Definition saved : World (gmap bytes bytes) := save_communities (save_channels (save_channel_keys (save_members client))).
Lemma saved_persisted : persisted saved.
Proof.
  apply (sv_save_communities can_encrypt), (sv_save_channels can_encrypt), (sv_save_channel_keys can_encrypt),
    (sv_save_members can_encrypt).
  split; [reflexivity|]. intros t Ht. destruct t; try reflexivity; exfalso; apply Ht; set_solver.
Qed.
Definition joining : list (EventEnv * SwarmEvent) :=
  [(cx0, SeedPeerConnected (U 1) "p"); (cx0, MessageReceived (community_topic (U 1)) None (payload (MemberJoined joiner)))].
Definition start_config : StartConfig :=
  mkStart (hex (pk 9)) (hex (pk 9)) "" client_sk None None (default_config "/data") (Some store5) None.

(** Member 7 joins; the restarted client knows it. *)
Lemma tables_survive_restart_witness :
  ∃ w', process_swarm_events joining saved = Done w' ∧
    (app_members (load_state start_config (w_disk w')) !! U 1 ≫= λ l, l !! hex (pk 7)) = Some joiner.
Proof.
  assert (match process_swarm_events joining saved with
          | Done w' => app_members (w_app w') !! U 1 ≫= λ l, l !! hex (pk 7)
          | _ => None
          end = Some joiner) as Hm by vm_refl.
  assert (match process_swarm_events joining saved with
          | Done w' => app_encryption_key (w_app w')
          | _ => Some []
          end = None) as Hk by vm_refl.
  destruct (process_swarm_events joining saved) as [w'| | |] eqn:Heq; [|discriminate Hm..].
  exists w'. split; [reflexivity|].
  assert (∀ cx ev, (cx, ev) ∈ joining → saved_event ev = true) as Hs.
  { intros cx ev Hin. unfold joining in Hin. apply elem_of_cons in Hin as [[= _ ->]|Hin]; [reflexivity|].
    apply list_elem_of_singleton in Hin as [= _ ->]. reflexivity. }
  pose proof (tables_survive_restart can_encrypt start_config joining saved w' saved_persisted Hs Heq (eq_sym Hk) TMembers)
    as Ht. cbn in Ht. unfold load_state in Ht. cbn in Ht. rewrite <- Hm. unfold load_state. cbn.
  exact (f_equal (λ m : gmap string (gmap string MembershipRecord), m !! U 1 ≫= λ l, l !! hex (pk 7)) Ht).
Defined.

(** The store of the client with a message of member 2. *)
Definition store6 : Store := get_ok store5 (snd <$> append_message rnd (pk 1) 5 [1] [9] (U 7) (hex (pk 2)) 7 store5).
Definition client6 : World (gmap bytes bytes) := restarted (upd (set_node_store (Some store6)) client).
Definition entry7 : LogEntry := mkLogEntry 2 [1] [9] (U 7) (hex (pk 2)) 7 false.
Lemma history_restored_witness :
  le_message_id <$> entries_of (U 5) (app_message_log (w_app (load_history (upd (set_node_store (Some store6)) client)))) =
    [""; ""; U 7]%string.
Proof.
  rewrite (proj1 (history_restored store6 (upd (set_node_store (Some store6)) client) (U 5) eq_refl eq_refl)). vm_refl.
Defined.
Lemma deletion_undone_by_restart_witness :
  let w1 := handle_delete_message (mkDelete 7 5 (pk 2) [] 0) client6 in
  (le_deleted <$> get_entry (U 5) (U 7) (app_message_log (w_app w1))) = Some true ∧
  entry7 ∈ entries_of (U 5) (app_message_log (w_app (restarted w1))).
Proof.
  assert (entry7 ∈ stored_entries store6 (w_app client6) (U 5)) as Hin.
  { assert (stored_entries store6 (w_app client6) (U 5) = [msg 0 1; msg 1 2] ++ [entry7]) as -> by vm_refl.
    apply elem_of_app. right. by left. }
  exact (deletion_undone_by_restart store6 (mkDelete 7 5 (pk 2) [] 0) entry7 entry7 client6 ltac:(vm_refl) Hin eq_refl eq_refl
    ltac:(vm_refl) eq_refl).
Defined.
End client_witnesses.
