(* ===== verification/RpcExample.v ===== *)
(** * A concrete client behind its JSON-RPC server

    Instances of the remaining interfaces and the client of [ClientExample] as the founder of
    its community, on which the properties of the methods are applied. *)

From stdpp Require Import countable.
From S2P Require Import Prelude Bytes Config Redb Routing Crypto Identity Codec Model ClientState Store DhtNode.
From S2P Require Import Protocol Handler AppState ChannelEvents CommunityEvents ManifestEvents ClientEvents AppStart.
From S2P Require Import Rpc RpcMessage RpcMember RpcChannel RpcCommunity CommunityLife RpcNode RpcServer ClientExample.

Module RpcExample.
Export ClientExample.

#[export] Existing Instance IdentityExample.argon2.
#[export] Existing Instance IdentityExample.base58.

#[export] Instance InvitePayload_eq_dec : EqDecision InvitePayload.
Proof. solve_decision. Defined.
#[export] Instance InvitePayload_countable : Countable InvitePayload.
Proof.
  refine (inj_countable'
    (λ i, (inv_community_id i, inv_name i, inv_description i, inv_seed_nodes i, inv_public_key_hex i, inv_sig_hex i,
           inv_cert_fingerprint_hex i))
    (λ p, mkInvite p.1.1.1.1.1.1 p.1.1.1.1.1.2 p.1.1.1.1.2 p.1.1.1.2 p.1.1.2 p.1.2 p.2) _).
  by intros [].
Defined.
#[export] Instance InviteSigningPayload_eq_dec : EqDecision InviteSigningPayload.
Proof. solve_decision. Defined.

(** Binary digits as text. *)
Fixpoint pos_text (p : positive) : string :=
  match p with
  | xH => EmptyString | xO p => String (Ascii.ascii_of_nat 48) (pos_text p) | xI p => String (Ascii.ascii_of_nat 49) (pos_text p)
  end.
Fixpoint text_pos (s : string) : positive :=
  match s with
  | EmptyString => 1
  | String c s => if bool_decide (c = (Ascii.ascii_of_nat 48)) then xO (text_pos s) else xI (text_pos s)
  end.
Lemma text_pos_text p : text_pos (pos_text p) = p.
Proof. induction p as [p IH|p IH|]; [exact (f_equal xI IH)|exact (f_equal xO IH)|reflexivity]. Qed.

#[export] Instance invites : Invites := {|
  json_invite := countable_json _;
  signing_json p := Some [Z.pos (encode (isp_community_id p, isp_name p, isp_description p, isp_public_key_hex p, isp_seed_nodes p))];
  b64_encode b := pos_text (encode b);
  b64_decode s := decode (text_pos s) |}.
#[export] Instance invites_laws : InvitesLaws.
Proof.
  split; [apply countable_json_laws|by eexists|]. intros b. cbn. rewrite text_pos_text. apply decode_encode.
Qed.
#[export] Instance certificates : Certificates := {| self_signed_cert sk := Some sk |}.
#[export] Instance toml : Toml := {| to_toml _ := Some []; from_toml _ := None |}.

(** The client 9 has founded community 1, with channel 5; member 2 has joined. *)
Definition manifest9 : CommunityManifest := sm_manifest signed9.
Definition member9 : MembershipRecord := mkMember (pk 9) 1 "me" None 0 [Admin] (pk 9) (pk 9) [].
Definition members9 : gmap string MembershipRecord := {[ hex (pk 2) := member2; hex (pk 9) := member9 ]}.
Definition home_app : AppState (gmap bytes bytes) :=
  mkApp (hex (pk 9)) (hex (pk 9)) "" client_sk None None (mkIdentity None Online) (default_config "/data") log_new ∅
    {[ U 1 := signed9 ]} {[ U 5 := channel1 ]} {[ U 5 := pk 42 ]} ∅ ∅ ∅
    {[ U 1 := members9 ]} ∅ ∅ ∅ ∅ ∅ [] ∅ [] None ∅ 0 None None.
Definition home : World (gmap bytes bytes) := mkWorld home_app ∅ true [] 0.

(** Member 2, on its own machine. *)
Definition friend : World (gmap bytes bytes) :=
  mkWorld (mkApp (hex (pk 2)) (hex (pk 2)) "" (pk 2) None None (mkIdentity None Online) (default_config "/data") log_new ∅
    {[ U 1 := signed9 ]} {[ U 5 := channel1 ]} {[ U 5 := pk 42 ]} ∅ ∅ ∅
    {[ U 1 := members9 ]} ∅ ∅ ∅ ∅ ∅ [] ∅ [] None ∅ 0 None None) ∅ true [] 0.

(** A client that is in no community. *)
Definition stranger : World (gmap bytes bytes) :=
  mkWorld (mkApp (hex (pk 7)) (hex (pk 7)) "" (pk 7) None None (mkIdentity None Online) (default_config "/data") log_new ∅
    ∅ ∅ ∅ ∅ ∅ ∅ ∅ ∅ ∅ ∅ ∅ ∅ [] ∅ [] None ∅ 0 None None) ∅ true [] 0.

Definition rx (fresh : Ulid) : RpcEnv := mkRpcEnv (λ _, 3000000) fresh [].
Definition hello : SendMessageParams := mkSendMessage (U 1) (U 5) "hello" None.

Lemma can_encode_event (e : NetworkEvent) : is_Some (@to_allocvec _ (@AppState.codec_event client_codecs) e).
Proof. by eexists. Qed.
Lemma can_encode_content (c : MessageContent) : is_Some (to_allocvec c).
Proof. by eexists. Qed.
Lemma can_encode_channel (c : ChannelManifest) : is_Some (to_allocvec c).
Proof. by eexists. Qed.
Lemma can_encode_manifest (m : CommunityManifest) : is_Some (to_allocvec m).
Proof. cbn. match goal with |- is_Some (match ?x with _ => _ end) => destruct x as [[i x0]|] end; by eexists. Qed.
#[export] Instance content_laws : PostcardLaws MessageContent.
Proof. apply countable_postcard_laws. Qed.

(** The founder with its embedded store, which knows member 2. *)
Definition store9 : Store := get_ok store3 (set_community_meta rnd (pk 9) meta9 store3).
Lemma store9_set : set_community_meta rnd (pk 9) meta9 store3 = Ok store9.
Proof. vm_refl. Qed.
Lemma store9_knows : get_community_meta (pk 9) store9 = Ok (Some meta9).
Proof. vm_refl. Qed.
Lemma store9_inv : store_inv store9.
Proof.
  exact (proj1 (set_community_meta_spec rnd (pk 9) meta9 store3 store9 store3_inv
    (wf_array_replicate 32 9 (conj (ltac:(lia) : 0 ≤ 9) eq_refl)) (length_replicate 24 0) store9_set)).
Qed.
Definition home9 : World (gmap bytes bytes) := upd (set_node_store (Some store9)) home.

Lemma home_inv : inv home.
Proof.
  split; cbn.
  - done.
  - done.
  - apply (keyed_singleton (λ _ s, wf_key (cm_public_key (sm_manifest s)))). by apply wf_pk.
  - exact (keyed_singleton (λ k c, k = ulid_to_string (ch_id c)) (U 5) channel1 eq_refl).
  - apply (keyed_singleton (λ _ l, ∀ u m, l !! u = Some m → u = hex (mr_user_id m)) (U 1) members9).
    intros u m. unfold members9. intros [[<- <-]|[_ Hm]]%lookup_insert_Some; [reflexivity|].
    revert u m Hm. by apply (keyed_singleton (λ u m, u = hex (mr_user_id m))).
  - intros c. constructor.
  - intros k l Hl. by rewrite lookup_empty in Hl.
  - intros k l Hl. by rewrite lookup_empty in Hl.
  - constructor.
  - intros k l Hl. by rewrite lookup_empty in Hl.
Qed.
End RpcExample.

Section rpc_witnesses.
Import RpcExample.

Lemma message_send_correct_witness :
  ∃ info w', message_send (rx 7) hello home = (Reply info, w') ∧ mi_id info = U 7 ∧
    le_message_id <$> entries_of (U 5) (app_message_log (w_app w')) = [U 7].
Proof.
  pose proof (message_send_correct can_encrypt can_encode_content can_encode_event (rx 7) hello home) as Hs.
  cbv zeta in Hs. assert (send_refusal hello home = None) as Hr by vm_refl. rewrite Hr in Hs.
  destruct Hs as (key & raw & w' & data & Hs & _ & _ & _). exists (sent_info hello raw), w'. split; [exact Hs|].
  assert (match message_send (rx 7) hello home with
          | (Reply i, w1) => mi_id i = U 7 ∧ le_message_id <$> entries_of (U 5) (app_message_log (w_app w1)) = [U 7]
          | _ => False
          end) as Hx by (split; vm_refl).
  rewrite Hs in Hx. exact Hx.
Defined.

(** What [message_send] replies to the founder, and the state it leaves. *)
Definition sent : World (gmap bytes bytes) := (message_send (rx 7) hello home).2.
Definition sent_hello : MessageInfo := mkMessageInfo (U 7) (U 5) (U 1) (hex (pk 9)) 3000000 "hello" None None false [].
Lemma hello_sent : message_send (rx 7) hello home = (Reply sent_hello, sent).
Proof. vm_refl. Qed.
Definition page : GetHistoryParams := mkGetHistory (U 1) (U 5) None None.

Lemma own_message_read_back_witness :
  ∃ msgs, message_get_history page sent = (Reply msgs, sent) ∧ mi_body <$> last msgs = Some "hello"%string.
Proof.
  destruct (own_message_read_back can_encrypt can_encode_content can_encode_event (rx 7) hello page home sent_hello sent
    hello_sent eq_refl ltac:(reflexivity) ltac:(by eexists) eq_refl ltac:(by vm_compute)) as (msgs & Hm & Hl).
  exists msgs. split; [exact Hm|]. rewrite Hl. reflexivity.
Defined.
Lemma message_delivered_witness :
  ∃ data v' msgs, handle_channel_message false (channel_topic (U 5)) data friend = Done v' ∧
    message_get_history page v' = (Reply msgs, v') ∧ mi_body <$> last msgs = Some "hello"%string.
Proof.
  assert (community_of_channel (U 5) friend = Some (U 1)) as Hc by by vm_compute.
  assert (member_of (U 1) (hex (from_verifying_key (own_pk home))) friend = Some member9) as Hm by vm_refl.
  destruct (message_delivered can_encrypt can_encode_content can_encode_event (rx 7) hello home sent_hello sent friend (U 1) member9 page 5
    hello_sent ltac:(by vm_compute) eq_refl Hc eq_refl Hm ltac:(vm_refl) ltac:(apply not_elem_of_nil) eq_refl
    ltac:(reflexivity) ltac:(by vm_compute)) as (data & v' & msgs & _ & Hd & Hr & Hl & _).
  exists data, v', msgs. split; [exact Hd|]. split; [exact Hr|]. rewrite Hl. reflexivity.
Defined.

(** The founder removes member 2. *)
Definition remove2 : KickBanParams := mkKickBan (U 1) (hex (pk 2)) None.
Lemma member_kick_correct_witness :
  ∃ w', member_kick (rx 7) remove2 home = (Reply true, w') ∧ member_of (U 1) (hex (pk 2)) w' = None ∧
    ∃ data, honoured (U 1) (hex (pk 2)) data home.
Proof.
  pose proof (member_kick_correct can_encode_event (rx 7) remove2 home) as Hk. cbv zeta in Hk.
  assert (kick_refusal remove2 home = None) as Hr by vm_refl. rewrite Hr in Hk.
  destruct Hk as (w' & Hk & Hm & _ & Hp). exists w'. split; [exact Hk|]. split.
  - rewrite Hm. by rewrite decide_True.
  - destruct (Hp 1 ltac:(by vm_compute) eq_refl ltac:(by vm_compute)) as (data & _ & Hh). by exists data.
Defined.
Lemma member_ban_correct_witness :
  ∃ w', member_ban (rx 7) remove2 home = (Reply true, w') ∧ member_of (U 1) (hex (pk 2)) w' = None ∧
    handle_member_joined member2 w' = w'.
Proof.
  pose proof (member_ban_correct can_encode_event (rx 7) remove2 home) as Hk. cbv zeta in Hk.
  assert (ban_refusal remove2 home = None) as Hr by vm_refl. rewrite Hr in Hk.
  destruct Hk as (w' & Hk & Hm & Hj & _). exists w'. split; [exact Hk|]. split; [|exact (Hj member2 eq_refl eq_refl)].
  rewrite Hm. by rewrite decide_True.
Defined.
Definition promote2 : UpdateRoleParams := mkUpdateRole (U 1) (hex (pk 2)) ModeratorDto.
Lemma member_update_role_correct_witness :
  ∃ w', member_update_role (rx 7) promote2 home = (Reply true, w') ∧
    member_of (U 1) (hex (pk 2)) w' = Some (with_roles [Moderator] member2) ∧
    ∃ data, applied (U 1) (hex (pk 2)) Moderator data home.
Proof.
  pose proof (member_update_role_correct can_encode_event (rx 7) promote2 home) as Hk. cbv zeta in Hk.
  assert (role_change_refusal promote2 home = None) as Hr by vm_refl. rewrite Hr in Hk.
  destruct Hk as (w' & Hk & Hm & Hp). exists w'. split; [exact Hk|]. split.
  - rewrite Hm. rewrite decide_True by done. vm_refl.
  - destruct (Hp 1 ltac:(by vm_compute) eq_refl ltac:(by vm_compute)) as (data & _ & Hh). by exists data.
Defined.

(** The founder rotates the key of channel 5; member 2 can open the new key, but lists the two
    wrapped keys in another order and ignores the rotation. A founder who is the only member
    is followed. *)
Definition rotate5 : RotateKeyParams := mkRotateKey (U 1) (U 5).
Definition alone : World (gmap bytes bytes) := upd (set_members {[ U 1 := {[ hex (pk 9) := member9 ]} ]}) home.
Definition rotated_in (w : World (gmap bytes bytes)) : option ChannelManifest :=
  app_channels (w_app (channel_rotate_key rotate5 w).2) !! U 5.
Definition follows (w : World (gmap bytes bytes)) : bool :=
  match rotated_in w with
  | Some new =>
      match reencode_channel 0 new, to_allocvec new with
      | Some b, Some encoded => ed_verify (pk 9) b (ed_sign client_sk encoded)
      | _, _ => true
      end
  | None => true
  end.
Lemma channel_rotate_key_correct_witness :
  (∃ w' new data, channel_rotate_key rotate5 home = (Reply true, w') ∧ app_channel_keys (w_app w') !! U 5 = Some (pk 4) ∧
     wrapped_for (pk 4) (ch_encrypted_channel_key new) member2 ∧
     Cmd (CmdPublish (channel_topic (U 5)) data) ∈ w_out w' ∧
     handle_channel_message false "t" data friend = Done (draw friend)) ∧
  (∃ w' new data, channel_rotate_key rotate5 alone = (Reply true, w') ∧
     Cmd (CmdPublish (channel_topic (U 5)) data) ∈ w_out w' ∧
     ∃ v', handle_channel_message false "t" data friend = Done v' ∧ app_channels (w_app v') !! U 5 = Some new).
Proof.
  assert (app_channels (w_app friend) !! U 5 = Some channel1) as Hf by vm_refl.
  assert (known_community_pk (U 1) friend = Some (pk 9)) as Hp by vm_refl. split.
  - pose proof (channel_rotate_key_correct can_encrypt can_encode_event can_encode_channel rotate5 home (ai_members _ home_inv)) as Hk.
    cbv zeta in Hk. assert (rotate_refusal rotate5 home = None) as Hr by vm_refl. rewrite Hr in Hk.
    destruct Hk as (old & new & encoded & data & w' & Hk & Hold & Hnew & Hkey & _ & Hw & Hout & He & Hv). exists w', new, data.
    split; [exact Hk|]. split; [exact Hkey|]. split; [apply (Hw (hex (pk 2))); vm_refl|]. split; [exact Hout|].
    assert (app_channels (w_app home) !! U 5 = Some channel1) as Ho by vm_refl.
    pose proof (Some_inj _ _ (eq_trans (eq_sym Hold) Ho)) as ->.
    refine (proj2 (Hv friend "t"%string (pk 9) channel1 Hp Hf) _). intros b Hb.
    assert (follows home = false) as Hn by vm_refl. unfold follows, rotated_in in Hn. rewrite Hk in Hn. cbn [snd] in Hn.
    rewrite (Hnew : app_channels (w_app w') !! U 5 = Some new), (Hb : reencode_channel 0 new = Some b), He in Hn. exact Hn.
  - pose proof (channel_rotate_key_correct can_encrypt can_encode_event can_encode_channel rotate5 alone) as Hk.
    cbv zeta in Hk. assert (rotate_refusal rotate5 alone = None) as Hr by vm_refl. rewrite Hr in Hk.
    destruct Hk as (old & new & encoded & data & w' & Hk & Hold & Hnew & _ & _ & _ & Hout & _ & Hv).
    { apply (keyed_singleton (λ _ l, ∀ u m, l !! u = Some m → u = hex (mr_user_id m)) (U 1)).
      by apply (keyed_singleton (λ u m, u = hex (mr_user_id m))). }
    exists w', new, data. split; [exact Hk|]. split; [exact Hout|].
    assert (app_channels (w_app alone) !! U 5 = Some channel1) as Ho by vm_refl.
    pose proof (Some_inj _ _ (eq_trans (eq_sym Hold) Ho)) as ->.
    refine (proj1 (Hv friend "t"%string (pk 9) channel1 Hp Hf) _ _ _ _); [left|vm_refl|vm_compute; discriminate|vm_compute; split; [discriminate|reflexivity]].
    assert ((size ∘ ch_encrypted_channel_key) <$> rotated_in alone = Some 1%nat) as Hs by vm_refl.
    unfold rotated_in in Hs. rewrite Hk in Hs. cbn [snd] in Hs. rewrite (Hnew : app_channels (w_app w') !! U 5 = Some new) in Hs.
    injection Hs as Hs. rewrite Hs. reflexivity.
Defined.

(** A restart on another disk, with the store, brings member 2 back. *)
Definition kicked9 : World (gmap bytes bytes) := (member_kick (rx 7) remove2 home9).2.
Definition start9 : StartConfig :=
  mkStart (hex (pk 9)) (hex (pk 9)) "" client_sk None None (default_config "/data") (app_node_store (w_app kicked9)) None.
Lemma kick_undone_by_restart_witness :
  member_of (U 1) (hex (pk 2)) kicked9 = None ∧
  is_Some (member_of (U 1) (hex (pk 2)) (app_new start9 ∅ true 0)).
Proof.
  assert (member_kick (rx 7) remove2 home9 = (Reply true, kicked9)) as Hk.
  { pose proof (member_kick_spec can_encode_event (rx 7) remove2 home9) as Hk. cbv zeta in Hk.
    assert (kick_refusal remove2 home9 = None) as Hr by vm_refl. rewrite Hr in Hk. destruct Hk as (w' & Hk & _).
    unfold kicked9. rewrite Hk. reflexivity. }
  pose proof (kick_undone_by_restart can_encode_event (rx 7) remove2 home9 kicked9 start9 ∅ true 0 store9 (pk 9) Hk
           eq_refl store9_inv) as Hu.
  apply Hu.
  - exists meta9, signed9. split; [exact store9_knows|]. split; [reflexivity|]. split; [reflexivity|]. by eexists.
  - reflexivity.
  - intros k s Hs. assert (app_communities (load_state start9 ∅) = ∅) as He by vm_refl.
    pose proof (eq_trans (eq_sym Hs) (f_equal (λ m : gmap string SignedManifest, m !! k) He)) as Hn. discriminate Hn.
Defined.

Lemma some_case {A} (o : option A) a (P Q : Prop) :
  o = Some a → match o with None => Q | Some _ => P end → P.
Proof. by intros ->. Qed.

(** The founder's invite, and the stranger that follows it. *)
Definition invite_text : string :=
  match community_generate_invite (U 1) home with (Reply t, _) => t | _ => "" end.
Lemma invite_accepted_witness :
  ∃ b64 v', invite_text = (JOIN_PREFIX ++ b64)%string ∧
    (community_join (rx 6) (mkJoinCommunity b64 None) stranger).2 = v' ∧ known_community_pk (U 1) v' = Some (pk 9).
Proof.
  assert (community_generate_invite (U 1) home = (Reply invite_text, home)) as Hg by vm_refl.
  assert (pk 9 ≠ zero32) as Hz by by vm_compute.
  destruct (invite_accepted can_encode_event (U 1) home invite_text home stranger (rx 6) None signed9 1 Hg
    ltac:(by intros s f [=]) eq_refl ltac:(vm_refl) Hz ltac:(done) ltac:(by vm_compute) eq_refl eq_refl ltac:(by vm_compute)
    ltac:(split; vm_refl)) as (json & i & info & v' & fp & self & data & Ht & _ & _ & _ & _ & Hj & _ & Hk & _).
  exists (b64_encode json), v'. split; [exact Ht|]. split; [by rewrite Hj|exact Hk].
Defined.

(** An invite that names no key, which any signature fits. *)
Definition keyless : InvitePayload := mkInvite (U 5) "n" "" [] "" "00" "".
Lemma community_join_correct_witness :
  known_community_pk (U 5)
    (community_join (rx 6) (mkJoinCommunity (b64_encode (default [] (to_json keyless))) None) stranger).2 = Some zero32.
Proof.
  destruct (community_join (rx 6) (mkJoinCommunity (b64_encode (default [] (to_json keyless))) None) stranger) as [r v'] eqn:Hj.
  destruct (community_join_correct can_encode_event _ _ _ _ _ Hj) as [_ Hok].
  destruct (Hok keyless 5 zero32) as [Hk _]; [| |exact Hk].
  - exists (default [] (to_json keyless)). split; [apply b64_roundtrip|]. apply json_roundtrip. reflexivity.
  - split; [done|]. split; [by vm_compute|]. split; [reflexivity|]. split; [by vm_compute|]. split; [by vm_compute|].
    split; [done|]. intros Hn. by contradiction Hn.
Defined.

(** The founder deletes, leaves, renames and founds communities. *)
Lemma community_delete_correct_witness :
  ∃ data w', community_delete (U 1) home9 = (Reply true, w') ∧ forgotten (U 1) home9 w' ∧
    successor_taken manifest9 (tombstone_of manifest9) data home9 ∧
    ∃ st', app_node_store (w_app w') = Some st' ∧ get_community_meta (pk 9) st' = Ok None.
Proof.
  assert (wf_key (pk 9)) as Hw by by apply wf_pk.
  pose proof (community_delete_correct can_encode_event can_encode_manifest (U 1) home9) as Hd.
  assert (admin_refusal "only admins can delete a community" (U 1) home9 = None) as Hr by vm_refl. rewrite Hr in Hd.
  destruct Hd as (old & data & w' & Hold & Hd & Hf & _ & _ & Ht). exists data, w'. split; [exact Hd|]. split; [exact Hf|].
  assert (app_communities (w_app home9) !! U 1 = Some signed9) as Hs by vm_refl.
  pose proof (Some_inj _ _ (eq_trans (eq_sym Hold) Hs)) as ->. split; [exact Ht|].
  assert (known_community_pk (U 1) home9 = Some (pk 9)) as Hk by vm_refl. assert (st_online store9 = true) as Hon by vm_refl.
  destruct (proj1 (proj2 Hf) (pk 9) store9 Hk Hw eq_refl store9_inv Hon) as (st' & Hst' & Hm & _).
  exists st'. split; [exact Hst'|exact Hm].
Defined.
Lemma community_leave_correct_witness :
  ∃ w', community_leave (rx 7) (U 1) home = (Reply true, w') ∧ forgotten (U 1) home w'.
Proof.
  pose proof (community_leave_correct can_encode_event can_encode_manifest (rx 7) (U 1) home) as Hl.
  assert (app_communities (w_app home) !! U 1 = Some signed9) as Hs by vm_refl.
  match type of Hl with
    match ?o with Some _ => ?P | None => ?Q end => destruct (some_case o signed9 P Q Hs Hl) as (w' & Hd & Hf & _)
  end. exists w'. split; [exact Hd|exact Hf].
Defined.
Definition rename1 : UpdateManifestParams := mkUpdateManifest (U 1) (Some "e"%string) None None None.
Lemma community_update_manifest_correct_witness :
  ∃ r w', community_update_manifest rename1 home = (r, w') ∧ replied r ∧
    (cm_name ∘ sm_manifest <$> app_communities (w_app w') !! U 1) = Some "e"%string.
Proof.
  pose proof (community_update_manifest_correct can_encode_event can_encode_manifest rename1 home) as Hu. cbv zeta in Hu.
  assert (update_refusal rename1 home = None) as Hr by vm_refl. rewrite Hr in Hu.
  destruct Hu as (old & new & data & r & w' & Hu & Hold & Hc & Hn & _ & _ & _ & Hrep).
  assert (app_communities (w_app home) !! U 1 = Some signed9) as Hs by vm_refl.
  pose proof (Some_inj _ _ (eq_trans (eq_sym Hold) Hs)) as ->. exists r, w'. split; [exact Hu|]. split.
  - apply Hrep. left. rewrite Hn. reflexivity.
  - rewrite Hc, lookup_insert. rewrite decide_True by done. cbn. by rewrite Hn.
Defined.

(** The founder writes, then learns that member 2 has come online. *)
Definition quiet_net : DhtNet := mkNet (λ _, None) (λ _, None) id None 0.
Definition desk : CallEnv := mkCallEnv (rx 7) quiet_net "/data/config.toml".
Lemma session_invariant_witness :
  inv (handle_peer_connected (hex (pk 2)) (U 1) (serve desk (CallMessageSend hello) home)).
Proof.
  apply (session_invariant home); [|exact home_inv].
  apply (rtc_l _ _ (serve desk (CallMessageSend hello) home)); [|apply rtc_once].
  - apply (step_call home desk (CallMessageSend hello)). split; [intros ch; apply not_elem_of_nil|].
    intros peer l Hl. pose proof (eq_trans (eq_sym (lookup_empty (M := gmap string) peer)) Hl) as Hn. discriminate Hn.
  - apply (step_event _ (mkEventEnv 0 7 None 0) (PeerConnected (hex (pk 2)) (U 1))); [exact I|].
    apply process_fits; [reflexivity|vm_refl].
Defined.
End rpc_witnesses.
