(* ===== verification/ConcurrencyExample.v ===== *)
(** * Interleavings at a concrete client

    The founder of [RpcExample] with a second community of 256 members, and the properties of
    [Locks], [Concurrency] and [Sends] applied to it. *)

From S2P Require Import Locks.
From S2P Require Import Prelude Bytes Config Redb Routing Crypto Identity Codec Model ClientState Store DhtNode.
From S2P Require Import AppState CommunityEvents ClientEvents Rpc RpcMessage RpcChannel RpcServer Concurrency Sends ClientExample RpcExample.

Import RpcExample.

(** The client starts, an event arrives, its handler takes the communities. *)
Lemma client_progress_witness :
  let s := mkMachine [mkThread (guarded lk_communities Shared []) []] [] 0 0 0 in
  (∃ s', machine_step fifo (made_of event_piece) s s') ∨ idle s ∨ full s ∨
  (self_blocked s ∧ ∀ s', rtc (client_moves fifo serving) s s' → self_blocked s').
Proof.
  intros s. apply (proj1 (client_progress fifo serving (or_introl eq_refl)) 0%nat s).
  apply (rtc_l _ _ (mkMachine [mkThread [] []] [] 0 1 0)).
  - right. apply arrive_event. cbn. unfold EVT_CAPACITY. lia.
  - apply rtc_once. left. apply (Locks.step_event fifo _ (mkMachine [mkThread [] []] [] 0 1 0) (mkThread [] []) (guarded lk_communities Shared [])); [reflexivity|reflexivity|cbn; lia|].
    exists [guarded lk_communities Shared []]. split; [|reflexivity].
    apply Forall_cons. split; [|apply Forall_nil; exact I]. apply event_basic, basic_lock. discriminate.
Defined.

Lemma rotations_race_witness :
  (∃ w' new,
     rtc (pool_step session_step) ([rotate_task rotate5; rotate_task rotate5], home) ([Finished (Reply true); Finished (Reply true)], w') ∧
     app_channel_keys (w_app w') !! U 5 = Some (rng32 1) ∧ wrapped_for (rng32 0) (ch_encrypted_channel_key new) member2).
Proof.
  pose proof (rotations_race can_encrypt can_encode_event can_encode_channel session_step rotate5 home channel1
    (ai_members _ home_inv) ltac:(vm_refl) ltac:(vm_refl)) as Hr. cbv zeta in Hr.
  destruct Hr as [(w' & new & Hrun & Hkey & _ & _ & Hall) _]. exists w', new. split; [exact Hrun|]. split.
  - etrans; [exact Hkey|]. vm_refl.
  - apply (Hall (hex (pk 2))). vm_refl.
Defined.

(** A rotation has passed the first lock when member 2 comes online. *)
Lemma interleaved_invariant_witness : inv (handle_peer_connected (hex (pk 2)) (U 1) home).
Proof.
  apply (interleaved_invariant [rotate_task rotate5] home
    [locked (ch ← gets (λ w, app_channels (w_app w) !! U 5); need ch (not_found "channel not found")) (λ _,
     locked (key ← generate_key; step (replace_key (U 5) key);; mret key) (λ key, rotate_tail rotate5 key))]); [| |exact home_inv].
  - apply Forall_cons. split; [|apply Forall_nil; exact I]. left. by exists rotate5.
  - eapply rtc_l; [|apply rtc_once].
    + apply (pool_locked _ (require_seed_connected (U 1)) _ [rotate_task rotate5] home 0%nat tt home eq_refl). vm_refl.
    + apply pool_env, (step_event _ (mkEventEnv 0 7 None 0) (PeerConnected (hex (pk 2)) (U 1))); [exact I|].
      apply process_fits; [reflexivity|vm_refl].
Defined.

(** 256 members. *)
Definition crowd : gmap string MembershipRecord :=
  list_to_map ((λ n, (hex (pk (Z.of_nat n)), mkMember (pk (Z.of_nat n)) 1 "ann" None 0 [Member] (pk (Z.of_nat n)) (pk 3) [])) <$> seq 0 256).
Definition crowded : World (gmap bytes bytes) := upd (set_members {[ U 1 := crowd ]}) home.
Lemma crowd_jams_client_witness :
  ∃ s, rtc (moves fifo (eq (peer_connected_trace (U 1) crowded)) serving) (machine_start 0) s ∧ full s.
Proof.
  pose proof (crowd_jams_client fifo serving (hex (pk 2)) (U 1) crowded signed9 crowd can_encode_event
    ltac:(vm_refl) ltac:(vm_refl) ltac:(vm_refl)) as Hj. cbv zeta in Hj.
  destruct Hj as (_ & _ & s & Hr & Hf & _).
  - apply Nat.leb_le. vm_refl.
  - by exists s.
Defined.

(** The founder says hello twice at once. *)
Lemma concurrent_sends_witness :
  ∃ (w' : World (gmap bytes bytes)) (mem pub : list (nat * RawMessage)),
    logged (U 5) w' = logged (U 5) home ++ (written <$> mem.*2) ∧ pub ≡ₚ mem ∧ NoDup mem.*1 ∧ (length mem ≤ 2)%nat.
Proof.
  destruct (pool_ends (λ _ _, False) (sending [(rx 7, hello); (rx 8, hello)]) home) as (ts' & w' & Hr & Hend).
  destruct (concurrent_sends can_encrypt can_encode_content can_encode_event (U 5) [(rx 7, hello); (rx 8, hello)] (λ _ _, False) home ts' w'
    (λ v v' f, False_ind _ f) ltac:(apply Forall_cons; split; [reflexivity|apply Forall_cons; split; [reflexivity|apply Forall_nil; exact I]]) Hr Hend)
    as (mem & pub & Hl & _ & Hp & Hn & Hlen & Hiff & _).
  exists w', mem, pub. split; [exact Hl|]. split; [exact Hp|]. split; [exact Hn|].
  assert (∀ i, i ∈ mem.*1 → i ∈ [0; 1]%nat) as Hsub.
  { intros i [info Hi]%Hiff. apply lookup_lt_Some in Hi. rewrite Hlen in Hi. cbn in Hi.
    destruct i as [|[|i]]; [left|right; left|lia]. }
  pose proof (submseteq_length _ _ (NoDup_submseteq mem.*1 [0; 1]%nat Hn Hsub)) as Hle. rewrite length_fmap in Hle. exact Hle.
Defined.
