(* ===== verification/NetExample.v ===== *)
(** * A client, its seed and its peers

    A node with an empty store, the requests that the client of [RpcExample] sends to it, and
    the properties of the network side applied to them. *)

From S2P Require Import Prelude Bytes Config Redb Routing Crypto Codec Model ClientState SeqLog Protocol NodeClient.
From S2P Require Import Store DhtNode Handler AppState CommunityEvents ClientEvents.
From S2P Require Import Rpc ClientExample RpcExample Wire SeedSync NetworkTask Delivery.

Module NetExample.
Export RpcExample.

#[export] Instance ClientRequest_eq_dec : EqDecision ClientRequest.
Proof. solve_decision. Defined.
#[export] Instance NodeResponse_eq_dec : EqDecision NodeResponse.
Proof. solve_decision. Defined.

#[export] Instance net_addr_text : AddrText := {| parse_node_addr s := if bool_decide (s = "seed"%string) then Some addr0 else None |}.
#[export] Instance net_text : NetText := {| addr_to_string _ := "seed"%string; debug_response _ := ""%string |}.
#[export] Instance site : NodeSite :=
  {| site_env _ := ev0; site_client := addr0; site_pinned fp := negb (bool_decide (fp = pk 66)) |}.

(** The client has two messages in channel 5, the first of them deleted. *)
Definition posts : list LogEntry :=
  [mkLogEntry 0 [] [1] "a" (hex (pk 2)) 1 true; mkLogEntry 1 [] [2] "b" (hex (pk 2)) 2 false].
Definition full_app : AppState (gmap bytes bytes) :=
  set_message_log (foldl (λ log e, append_entry (U 5) e log) log_new posts) home_app.

(** The node 50, its store empty; and with a history and with a member for community 1. *)
Definition node_services : NodeServices (gmap bytes bytes) := mkServices empty_store None (pk 50) None.
Definition nonce0 : bytes := pk 77.
Definition dm_payload : DmPayload := mkDmPayload "hi" None "m1".
Definition dm_plain : bytes := default [] (to_allocvec dm_payload).
Definition reader_sk : bytes := seqZ 1 32.
Definition dm_recipient : bytes := x_public (sha256 reader_sk).
Definition dm_envelope : DmEnvelope :=
  match seal (sha256 (pk 9)) (pk 4) (replicate 24 1) dm_recipient dm_plain with Ok e => e | Err _ => mkEnvelope [] [] [] [] end.
Definition hosted : NodeServices (gmap bytes bytes) := mkServices store5 None (pk 9) None.
Definition hosted_entries : list LogEntry :=
  match get_messages (pk 1) 5 0 store5 with Ok es => es | Err _ => [] end.

Definition requests : list ClientRequest :=
  sync_requests full_app (U 1) signed9 nonce0 (pk 50) ++
  [Protocol.Gossip "t" [1; 2]; SendDm dm_recipient dm_envelope; JoinCommunity (dummy_cert (pk 1) (replicate 32 0)) (Some (U 1)) None;
   GetMessages (pk 1) 5 0].
Definition responses : list NodeResponse :=
  [Authenticated (pk 50); PushAck; GossipAck; DmAck 0; Authenticated (pk 9); Messages (retain (λ e, 0 <=? le_seq e) hosted_entries);
   Error 403 "hosting cert node_pk does not match this node's identity"; Error 403 "invalid node join password"].
#[export] Instance request_codec : Postcard ClientRequest := table_postcard ClientRequest requests.
#[export] Instance response_codec : Postcard NodeResponse := table_postcard NodeResponse responses.
#[export] Instance request_codec_laws : PostcardLaws ClientRequest.
Proof. apply table_postcard_laws. apply Nat.leb_le. by vm_compute. Qed.
#[export] Instance response_codec_laws : PostcardLaws NodeResponse.
Proof. apply table_postcard_laws. apply Nat.leb_le. by vm_compute. Qed.
#[export] Instance dm_codec_laws : PostcardLaws DmPayload := countable_postcard_laws _.

Lemma request_fits req : req ∈ requests → fits MAX_REQUEST req.
Proof. intros [x Hx]%(table_postcard_written ClientRequest). by exists [x]. Qed.
Lemma response_fits resp : resp ∈ responses → fits U32_MAX resp.
Proof. intros [x Hx]%(table_postcard_written NodeResponse). by exists [x]. Qed.
Lemma nth_request i req : requests !! i = Some req → fits MAX_REQUEST req.
Proof. intros Hi. eapply request_fits, list_elem_of_lookup_2, Hi. Qed.
Lemma nth_response i resp : responses !! i = Some resp → fits U32_MAX resp.
Proof. intros Hi. eapply response_fits, list_elem_of_lookup_2, Hi. Qed.

Lemma entries_sealable : sealable LogEntry empty_store.
Proof. intros e rnd _. by eexists. Qed.
Lemma meta_sealable : sealable CommunityMeta empty_store.
Proof.
  intros m rnd _. unfold seal_value. assert (is_Some (to_allocvec m)) as [b ->]; [|by eexists].
  cbn. match goal with |- is_Some (match ?x with _ => _ end) => destruct x as [[]|] end; by eexists.
Qed.
Lemma site_wf i : env_wf (site_env i) ∧ unix_now (ev_time_ns (site_env i)) <= U64_MAX.
Proof. split; [apply ev0_wf|by vm_compute]. Qed.

(** A world with the node, no manager, and one with a connection to it. *)
Definition fresh_world (sv : NodeServices (gmap bytes bytes)) : NetWorld (NodeNet (gmap bytes bytes)) :=
  mkNetWorld [] (mkNodeNet (mkNode sv ∅) [] []).
Definition joined_world (sv : NodeServices (gmap bytes bytes)) (sess : ClientSession) : NetWorld (NodeNet (gmap bytes bytes)) :=
  mkNetWorld [mkManager addr0 (pk 3) (Connected 0)] (mkNodeNet (mkNode sv {[ 0%nat := sess ]}) [] []).
Lemma joined_live sv sess : live 0 0 sess (joined_world sv sess).
Proof. exists (mkManager addr0 (pk 3) (Connected 0)). split; [done|]. split; [done|]. apply lookup_insert_eq. Qed.
Definition task0 (n : NetWorld (NodeNet (gmap bytes bytes))) : GossipState (NodeNet (gmap bytes bytes)) := gossip_start [] n.
Definition session9 : ClientSession := mkSession (Some (pk 9)) [].
End NetExample.

Section net_witnesses.
Import NetExample.

Definition synced : list LogEntry :=
  [mkLogEntry 0 [] [1] "a" (hex (pk 2)) 1 false; mkLogEntry 1 [] [2] "b" (hex (pk 2)) 2 false].
Lemma sync_correct_witness :
  ∃ n', sync_community_to_seed full_app (U 1) (pk 9) signed9 "seed" nonce0 (fresh_world node_services) = (Ok tt, n') ∧
    get_messages (pk 9) 5 0 (sv_store (services n')) = Ok synced.
Proof.
  assert (sync_pushes full_app signed9 = [(5, posts)]) as Hps by vm_refl.
  assert (seed_ready (pk 9) (λ _, []) (sync_pushes full_app signed9) (fresh_world node_services)) as Hready.
  { split; [| | | |done|apply site_wf| |].
    - split; [apply empty_store_inv|]. done.
    - apply entries_sealable.
    - apply meta_sealable.
    - by apply wf_pk.
    - intros c. rewrite Hps. unfold pushed_to. cbn. by case_decide; vm_compute.
    - constructor; [apply (nth_response 0); vm_refl|]. constructor; [apply (nth_response 1); vm_refl|constructor]. }
  destruct (sync_correct full_app (U 1) signed9 "seed" addr0 nonce0 (λ _, []) (fresh_world node_services)
    ltac:(vm_refl) ltac:(vm_refl) Hready) as (n' & Hs & _ & Hm & _).
  - constructor; [by vm_compute|constructor].
  - by apply NoDup_singleton.
  - apply Forall_forall. intros req Hin. apply request_fits, elem_of_app. by left.
  - exists n'. split; [exact Hs|]. clear Hs.
    assert (is_u128 5) as H128 by by vm_compute.
    pose proof (Hm 5 H128) as H5.
    match type of H5 with _ = ?rhs => assert (rhs = Ok synced) as He by vm_refl end. exact (eq_trans H5 He).
Defined.

(** The seed is dialled and registered. *)
Lemma seed_dialled_witness :
  let seed := mkSeed addr0 (Some (pk 9, U 1)) None (pk 3) in
  let g := task0 (fresh_world node_services) in
  (∃ r c, live r c (mkSession (Some (pk 9)) [pk 9])
     (g_net (run_task (pk 9) nonce0 (AutoJoinTask r (pk 50) (U 1) None)
        (handle_registration (mkReg (hex (pk 50)) (pk 50) r true seed)
           (run_task (pk 9) nonce0 (DialTask true seed (Some 0%nat)) g))))) ∧
  g_tasks (run_task (pk 9) nonce0 (DialTask true (mkSeed addr0 (Some (pk 9, U 1)) None (pk 66)) (Some 0%nat)) g) =
    [ReconnectTask (mkSeed addr0 (Some (pk 9, U 1)) None (pk 66)) 0 5].
Proof.
  cbv zeta. pose proof (λ fp, seed_dialled (pk 9) nonce0 addr0 fp (U 1) 0 (task0 (fresh_world node_services))
    empty_store_inv eq_refl meta_sealable (wf_pk 50 ltac:(by vm_compute)) eq_refl site_wf
    (nth_request 0 (Wire.hello (pk 9) nonce0) ltac:(vm_refl)) (nth_request 1 (JoinCommunity (cert_new (pk 9) (pk 50) U64_MAX) (Some (U 1)) None) ltac:(vm_refl))
    (nth_response 0 (Authenticated (pk 50)) ltac:(vm_refl)) ltac:(vm_refl)) as Hd.
  split.
  - destruct (proj1 (Hd (pk 3)) ltac:(vm_refl)) as (r & c & _ & _ & _ & _ & _ & _ & Hl). exists r, c. exact Hl.
  - destruct (proj2 (Hd (pk 66)) ltac:(vm_refl)) as (_ & _ & Ht). exact (proj2 Ht).
Defined.

(** After the seed has been dialled and registered, the tables are consistent. *)
Definition dialled : GossipState (NodeNet (gmap bytes bytes)) :=
  let g := (handle_command (pk 9) true (CmdDial addr0 true (Some (pk 9, U 1)) None (pk 3)) (task0 (fresh_world node_services))).2 in
  let g := run_task (pk 9) nonce0 (DialTask true (mkSeed addr0 (Some (pk 9, U 1)) None (pk 3)) (Some 0%nat)) (set_tasks [] g) in
  handle_registration (mkReg (hex (pk 50)) (pk 50) 0 true (mkSeed addr0 (Some (pk 9, U 1)) None (pk 3)))
    (set_queues (g_readers g) [] (g_forwarded g) g).
Lemma task_invariant_witness :
  g_peers dialled = {[ hex (pk 50) := 0%nat ]} ∧ task_inv dialled.
Proof.
  split; [vm_refl|]. apply (task_invariant (pk 9) true [] (fresh_world node_services)).
  eapply rtc_l; [by apply (step_command _ _ _ (CmdDial addr0 true (Some (pk 9, U 1)) None (pk 3)))|].
  eapply rtc_l; [by apply (step_task _ _ _ 0 (DialTask true (mkSeed addr0 (Some (pk 9, U 1)) None (pk 3)) (Some 0%nat)) nonce0)|].
  apply rtc_once. apply step_registration. vm_refl.
Defined.

(** A peer whose connection is down is dropped, and the seed is dialled again. *)
Definition down_world : NetWorld (NodeNet (gmap bytes bytes)) :=
  mkNetWorld [mkManager addr0 (pk 3) Down] (nw_net (fresh_world node_services)).
Lemma publish_correct_witness :
  ∃ dead, dead = [hex (pk 50)] ∧ g_events (publish (pk 9) true "t" [1] (set_net down_world dialled)) =
    g_events dialled ++ [PeerDisconnected (hex (pk 50)); SeedPeerDisconnected (U 1)].
Proof.
  destruct (publish_correct (pk 9) true "t" [1] (set_net down_world dialled)) as (dead & Hnd & _ & Hps & Hin & Hev & _).
  specialize (Hps (hex (pk 50))).
  assert (g_peers (publish (pk 9) true "t" [1] (set_net down_world dialled)) !! hex (pk 50) = None) as He by vm_refl.
  assert (g_peers (set_net down_world dialled) = {[ hex (pk 50) := 0%nat ]}) as Hp by vm_refl.
  assert (∀ p, p ∈ dead → p = hex (pk 50)) as Hall.
  { intros p Hd. specialize (Hin p Hd). rewrite Hp in Hin. destruct Hin as [c [Hc _]%lookup_singleton_Some]. by symmetry. }
  assert (dead = [hex (pk 50)]) as Hdead.
  { destruct dead as [|a dead].
    - rewrite decide_False, Hp, lookup_singleton_eq in Hps by apply not_elem_of_nil.
      pose proof (eq_trans (eq_sym He) Hps) as Hbad. discriminate Hbad.
    - rewrite (Hall a) in * by (by left). destruct dead as [|b dead]; [done|]. apply NoDup_cons in Hnd as [Hni _].
      destruct Hni. rewrite <- (Hall b) by (right; by left). by left. }
  exists dead. split; [exact Hdead|]. rewrite Hdead in Hev. refine (eq_trans Hev _). vm_refl.
Defined.

Lemma gossip_delivered_witness :
  let g := set_tables {[ "p"%string := 0%nat ]} ∅ ∅ (task0 (joined_world node_services session9)) in
  nn_effects (nw_net (g_net (publish (pk 9) true "t" [1; 2] g))) = [Push None (GossipMessage "t" (hex (pk 9)) [1; 2])].
Proof.
  cbv zeta.
  destruct (gossip_delivered (pk 9) true "t" [1; 2] "p" 0 0 session9
    (set_tables {[ "p"%string := 0%nat ]} ∅ ∅ (task0 (joined_world node_services session9))) (joined_live _ _) ltac:(vm_refl) eq_refl
    (nth_request 4 _ ltac:(vm_refl)) (nth_response 2 _ ltac:(vm_refl))) as (_ & _ & He & _).
  exact He.
Defined.

(** Member 2 fetches the history of channel 5; a stranger is told to come back. *)
Lemma history_fetched_witness :
  let task := FetchHistoryTask 0 (U 1) (pk 1) (U 5) 5 0 15 in
  length hosted_entries = 2%nat ∧
  g_events (run_task (pk 2) nonce0 task (task0 (joined_world hosted (mkSession (Some (pk 2)) [])))) =
    [ChannelHistoryReceived (U 1) (U 5) (retain (λ e, 0 <=? le_seq e) hosted_entries)] ∧
  g_tasks (run_task (pk 7) nonce0 task (task0 (joined_world hosted (mkSession (Some (pk 7)) [])))) =
    [FetchHistoryTask 0 (U 1) (pk 1) (U 5) 5 0 14].
Proof.
  cbv zeta. assert (is_u64 0) as H0' by by vm_compute. assert (wf_key (pk 1)) as Hkey by by apply wf_pk.
  assert (sv_inv hosted) as Hinv by (split; [apply store5_inv|intros h Hh; discriminate Hh]).
  assert (get_messages (pk 1) 5 0 store5 = Ok hosted_entries) as Hes by vm_refl.
  assert (Forall (fits U32_MAX) [Authenticated (pk 9); Messages (retain (λ e, 0 <=? le_seq e) hosted_entries);
    Error 403 "hosting cert node_pk does not match this node's identity"; Error 403 "invalid node join password"]) as Hresp.
  { constructor; [apply (nth_response 4); vm_refl|]. constructor; [apply (nth_response 5); vm_refl|].
    constructor; [apply (nth_response 6); vm_refl|]. constructor; [apply (nth_response 7); vm_refl|constructor]. }
  pose proof (λ u, history_fetched (pk u) nonce0 0 0 (mkSession (Some (pk u)) []) (pk u) (U 1) (pk 1) (U 5) 5 0 hosted_entries 14
    (task0 (joined_world hosted (mkSession (Some (pk u)) []))) (joined_live _ _) eq_refl ltac:(vm_refl)
    Hkey Hinv H0' Hes (nth_request 6 _ ltac:(vm_refl)) (nth_request 7 _ ltac:(vm_refl)) Hresp) as Hh.
  split; [vm_refl|]. split.
  - destruct (proj1 (Hh 2) ltac:(vm_refl)) as [He _]. exact He.
  - assert (sv_node_pk hosted ≠ replicate 32 0) as Hne by (vm_compute; congruence).
    destruct (proj1 (proj2 (Hh 7)) ltac:(vm_refl) Hne eq_refl) as (_ & _ & Ht). exact Ht.
Defined.

(** Client 9 writes to the owner of [reader_sk]. *)
Definition reader : World (gmap bytes bytes) :=
  mkWorld (mkApp (hex (pk 9)) (hex (pk 9)) "" reader_sk None None (mkIdentity None Online) (default_config "/data") log_new ∅
    ∅ ∅ ∅ ∅ ∅ ∅ ∅ ∅ ∅ ∅ ∅ ∅ [] ∅ [] None ∅ 0 None None) ∅ true [] 0.
Lemma dm_delivered_witness :
  let g' := run_task (pk 9) nonce0 (SendDmTask (inl 0%nat) "p" "m1" dm_recipient dm_envelope)
              (task0 (joined_world node_services session9)) in
  ∃ entry msg, get_dms dm_recipient 0 (sv_store (services (g_net g'))) = Ok [entry] ∧
    app_dms (w_app (handle_dm_received 5 entry dm_recipient reader)) !! hex (pk 9) = Some [msg] ∧ di_body msg = "hi"%string ∧
    (dispatch ev0 addr0 (GetDms 0) (mkSession (Some (ed_public reader_sk)) []) (services (g_net g'))).1.1.1 = Dms [].
Proof.
  cbv zeta. assert (is_u64 0) as H0' by by vm_compute.
  assert (∀ m, m ∈ default [] (app_dms (w_app reader) !! hex (sha256 (ed_public (pk 9)))) → di_id m ≠ dpl_id dm_payload) as Hnew.
  { assert (default [] (app_dms (w_app reader) !! hex (sha256 (ed_public (pk 9)))) = []) as -> by vm_refl.
    intros m Hm. destruct (not_elem_of_nil m Hm). }
  assert (seal (sha256 (pk 9)) (pk 4) (replicate 24 1) dm_recipient dm_plain = Ok dm_envelope) as Hseal by vm_refl.
  assert (∃ cb, to_allocvec dm_envelope = Some cb) as [cb Hcb] by by eexists.
  destruct (dm_delivered (pk 9) reader_sk nonce0 0 0 session9 "p" "m1" (pk 4) (replicate 24 1) dm_plain dm_envelope
    cb dm_payload [] (task0 (joined_world node_services session9)) (joined_live _ _) ltac:(vm_refl)
    empty_store_inv (λ i, proj1 (site_wf i)) eq_refl ltac:(done) entries_sealable Hseal Hcb ltac:(vm_refl) ltac:(done)
    (nth_request 5 _ ltac:(vm_refl)) (nth_response 3 _ ltac:(vm_refl)))
    as (entry & effects & _ & _ & Hget & _ & _ & _ & Hread & _ & Hbox).
  destruct (Hread 5 reader eq_refl Hnew) as (msg & _ & Hbody & _ & Hdms).
  exists entry, msg. split; [exact Hget|]. split; [exact Hdms|]. split; [exact Hbody|].
  assert (ed_public reader_sk ≠ dm_recipient) as Hne by (vm_compute; congruence).
  pose proof (Hbox ev0 addr0 0 (mkSession (Some (ed_public reader_sk)) []) eq_refl Hne H0') as Hb.
  match type of Hb with _ = ?rhs => assert (rhs = Dms []) as He by vm_refl end. exact (eq_trans Hb He).
Defined.
End net_witnesses.
