(* ===== verification/InitExample.v ===== *)
(** * A concrete node that starts, and the witnesses of [NodeInit] *)

From S2P Require Import Prelude Bytes Config Redb Routing Crypto Identity Codec Model ClientState Store DhtNode Handler.
From S2P Require Import AppState AppStart Durability Rpc Passphrase RpcNode NodeInit ClientExample RpcExample.

Module InitExample.
Export RpcExample.

#[export] Instance ip_text : IpText := {| ip_to_string _ := "127.0.0.1"%string |}.
#[export] Instance info_codec : Postcard PeerInfoRecord := {| to_allocvec _ := None; from_bytes _ := None |}.
#[export] Instance addr_codec : Postcard NodeAddr := {| to_allocvec _ := None; from_bytes _ := None |}.

(** A machine that opens empty databases and binds the port that is asked for. *)
Definition machine (disk : gmap string bytes) : Machine (gmap bytes bytes) :=
  mkMachine disk true true true (λ _, Some (∅, ∅, ∅, ∅)) (λ _, Some (mkDhtStore ∅ ∅ true))
    (λ p, Some (V4 [0; 0; 0; 0], p)) [] (replicate 32 3) 5.
Definition args : Args := mkArgs None None None 0 None.
Definition fresh : Fresh := mkFresh (pk 9) (replicate 32 7) (replicate 24 8).
Definition kpath : string := cfg_identity_path (default_config "/data").
Definition sealed : bytes :=
  match seal_key "Encryption failed" (from_signing_key_bytes client_sk) "old-pass" (replicate 32 7) (replicate 24 8) with
  | Ok b => b | Err _ => []
  end.

(** A node that runs with a hosting password in its encrypted tables. *)
Definition salt3 : bytes := replicate 32 3.
Definition secured : World (gmap bytes bytes) :=
  save_passwords
    (mkWorld (mkApp (hex (pk 9)) (hex (pk 9)) "" client_sk (Some (derive_table_key "old-pass" salt3)) None (mkIdentity None Online)
      (default_config "/data") log_new ∅ ∅ ∅ ∅ ∅ ∅ ∅ ∅ ∅ ∅ {[ "c"%string := "pw"%string ]} ∅ ∅ [] ∅ [] None ∅ 0 None None)
      {[ "table.salt" := salt3; kpath := sealed ]} true [] 0).
Definition change : ChangePassphraseParams := mkChangePassphrase "old-pass" "new-pass".
Definition changed : World (gmap bytes bytes) := (identity_change_passphrase change secured).2.
Definition restart : NodeInitConfig :=
  mkInit (from_signing_key_bytes client_sk) (Some "new-pass"%string) (default_config "/data") "/etc/bitcord.toml" None false None
    "/data/state/node.redb".
End InitExample.

Section init_witnesses.
Import InitExample.

Lemma node_main_correct_witness :
  ∃ r, node_main args "/data" "/etc/bitcord.toml" None (Some "old-pass"%string) [] fresh (machine ∅) = Running r ∧
    is_Some (ir_services r) ∧ ∃ salt, app_encryption_key (w_app (ir_world r)) = Some (derive_table_key "old-pass" salt).
Proof.
  assert (∃ r, node_main args "/data" "/etc/bitcord.toml" None (Some "old-pass"%string) [] fresh (machine ∅) = Running r) as [r Hr]
    by (eexists; vm_compute; reflexivity).
  exists r. split; [exact Hr|].
  destruct (node_main_correct _ _ _ _ _ _ _ _ r Hr) as (config & s & Hc & Hs & _ & _ & Hk).
  injection Hc as <-. cbn in Hk. split; [by exists s|exact Hk].
Defined.

Lemma secured_persisted : persisted secured.
Proof. split; [reflexivity|]. intros t _. destruct t; cbn [on_disk]; vm_refl. Qed.
Lemma secured_changed : identity_change_passphrase change secured = (Reply true, changed).
Proof. vm_refl. Qed.
Lemma secured_files : foreign_files (derive_table_key "new-pass" salt3) (w_disk secured).
Proof.
  intros t raw Hr. destruct t; vm_compute in Hr; try discriminate Hr. injection Hr as <-. split; [vm_refl|reflexivity].
Qed.
Lemma restart_runs : ∃ r, init_node restart (machine (w_disk changed)) = Running r.
Proof. eexists; vm_compute; reflexivity. Qed.

Lemma passphrase_change_loses_tables_witness :
  (app_hosting_passwords (w_app secured) !! "c"%string = Some "pw"%string) ∧
  ∃ r, init_node restart (machine (w_disk changed)) = Running r ∧ app_hosting_passwords (w_app (ir_world r)) = ∅.
Proof.
  split; [reflexivity|]. destruct restart_runs as [r Hr]. exists r. split; [exact Hr|].
  destruct (passphrase_change_loses_tables change secured changed salt3 restart (machine (w_disk changed)) r
    can_encrypt eq_refl secured_persisted eq_refl eq_refl ltac:(done) ltac:(by intros []) secured_changed secured_files
    eq_refl eq_refl ltac:(by intros [])
    ltac:(intros ???? [= <- <- <- <-] pk v Hv; by discriminate Hv) Hr) as (_ & _ & Hn).
  apply Hn.
Defined.
End init_witnesses.
