(* ===== verification/DesktopExample.v ===== *)
(** * A concrete desktop application, and the witnesses of [Desktop] *)

From S2P Require Import Prelude Bytes Config Redb Routing Crypto Utf8 Identity Codec Model ClientState Protocol NodeClient Store DhtNode.
From S2P Require Import Handler AppState CommunityEvents ClientEvents AppStart Rpc RpcCommunity ClientExample RpcExample Wire NetExample NodeInit InitExample Desktop.

Module DesktopExample.
Export NetExample InitExample.

(** Base64 as binary digits, which are no white space. *)
Lemma no_white_space n patterns b :
  Forall (λ x, x = 48 ∨ x = 49) b → Forall (λ p, match p with c :: _ => c ≠ 48 ∧ c ≠ 49 | [] => False end) patterns →
  strip_all n patterns b = b.
Proof.
  intros Hb Hp. destruct n as [|n]; [done|]. cbn [strip_all].
  assert (find_by (λ p, bool_decide (is_Some (strip_prefix p b))) patterns = None) as ->; [|done].
  apply find_by_None. intros p Hin. apply bool_decide_eq_false_2. rewrite Forall_forall in Hp. specialize (Hp p Hin).
  destruct p as [|c p]; [done|]. unfold strip_prefix. intros [x Hx]. case_bool_decide as Ht; [|done].
  destruct b as [|y b]; cbn in Ht; [done|]. injection Ht as -> _. apply Forall_cons in Hb as [[->| ->] _]; lia.
Qed.
Lemma trim_digits b : Forall (λ x, x = 48 ∨ x = 49) b → trim_bytes b = b.
Proof.
  intros Hb. unfold trim_bytes. rewrite (no_white_space _ white_space) by (first [done|repeat constructor; lia]).
  rewrite no_white_space; [apply reverse_involutive| |repeat constructor; lia]. by apply Forall_reverse.
Qed.
Lemma pos_text_digits p : Forall (λ x, x = 48 ∨ x = 49) (bytes_of_string (pos_text p)).
Proof. induction p as [p IH|p IH|]; [constructor; [by right|exact IH]|constructor; [by left|exact IH]|constructor]. Qed.
#[export] Instance base64 : Base64 := {| std_encode b := pos_text (encode b); std_decode s := decode (text_pos s) |}.
#[export] Instance base64_laws : Base64Laws.
Proof.
  split; [intros b; cbn; by rewrite text_pos_text, decode_encode|]. intros b.
  change (string_of_bytes (trim_bytes (bytes_of_string (pos_text (encode b)))) = pos_text (encode b)).
  rewrite trim_digits by apply pos_text_digits. apply string_of_bytes_of_string.
Qed.
#[export] Instance desktop_text : DesktopText :=
  {| key_error_text _ := "error"%string; ulid_error_text _ := "error"%string; base58_error_text _ := "error"%string |}.

(** A configuration file that keeps the passphrase. *)
Definition keeping : NodeConfig :=
  mkConfig (path_join "/app" "identity.key") "/app" [] 50 512 None Peer 0 "info" 9042 None None true None.
#[export] Instance desktop_toml : Toml := {| to_toml _ := Some [1]; from_toml _ := Some keeping |}.

Definition platform : Platform (gmap bytes bytes) := mkPlatform "/app" "/data" (machine ∅) fresh nonce0 true.
Definition idle (disk : gmap string bytes) (kept : option string) : Desktop (gmap bytes bytes) (NodeNet (gmap bytes bytes)) :=
  mkDesktop (mkDisk disk true) (mkKeychain kept true) false None (fresh_world node_services) [].

(** An identity whose salt file is broken. *)
Definition broken : Desktop (gmap bytes bytes) (NodeNet (gmap bytes bytes)) :=
  idle {[ "/app/config.toml"%string := [1]; path_join "/app" "identity.key" := sealed; "table.salt"%string := [1; 2; 3] ]}
    (Some "old-pass"%string).

(** The first machine, on which Alice's node runs. *)
Definition running : Desktop (gmap bytes bytes) (NodeNet (gmap bytes bytes)) :=
  mkDesktop (mkDisk ∅ true) (mkKeychain None true) false (Some (mkNodeState IdentityExample.alice None, home)) (fresh_world node_services) [].
Definition exported : bytes :=
  match export_create IdentityExample.alice None "passw0rd" IdentityExample.salt0 IdentityExample.nonce0 with Ok b => b | Err _ => [] end.

(** A direct message for the reader, from member 9. *)
Definition dm_entry (ciphertext : bytes) : LogEntry := mkLogEntry 0 [] ciphertext "m" (hex (pk 9)) 1000 false.

(** The requests of the application's own client. *)
Definition own_requests : list ClientRequest :=
  [Wire.hello (pk 9) nonce0;
   match encrypt_message (pk 42) (replicate 24 1) (bytes_of_string "hi") with
   | Ok sealed => SendMessage (pk 9) 5 sealed.1 sealed.2 | Err _ => Heartbeat
   end;
   GetMessages (pk 9) 5 0].
Definition own_responses : list NodeResponse := [Authenticated (pk 50); refusal].
#[export] Instance own_request_codec : Postcard ClientRequest := table_postcard ClientRequest own_requests.
#[export] Instance own_response_codec : Postcard NodeResponse := table_postcard NodeResponse own_responses.
#[export] Instance own_request_codec_laws : PostcardLaws ClientRequest.
Proof. apply table_postcard_laws. apply Nat.leb_le. by vm_compute. Qed.
#[export] Instance own_response_codec_laws : PostcardLaws NodeResponse.
Proof. apply table_postcard_laws. apply Nat.leb_le. by vm_compute. Qed.
Lemma own_request_fits i req : own_requests !! i = Some req → fits MAX_REQUEST req.
Proof. intros Hi%list_elem_of_lookup_2. apply (table_postcard_written ClientRequest) in Hi as [x Hx]. by exists [x]. Qed.
Lemma own_response_fits i resp : own_responses !! i = Some resp → fits U32_MAX resp.
Proof. intros Hi%list_elem_of_lookup_2. apply (table_postcard_written NodeResponse) in Hi as [x Hx]. by exists [x]. Qed.
End DesktopExample.

Section desktop_witnesses.
Import DesktopExample.

Lemma check_status_correct_witness :
  let '(out, d') := check_backend_status platform broken in
  out = None ∧ (get_backend_status platform d').1 = AutoUnlocking.
Proof.
  pose proof (check_status_correct platform broken keeping eq_refl eq_refl ltac:(vm_refl)) as Hs.
  destruct (check_backend_status platform broken) as [out d'].
  assert (keystore_load (cfg_identity_path keeping) "old-pass" (files broken) = Ok (from_signing_key_bytes client_sk)) as Hk by vm_refl.
  assert (disk_files (files broken) !! cfg_identity_path keeping = Some sealed) as Hf by vm_refl.
  cbv zeta in Hs. rewrite Hf in Hs. change (cfg_save_passphrase keeping) with true in Hs. cbv iota in Hs.
  assert (keychain_get broken = Some "old-pass"%string) as Hp by reflexivity. rewrite Hp, Hk in Hs.
  destruct Hs as [Hs Hbad].
  assert (out = None) as -> by (apply (Hbad [1; 2; 3]); [done|vm_refl|done]). split; [reflexivity|exact (proj2 Hs)].
Defined.

Lemma identity_travels_witness :
  ∃ id, keystore_load (path_join "/app" "identity.key") "longenough"
    (files (import_identity platform (std_encode exported) "passw0rd" "longenough" "" true (idle {[ "/app/config.toml"%string := [1] ]} None)).2)
  = Ok id ∧ id = IdentityExample.alice.
Proof.
  destruct (identity_travels platform running (mkNodeState IdentityExample.alice None) home "passw0rd" IdentityExample.salt0
    IdentityExample.nonce0 (λ _, Ok tt) exported running platform (idle {[ "/app/config.toml"%string := [1] ]} None) keeping
    "longenough" "" true can_encrypt eq_refl eq_refl eq_refl eq_refl eq_refl ltac:(by vm_compute) ltac:(vm_refl) ltac:(vm_refl)
    ltac:(cbn; lia) eq_refl eq_refl eq_refl ltac:(done) ltac:(done)) as (_ & _ & id & Hl & Hid & _).
  exists id. split; [exact Hl|exact Hid].
Defined.

Lemma relay_and_events_witness :
  ∃ entry msg,
    let x := x_public (own_x25519_sk reader) in
    let w1 := (relay_push 5 (NewDm entry x) (handle_dm_received 5 entry x reader)).2 in
    app_dms (w_app w1) !! hex (pk 9) = Some [msg; msg] ∧ di_body msg = "hi"%string.
Proof.
  assert (∃ cb, to_allocvec dm_envelope = Some cb) as [cb Hcb] by by eexists.
  assert (from_bytes (le_ciphertext (dm_entry cb)) = Some dm_envelope) as Henv by exact (postcard_roundtrip dm_envelope cb Hcb).
  assert (open dm_envelope (own_x25519_sk reader) = Ok dm_plain) as Hopen by vm_refl.
  assert (read_dm dm_plain = Some ("hi"%string, None, Some "m1"%string)) as Hread by vm_refl.
  assert (∀ m, m ∈ default [] (app_dms (w_app reader) !! le_author_id (dm_entry cb)) →
               di_id m ≠ di_id (dm_of 5 (dm_entry cb) "hi" None (Some "m1"%string))) as Hnew.
  { cbn [le_author_id dm_entry]. assert (default [] (app_dms (w_app reader) !! hex (pk 9)) = []) as -> by vm_refl.
    intros m Hm. destruct (not_elem_of_nil m Hm). }
  destruct (relay_and_events 5 (dm_entry cb) dm_envelope dm_plain "hi" None (Some "m1"%string) reader Henv Hopen Hread Hnew)
    as (Hd & _). exists (dm_entry cb), (dm_of 5 (dm_entry cb) "hi" None (Some "m1"%string)). split; [exact Hd|reflexivity].
Defined.

Lemma node_commands_refused_witness :
  ∃ r n0 e n2, connect addr0 (pk 3) (pk 9) nonce0 (fresh_world node_services) = (Ok (r, pk 50), n0) ∧
    node_send_message (mkNodeState (from_signing_key_bytes (pk 9)) (Some r)) home (replicate 24 1) (U 1) (U 5) "hi" n0 = (Err e, n2).
Proof.
  assert (site_pinned (pk 3) = true) as Hpin by vm_refl.
  assert (own_requests !! 0%nat = Some (Wire.hello (pk 9) nonce0)) as Hhello by vm_refl.
  assert (own_responses !! 0%nat = Some (Authenticated (sv_node_pk (services (fresh_world node_services))))) as Hauth by vm_refl.
  assert (own_responses !! 1%nat = Some refusal) as Href by vm_refl.
  destruct (node_commands_refused addr0 (pk 3) (pk 9) nonce0 (fresh_world node_services) Hpin
    (own_request_fits 0 _ Hhello) (own_response_fits 0 _ Hauth) (own_response_fits 1 _ Href))
    as (r & c & sess & n0 & Hc & Hl & _ & _ & Hrefused).
  destruct (proj1 (Hrefused (mkNodeState (from_signing_key_bytes (pk 9)) (Some r)) home (U 1) (U 5) n0 eq_refl Hl)
    (replicate 24 1) "hi"%string) as (e & n2 & Hs & _).
  - intros cpk u key sealed Hcpk Hu Hkey Hs.
    assert (command_community (U 1) home = Ok (pk 9)) as E1 by vm_refl.
    assert (command_channel (U 5) = Ok 5) as E2 by vm_refl.
    assert (command_key (U 5) home = Ok (pk 42)) as E3 by vm_refl.
    rewrite E1 in Hcpk. rewrite E2 in Hu. rewrite E3 in Hkey. injection Hcpk as <-. injection Hu as <-. injection Hkey as <-.
    apply (own_request_fits 1). unfold own_requests. cbn [lookup list_lookup]. by rewrite Hs.
  - exists r, n0, e, n2. split; [exact Hc|exact Hs].
Defined.
End desktop_witnesses.
